(* ===== verification/_CoqProject ===== *)
-Q . S2P
Prelude.v
Params.v
Machine.v
Spinlock.v
SpinlockRefine.v
Cstring.v
Kalloc.v
Vm.v
VmPt.v
VmUser.v
VmCow.v
VmFork.v
VmExample.v
Float32.v
Sched.v
SchedFacts.v
SleepRace.v
Uart.v
Console.v
Sleeplock.v
Bio.v
BioFacts.v
ConsoleFacts.v
VirtioDisk.v
VirtioFacts.v
Log.v
LogFacts.v
Fs.v
FsFacts.v
FsDir.v
FsWrite.v
FsAlloc.v
FsGrow.v
FsLink.v
Pipe.v
PipeFacts.v
File.v
Proc.v
Exec.v
Sysfile.v
Trap.v
TrapFacts.v
Ulib.v
Grep.v
Mkfs.v
MkfsBoot.v
Uprogs.v
Umalloc.v
Sh.v
ShRun.v
ShOrder.v
