(* ===== verification/Prelude.v ===== *)
(** * xv6-cos: a verification development

    xv6-cos is a teaching kernel for 64-bit RISC-V (kernel/), the user programs
    that run on it (user/) and the host program that builds its disk image
    (mkfs/).  On top of xv6 it has copy-on-write fork, alarms, system call
    tracing, waitx, and four scheduling policies.

    ** How the program is modelled

    C functions are functions with the same names in a state and error monad
    ([M], below).  [Ret] is a return, [Panic] a call of panic() with its
    message, [Swtch] a call of swtch(): the whole state goes to the rest of the
    machine and the function goes on from whatever state it is resumed in.
    [Fuel] is the model's own outcome for a loop that has used up its bound.
    Integers are [Z] with the wrap-around of their width written out ([u8] to
    [i64]); physical memory is a map from addresses to bytes; pointers into
    kernel tables are indices; on-disk structures are read and written at their
    C offsets in the bytes of a block.

    The kernel is one state, the record [kernel] of Machine.v.  A theorem is
    about one thread of it, between two of its calls of swtch(); that the lock
    operations it uses keep other processors out is the subject of Spinlock.v
    and SpinlockRefine.v, the scheduler theorems say how threads take turns, and
    SleepRace.v interleaves sleep() and wakeup() on two processors.

    ** The files, by layer

    - Prelude.v: integers, records with updates, the monad and its loops, the
      tactics [msimpl], [mrun], [mif_true], [mif_false].  Params.v: param.h,
      memlayout.h, riscv.h, fcntl.h.  Machine.v: the structs, the global
      variables, memory, and acquire(), release() on the list of held locks.
      Cstring.v: string.c.
    - Spinlock.v, SpinlockRefine.v: spinlock.c as atomic steps that processors
      interleave.  Two processors never hold a lock at once, and the steps
      implement the operations of Machine.v, interrupt state included.
    - Kalloc.v: kalloc.c, the free list in the free pages and the reference
      counts.  Refinement of an abstract pool of counted pages.
    - Vm.v: vm.c and cowfault() of trap.c.  VmPt.v: page tables as partial
      functions.  VmUser.v: address spaces and the accounting of shared pages.
      VmCow.v: copy-on-write faults, copyin(), copyout(), copyinstr() in terms
      of what user programs see.  VmFork.v: uvmcopy().  VmExample.v: a concrete
      machine for the witnesses.
    - Sched.v, SchedFacts.v, Float32.v: the scheduler half of proc.c with its
      single-precision arithmetic; fairness of round robin, the choices of the
      other policies, sleep and wakeup.  SleepRace.v: two processors, one
      going to sleep and one waking it, lock by lock.  Proc.v: the process life
      cycle.  Exec.v: exec.c.
    - Uart.v, Console.v, ConsoleFacts.v: uart.c, printf.c, console.c; the
      input handler is a line editor.
    - Sleeplock.v, Bio.v, BioFacts.v: sleeplock.c, bio.c; the client's view of
      the cache as one current copy of each block.  VirtioDisk.v,
      VirtioFacts.v: virtio_disk.c; with any device that keeps the protocol
      ([BlkDevice]) it performs the transfer that the cache uses.
    - Log.v, LogFacts.v: log.c; commits and recoveries cut short at any write.
    - Fs.v: fs.c.  FsFacts.v: disk inodes, path names, readi().  FsDir.v:
      iget(), ilock(), dirlookup().  FsWrite.v: transactions under way,
      iupdate(), writei() into blocks the file has.  FsAlloc.v: balloc() and
      bfree().  FsGrow.v: bmap() and writei() allocating the blocks a file
      needs, and a file write across crashes.  FsLink.v: dirlink() and what
      dirlookup() finds afterwards.
    - Pipe.v, PipeFacts.v, File.v: pipe.c, file.c; a pipe is a bounded queue.
    - Sysfile.v, Trap.v, TrapFacts.v: syscall.c, sysfile.c, sysproc.c, trap.c,
      plic.c; an alarm's detour through its handler and back.
    - Mkfs.v, MkfsBoot.v: mkfs.c, its image, and the kernel reading from it.
    - Ulib.v, Umalloc.v, Grep.v, Uprogs.v, Sh.v, ShRun.v, ShOrder.v: the user
      library, the allocator, grep, the small programs, and the shell: its
      parser, how it wires descriptors, and the order in which its processes
      run.  User programs that make system calls are trees of these calls, with
      a branch for the kernel's answers.

    ** What the theorems show

    - Safety of memory: no page is free and in use, or in two places of the
      free list; no call writes a page in use; user programs see neither
      copy-on-write nor each other's writes; malloc()'s blocks are disjoint.
    - Durability: a block read is the block last written; a transaction is on
      the disk as a whole or not at all, whenever the machine stops, and
      recovery may itself be interrupted; a file write, with the blocks it
      allocates, followed by the commit leaves the old or the new contents.
    - Agreement of formats: what mkfs writes the kernel reads back; what
      iupdate() stores ilock() loads; what dirlink() links dirlookup() finds.
    - Equivalence with a reference: grep's matcher with regular languages,
      grep and wc with lists of lines and words, the shell's parser with its
      grammar, the lottery's generator with Park and Miller's.
    - Scheduling: no lost wakeup, however the waker's steps fall between the
      sleeper's; every runnable process is run in a pass; the shell runs the
      commands of a list one after the other and those of a pipeline at once.
    - Errors and limits: refused frees, bad user pointers, failed allocations
      and their clean-up, full tables; and what goes wrong, such as the log
      reservation that admits one block too many.

    ** Interfaces and assumptions

    What the development does not have the source of is a parameter of a class:
    [Linker] (Kalloc.v) the end of the kernel's image; [BuildConfig] (Sched.v)
    the policy chosen at build time; [BlkDevice] (VirtioFacts.v) the disk;
    [Stream] (Ulib.v) a file that read() cuts into pieces; [Process]
    (Umalloc.v) the kernel's answers to sbrk(); [Uninit] (Trap.v) a variable
    read before it is set.  The host of mkfs is little-endian and its file
    system accepts writes.  Each theorem with hypotheses has a witness that
    applies it to a concrete state.

    ** Bounds

    Loops that are not structural get a bound computed from their arguments,
    such as the number of blocks or bytes that are left, and the theorems that
    a call returns show that it is enough.  A loop around sleep(), whose number
    of rounds depends on the other threads, gets [patience] rounds (Uart.v);
    the theorems about such calls are for states in which the thread does not
    have to wait, with a [patience] of at least one.  The endless loops of the
    schedulers, of init and of the shell are modelled by one pass, by a given
    number of rounds, or up to the end of the input.

    ** Not modelled

    - The assembly (entry.S, swtch.S, trampoline.S, kernelvec.S), the inline
      assembly of riscv.h and the machine-mode start-up of start.c: they move
      registers, which the C code sees only through the trapframe and context.
    - The order of the initialisation calls in main.c, and the device registers
      written by uartinit(), virtio_disk_init() and plicinit().
    - Weak memory: spinlock.c's fences are no steps in a sequentially
      consistent memory.
    - mlfqueue.c, whose bodies are commented out, and ramdisk.c, which is not
      built.
    - The test programs usertests, grind, cowtest, alarmtest and schedulertest:
      they are inputs to the system, with no function of their own.
    Some functions have a definition and no theorem of their own: ialloc(),
    itrunc(), bmap() and writei() on a full disk, create() and the other system
    calls on paths, and fork(), exit(), wait() and exec() as wholes. *)

From Stdlib Require Import ZArith Lia.
From stdpp Require Import base numbers strings option list gmap.

Open Scope Z_scope.
Coercion Z.of_nat : nat >-> Z.

(** ** Machine integers

    A C integer of width [w] is a [Z]; every operation of the source that can
    leave the width is followed by the wrap written out here. *)

Definition u8 (x : Z) : Z := x mod 2 ^ 8.
Definition u16 (x : Z) : Z := x mod 2 ^ 16.
Definition u32 (x : Z) : Z := x mod 2 ^ 32.
Definition u64 (x : Z) : Z := x mod 2 ^ 64.

(** Conversion to a signed type, two's complement (gcc's choice). *)
Definition i16 (x : Z) : Z := if u16 x <? 2 ^ 15 then u16 x else u16 x - 2 ^ 16.
Definition i32 (x : Z) : Z := if u32 x <? 2 ^ 31 then u32 x else u32 x - 2 ^ 32.
Definition i64 (x : Z) : Z := if u64 x <? 2 ^ 63 then u64 x else u64 x - 2 ^ 64.

Lemma u8_small x : 0 ≤ x < 2 ^ 8 → u8 x = x.
Proof. apply Z.mod_small. Qed.

Lemma u8_range x : 0 ≤ u8 x < 2 ^ 8.
Proof. apply Z.mod_pos_bound. done. Qed.

Lemma u16_small x : 0 ≤ x < 2 ^ 16 → u16 x = x.
Proof. apply Z.mod_small. Qed.

Lemma u16_range x : 0 ≤ u16 x < 2 ^ 16.
Proof. apply Z.mod_pos_bound. done. Qed.

Lemma u32_small x : 0 ≤ x < 2 ^ 32 → u32 x = x.
Proof. apply Z.mod_small. Qed.

Lemma u32_range x : 0 ≤ u32 x < 2 ^ 32.
Proof. apply Z.mod_pos_bound. done. Qed.

Lemma u64_small x : 0 ≤ x < 2 ^ 64 → u64 x = x.
Proof. apply Z.mod_small. Qed.

Lemma u64_range x : 0 ≤ u64 x < 2 ^ 64.
Proof. apply Z.mod_pos_bound. done. Qed.

Lemma i16_small x : - 2 ^ 15 ≤ x < 2 ^ 15 → i16 x = x.
Proof.
  intros H. unfold i16. destruct (decide (0 ≤ x)).
  - rewrite u16_small by lia. destruct (Z.ltb_spec x (2 ^ 15)); lia.
  - replace (u16 x) with (x + 2 ^ 16).
    + destruct (Z.ltb_spec (x + 2 ^ 16) (2 ^ 15)); lia.
    + unfold u16. apply (Z.mod_unique _ _ (-1)); lia.
Qed.

Lemma i16_range x : - 2 ^ 15 ≤ i16 x < 2 ^ 15.
Proof. unfold i16. pose proof (u16_range x). destruct (Z.ltb_spec (u16 x) (2 ^ 15)); lia. Qed.

(** Converting to the signed type loses nothing of the unsigned value. *)
Lemma u16_i16 x : u16 (i16 x) = u16 x.
Proof.
  unfold i16. pose proof (u16_range x). destruct (_ <? _); [by apply Z.mod_small; lia|].
  unfold u16 at 1. rewrite <- (Z_mod_plus_full _ 1), Z.mul_1_l, Z.sub_add.
  by apply Z.mod_small.
Qed.

Lemma i32_small x : - 2 ^ 31 ≤ x < 2 ^ 31 → i32 x = x.
Proof.
  intros H. unfold i32. destruct (decide (0 ≤ x)).
  - rewrite u32_small by lia. destruct (Z.ltb_spec x (2 ^ 31)); lia.
  - replace (u32 x) with (x + 2 ^ 32).
    + destruct (Z.ltb_spec (x + 2 ^ 32) (2 ^ 31)); lia.
    + unfold u32. apply (Z.mod_unique _ _ (-1)); lia.
Qed.

Lemma i32_range x : - 2 ^ 31 ≤ i32 x < 2 ^ 31.
Proof. unfold i32. pose proof (u32_range x). destruct (Z.ltb_spec (u32 x) (2 ^ 31)); lia. Qed.

(** Converting to the signed type loses nothing of the unsigned value. *)
Lemma u32_i32 x : u32 (i32 x) = u32 x.
Proof.
  unfold i32. pose proof (u32_range x). destruct (_ <? _); [by apply Z.mod_small; lia|].
  unfold u32 at 1. rewrite <- (Z_mod_plus_full _ 1), Z.mul_1_l, Z.sub_add.
  by apply Z.mod_small.
Qed.

Lemma i64_small x : - 2 ^ 63 ≤ x < 2 ^ 63 → i64 x = x.
Proof.
  intros H. unfold i64. destruct (decide (0 ≤ x)).
  - rewrite u64_small by lia. destruct (Z.ltb_spec x (2 ^ 63)); lia.
  - replace (u64 x) with (x + 2 ^ 64).
    + destruct (Z.ltb_spec (x + 2 ^ 64) (2 ^ 63)); lia.
    + unfold u64. apply (Z.mod_unique _ _ (-1)); lia.
Qed.

Lemma i64_range x : - 2 ^ 63 ≤ i64 x < 2 ^ 63.
Proof. unfold i64. pose proof (u64_range x). destruct (Z.ltb_spec (u64 x) (2 ^ 63)); lia. Qed.

(** Converting to the signed type loses nothing of the unsigned value. *)
Lemma u64_i64 x : u64 (i64 x) = u64 x.
Proof.
  unfold i64. pose proof (u64_range x). destruct (_ <? _); [by apply Z.mod_small; lia|].
  unfold u64 at 1. rewrite <- (Z_mod_plus_full _ 1), Z.mul_1_l, Z.sub_add.
  by apply Z.mod_small.
Qed.

(** [autorewrite with cint] drops the wraps that [lia] shows do nothing. *)
Create HintDb cint.
Create Rewrite HintDb cint.
#[export] Hint Rewrite u8_small u16_small u32_small u64_small i16_small i32_small i64_small
  using lia : cint.
#[export] Hint Resolve u8_range u16_range u32_range u64_range i16_range i32_range i64_range : cint.

(** ** Changing one element of a list *)

Lemma alter_id_lookup {A} (f : A → A) (p : nat) (ps : list A) q :
  ps !! p = Some q → f q = q → alter f p ps = ps.
Proof.
  intros Hq Hf. apply list_eq. intros j. destruct (decide (j = p)) as [->|Hj].
  - rewrite list_lookup_alter_eq, Hq. cbn. by rewrite Hf.
  - by rewrite list_lookup_alter_ne.
Qed.

(** Successive changes to one slot are one change. *)
Lemma alter_alter {A} (f g : A → A) (p : nat) (ps : list A) :
  alter g p (alter f p ps) = alter (g ∘ f) p ps.
Proof.
  apply list_eq. intros j. destruct (decide (j = p)) as [->|Hj].
  - rewrite !list_lookup_alter_eq. by destruct (ps !! p).
  - by rewrite !list_lookup_alter_ne.
Qed.

Lemma alter_ext_lookup {A} (f g : A → A) (p : nat) (ps : list A) q :
  ps !! p = Some q → f q = g q → alter f p ps = alter g p ps.
Proof.
  intros Hq E. apply list_eq. intros j. destruct (decide (j = p)) as [->|Hj].
  - rewrite !list_lookup_alter_eq, Hq. cbn. by rewrite E.
  - by rewrite !list_lookup_alter_ne.
Qed.

(** ** Ring buffers

    [n] bytes from position [a] of an array of [N] bytes used as a ring. *)

Definition ring_slice (N : Z) (buf : list Z) (a n : Z) : list Z :=
  (λ i, default 0 (buf !! Z.to_nat ((a + i) mod N))) <$> seqZ 0 n.

Lemma length_ring_slice N buf a n : 0 ≤ n → Z.of_nat (length (ring_slice N buf a n)) = n.
Proof. intros Hn. unfold ring_slice. rewrite length_fmap, length_seqZ. lia. Qed.

Lemma ring_slice_app N buf a n m :
  0 ≤ n → 0 ≤ m → ring_slice N buf a (n + m) = ring_slice N buf a n ++ ring_slice N buf (a + n) m.
Proof.
  intros Hn Hm. unfold ring_slice. rewrite (seqZ_app 0 n m), fmap_app by lia. f_equal.
  rewrite (Z.add_comm 0 n), <-(fmap_add_seqZ n 0 m), <-list_fmap_compose. apply list_fmap_ext. intros _ i _. cbn.
  by rewrite Z.add_assoc.
Qed.

(** The position may wrap at a multiple of the ring's size. *)
Lemma ring_slice_wrap N M buf a n : 0 < N → (N | M) → ring_slice N buf (a mod M) n = ring_slice N buf a n.
Proof.
  intros HN Hd. unfold ring_slice. apply list_fmap_ext. intros _ i _. do 3 f_equal.
  rewrite Z.add_mod, Z.mod_mod_divide, <-Z.add_mod by (done || lia). done.
Qed.

Lemma ring_slice_0 N buf a : ring_slice N buf a 0 = [].
Proof. done. Qed.

(** Bytes written outside the slice. *)
Lemma ring_slice_insert N buf a n k c :
  0 < N → n ≤ k < N → ring_slice N (<[Z.to_nat ((a + k) mod N) := c]> buf) a n = ring_slice N buf a n.
Proof.
  intros HN Hk. unfold ring_slice. apply list_fmap_ext. intros _ i Hi%list_elem_of_lookup_2. apply elem_of_seqZ in Hi.
  rewrite list_lookup_insert_ne; [done|]. intros E. apply Z2Nat.inj in E; try (apply Z.mod_pos_bound; lia).
  assert ((a + k - (a + i)) mod N = 0) as E0 by (rewrite Zminus_mod, E, Z.sub_diag; apply Z.mod_0_l; lia).
  replace (a + k - (a + i)) with (k - i) in E0 by lia. rewrite Z.mod_small in E0 by lia. lia.
Qed.

Lemma ring_slice_put N buf a n c :
  Z.of_nat (length buf) = N → 0 ≤ n < N →
  ring_slice N (<[Z.to_nat ((a + n) mod N) := c]> buf) a (n + 1) = ring_slice N buf a n ++ [c].
Proof.
  intros HN Hn. rewrite ring_slice_app by lia. rewrite ring_slice_insert by lia. f_equal.
  change (ring_slice N (<[Z.to_nat ((a + n) mod N) := c]> buf) (a + n) 1)
    with [default 0 (<[Z.to_nat ((a + n) mod N) := c]> buf !! Z.to_nat ((a + n + 0) mod N))].
  rewrite Z.add_0_r, list_lookup_insert_eq; [done|]. pose proof (Z.mod_pos_bound (a + n) N). lia.
Qed.

(** ** Record update

    [r <| f := v |>] replaces one field.  A record is made updatable by one
    [Settable] instance, its eta expansion; the setter of a projection is
    obtained by abstracting that projection from the expansion. *)

Class Settable (R : Type) := eta_of : R → R.
Class Setter {R T : Type} (proj : R → T) := set : (T → T) → R → R.
Arguments set {R T} proj {_} _ _ /.

Ltac derive_setter :=
  lazymatch goal with
  | |- @Setter ?R ?T ?proj =>
      let i := constr:(ltac:(typeclasses eauto) : Settable R) in
      let e := eval cbv delta [eta_of] in (@eta_of R i) in
      let e := eval hnf in e in
      lazymatch e with context [proj] => idtac end;
      let p := eval pattern proj in e in
      lazymatch p with
      | ?body _ =>
          let r := eval cbv beta in
            (fun (f : T -> T) => body (fun x : R => f (proj x))) in
          exact r
      end
  end.

#[export] Hint Extern 1 (Setter _) => derive_setter : typeclass_instances.

Declare Scope c_scope.
Open Scope c_scope.

#[warnings="-postfix-notation-not-level-1"]
Notation "r <| proj := v |>" := (set proj (λ _, v) r)
  (at level 12, left associativity, proj at level 11, v at level 200,
   format "r  <|  proj  :=  v  |>") : c_scope.
#[warnings="-postfix-notation-not-level-1"]
Notation "r <| proj ::= f |>" := (set proj f r)
  (at level 12, left associativity, proj at level 11, f at level 200,
   format "r  <|  proj  ::=  f  |>") : c_scope.

(** ** Outcomes and the kernel monad

    A kernel function runs on the whole state.  It returns, panics with the
    source's message, or switches to the scheduler ([swtch] in sched()): then
    the state is handed to the rest of the machine and the thread continues
    from whatever state it is resumed in.  [Fuel] is the model's own outcome
    for an unbounded C loop cut off by the bound given to it; no C behaviour
    is [Fuel], and a theorem that promises a result excludes it. *)

Inductive outcome (S A : Type) : Type :=
| Ret (a : A) (s : S)
| Panic (msg : string) (s : S)
| Swtch (s : S) (k : S → outcome S A)
| Fuel.
Arguments Ret {S A} _ _.
Arguments Panic {S A} _ _.
Arguments Swtch {S A} _ _.
Arguments Fuel {S A}.

Definition M (S A : Type) : Type := S → outcome S A.

Fixpoint bindO {S A B} (o : outcome S A) (f : A → M S B) : outcome S B :=
  match o with
  | Ret a s => f a s
  | Panic msg s => Panic msg s
  | Swtch s k => Swtch s (λ s', bindO (k s') f)
  | Fuel => Fuel
  end.

#[export] Instance M_ret {S} : MRet (M S) := λ A a s, Ret a s.
#[export] Instance M_bind {S} : MBind (M S) := λ A B f c s, bindO (c s) f.

Section monad.
Context {S : Type}.

Definition panic {A} (msg : string) : M S A := λ s, Panic msg s.
Definition get : M S S := λ s, Ret s s.
Definition gets {A} (f : S → A) : M S A := λ s, Ret (f s) s.
Definition modify (f : S → S) : M S () := λ s, Ret () (f s).
Definition swtch : M S () := λ s, Swtch s (λ s', Ret () s').

(** [if(c) m;] *)
Definition when (c : bool) (m : M S ()) : M S () := if c then m else mret ().

(** [for(x in l) body;] *)
Fixpoint for_each {A} (l : list A) (f : A → M S ()) : M S () :=
  match l with
  | [] => mret ()
  | x :: l => f x;; for_each l f
  end.

(** A [for] whose body may leave the loop with a value ([return], [goto] or
    [break]): [Some r] leaves, [None] goes on.  [None] overall: the loop ran
    to its end. *)
Fixpoint for_ret {A R} (l : list A) (f : A → M S (option R)) : M S (option R) :=
  match l with
  | [] => mret None
  | x :: l => r ← f x; match r with Some _ => mret r | None => for_ret l f end
  end.

(** A [for] that carries a variable. *)
Fixpoint for_fold {A B} (l : list A) (f : B → A → M S B) (b : B) : M S B :=
  match l with
  | [] => mret b
  | x :: l => b ← f b x; for_fold l f b
  end.

(** A [for] that carries a variable and may leave the loop with a value. *)
Fixpoint for_scan {A B R} (l : list A) (f : B → A → M S (B + R)) (b : B) : M S (B + R) :=
  match l with
  | [] => mret (inl b)
  | x :: l => r ← f b x; match r with inl b => for_scan l f b | inr r => mret (inr r) end
  end.

(** An unbounded loop on the loop's variables [x]: [inl y] is one more
    iteration, [inr r] leaves it. *)
Fixpoint loop {L R} (fuel : nat) (f : L → M S (L + R)) (x : L) : M S R :=
  match fuel with
  | O => λ _, Fuel
  | Datatypes.S n =>
      r ← f x; match r with inl y => loop n f y | inr r => mret r end
  end.

Lemma bind_ret {A B} (c : M S A) (f : A → M S B) s a s' :
  c s = Ret a s' → (c ≫= f) s = f a s'.
Proof. intros H. unfold mbind, M_bind. by rewrite H. Qed.

Lemma bind_panic {A B} (c : M S A) (f : A → M S B) s msg s' :
  c s = Panic msg s' → (c ≫= f) s = Panic msg s'.
Proof. intros H. unfold mbind, M_bind. by rewrite H. Qed.

Lemma bind_swtch {A B} (c : M S A) (f : A → M S B) s s' k :
  c s = Swtch s' k → (c ≫= f) s = Swtch s' (λ s'', bindO (k s'') f).
Proof. intros H. unfold mbind, M_bind. by rewrite H. Qed.

(** A result of a sequence comes from results of its parts. *)
Lemma bind_inv {A B} (c : M S A) (f : A → M S B) s b s' :
  (c ≫= f) s = Ret b s' → ∃ a s1, c s = Ret a s1 ∧ f a s1 = Ret b s'.
Proof. unfold mbind, M_bind. destruct (c s); simpl; naive_solver. Qed.

(** An invariant of every iteration that returns is an invariant of the loop. *)
Lemma for_each_inv {A} (l : list A) (f : A → M S ()) (I : S → Prop) s s' :
  (∀ x s u s', x ∈ l → I s → f x s = Ret u s' → I s') →
  I s → for_each l f s = Ret () s' → I s'.
Proof.
  revert s. induction l as [|x l IH]; intros s Hf HI H; simpl in H.
  - injection H. intros ->. done.
  - apply bind_inv in H as ([] & s1 & H1 & H2).
    eapply IH; [|by eapply Hf; [left| |]|done].
    intros y ? ? ? Hy. apply Hf. by right.
Qed.

Lemma for_each_app {A} (l1 l2 : list A) (f : A → M S ()) s s1 :
  for_each l1 f s = Ret () s1 → for_each (l1 ++ l2) f s = for_each l2 f s1.
Proof.
  revert s. induction l1 as [|x l1 IH]; intros s H; simpl in *.
  - injection H. by intros ->.
  - apply bind_inv in H as ([] & s2 & H1 & H2).
    rewrite (bind_ret _ _ _ _ _ H1). by apply IH.
Qed.

Lemma loop_next {L R} n (f : L → M S (L + R)) x s y s' :
  f x s = Ret (inl y) s' → loop (Datatypes.S n) f x s = loop n f y s'.
Proof. intros E. simpl. by rewrite (bind_ret _ _ _ _ _ E). Qed.

Lemma loop_exit {L R} n (f : L → M S (L + R)) x s r s' :
  f x s = Ret (inr r) s' → loop (Datatypes.S n) f x s = Ret r s'.
Proof. intros E. simpl. by rewrite (bind_ret _ _ _ _ _ E). Qed.

(** The index form: [I n] holds after [n] iterations. *)
Lemma for_each_ind {A} (l : list A) (f : A → M S ()) (I : nat → S → Prop) s :
  (∀ i x s, l !! i = Some x → I i s → ∃ s', f x s = Ret () s' ∧ I (Datatypes.S i) s') →
  I O s → ∃ s', for_each l f s = Ret () s' ∧ I (length l) s'.
Proof.
  revert s I. induction l as [|x l IH]; intros s I Hf HI.
  - exists s. done.
  - destruct (Hf O x s eq_refl HI) as (s1 & H1 & HI1).
    destruct (IH s1 (λ n, I (Datatypes.S n))) as (s2 & H2 & HI2).
    { intros i y s0 Hy. apply (Hf (Datatypes.S i)). done. }
    { done. }
    exists s2. simpl. split; [|done]. by rewrite (bind_ret _ _ _ _ _ H1).
Qed.

Lemma for_fold_ind {A B} (l : list A) (f : B → A → M S B) (I : nat → B → S → Prop) b s :
  (∀ i x b s, l !! i = Some x → I i b s → ∃ b' s', f b x s = Ret b' s' ∧ I (Datatypes.S i) b' s') →
  I O b s → ∃ b' s', for_fold l f b s = Ret b' s' ∧ I (length l) b' s'.
Proof.
  revert b s I. induction l as [|x l IH]; intros b s I Hf HI; [by exists b, s|].
  destruct (Hf O x b s eq_refl HI) as (b1 & s1 & H1 & HI1).
  destruct (IH b1 s1 (λ n, I (Datatypes.S n))) as (b2 & s2 & H2 & HI2).
  { intros i y b0 s0 Hy. apply (Hf (Datatypes.S i)). done. }
  { done. }
  exists b2, s2. simpl. split; [|done]. by rewrite (bind_ret _ _ _ _ _ H1).
Qed.
End monad.

(** Run the straight-line part of a function: expose the outcome of its first
    call, then rewrite with that call's lemma. *)
Ltac msimpl :=
  cbv beta delta [mbind M_bind mret M_ret gets modify get when panic];
  cbn [bindO negb orb andb].
Tactic Notation "mrun" uconstr(l) := rewrite l; msimpl.
Tactic Notation "mrun" uconstr(l) "by" tactic3(t) := rewrite l by t; msimpl.

(** Decide the first condition of the goal. *)
Ltac mif_with b tac :=
  match goal with
  | |- context [if ?c then _ else _] =>
      let E := fresh in
      assert (c = b) as E by tac; rewrite E; clear E; msimpl
  end.
Tactic Notation "mif_true" := mif_with true ltac:(first [done | lia]).
Tactic Notation "mif_false" := mif_with false ltac:(first [done | lia]).
Tactic Notation "mif_true" "by" tactic3(t) := mif_with true ltac:(t).
Tactic Notation "mif_false" "by" tactic3(t) := mif_with false ltac:(t).

(** Two expressions for the same record: normalise both before comparing. *)
Ltac same_record s := cbn; solve [reflexivity | destruct s; cbn; reflexivity].
