(* ===== verification/Params.v ===== *)
(** * Constants and address arithmetic

    param.h, fcntl.h, memlayout.h and the address macros of riscv.h: sizes of the
    kernel's tables, the physical memory map, page rounding, and the packing
    of a physical page number and flag bits into a page-table entry. *)

From Stdlib Require Import ZArith Lia.
From stdpp Require Import base numbers list.
From S2P Require Import Prelude.

Open Scope Z_scope.

Definition NPROC : nat := 64.
Definition NCPU : nat := 8.
Definition NOFILE : nat := 16.
Definition NFILE : nat := 100.
Definition NINODE : nat := 50.
Definition NDEV : Z := 10.
Definition ROOTDEV : Z := 1.
Definition MAXARG : nat := 32.
Definition MAXOPBLOCKS : Z := 10.
Definition LOGSIZE : Z := MAXOPBLOCKS * 3.
Definition NBUF : nat := 30.
Definition FSSIZE : Z := 2000.
Definition MAXPATH : Z := 128.
Definition NMLFQ : nat := 5.
Definition AGING_INTERVAL : Z := 64.

(** fcntl.h *)
Definition O_RDONLY : Z := 0x000.
Definition O_WRONLY : Z := 0x001.
Definition O_RDWR : Z := 0x002.
Definition O_CREATE : Z := 0x200.
Definition O_TRUNC : Z := 0x400.

Definition PGSIZE : Z := 4096.
Definition PGSHIFT : Z := 12.

Definition PGROUNDUP (sz : Z) : Z := Z.land (u64 (sz + PGSIZE - 1)) (Z.lnot (PGSIZE - 1)).
Definition PGROUNDDOWN (a : Z) : Z := Z.land a (Z.lnot (PGSIZE - 1)).

Definition PTE_V : Z := Z.shiftl 1 0.
Definition PTE_R : Z := Z.shiftl 1 1.
Definition PTE_W : Z := Z.shiftl 1 2.
Definition PTE_X : Z := Z.shiftl 1 3.
Definition PTE_U : Z := Z.shiftl 1 4.

Definition PA2PTE (pa : Z) : Z := u64 (Z.shiftl (Z.shiftr pa 12) 10).
Definition PTE2PA (pte : Z) : Z := u64 (Z.shiftl (Z.shiftr pte 10) 12).
Definition PTE_FLAGS (pte : Z) : Z := Z.land pte 0x3FF.

Definition PXMASK : Z := 0x1FF.
Definition PXSHIFT (level : Z) : Z := PGSHIFT + 9 * level.
Definition PX (level va : Z) : Z := Z.land (Z.shiftr va (PXSHIFT level)) PXMASK.

Definition MAXVA : Z := Z.shiftl 1 (9 + 9 + 9 + 12 - 1).

Definition SATP_SV39 : Z := Z.shiftl 8 60.
Definition MAKE_SATP (pagetable : Z) : Z := Z.lor SATP_SV39 (Z.shiftr pagetable 12).

Definition UART0 : Z := 0x10000000.
Definition UART0_IRQ : Z := 10.
Definition VIRTIO0 : Z := 0x10001000.
Definition VIRTIO0_IRQ : Z := 1.
Definition PLIC : Z := 0x0c000000.
Definition KERNBASE : Z := 0x80000000.
Definition PHYSTOP : Z := KERNBASE + 128 * 1024 * 1024.
Definition TRAMPOLINE : Z := MAXVA - PGSIZE.
Definition KSTACK (p : Z) : Z := TRAMPOLINE - (p + 1) * 2 * PGSIZE.
Definition TRAPFRAME : Z := TRAMPOLINE - PGSIZE.

(** ** Page rounding *)

Lemma MAXVA_eq : MAXVA = 2 ^ 38.
Proof. done. Qed.

Lemma land_lnot_ones (a n : Z) : 0 ≤ n → Z.land a (Z.lnot (2 ^ n - 1)) = 2 ^ n * (a / 2 ^ n).
Proof.
  intros Hn.
  replace (2 ^ n - 1) with (Z.ones n) by (rewrite Z.ones_equiv; lia).
  rewrite <-Z.ldiff_land, Z.ldiff_ones_r by lia.
  rewrite Z.shiftl_mul_pow2, Z.shiftr_div_pow2 by lia. lia.
Qed.

Lemma PGROUNDDOWN_eq a : PGROUNDDOWN a = PGSIZE * (a / PGSIZE).
Proof. exact (land_lnot_ones a 12 ltac:(lia)). Qed.

Lemma PGROUNDUP_eq sz : PGROUNDUP sz = PGSIZE * (u64 (sz + PGSIZE - 1) / PGSIZE).
Proof. exact (land_lnot_ones _ 12 ltac:(lia)). Qed.

(** Rounding up does not wrap below the top page. *)
Lemma PGROUNDUP_small sz :
  0 ≤ sz ≤ 2 ^ 64 - PGSIZE → PGROUNDUP sz = PGSIZE * ((sz + PGSIZE - 1) / PGSIZE).
Proof. intros H. rewrite PGROUNDUP_eq, u64_small; [done|]. unfold PGSIZE in *; lia. Qed.

Lemma PGROUNDUP_spec sz :
  0 ≤ sz ≤ 2 ^ 64 - PGSIZE →
  sz ≤ PGROUNDUP sz < sz + PGSIZE ∧ PGROUNDUP sz mod PGSIZE = 0.
Proof.
  intros H. rewrite PGROUNDUP_small by done. unfold PGSIZE.
  split; [pose proof (Z.div_mod (sz + 4096 - 1) 4096 ltac:(lia));
          pose proof (Z.mod_pos_bound (sz + 4096 - 1) 4096 ltac:(lia)); lia|].
  rewrite Z.mul_comm. apply Z.mod_mul. lia.
Qed.

Lemma PGROUNDDOWN_spec a :
  PGROUNDDOWN a ≤ a < PGROUNDDOWN a + PGSIZE ∧ PGROUNDDOWN a mod PGSIZE = 0.
Proof.
  rewrite PGROUNDDOWN_eq. unfold PGSIZE.
  split; [pose proof (Z.div_mod a 4096 ltac:(lia));
          pose proof (Z.mod_pos_bound a 4096 ltac:(lia)); lia|].
  rewrite Z.mul_comm. apply Z.mod_mul. lia.
Qed.

(** ** Page-table entries *)

Lemma PTE2PA_eq pte : PTE2PA pte = u64 (2 ^ 12 * (pte / 2 ^ 10)).
Proof.
  unfold PTE2PA. rewrite Z.shiftl_mul_pow2, Z.shiftr_div_pow2 by lia. f_equal. lia.
Qed.

Lemma PA2PTE_eq pa : PA2PTE pa = u64 (2 ^ 10 * (pa / 2 ^ 12)).
Proof.
  unfold PA2PTE. rewrite Z.shiftl_mul_pow2, Z.shiftr_div_pow2 by lia. f_equal. lia.
Qed.

Lemma PTE_FLAGS_eq pte : PTE_FLAGS pte = pte mod 2 ^ 10.
Proof. exact (Z.land_ones pte 10 ltac:(lia)). Qed.

Lemma PX_eq l va : 0 ≤ l → PX l va = (va / 2 ^ (12 + 9 * l)) mod 512.
Proof.
  intros Hl. unfold PX, PXSHIFT, PGSHIFT.
  rewrite (Z.land_ones _ 9) by lia. rewrite Z.shiftr_div_pow2 by lia. done.
Qed.

Lemma PX_range l va : 0 ≤ l → 0 ≤ PX l va < 512.
Proof. intros Hl. rewrite PX_eq by done. apply Z.mod_pos_bound. lia. Qed.

(** The indices depend on the page only. *)
Lemma PX_page va va' l : va / PGSIZE = va' / PGSIZE → 0 ≤ l → PX l va = PX l va'.
Proof.
  intros E Hl. rewrite !PX_eq by done. rewrite Z.pow_add_r by lia.
  unfold PGSIZE in E. rewrite <-!Z.div_div by lia. change (2 ^ 12) with 4096. by rewrite E.
Qed.

(** The three indices determine the page of a virtual address below MAXVA. *)
Lemma PX_inj va va' :
  0 ≤ va < MAXVA → 0 ≤ va' < MAXVA →
  PX 2 va = PX 2 va' → PX 1 va = PX 1 va' → PX 0 va = PX 0 va' →
  va / PGSIZE = va' / PGSIZE.
Proof.
  intros Hva Hva'. rewrite !PX_eq by lia.
  change MAXVA with (2 ^ 38) in *. unfold PGSIZE.
  change (2 ^ (12 + 9 * 2)) with (4096 * 512 * 512).
  change (2 ^ (12 + 9 * 1)) with (4096 * 512).
  change (2 ^ (12 + 9 * 0)) with 4096.
  rewrite <-!Z.div_div by lia.
  set (a := va / 4096). set (b := va' / 4096).
  assert (0 ≤ a < 2 ^ 26) by (subst a; split; [apply Z.div_pos|apply Z.div_lt_upper_bound]; lia).
  assert (0 ≤ b < 2 ^ 26) by (subst b; split; [apply Z.div_pos|apply Z.div_lt_upper_bound]; lia).
  clearbody a b. intros E2 E1 E0. Z.to_euclidean_division_equations. lia.
Qed.

(** A page address with ten flag bits packed below its page number. *)
Lemma lor_flags_eq (pa perm : Z) :
  0 ≤ pa < 2 ^ 56 → pa mod PGSIZE = 0 → 0 ≤ perm < 2 ^ 10 →
  Z.lor (PA2PTE pa) perm = 2 ^ 10 * (pa / 2 ^ 12) + perm.
Proof.
  intros Hpa Hal Hperm. rewrite PA2PTE_eq, u64_small.
  - rewrite <-Z.add_lor_land.
    replace (Z.land (2 ^ 10 * (pa / 2 ^ 12)) perm) with 0; [lia|].
    apply Z.bits_inj'. intros n Hn. rewrite Z.land_spec, Z.bits_0.
    destruct (decide (n < 10)).
    + rewrite Z.mul_comm, Z.mul_pow2_bits_low by lia. done.
    + rewrite (Z.bits_above_log2 perm n), andb_false_r; [done|lia|].
      destruct (decide (perm = 0)) as [->|]; [simpl; lia|].
      apply Z.log2_lt_pow2; [lia|].
      apply Z.lt_le_trans with (2 ^ 10); [lia|]. apply Z.pow_le_mono_r; lia.
  - split; [apply Z.mul_nonneg_nonneg; [lia|apply Z.div_pos; lia]|].
    assert (pa / 2 ^ 12 < 2 ^ 44) by (apply Z.div_lt_upper_bound; lia). lia.
Qed.

Lemma lor_flags_range (x y : Z) : 0 ≤ x < 2 ^ 10 → 0 ≤ y < 2 ^ 10 → 0 ≤ Z.lor x y < 2 ^ 10.
Proof.
  intros Hx Hy. split; [apply Z.lor_nonneg; lia|].
  destruct (Z.eq_dec (Z.lor x y) 0) as [->|Hne]; [lia|].
  apply Z.log2_lt_pow2; [assert (0 ≤ Z.lor x y) by (apply Z.lor_nonneg; lia); lia|].
  rewrite Z.log2_lor by lia. apply Z.max_lub_lt.
  - destruct (Z.eq_dec x 0) as [->|]; [done|]. apply Z.log2_lt_pow2; lia.
  - destruct (Z.eq_dec y 0) as [->|]; [done|]. apply Z.log2_lt_pow2; lia.
Qed.

Lemma PTE2PA_lor pa perm :
  0 ≤ pa < 2 ^ 56 → pa mod PGSIZE = 0 → 0 ≤ perm < 2 ^ 10 →
  PTE2PA (Z.lor (PA2PTE pa) perm) = pa.
Proof.
  intros Hpa Hal Hperm. rewrite PTE2PA_eq, lor_flags_eq by done.
  unfold PGSIZE in *.
  rewrite (Z.mul_comm (2 ^ 10)), Z.div_add_l by lia.
  rewrite (Z.div_small perm) by lia. rewrite Z.add_0_r.
  pose proof (Z.div_mod pa 4096 ltac:(lia)). change (2 ^ 12) with 4096.
  rewrite u64_small; lia.
Qed.

Lemma PTE_FLAGS_lor pa perm :
  0 ≤ pa < 2 ^ 56 → pa mod PGSIZE = 0 → 0 ≤ perm < 2 ^ 10 →
  PTE_FLAGS (Z.lor (PA2PTE pa) perm) = perm.
Proof.
  intros Hpa Hal Hperm. rewrite PTE_FLAGS_eq, lor_flags_eq by done.
  rewrite (Z.mul_comm (2 ^ 10)), Z.add_comm, Z.mod_add, Z.mod_small; lia.
Qed.
