(* ===== verification/Machine.v ===== *)
(** * The kernel's data: structs, global variables, memory and locks

    The structs of proc.h, buf.h, file.h, fs.h, log.c, pipe.c, console.c and
    uart.c as records, the kernel's global variables as one record [kernel],
    byte-addressed physical memory, and the lock operations every component
    calls.

    Pointers to elements of a kernel table (struct proc, struct file, struct
    inode, struct buf) are indices into it, [None] the null pointer; a pointer
    into physical memory is its address.  Objects that own a whole page
    obtained from kalloc() and are only used through their C type (struct
    pipe, struct trapframe) are kept in typed stores keyed by that page's
    address.

    Locks.  [held] is the list of spin-locks the executing thread holds, the
    last acquired first, and [sie] the interrupt-enable flag the thread has
    when it holds none.  [Spinlock] models spinlock.c itself (push_off,
    pop_off, acquire, release on per-cpu noff and intena) and proves that it
    implements the operations on [held] and [sie] used here. *)

From Stdlib Require Import ZArith Lia.
From stdpp Require Import base numbers strings option list gmap.
From S2P Require Import Prelude Params.

Open Scope Z_scope.

(** ** Names of locks and sleep channels *)

Inductive slid := buf_sleeplock (b : nat) | inode_sleeplock (ip : nat).
#[export] Instance slid_eq : EqDecision slid.
Proof. solve_decision. Defined.

Inductive lockid :=
| kmem_lock | pid_lock | wait_lock | tickslock | bcache_lock | log_lock
| itable_lock | ftable_lock | cons_lock | uart_tx_lock | vdisk_lock | pr_lock
| proc_lock (p : nat) | pipe_lock (pi : Z) | sleep_lk (l : slid).
#[export] Instance lockid_eq : EqDecision lockid.
Proof. solve_decision. Defined.

(** The address a process sleeps on. *)
Inductive chan :=
| chan_proc (p : nat) | chan_ticks | chan_log | chan_nread (pi : Z) | chan_nwrite (pi : Z)
| chan_sleeplock (l : slid) | chan_cons_r | chan_uart_tx_r | chan_buf (b : nat) | chan_disk_free.
#[export] Instance chan_eq : EqDecision chan.
Proof. solve_decision. Defined.

(** ** proc.h *)

Inductive procstate := UNUSED | USED | SLEEPING | RUNNABLE | RUNNING | ZOMBIE.
#[export] Instance procstate_eq : EqDecision procstate.
Proof. solve_decision. Defined.

Record context := mkContext { ctx_ra : Z; ctx_sp : Z; ctx_s : list Z }.
#[export] Instance eta_context : Settable context :=
  λ c, mkContext (ctx_ra c) (ctx_sp c) (ctx_s c).

Record trapframe := mkTrapframe {
  kernel_satp : Z; kernel_sp : Z; kernel_trap : Z; epc : Z; kernel_hartid : Z;
  tf_ra : Z; tf_sp : Z; tf_gp : Z; tf_tp : Z; tf_t0 : Z; tf_t1 : Z; tf_t2 : Z;
  tf_s0 : Z; tf_s1 : Z; tf_a0 : Z; tf_a1 : Z; tf_a2 : Z; tf_a3 : Z; tf_a4 : Z;
  tf_a5 : Z; tf_a6 : Z; tf_a7 : Z; tf_s2 : Z; tf_s3 : Z; tf_s4 : Z; tf_s5 : Z;
  tf_s6 : Z; tf_s7 : Z; tf_s8 : Z; tf_s9 : Z; tf_s10 : Z; tf_s11 : Z;
  tf_t3 : Z; tf_t4 : Z; tf_t5 : Z; tf_t6 : Z
}.
#[export] Instance eta_trapframe : Settable trapframe :=
  λ t, mkTrapframe (kernel_satp t) (kernel_sp t) (kernel_trap t) (epc t) (kernel_hartid t)
    (tf_ra t) (tf_sp t) (tf_gp t) (tf_tp t) (tf_t0 t) (tf_t1 t) (tf_t2 t)
    (tf_s0 t) (tf_s1 t) (tf_a0 t) (tf_a1 t) (tf_a2 t) (tf_a3 t) (tf_a4 t)
    (tf_a5 t) (tf_a6 t) (tf_a7 t) (tf_s2 t) (tf_s3 t) (tf_s4 t) (tf_s5 t)
    (tf_s6 t) (tf_s7 t) (tf_s8 t) (tf_s9 t) (tf_s10 t) (tf_s11 t)
    (tf_t3 t) (tf_t4 t) (tf_t5 t) (tf_t6 t).

Record proc := mkProc {
  p_state : procstate; p_chan : option chan; p_killed : Z; p_xstate : Z; p_pid : Z;
  p_parent : option nat;
  p_kstack : Z; p_sz : Z; p_pagetable : Z; p_trapframe : Z; p_context : context;
  p_ofile : list (option nat); p_cwd : option nat; p_name : list Z;
  p_trace_mask : Z; p_rtime : Z; p_ctime : Z; p_etime : Z;
  p_static_priority : Z; p_when_started_sleeping : Z; p_sleep_time : Z; p_tickets : Z;
  p_queue_id : Z; p_last_wait_time : Z; p_inqueue : Z; p_change_queue : Z;
  p_alarm_handler : Z; p_alarm_flag : Z; p_alarm_ticks : Z; p_alarm_ticks_left : Z;
  p_alarm_saved_tf : Z
}.
#[export] Instance eta_proc : Settable proc :=
  λ p, mkProc (p_state p) (p_chan p) (p_killed p) (p_xstate p) (p_pid p) (p_parent p)
    (p_kstack p) (p_sz p) (p_pagetable p) (p_trapframe p) (p_context p)
    (p_ofile p) (p_cwd p) (p_name p) (p_trace_mask p) (p_rtime p) (p_ctime p) (p_etime p)
    (p_static_priority p) (p_when_started_sleeping p) (p_sleep_time p) (p_tickets p)
    (p_queue_id p) (p_last_wait_time p) (p_inqueue p) (p_change_queue p)
    (p_alarm_handler p) (p_alarm_flag p) (p_alarm_ticks p) (p_alarm_ticks_left p)
    (p_alarm_saved_tf p).

(** ** sleeplock.h, buf.h *)

Record sleeplock := mkSleeplock { sl_locked : Z; sl_pid : Z }.
#[export] Instance eta_sleeplock : Settable sleeplock := λ l, mkSleeplock (sl_locked l) (sl_pid l).

Record buf := mkBuf {
  b_valid : Z; b_disk : Z; b_dev : Z; b_blockno : Z; b_lock : sleeplock; b_refcnt : Z;
  b_prev : nat; b_next : nat; b_data : list Z
}.
#[export] Instance eta_buf : Settable buf :=
  λ b, mkBuf (b_valid b) (b_disk b) (b_dev b) (b_blockno b) (b_lock b) (b_refcnt b)
    (b_prev b) (b_next b) (b_data b).

(** ** fs.h, file.h, log.c, pipe.c *)

Record superblock := mkSuperblock {
  sb_magic : Z; sb_size : Z; sb_nblocks : Z; sb_ninodes : Z; sb_nlog : Z;
  sb_logstart : Z; sb_inodestart : Z; sb_bmapstart : Z
}.

Record logheader := mkLogheader { lh_n : Z; lh_block : list Z }.
#[export] Instance eta_logheader : Settable logheader := λ l, mkLogheader (lh_n l) (lh_block l).

Record logst := mkLog {
  log_start : Z; log_size : Z; log_outstanding : Z; log_committing : Z; log_dev : Z;
  log_lh : logheader
}.
#[export] Instance eta_log : Settable logst :=
  λ l, mkLog (log_start l) (log_size l) (log_outstanding l) (log_committing l) (log_dev l)
    (log_lh l).

Record inode := mkInode {
  i_dev : Z; i_inum : Z; i_ref : Z; i_lock : sleeplock; i_valid : Z;
  i_type : Z; i_major : Z; i_minor : Z; i_nlink : Z; i_size : Z; i_addrs : list Z
}.
#[export] Instance eta_inode : Settable inode :=
  λ i, mkInode (i_dev i) (i_inum i) (i_ref i) (i_lock i) (i_valid i)
    (i_type i) (i_major i) (i_minor i) (i_nlink i) (i_size i) (i_addrs i).

Inductive fdtype := FD_NONE | FD_PIPE | FD_INODE | FD_DEVICE.
#[export] Instance fdtype_eq : EqDecision fdtype.
Proof. solve_decision. Defined.

Record file := mkFile {
  f_type : fdtype; f_ref : Z; f_readable : Z; f_writable : Z; f_pipe : Z;
  f_ip : option nat; f_off : Z; f_major : Z
}.
#[export] Instance eta_file : Settable file :=
  λ f, mkFile (f_type f) (f_ref f) (f_readable f) (f_writable f) (f_pipe f) (f_ip f)
    (f_off f) (f_major f).

Definition PIPESIZE : Z := 512.

Record pipe := mkPipe {
  pi_data : list Z; pi_nread : Z; pi_nwrite : Z; pi_readopen : Z; pi_writeopen : Z
}.
#[export] Instance eta_pipe : Settable pipe :=
  λ p, mkPipe (pi_data p) (pi_nread p) (pi_nwrite p) (pi_readopen p) (pi_writeopen p).

(** ** console.c, uart.c, and the supervisor registers of riscv.h *)

Record consst := mkCons { cons_buf : list Z; cons_r : Z; cons_w : Z; cons_e : Z }.
#[export] Instance eta_cons : Settable consst :=
  λ c, mkCons (cons_buf c) (cons_r c) (cons_w c) (cons_e c).

(** [rx] are the received bytes waiting in RHR, [tx_idle] what the next reads
    of the status register say of LSR_TX_IDLE (idle where the list ends). *)
Record uartst := mkUart {
  uart_tx_buf : list Z; uart_tx_w : Z; uart_tx_r : Z; rx : list Z; tx_idle : list bool
}.
#[export] Instance eta_uart : Settable uartst :=
  λ u, mkUart (uart_tx_buf u) (uart_tx_w u) (uart_tx_r u) (rx u) (tx_idle u).

(** [sstatus] without its SIE bit, which is [sie] below. *)
Record csrs := mkCsrs {
  sepc : Z; scause : Z; stval : Z; sstatus : Z; stvec : Z; satp : Z; sip : Z; plic_irq : Z
}.
#[export] Instance eta_csrs : Settable csrs :=
  λ c, mkCsrs (sepc c) (scause c) (stval c) (sstatus c) (stvec c) (satp c) (sip c) (plic_irq c).

(** ** virtio.h and struct disk of virtio_disk.c

    The address in a descriptor is the object it is the address of: a command
    header [ops[i]], a buffer's data, or a status byte [info[i].status]. *)

Inductive daddr := A0 | AOps (i : nat) | AData (b : nat) | AStatus (i : nat).
#[export] Instance daddr_eq : EqDecision daddr.
Proof. solve_decision. Defined.

Record virtq_desc := mkDesc { vd_addr : daddr; vd_len : Z; vd_flags : Z; vd_next : Z }.
Record blk_req := mkReq { req_type : Z; req_reserved : Z; req_sector : Z }.
Record blk_info := mkInfo { info_b : option nat; info_status : Z }.
#[export] Instance eta_info : Settable blk_info := λ i, mkInfo (info_b i) (info_status i).

Record vdiskst := mkVdisk {
  vq_desc : list virtq_desc; avail_idx : Z; avail_ring : list Z;
  used_ring_idx : Z; used_ring : list Z;     (* written by the device *)
  vd_free : list Z; vd_used_idx : Z; vd_info : list blk_info; vd_ops : list blk_req
}.
#[export] Instance eta_vdisk : Settable vdiskst :=
  λ v, mkVdisk (vq_desc v) (avail_idx v) (avail_ring v) (used_ring_idx v) (used_ring v)
    (vd_free v) (vd_used_idx v) (vd_info v) (vd_ops v).

(** ** The global variables *)

Record kernel := mkKernel {
  held : list lockid;         (* spin-locks held by the executing thread *)
  sie : bool;                 (* its interrupts are enabled when it holds none *)
  cur : option nat;           (* mycpu()->proc *)
  hartid : Z;                 (* the tp register: cpuid() *)
  mem : gmap Z Z;             (* physical memory, a byte per address *)
  freelist : Z;               (* kmem.freelist *)
  refcnt : gmap Z Z;          (* refcnt[PHYSTOP / PGSIZE], zero where absent *)
  procs : list proc;          (* proc[NPROC] *)
  nextpid : Z;
  initproc : option nat;
  ticks : Z;
  tfs : gmap Z trapframe;     (* struct trapframe pages, by page address *)
  pipes : gmap Z pipe;        (* struct pipe pages, by page address *)
  bcache : list buf;          (* bcache.buf[NBUF], then bcache.head *)
  disk : gmap Z (list Z);     (* the disk: a block's bytes by block number *)
  dwrites : list (Z * list Z);(* every block write so far, oldest first *)
  log : logst;
  sb : superblock;
  itable : list inode;
  ftable : list file;
  printed : list Z;           (* characters the UART has been sent *)
  kernel_pagetable : Z;
  first : Z;                  (* forkret()'s static variable *)
  panicked : Z;
  pr_locking : Z;             (* pr.locking *)
  console : consst;           (* cons *)
  uart : uartst;
  devsw : list bool;          (* the entries that have been filled in *)
  csr : csrs;
  vdisk : vdiskst             (* disk of virtio_disk.c *)
}.
#[export] Instance eta_kernel : Settable kernel :=
  λ k, mkKernel (held k) (sie k) (cur k) (hartid k) (mem k) (freelist k) (refcnt k) (procs k)
    (nextpid k) (initproc k) (ticks k) (tfs k) (pipes k) (bcache k) (disk k) (dwrites k)
    (log k) (sb k) (itable k) (ftable k) (printed k) (kernel_pagetable k) (first k) (panicked k)
    (pr_locking k) (console k) (uart k) (devsw k) (csr k) (vdisk k).

Abbreviation K := (M kernel).

(** ** Lock operations *)

Fixpoint remove1 (l : lockid) (h : list lockid) : list lockid :=
  match h with
  | [] => []
  | x :: h => if decide (x = l) then h else x :: remove1 l h
  end.

Definition holding (l : lockid) : K bool := gets (λ s, bool_decide (l ∈ held s)).

Definition acquire (l : lockid) : K () :=
  h ← holding l;
  if h : bool then panic "acquire" else modify (λ s, s <| held ::= cons l |>).

Definition release (l : lockid) : K () :=
  h ← holding l;
  if h : bool then modify (λ s, s <| held ::= remove1 l |>) else panic "release".

Definition intr_on : K () := modify (λ s, s <| sie := true |>).
Definition intr_off : K () := modify (λ s, s <| sie := false |>).

(** Interrupts are on when they are enabled and no lock has turned them off. *)
Definition intr_get : K bool := gets (λ s, sie s && bool_decide (held s = [])).

Definition myproc : K (option nat) := gets cur.

(** ** Byte and word access to physical memory *)

Definition load8 (m : gmap Z Z) (a : Z) : Z := u8 (default 0 (m !! a)).
Definition store8 (m : gmap Z Z) (a v : Z) : gmap Z Z := <[a := u8 v]> m.

(** Little-endian access to [n] bytes. *)
Fixpoint load (n : nat) (m : gmap Z Z) (a : Z) : Z :=
  match n with
  | O => 0
  | S n => load8 m a + 2 ^ 8 * load n m (a + 1)
  end.

Fixpoint store (n : nat) (m : gmap Z Z) (a v : Z) : gmap Z Z :=
  match n with
  | O => m
  | S n => store n (store8 m a v) (a + 1) (v / 2 ^ 8)
  end.

Definition load64 : gmap Z Z → Z → Z := load 8.
Definition store64 : gmap Z Z → Z → Z → gmap Z Z := store 8.
Definition load32 : gmap Z Z → Z → Z := load 4.
Definition store32 : gmap Z Z → Z → Z → gmap Z Z := store 4.

Definition load_bytes (m : gmap Z Z) (a : Z) (n : nat) : list Z :=
  (λ i, load8 m (a + i)) <$> seqZ 0 n.

Fixpoint store_bytes (m : gmap Z Z) (a : Z) (bs : list Z) : gmap Z Z :=
  match bs with
  | [] => m
  | b :: bs => store_bytes (store8 m a b) (a + 1) bs
  end.

(** ** Access to the tables *)

Definition proc0 : proc :=
  mkProc UNUSED None 0 0 0 None 0 0 0 0 (mkContext 0 0 (replicate 12 0))
    (replicate NOFILE None) None (replicate 16 0) 0 0 0 0 0 0 0 0 0 0 0 0 0 0 0 0 0.

Definition getp (i : nat) : K proc := gets (λ s, default proc0 (procs s !! i)).
Definition setp (i : nat) (f : proc → proc) : K () := modify (λ s, s <| procs ::= alter f i |>).

(** ** The state after reset: zeroed memory and global variables *)

Definition sleeplock0 : sleeplock := mkSleeplock 0 0.
Definition buf0 : buf := mkBuf 0 0 0 0 sleeplock0 0 0 0 (replicate 1024 0).
Definition inode0 : inode := mkInode 0 0 0 sleeplock0 0 0 0 0 0 0 (replicate 13 0).
Definition file0 : file := mkFile FD_NONE 0 0 0 0 None 0 0.
Definition trapframe0 : trapframe :=
  mkTrapframe 0 0 0 0 0 0 0 0 0 0 0 0 0 0 0 0 0 0 0 0 0 0 0 0 0 0 0 0 0 0 0 0 0 0 0 0.
Definition pipe0 : pipe := mkPipe (replicate 512 0) 0 0 0 0.

Definition kernel0 : kernel :=
  mkKernel [] false None 0 ∅ 0 ∅ (replicate NPROC proc0) 1 None 0 ∅ ∅
    (replicate (S NBUF) buf0) ∅ [] (mkLog 0 0 0 0 0 (mkLogheader 0 (replicate 30 0)))
    (mkSuperblock 0 0 0 0 0 0 0 0) (replicate NINODE inode0) (replicate NFILE file0) []
    0 1 0 0 (mkCons (replicate 128 0) 0 0 0) (mkUart (replicate 32 0) 0 0 [] [])
    (replicate (Z.to_nat NDEV) false) (mkCsrs 0 0 0 0 0 0 0 0)
    (mkVdisk (replicate 8 (mkDesc A0 0 0 0)) 0 (replicate 8 0) 0 (replicate 8 0) (replicate 8 0) 0
       (replicate 8 (mkInfo None 0)) (replicate 8 (mkReq 0 0 0))).

(** ** Lemmas: locks *)

Lemma acquire_free l s : l ∉ held s → acquire l s = Ret () (s <| held ::= cons l |>).
Proof.
  intros H. unfold acquire, holding. erewrite bind_ret; [|reflexivity].
  by rewrite bool_decide_eq_false_2.
Qed.

Lemma acquire_held l s : l ∈ held s → acquire l s = Panic "acquire" s.
Proof.
  intros H. unfold acquire, holding. erewrite bind_ret; [|reflexivity].
  by rewrite bool_decide_eq_true_2.
Qed.

Lemma release_held l s : l ∈ held s → release l s = Ret () (s <| held ::= remove1 l |>).
Proof.
  intros H. unfold release, holding. erewrite bind_ret; [|reflexivity].
  by rewrite bool_decide_eq_true_2.
Qed.

Lemma release_free l s : l ∉ held s → release l s = Panic "release" s.
Proof.
  intros H. unfold release, holding. erewrite bind_ret; [|reflexivity].
  by rewrite bool_decide_eq_false_2.
Qed.

Lemma remove1_head l h : remove1 l (l :: h) = h.
Proof. simpl. by rewrite decide_True. Qed.

(** Releasing the lock acquired last. *)
Lemma release_head l h s : held s = l :: h → release l s = Ret () (s <| held := h |>).
Proof.
  intros H. rewrite release_held; [|rewrite H; left].
  f_equal. unfold set. rewrite H, remove1_head. done.
Qed.

(** ** Lemmas: memory *)

Lemma load8_range m a : 0 ≤ load8 m a < 2 ^ 8.
Proof. apply Z.mod_pos_bound. done. Qed.

Lemma load8_store8_eq m a v : load8 (store8 m a v) a = u8 v.
Proof. unfold load8, store8. rewrite lookup_insert_eq. simpl. apply Z.mod_mod. done. Qed.

Lemma load8_store8_ne m a b v : a ≠ b → load8 (store8 m a v) b = load8 m b.
Proof. intros H. unfold load8, store8. by rewrite lookup_insert_ne. Qed.

Lemma load8_store (n : nat) m a v b :
  b < a ∨ a + n ≤ b → load8 (store n m a v) b = load8 m b.
Proof.
  revert m a v. induction n as [|n IH]; intros m a v H; [done|].
  simpl. rewrite IH by lia. apply load8_store8_ne. lia.
Qed.

Lemma load_ext (n : nat) m m' a :
  (∀ b, a ≤ b < a + n → load8 m b = load8 m' b) → load n m a = load n m' a.
Proof.
  revert a. induction n as [|n IH]; intros a H; [done|]. simpl.
  rewrite (H a) by lia. rewrite (IH (a + 1)); [done|]. intros b Hb. apply H. lia.
Qed.

Lemma load_store_eq (n : nat) m a v : load n (store n m a v) a = v mod 2 ^ (8 * n).
Proof.
  revert m a v. induction n as [|n IH]; intros m a v.
  - simpl. by rewrite Z.mod_1_r.
  - simpl load. simpl store. rewrite IH, load8_store by lia. rewrite load8_store8_eq.
    replace (8 * S n) with (8 + 8 * n) by lia.
    rewrite Z.pow_add_r by lia. unfold u8. rewrite Z.rem_mul_r; lia.
Qed.

Lemma load_store_ne (n k : nat) m a v b :
  b + k ≤ a ∨ a + n ≤ b → load k (store n m a v) b = load k m b.
Proof. intros H. apply load_ext. intros c Hc. apply load8_store. lia. Qed.

Lemma load_range (n : nat) m a : 0 ≤ load n m a < 2 ^ (8 * n).
Proof.
  revert a. induction n as [|n IH]; intros a; simpl; [lia|].
  specialize (IH (a + 1)). pose proof (load8_range m a).
  replace (8 * S n) with (8 + 8 * n) by lia. rewrite Z.pow_add_r by lia. lia.
Qed.

Lemma load64_store64_eq m a v : load64 (store64 m a v) a = u64 v.
Proof. apply (load_store_eq 8). Qed.

Lemma load64_store64_ne m a v b :
  b + 8 ≤ a ∨ a + 8 ≤ b → load64 (store64 m a v) b = load64 m b.
Proof. intros H. apply load_store_ne. lia. Qed.

Lemma load64_ext m m' a : (∀ b, a ≤ b < a + 8 → load8 m b = load8 m' b) → load64 m a = load64 m' a.
Proof. intros E. apply load_ext. intros b Hb. apply E. lia. Qed.

Lemma load8_store64 m a v b : b < a ∨ a + 8 ≤ b → load8 (store64 m a v) b = load8 m b.
Proof. intros H. apply load8_store. lia. Qed.

Lemma load64_range m a : 0 ≤ load64 m a < 2 ^ 64.
Proof. apply (load_range 8). Qed.

Lemma load8_store_bytes_out m a bs b :
  b < a ∨ a + length bs ≤ b → load8 (store_bytes m a bs) b = load8 m b.
Proof.
  revert m a. induction bs as [|x bs IH]; intros m a H; [done|].
  simpl in *. rewrite IH by lia. apply load8_store8_ne. lia.
Qed.

Lemma load8_store_bytes_in m a bs (i : nat) x :
  bs !! i = Some x → load8 (store_bytes m a bs) (a + i) = u8 x.
Proof.
  revert m a i. induction bs as [|y bs IH]; intros m a i H; [done|].
  destruct i as [|i]; simpl in *.
  - injection H as ->. rewrite load8_store_bytes_out by lia.
    rewrite Z.add_0_r. apply load8_store8_eq.
  - replace (a + S i) with (a + 1 + i) by lia. by apply IH.
Qed.

Lemma length_load_bytes m a n : length (load_bytes m a n) = n.
Proof. unfold load_bytes. rewrite length_fmap, length_seqZ. lia. Qed.

Lemma lookup_load_bytes m a (n i : nat) :
  (i < n)%nat → load_bytes m a n !! i = Some (load8 m (a + i)).
Proof.
  intros H. unfold load_bytes. rewrite list_lookup_fmap, lookup_seqZ_lt by lia. done.
Qed.

Lemma load_bytes_store_bytes m a bs :
  load_bytes (store_bytes m a bs) a (length bs) = u8 <$> bs.
Proof.
  apply list_eq. intros i. destruct (decide (i < length bs)%nat) as [Hi|Hi].
  - rewrite lookup_load_bytes by done.
    destruct (lookup_lt_is_Some_2 bs i Hi) as [x Hx].
    rewrite list_lookup_fmap, Hx. simpl. f_equal. by apply load8_store_bytes_in.
  - rewrite !lookup_ge_None_2; [done| |].
    + rewrite length_fmap. lia.
    + rewrite length_load_bytes. lia.
Qed.
