(* ===== verification/Spinlock.v ===== *)
(** * Spin locks (kernel/spinlock.c)

    acquire() and release() as the atomic steps the processors interleave:
    each access to lk->locked and lk->cpu is a step of its own.  The state of a
    processor is its struct cpu fields noff and intena, its interrupt-enable
    bit, how far it is in a call, and [mine], which no code reads: the locks it
    has acquired and not begun to release. *)

From Stdlib Require Import ZArith Lia.
From stdpp Require Import base numbers strings option list gmap.
From S2P Require Import Prelude.

Open Scope Z_scope.

(** ** State *)

Record spinlock := mkSpinlock { locked : Z; lk_cpu : option nat }.
#[export] Instance eta_spinlock : Settable spinlock := λ l, mkSpinlock (locked l) (lk_cpu l).

(** Where a processor is inside acquire() or release(). *)
Inductive pc :=
| Idle
| AcqCheck (lk : Z)     (* after push_off(), before holding() reads lk->locked *)
| AcqCheck2 (lk : Z)    (* before it reads lk->cpu *)
| AcqSpin (lk : Z)      (* in the test-and-set loop *)
| AcqSet (lk : Z)       (* got the lock, before lk->cpu = mycpu() *)
| RelCheck (lk : Z)     (* before holding() reads lk->locked *)
| RelCheck2 (lk : Z)    (* before it reads lk->cpu *)
| RelCpu (lk : Z)       (* before lk->cpu = 0 *)
| RelFree (lk : Z)      (* before the store to lk->locked *)
| RelPop                (* before pop_off() *)
| Dead (msg : string).  (* in panic() *)

Record cpu := mkCpu { noff : Z; intena : bool; c_sie : bool; at_pc : pc; mine : list Z }.
#[export] Instance eta_cpu : Settable cpu :=
  λ c, mkCpu (noff c) (intena c) (c_sie c) (at_pc c) (mine c).

Record smp := mkSmp { cpus : list cpu; locks : gmap Z spinlock }.

(** ** The functions *)

Definition initlock : spinlock := mkSpinlock 0 None.
Definition lock_at (m : smp) (lk : Z) : spinlock := default initlock (locks m !! lk).

Definition push_off (c : cpu) : cpu :=
  let old := c_sie c in
  let c := c <| c_sie := false |> in
  let c := if noff c =? 0 then c <| intena := old |> else c in
  c <| noff ::= λ n, n + 1 |>.

(** The message it panics with, or the new state. *)
Definition pop_off (c : cpu) : string + cpu :=
  if c_sie c then inl "pop_off - interruptible"
  else if noff c <? 1 then inl "pop_off"
  else
    let c := c <| noff ::= λ n, n - 1 |> in
    inr (if (noff c =? 0) && intena c then c <| c_sie := true |> else c).

(** holding() reads the two fields one after the other, and the second only if
    the first is not 0. *)
Definition holding_locked (l : spinlock) : bool := negb (locked l =? 0).
Definition holding_cpu (l : spinlock) (me : nat) : bool := bool_decide (lk_cpu l = Some me).
Definition holding (l : spinlock) (me : nat) : bool := holding_locked l && holding_cpu l me.

(** The first step of a call. *)
Definition acquire (lk : Z) (c : cpu) : cpu := push_off c <| at_pc := AcqCheck lk |>.
Definition release (lk : Z) (c : cpu) : cpu := c <| at_pc := RelCheck lk |>.

(** The next step of processor [me] in the call it is in: the lock it touches,
    with its new contents, and its own new state. *)
Definition continue (me : nat) (c : cpu) (lock : Z → spinlock) : option (Z * spinlock) * cpu :=
  match at_pc c with
  | Idle | Dead _ => (None, c)
  | AcqCheck lk =>
      (None, c <| at_pc := if holding_locked (lock lk) then AcqCheck2 lk else AcqSpin lk |>)
  | AcqCheck2 lk =>
      (None, c <| at_pc := if holding_cpu (lock lk) me then Dead "acquire" else AcqSpin lk |>)
  | AcqSpin lk =>
      (Some (lk, lock lk <| locked := 1 |>),
       c <| at_pc := if locked (lock lk) =? 0 then AcqSet lk else AcqSpin lk |>)
  | AcqSet lk =>
      (Some (lk, lock lk <| lk_cpu := Some me |>), c <| at_pc := Idle |> <| mine ::= λ l, lk :: l |>)
  | RelCheck lk =>
      (None, c <| at_pc := if holding_locked (lock lk) then RelCheck2 lk else Dead "release" |>)
  | RelCheck2 lk =>
      (None, if holding_cpu (lock lk) me
             then c <| at_pc := RelCpu lk |> <| mine ::= filter (λ x, x ≠ lk) |>
             else c <| at_pc := Dead "release" |>)
  | RelCpu lk => (Some (lk, lock lk <| lk_cpu := None |>), c <| at_pc := RelFree lk |>)
  | RelFree lk => (Some (lk, lock lk <| locked := 0 |>), c <| at_pc := RelPop |>)
  | RelPop =>
      (None, match pop_off c with inl msg => c <| at_pc := Dead msg |> | inr c => c <| at_pc := Idle |> end)
  end.

Definition put (me : nat) (r : option (Z * spinlock) * cpu) (m : smp) : smp :=
  mkSmp (<[me := r.2]> (cpus m))
    (match r.1 with Some (lk, l) => <[lk := l]> (locks m) | None => locks m end).

(** ** The machine: any processor may take the next step *)

Inductive step : smp → smp → Prop :=
| step_acquire m me c lk :
    cpus m !! me = Some c → at_pc c = Idle → step m (put me (None, acquire lk c) m)
| step_release m me c lk :
    cpus m !! me = Some c → at_pc c = Idle → step m (put me (None, release lk c) m)
| step_continue m me c :
    cpus m !! me = Some c → step m (put me (continue me c (lock_at m)) m)
| step_intr m me c b :
    cpus m !! me = Some c → at_pc c = Idle → mine c = [] →
    step m (put me (None, c <| c_sie := b |>) m).

Inductive reachable (m0 : smp) : smp → Prop :=
| reach_start : reachable m0 m0
| reach_step m m' : reachable m0 m → step m m' → reachable m0 m'.

(** Every lock free, no call under way. *)
Definition boot (m : smp) : Prop :=
  locks m = ∅ ∧ ∀ me c, cpus m !! me = Some c → noff c = 0 ∧ at_pc c = Idle ∧ mine c = [].

(** ** The invariant *)

(** Between its swap in acquire() and its store in release(). *)
Definition engaged (c : cpu) (lk : Z) : Prop :=
  lk ∈ mine c ∨ at_pc c = AcqSet lk ∨ at_pc c = RelCpu lk ∨ at_pc c = RelFree lk.

(** lk->cpu names the processor. *)
Definition named (c : cpu) (lk : Z) : Prop := lk ∈ mine c ∨ at_pc c = RelCpu lk.

Definition pc_depth (p : pc) : Z :=
  match p with Idle | RelCheck _ | RelCheck2 _ | Dead _ => 0 | _ => 1 end.

(** The processor's own book-keeping. *)
Definition cpu_ok (c : cpu) : Prop :=
  NoDup (mine c) ∧
  (∀ lk, at_pc c = AcqSet lk ∨ at_pc c = RelCpu lk ∨ at_pc c = RelFree lk → lk ∉ mine c) ∧
  ((∀ msg, at_pc c ≠ Dead msg) →
     noff c = length (mine c) + pc_depth (at_pc c) ∧ (0 < noff c → c_sie c = false)).

Definition inv (m : smp) : Prop :=
  (∀ me c, cpus m !! me = Some c → cpu_ok c) ∧
  (∀ i j ci cj lk, cpus m !! i = Some ci → cpus m !! j = Some cj →
     engaged ci lk → engaged cj lk → i = j) ∧
  (∀ i c lk, cpus m !! i = Some c → engaged c lk → locked (lock_at m lk) ≠ 0) ∧
  (∀ i c lk, cpus m !! i = Some c → (named c lk ↔ lk_cpu (lock_at m lk) = Some i)) ∧
  (∀ i lk, lk_cpu (lock_at m lk) = Some i → is_Some (cpus m !! i)).

Lemma named_engaged c lk : named c lk → engaged c lk.
Proof. unfold named, engaged. tauto. Qed.

(** A step that keeps the invariant, from what it does to one processor and one
    lock. *)
Lemma put_inv m me c r :
  inv m → cpus m !! me = Some c →
  let m' := put me r m in
  cpu_ok r.2 →
  (∀ lk, engaged r.2 lk → engaged c lk ∨ locked (lock_at m lk) = 0) →
  (∀ lk, engaged r.2 lk → locked (lock_at m' lk) ≠ 0) →
  (∀ lk, locked (lock_at m lk) ≠ 0 → locked (lock_at m' lk) ≠ 0 ∨ engaged c lk) →
  (∀ lk, named r.2 lk ↔ lk_cpu (lock_at m' lk) = Some me) →
  (∀ lk j, j ≠ me → lk_cpu (lock_at m' lk) = Some j ↔ lk_cpu (lock_at m lk) = Some j) →
  inv m'.
Proof.
  intros (Hok & Hex & Hlk & Hnm & Hdom) Hc m' HA HB HC HD HE HF.
  assert (∀ i x, cpus m' !! i = Some x → i = me ∧ x = r.2 ∨ i ≠ me ∧ cpus m !! i = Some x) as Hl.
  { intros i x. subst m'. cbn. destruct (decide (i = me)) as [->|Hi].
    - rewrite list_lookup_insert_eq by (by eapply lookup_lt_Some). intros [= <-]. by left.
    - rewrite list_lookup_insert_ne by done. by right. }
  split_and!.
  - intros i x [[-> ->]|[_ Hx]]%Hl; [done|by eapply Hok].
  - intros i j ci cj lk [[-> ->]|[Hi Hci]]%Hl [[-> ->]|[Hj Hcj]]%Hl Ei Ej; [done| | |by eapply Hex].
    + destruct (HB lk Ei) as [E|E]; [by eapply Hex|]. by destruct (Hlk j cj lk Hcj Ej).
    + destruct (HB lk Ej) as [E|E]; [by eapply Hex|]. by destruct (Hlk i ci lk Hci Ei).
  - intros i x lk [[-> ->]|[Hi Hx]]%Hl E; [by apply HC|].
    destruct (HD lk (Hlk i x lk Hx E)) as [|E']; [done|]. destruct Hi. by eapply Hex.
  - intros i x lk [[-> ->]|[Hi Hx]]%Hl; [apply HE|]. rewrite (HF lk i Hi). by apply Hnm.
  - intros i lk E. subst m'. cbn. apply lookup_lt_is_Some. rewrite length_insert.
    destruct (decide (i = me)) as [->|Hi]; [by eapply lookup_lt_Some|].
    apply lookup_lt_is_Some. apply (Hdom i lk). by apply HF.
Qed.

Lemma lock_at_put_none m me c lk : lock_at (put me (None, c) m) lk = lock_at m lk.
Proof. reflexivity. Qed.

Lemma lock_at_put m me c lk l lk' :
  lock_at (put me (Some (lk, l), c) m) lk' = if decide (lk' = lk) then l else lock_at m lk'.
Proof.
  unfold lock_at. cbn. destruct (decide (lk' = lk)) as [->|Hn].
  - by rewrite lookup_insert_eq.
  - by rewrite lookup_insert_ne.
Qed.

(** A step that touches no lock and engages in none. *)
Lemma put_local m me c c' :
  inv m → cpus m !! me = Some c → cpu_ok c' →
  (∀ lk, engaged c' lk → engaged c lk) → (∀ lk, named c' lk ↔ named c lk) →
  inv (put me (None, c') m).
Proof.
  intros Hi Hc Hok He Hn. pose proof Hi as (_ & _ & Hlk & Hnm & _).
  apply (put_inv m me c); [done..| | | | |].
  - intros lk E. left. by apply He.
  - intros lk E. rewrite lock_at_put_none. apply (Hlk me c); [done|by apply He].
  - intros lk E. by left.
  - intros lk. rewrite lock_at_put_none. cbn [snd]. rewrite Hn. by apply Hnm.
  - intros lk j Hj. by rewrite lock_at_put_none.
Qed.

(** ** Each step *)

Lemma push_off_ok c :
  (0 ≤ noff c) → (0 < noff c → c_sie c = false) →
  noff (push_off c) = noff c + 1 ∧ c_sie (push_off c) = false ∧ mine (push_off c) = mine c.
Proof. intros H0 H1. unfold push_off. destruct (Z.eqb_spec (noff (c <| c_sie := false |>)) 0); done. Qed.

Lemma acquire_inv m me c lk :
  inv m → cpus m !! me = Some c → at_pc c = Idle → inv (put me (None, acquire lk c) m).
Proof.
  intros Hi Hc Hp. pose proof Hi as (Hok & _). destruct (Hok me c Hc) as (Hnd & _ & Hd).
  rewrite Hp in Hd. destruct (Hd ltac:(congruence)) as [Hn Hs].
  destruct (push_off_ok c) as (Hn' & Hs' & Hm'); [cbn in Hn; lia|done|].
  assert (mine (acquire lk c) = mine c) as Hm by exact Hm'.
  apply (put_local m me c); [done..| | |].
  - split_and!.
    + by rewrite Hm.
    + intros lk' [[=]|[[=]|[=]]].
    + intros _. split; [|intros _; exact Hs']. rewrite Hm. cbn in *. lia.
  - intros lk' [E|[[=]|[[=]|[=]]]]. left. by rewrite <- Hm.
  - intros lk'. unfold named. rewrite Hm, Hp. cbn. split; intros [|[=]]; by left.
Qed.

Lemma release_inv m me c lk :
  inv m → cpus m !! me = Some c → at_pc c = Idle → inv (put me (None, release lk c) m).
Proof.
  intros Hi Hc Hp. pose proof Hi as (Hok & _). destruct (Hok me c Hc) as (Hnd & _ & Hd).
  rewrite Hp in Hd. destruct (Hd ltac:(congruence)) as [Hn Hs].
  apply (put_local m me c); [done..| | |].
  - split_and!; [done|intros lk' [[=]|[[=]|[=]]]|done].
  - intros lk' [E|[[=]|[[=]|[=]]]]. by left.
  - intros lk'. unfold named. rewrite Hp. cbn. split; intros [|[=]]; by left.
Qed.

Lemma intr_inv m me c b :
  inv m → cpus m !! me = Some c → at_pc c = Idle → mine c = [] →
  inv (put me (None, c <| c_sie := b |>) m).
Proof.
  intros Hi Hc Hp Hm. pose proof Hi as (Hok & _). destruct (Hok me c Hc) as (Hnd & Hno & Hd).
  apply (put_local m me c); [done..| | |].
  - split_and!; [done|exact Hno|]. cbn. intros H. destruct (Hd H) as [Hn _]. split; [done|].
    rewrite Hp, Hm in Hn. cbn in Hn. lia.
  - intros lk' E. exact E.
  - intros lk'. done.
Qed.

Lemma filter_absent (l : list Z) x : x ∉ l → filter (λ y, y ≠ x) l = l.
Proof.
  induction l as [|y l IH]; [done|]. intros [Hy Hl]%not_elem_of_cons.
  rewrite filter_cons_True by done. by rewrite IH.
Qed.

Lemma length_remove (l : list Z) x :
  NoDup l → x ∈ l → length l = S (length (filter (λ y, y ≠ x) l)).
Proof.
  induction l as [|y l IH]; [intros _ []%not_elem_of_nil|].
  intros [Hy Hnd]%NoDup_cons [->|Hx]%elem_of_cons.
  - rewrite filter_cons_False by tauto. by rewrite filter_absent.
  - rewrite filter_cons_True by (intros ->; done). cbn. by rewrite (IH Hnd Hx).
Qed.

Lemma check_inv m me c lk :
  inv m → cpus m !! me = Some c → at_pc c = AcqCheck lk ∨ at_pc c = RelCheck lk →
  inv (put me (continue me c (lock_at m)) m).
Proof.
  intros Hi Hc Hp. pose proof Hi as (Hok & _). destruct (Hok me c Hc) as (Hnd & Hno & Hd).
  unfold continue. destruct Hp as [Hp|Hp]; rewrite Hp in *; (apply (put_local m me c); [done..| | |]).
  all: try solve [intros lk'; unfold engaged, named; rewrite ?Hp; cbn; destruct (holding_locked _);
    first [intros [E|[[=]|[[=]|[=]]]]; by left|split; intros [|[=]]; by left]].
  all: cbn; split_and!; [done|intros lk'; by destruct (holding_locked _); intros [[=]|[[=]|[=]]]|].
  all: cbn; intros H; destruct (Hd ltac:(done)) as [Hn Hs]; split; [|done]; destruct (holding_locked _);
    first [exact Hn|by destruct (H "release")].
Qed.

Lemma check2_inv m me c lk :
  inv m → cpus m !! me = Some c → at_pc c = AcqCheck2 lk →
  inv (put me (continue me c (lock_at m)) m).
Proof.
  intros Hi Hc Hp. pose proof Hi as (Hok & _). destruct (Hok me c Hc) as (Hnd & Hno & Hd).
  unfold continue. rewrite Hp in *. apply (put_local m me c); [done..| | |].
  - split_and!; [done| |].
    + cbn. intros lk'. by destruct (holding_cpu _ _); intros [[=]|[[=]|[=]]].
    + cbn. intros H. destruct (Hd ltac:(done)) as [Hn Hs]. split; [|done].
      destruct (holding_cpu _ _); [by destruct (H "acquire")|exact Hn].
  - intros lk'. unfold engaged. cbn. destruct (holding_cpu _ _); intros [E|[[=]|[[=]|[=]]]]; by left.
  - intros lk'. unfold named. rewrite Hp. cbn. destruct (holding_cpu _ _); (split; intros [|[=]]; by left).
Qed.

Lemma spin_inv m me c lk :
  inv m → cpus m !! me = Some c → at_pc c = AcqSpin lk →
  inv (put me (continue me c (lock_at m)) m).
Proof.
  intros Hi Hc Hp. pose proof Hi as (Hok & Hex & Hlk & Hnm & Hdom).
  destruct (Hok me c Hc) as (Hnd & Hno & Hd). rewrite Hp in Hd.
  destruct (Hd ltac:(done)) as [Hn Hs]. unfold continue. rewrite Hp.
  apply (put_inv m me c); [done..| | | | | |]; cbn [snd].
  - split_and!; [done| |].
    + cbn. intros lk' Hc' Hin. destruct (Z.eqb_spec (locked (lock_at m lk)) 0) as [E|E];
        [|by destruct Hc' as [[=]|[[=]|[=]]]].
      assert (lk' = lk) as -> by (destruct Hc' as [[=]|[[=]|[=]]]; done).
      apply (Hlk me c lk Hc); [by left|done].
    + cbn. intros _. split; [|done]. by destruct (locked (lock_at m lk) =? 0).
  - intros lk'. unfold engaged. cbn. destruct (Z.eqb_spec (locked (lock_at m lk)) 0).
    + intros [E|[[= <-]|[[=]|[=]]]]; [by left; left|by right].
    + intros [E|[[=]|[[=]|[=]]]]. by left; left.
  - intros lk' E. rewrite lock_at_put. destruct (decide (lk' = lk)) as [->|Hne]; [done|].
    apply (Hlk me c lk' Hc). unfold engaged in E. cbn in E.
    destruct (locked (lock_at m lk) =? 0); destruct E as [E|[[=]|[[=]|[=]]]]; first [by left|congruence].
  - intros lk' E. left. rewrite lock_at_put. by destruct (decide (lk' = lk)).
  - intros lk'. rewrite lock_at_put. unfold named. cbn.
    transitivity (named c lk').
    { unfold named. rewrite Hp. destruct (locked (lock_at m lk) =? 0); (split; intros [|[=]]; by left). }
    rewrite (Hnm me c lk' Hc). by destruct (decide (lk' = lk)) as [->|].
  - intros lk' j Hj. rewrite lock_at_put. by destruct (decide (lk' = lk)) as [->|].
Qed.

Lemma set_inv m me c lk :
  inv m → cpus m !! me = Some c → at_pc c = AcqSet lk →
  inv (put me (continue me c (lock_at m)) m).
Proof.
  intros Hi Hc Hp. pose proof Hi as (Hok & Hex & Hlk & Hnm & Hdom).
  destruct (Hok me c Hc) as (Hnd & Hno & Hd). rewrite Hp in Hd.
  destruct (Hd ltac:(done)) as [Hn Hs]. unfold continue. rewrite Hp.
  assert (lk ∉ mine c) as Hnew by (apply Hno; by left).
  assert (engaged c lk) as He by (right; by left).
  apply (put_inv m me c); [done..| | | | | |]; cbn [snd].
  - split_and!.
    + cbn. by constructor.
    + intros lk' [[=]|[[=]|[=]]].
    + cbn in *. intros _. split; [lia|done].
  - intros lk'. unfold engaged at 1. cbn. intros [[->|E]%elem_of_cons|[[=]|[[=]|[=]]]]; left; [done|by left].
  - intros lk' E. rewrite lock_at_put. destruct (decide (lk' = lk)) as [->|Hne]; cbn.
    + by apply (Hlk me c lk Hc).
    + apply (Hlk me c lk' Hc). destruct E as [[->|E]%elem_of_cons|[[=]|[[=]|[=]]]]; [done|by left].
  - intros lk' E. left. rewrite lock_at_put. by destruct (decide (lk' = lk)) as [->|].
  - intros lk'. rewrite lock_at_put. destruct (decide (lk' = lk)) as [->|Hne]; cbn.
    + split; [done|]. intros _. left. by left.
    + rewrite <- (Hnm me c lk' Hc). unfold named. rewrite Hp. cbn. rewrite elem_of_cons.
      split; [intros [[->|]|[=]]; [done|by left]|intros [|[=]]; left; by right].
  - intros lk' j Hj. rewrite lock_at_put. destruct (decide (lk' = lk)) as [->|Hne]; cbn; [|done].
    split; [congruence|]. intros E. destruct (Hdom j lk E) as [cj Hcj]. destruct Hj.
    apply (Hex j me cj c lk); [done..| |done]. by apply named_engaged, (Hnm j cj lk Hcj).
Qed.

Lemma holding_cpu_named m me c lk :
  inv m → cpus m !! me = Some c → holding_cpu (lock_at m lk) me = true ↔ named c lk.
Proof.
  intros (_ & _ & _ & Hnm & _) Hc. unfold holding_cpu. rewrite bool_decide_eq_true.
  symmetry. by apply Hnm.
Qed.

Lemma holding_named m me c lk :
  inv m → cpus m !! me = Some c → holding (lock_at m lk) me = true ↔ named c lk.
Proof.
  intros (_ & _ & Hlk & Hnm & _) Hc. unfold holding, holding_locked, holding_cpu.
  rewrite andb_true_iff, negb_true_iff, Z.eqb_neq, bool_decide_eq_true.
  rewrite <- (Hnm me c lk Hc). split; [tauto|]. intros E. split; [|done].
  apply (Hlk me c lk Hc). by apply named_engaged.
Qed.

Lemma relcheck2_inv m me c lk :
  inv m → cpus m !! me = Some c → at_pc c = RelCheck2 lk →
  inv (put me (continue me c (lock_at m)) m).
Proof.
  intros Hi Hc Hp. pose proof Hi as (Hok & _). destruct (Hok me c Hc) as (Hnd & Hno & Hd).
  rewrite Hp in Hd. destruct (Hd ltac:(done)) as [Hn Hs]. unfold continue. rewrite Hp.
  destruct (holding_cpu (lock_at m lk) me) eqn:Eh.
  - apply (holding_cpu_named m me c lk Hi Hc) in Eh as [Hin|E]; [|congruence].
    apply (put_local m me c); [done..| | |].
    + split_and!; cbn.
      * by apply NoDup_filter.
      * intros lk' [[=]|[[= <-]|[=]]] [? _]%list_elem_of_filter. done.
      * intros _. rewrite (length_remove _ _ Hnd Hin) in Hn. cbn in Hn. split; [lia|done].
    + intros lk' [[_ E]%list_elem_of_filter|[[=]|[[= <-]|[=]]]]; by left.
    + intros lk'. unfold named. rewrite Hp. cbn. rewrite list_elem_of_filter. split.
      * intros [[_ E]|[= <-]]; by left.
      * intros [E|[=]]. destruct (decide (lk' = lk)) as [->|]; [by right|by left].
  - apply (put_local m me c); [done..| | |].
    + split_and!; [done|intros lk' [[=]|[[=]|[=]]]|]. intros H. by destruct (H "release").
    + intros lk' [E|[[=]|[[=]|[=]]]]. by left.
    + intros lk'. unfold named. rewrite Hp. cbn. split; intros [|[=]]; by left.
Qed.

Lemma relcpu_inv m me c lk :
  inv m → cpus m !! me = Some c → at_pc c = RelCpu lk →
  inv (put me (continue me c (lock_at m)) m).
Proof.
  intros Hi Hc Hp. pose proof Hi as (Hok & Hex & Hlk & Hnm & Hdom).
  destruct (Hok me c Hc) as (Hnd & Hno & Hd). rewrite Hp in Hd. unfold continue. rewrite Hp.
  assert (lk ∉ mine c) as Hout by (apply Hno; tauto).
  assert (engaged c lk) as He by (unfold engaged; tauto).
  assert (lk_cpu (lock_at m lk) = Some me) as Hme by (apply (Hnm me c lk Hc); by right).
  apply (put_inv m me c); [done..| | | | | |]; cbn [snd].
  - split_and!; [done| |intros _; by apply Hd]. intros lk' [[=]|[[=]|[= <-]]]. done.
  - intros lk' [E|[[=]|[[=]|[= <-]]]]; left; [by left|done].
  - intros lk' E. rewrite lock_at_put. destruct (decide (lk' = lk)) as [->|Hne]; cbn; [by apply (Hlk me c lk)|].
    apply (Hlk me c lk' Hc). destruct E as [E|[[=]|[[=]|[= <-]]]]; [by left|done].
  - intros lk' E. left. rewrite lock_at_put. by destruct (decide (lk' = lk)) as [->|].
  - intros lk'. rewrite lock_at_put. destruct (decide (lk' = lk)) as [->|Hne]; cbn.
    + split; [|done]. by intros [|[=]].
    + rewrite <- (Hnm me c lk' Hc). unfold named. rewrite Hp. cbn.
      split; [intros [|[=]]; by left|intros [|[= <-]]; [by left|done]].
  - intros lk' j Hj. rewrite lock_at_put. destruct (decide (lk' = lk)) as [->|Hne]; cbn; [|done].
    split; [done|congruence].
Qed.

Lemma relfree_inv m me c lk :
  inv m → cpus m !! me = Some c → at_pc c = RelFree lk →
  inv (put me (continue me c (lock_at m)) m).
Proof.
  intros Hi Hc Hp. pose proof Hi as (Hok & Hex & Hlk & Hnm & Hdom).
  destruct (Hok me c Hc) as (Hnd & Hno & Hd). rewrite Hp in Hd. unfold continue. rewrite Hp.
  assert (lk ∉ mine c) as Hout by (apply Hno; tauto).
  apply (put_inv m me c); [done..| | | | | |]; cbn [snd].
  - split_and!; [done|intros lk' [[=]|[[=]|[=]]]|intros _; by apply Hd].
  - intros lk' [E|[[=]|[[=]|[=]]]]. left. by left.
  - intros lk' [E|[[=]|[[=]|[=]]]]. rewrite lock_at_put.
    destruct (decide (lk' = lk)) as [->|Hne]; [done|]. apply (Hlk me c lk' Hc). by left.
  - intros lk' E. rewrite lock_at_put. destruct (decide (lk' = lk)) as [->|Hne]; [right|by left].
    unfold engaged. tauto.
  - intros lk'. rewrite lock_at_put.
    transitivity (named c lk').
    { unfold named. rewrite Hp. cbn. split; intros [|[=]]; by left. }
    rewrite (Hnm me c lk' Hc). by destruct (decide (lk' = lk)) as [->|].
  - intros lk' j Hj. rewrite lock_at_put. by destruct (decide (lk' = lk)) as [->|].
Qed.

Lemma pop_off_eq c :
  c_sie c = false → 1 ≤ noff c →
  pop_off c = inr (c <| noff ::= λ n, n - 1 |> <| c_sie := (noff c =? 1) && intena c |>).
Proof.
  intros Hs Hn. unfold pop_off. rewrite Hs. destruct (Z.ltb_spec (noff c) 1); [lia|]. f_equal.
  cbn. replace (noff c - 1 =? 0) with (noff c =? 1) by lia.
  destruct ((noff c =? 1) && intena c); [done|]. destruct c; cbn in *. by subst.
Qed.

Lemma relpop_inv m me c :
  inv m → cpus m !! me = Some c → at_pc c = RelPop →
  inv (put me (continue me c (lock_at m)) m).
Proof.
  intros Hi Hc Hp. pose proof Hi as (Hok & _). destruct (Hok me c Hc) as (Hnd & Hno & Hd).
  rewrite Hp in Hd. destruct (Hd ltac:(done)) as [Hn Hs]. cbn in Hn. unfold continue. rewrite Hp.
  rewrite pop_off_eq by first [apply Hs; lia|lia].
  apply (put_local m me c); [done..| | |].
  - split_and!; [done|intros lk' [[=]|[[=]|[=]]]|]. intros _. cbn. split; [lia|].
    intros H. destruct (Z.eqb_spec (noff c) 1); [lia|done].
  - intros lk' [E|[[=]|[[=]|[=]]]]. by left.
  - intros lk'. unfold named. rewrite Hp. cbn. split; intros [|[=]]; by left.
Qed.

Lemma continue_inv m me c :
  inv m → cpus m !! me = Some c → inv (put me (continue me c (lock_at m)) m).
Proof.
  intros Hi Hc. destruct (at_pc c) eqn:Hp;
    eauto using check_inv, check2_inv, spin_inv, set_inv, relcheck2_inv, relcpu_inv, relfree_inv, relpop_inv.
  - unfold continue. rewrite Hp. apply (put_local m me c); [done..| |done|done]. by eapply (proj1 Hi).
  - unfold continue. rewrite Hp. apply (put_local m me c); [done..| |done|done]. by eapply (proj1 Hi).
Qed.

Lemma step_inv m m' : inv m → step m m' → inv m'.
Proof. intros Hi Hs. revert Hi. destruct Hs; eauto using acquire_inv, release_inv, continue_inv, intr_inv. Qed.

Lemma boot_inv m : boot m → inv m.
Proof.
  intros [Hl Hb]. unfold inv, lock_at. rewrite Hl.
  assert (∀ me c lk, cpus m !! me = Some c → ¬ engaged c lk) as He.
  { intros me c lk Hc. destruct (Hb me c Hc) as (_ & Hp & Hm). unfold engaged. rewrite Hp, Hm.
    intros [[]%not_elem_of_nil|[[=]|[[=]|[=]]]]. }
  split_and!.
  - intros me c Hc. destruct (Hb me c Hc) as (Hn & Hp & Hm). unfold cpu_ok. rewrite Hp, Hm, Hn.
    split_and!; [constructor|intros lk [[=]|[[=]|[=]]]|]. intros _. split; [done|lia].
  - intros i j ci cj lk Hi Hj Ei. by destruct (He i ci lk Hi).
  - intros i c lk Hi Ei. by destruct (He i c lk Hi).
  - intros i c lk Hi. rewrite lookup_empty. cbn. split; [|done]. intros E%named_engaged. by destruct (He i c lk Hi).
  - intros i lk. rewrite lookup_empty. done.
Qed.

Lemma reachable_inv m0 m : boot m0 → reachable m0 m → inv m.
Proof. intros Hb. induction 1; [by apply boot_inv|by eapply step_inv]. Qed.

(** The two reads of holding(). *)
Lemma held_locked m me c lk :
  inv m → cpus m !! me = Some c → lk ∈ mine c → holding_locked (lock_at m lk) = true.
Proof.
  intros (_ & _ & Hlk & _) Hc E. unfold holding_locked. apply negb_true_iff, Z.eqb_neq.
  apply (Hlk me c lk Hc). by left.
Qed.

Lemma holding_cpu_mine m me c lk :
  inv m → cpus m !! me = Some c → at_pc c ≠ RelCpu lk →
  holding_cpu (lock_at m lk) me = bool_decide (lk ∈ mine c).
Proof.
  intros Hi Hc Hp. apply eq_true_iff_eq. rewrite (holding_cpu_named m me c lk Hi Hc), bool_decide_eq_true.
  unfold named. tauto.
Qed.

(** ** Theorems *)

(** C6: mutual exclusion: however the processors interleave the steps of their
    acquire() and release() calls, and whatever calls they make, a lock that
    one processor has acquired and not yet begun to release is held by no
    other. *)
Theorem mutual_exclusion m0 m i j ci cj lk :
  boot m0 → reachable m0 m → cpus m !! i = Some ci → cpus m !! j = Some cj →
  lk ∈ mine ci → lk ∈ mine cj → i = j.
Proof.
  intros Hb Hr Hi Hj Ei Ej. destruct (reachable_inv m0 m Hb Hr) as (_ & Hex & _).
  by apply (Hex i j ci cj lk Hi Hj); left.
Qed.

(** holding() tells the truth although other processors change the two
    fields between its reads of them.  In every reachable state, acquire() and
    release() find the lock taken when this processor holds it, and their second
    read makes acquire() panic exactly on a lock the processor already holds and
    release() exactly on one it does not.  Interrupts are off whenever the
    processor holds a lock, and noff counts its locks between calls. *)
Theorem holding_correct m0 m me c lk :
  boot m0 → reachable m0 m → cpus m !! me = Some c →
  let next := at_pc (continue me c (lock_at m)).2 in
  (at_pc c = AcqCheck lk →
     if decide (lk ∈ mine c) then next = AcqCheck2 lk else next = AcqCheck2 lk ∨ next = AcqSpin lk) ∧
  (at_pc c = AcqCheck2 lk → next = if decide (lk ∈ mine c) then Dead "acquire" else AcqSpin lk) ∧
  (at_pc c = RelCheck lk →
     if decide (lk ∈ mine c) then next = RelCheck2 lk else next = RelCheck2 lk ∨ next = Dead "release") ∧
  (at_pc c = RelCheck2 lk → next = if decide (lk ∈ mine c) then RelCpu lk else Dead "release") ∧
  (at_pc c = Idle → noff c = length (mine c) ∧ (mine c ≠ [] → c_sie c = false)).
Proof.
  intros Hb Hr Hc next. pose proof (reachable_inv m0 m Hb Hr) as Hi. subst next. unfold continue.
  split_and!; intros Hp; rewrite ?Hp; cbn [snd].
  - destruct (decide (lk ∈ mine c)) as [E|E].
    + by rewrite (held_locked m me c lk Hi Hc E).
    + cbn. destruct (holding_locked _); tauto.
  - rewrite (holding_cpu_mine m me c lk Hi Hc) by congruence.
    destruct (decide (lk ∈ mine c)); [by rewrite bool_decide_eq_true_2|by rewrite bool_decide_eq_false_2].
  - destruct (decide (lk ∈ mine c)) as [E|E].
    + by rewrite (held_locked m me c lk Hi Hc E).
    + cbn. destruct (holding_locked _); tauto.
  - rewrite (holding_cpu_mine m me c lk Hi Hc) by congruence.
    destruct (decide (lk ∈ mine c)); [by rewrite bool_decide_eq_true_2|by rewrite bool_decide_eq_false_2].
  - destruct (proj1 Hi me c Hc) as (_ & _ & Hd). rewrite Hp in Hd.
    destruct (Hd ltac:(done)) as [Hn Hs]. cbn in Hn. split; [lia|].
    intros Hm. apply Hs. destruct (mine c); [done|]. cbn in Hn. lia.
Qed.
