(* ===== verification/SpinlockRefine.v ===== *)
(** * The kernel model's locks are spinlock.c's

    The rest of the development uses acquire and release on the list of locks
    the executing thread holds ([Machine]).  Here the steps of [Spinlock] on
    one processor are shown to implement them, interrupts included, and the
    theorems about interleavings get their concrete instances. *)

From Stdlib Require Import ZArith Lia.
From stdpp Require Import base numbers strings option list gmap.
From S2P Require Import Prelude Params Machine Spinlock.

Open Scope Z_scope.

(** Processor [me] takes its next step. *)
Definition advance (me : nat) (m : smp) : smp :=
  match cpus m !! me with
  | Some c => put me (continue me c (lock_at m)) m
  | None => m
  end.

(** A whole call when no other processor interferes: the first step and the
    [n] that follow. *)
Definition call (n : nat) (me : nat) (f : cpu → cpu) (m : smp) : smp :=
  match cpus m !! me with
  | Some c => Nat.iter n (advance me) (put me (None, f c) m)
  | None => m
  end.

Lemma lookup_put me r m c : cpus m !! me = Some c → cpus (put me r m) !! me = Some r.2.
Proof. intros Hc. cbn. rewrite list_lookup_insert_eq; [done|]. by eapply lookup_lt_Some. Qed.

(** One step whose effect is known. *)
Lemma advance_eq me m c r :
  inv m → cpus m !! me = Some c → continue me c (lock_at m) = r →
  advance me m = put me r m ∧ inv (put me r m) ∧ cpus (put me r m) !! me = Some r.2.
Proof.
  intros Hi Hc <-. unfold advance. rewrite Hc. split; [done|].
  split; [by apply continue_inv|by eapply lookup_put].
Qed.

Section refine.
Context (addr : lockid → Z) (addr_inj : Inj eq eq addr).

(** The processor state [c] represents the thread's locks and interrupt flag. *)
Definition represents (c : cpu) (s : kernel) : Prop :=
  at_pc c = Idle ∧ mine c = addr <$> held s ∧
  (held s = [] → c_sie c = sie s) ∧ (held s ≠ [] → intena c = sie s).

Definition related (me : nat) (m : smp) (s : kernel) : Prop :=
  inv m ∧ ∃ c, cpus m !! me = Some c ∧ represents c s.

Lemma elem_addr l (h : list lockid) : addr l ∈ addr <$> h ↔ l ∈ h.
Proof. apply list_elem_of_fmap_inj. done. Qed.

(** intr_get() reads the processor's bit. *)
Lemma intr_get_represents me m s c :
  inv m → cpus m !! me = Some c → represents c s →
  Machine.intr_get s = Ret (c_sie c) s.
Proof.
  intros Hi Hc (Hp & Hm & H0 & H1). unfold Machine.intr_get, gets. f_equal.
  destruct (proj1 Hi me c Hc) as (_ & _ & Hd). rewrite Hp in Hd.
  destruct (Hd ltac:(done)) as [Hn Hs]. rewrite Hm in Hn. cbn in Hn.
  destruct (decide (held s = [])) as [E|E].
  - rewrite bool_decide_eq_true_2, andb_true_r by done. symmetry. by apply H0.
  - rewrite bool_decide_eq_false_2, andb_false_r by done. symmetry. apply Hs.
    rewrite length_fmap in Hn. destruct (held s); [done|]. cbn in Hn. lia.
Qed.

Lemma represents_noff me m c s :
  inv m → cpus m !! me = Some c → represents c s → noff c = length (held s).
Proof.
  intros Hi Hc (Hp & Hm & _). destruct (proj1 Hi me c Hc) as (_ & _ & Hd). rewrite Hp in Hd.
  destruct (Hd ltac:(done)) as [Hn _]. rewrite Hm, length_fmap in Hn. cbn in Hn. lia.
Qed.

Lemma holding_represents me m c s l :
  inv m → cpus m !! me = Some c → represents c s →
  Spinlock.holding (lock_at m (addr l)) me = bool_decide (l ∈ held s).
Proof.
  intros Hi Hc (Hp & Hm & _). apply eq_true_iff_eq. rewrite bool_decide_eq_true.
  rewrite (holding_named m me c (addr l) Hi Hc). unfold named. rewrite Hp, Hm, elem_addr.
  split; [by intros [|[=]]|by left].
Qed.

(** What holding() reads when the thread holds the lock. *)
Lemma reads_represents me m c s l :
  inv m → cpus m !! me = Some c → represents c s →
  holding_cpu (lock_at m (addr l)) me = bool_decide (l ∈ held s) ∧
  (l ∈ held s → holding_locked (lock_at m (addr l)) = true).
Proof.
  intros Hi Hc (Hp & Hm & _). split.
  - rewrite (holding_cpu_mine m me c (addr l) Hi Hc) by congruence. rewrite Hm.
    apply bool_decide_ext, elem_addr.
  - intros Hl. apply (held_locked m me c (addr l) Hi Hc). rewrite Hm. by apply elem_addr.
Qed.

(** acquire() of a free lock the thread does not hold: push_off(), the check,
    the swap and the store. *)
Lemma acquire_represents me m s l :
  related me m s → l ∉ held s → locked (lock_at m (addr l)) = 0 →
  related me (call 3 me (Spinlock.acquire (addr l)) m) (s <| held ::= cons l |>).
Proof.
  intros (Hi & c & Hc & Hr) Hl Hf. unfold call. rewrite Hc.
  pose proof (represents_noff me m c s Hi Hc Hr) as Hn.
  assert (holding_locked (lock_at m (addr l)) = false) as Hh by (unfold holding_locked; by rewrite Hf).
  destruct Hr as (Hp & Hm & H0 & H1).
  set (lk := addr l) in *. set (c1 := Spinlock.acquire lk c).
  assert (inv (put me (None, c1) m)) as Hi1 by (by apply acquire_inv).
  pose proof (lookup_put me (None, c1) m c Hc) as Hc1. set (m1 := put me (None, c1) m) in *.
  destruct (advance_eq me m1 c1 (None, c1 <| at_pc := AcqSpin lk |>) Hi1 Hc1) as (E2 & Hi2 & Hc2).
  { cbn. unfold m1. rewrite lock_at_put_none, Hh. done. }
  set (c2 := c1 <| at_pc := AcqSpin lk |>) in *. set (m2 := put me (None, c2) m1) in *.
  destruct (advance_eq me m2 c2 (Some (lk, lock_at m lk <| locked := 1 |>), c2 <| at_pc := AcqSet lk |>) Hi2 Hc2)
    as (E3 & Hi3 & Hc3).
  { cbn. unfold m2. rewrite lock_at_put_none. unfold m1. rewrite lock_at_put_none, Hf. done. }
  set (c3 := c2 <| at_pc := AcqSet lk |>) in *. set (m3 := put me (_, c3) m2) in *.
  destruct (advance_eq me m3 c3 _ Hi3 Hc3 eq_refl) as (E4 & Hi4 & Hc4).
  change (Nat.iter 3 (advance me) m1) with (advance me (advance me (advance me m1))).
  rewrite E2, E3, E4. split; [exact Hi4|]. eexists. split; [exact Hc4|].
  unfold represents. split_and!.
  - reflexivity.
  - cbn. unfold push_off. destruct (_ =? 0); cbn; by rewrite Hm.
  - done.
  - intros _. change (intena (push_off c) = sie s). unfold push_off. cbn.
    destruct (Z.eqb_spec (noff c) 0) as [E|E]; cbn.
    + apply H0. destruct (held s); [done|]. cbn in Hn. lia.
    + apply H1. intros Hnil. rewrite Hnil in Hn. done.
Qed.

Lemma filter_remove1 l h :
  NoDup (addr <$> h) → filter (λ x, x ≠ addr l) (addr <$> h) = addr <$> remove1 l h.
Proof.
  induction h as [|x h IH]; [done|]. intros [Hx Hnd]%NoDup_cons. cbn [fmap list_fmap remove1] in *.
  destruct (decide (x = l)) as [->|Hne].
  - rewrite filter_cons_False by tauto. by apply filter_absent.
  - rewrite filter_cons_True by (intros E; by apply addr_inj in E). cbn. f_equal. by apply IH.
Qed.

(** release() of a held lock: the check, the two stores and pop_off(). *)
Lemma release_represents me m s l :
  related me m s → l ∈ held s →
  related me (call 5 me (Spinlock.release (addr l)) m) (s <| held ::= remove1 l |>).
Proof.
  intros (Hi & c & Hc & Hr) Hl. unfold call. rewrite Hc.
  pose proof (represents_noff me m c s Hi Hc Hr) as Hn.
  destruct (reads_represents me m c s l Hi Hc Hr) as [Hh Hk].
  rewrite bool_decide_eq_true_2 in Hh by done. specialize (Hk Hl). destruct Hr as (Hp & Hm & H0 & H1).
  destruct (proj1 Hi me c Hc) as (Hnd & _ & _).
  set (lk := addr l) in *. set (c1 := Spinlock.release lk c).
  assert (inv (put me (None, c1) m)) as Hi1 by (by apply release_inv).
  pose proof (lookup_put me (None, c1) m c Hc) as Hc1. set (m1 := put me (None, c1) m) in *.
  destruct (advance_eq me m1 c1 (None, c1 <| at_pc := RelCheck2 lk |>) Hi1 Hc1) as (E1 & Hi1' & Hc1').
  { cbn. unfold m1. by rewrite lock_at_put_none, Hk. }
  set (c1' := c1 <| at_pc := RelCheck2 lk |>) in *. set (m1' := put me (None, c1') m1) in *.
  destruct (advance_eq me m1' c1' (None, c1' <| at_pc := RelCpu lk |> <| mine ::= filter (λ x, x ≠ lk) |>) Hi1' Hc1')
    as (E2 & Hi2 & Hc2).
  { cbn. unfold m1'. rewrite lock_at_put_none. unfold m1. by rewrite lock_at_put_none, Hh. }
  set (c2 := c1' <| at_pc := _ |> <| mine ::= _ |>) in *. set (m2 := put me (None, c2) m1') in *.
  destruct (advance_eq me m2 c2 (Some (lk, lock_at m2 lk <| lk_cpu := None |>), c2 <| at_pc := RelFree lk |>)
    Hi2 Hc2 eq_refl) as (E3 & Hi3 & Hc3).
  set (c3 := c2 <| at_pc := RelFree lk |>) in *. set (m3 := put me (_, c3) m2) in *.
  destruct (advance_eq me m3 c3 (Some (lk, lock_at m3 lk <| locked := 0 |>), c3 <| at_pc := RelPop |>)
    Hi3 Hc3 eq_refl) as (E4 & Hi4 & Hc4).
  set (c4 := c3 <| at_pc := RelPop |>) in *. set (m4 := put me (_, c4) m3) in *.
  assert (noff c4 = noff c) as Hn4 by reflexivity.
  assert (0 < noff c) as Hpos by (rewrite Hn; destruct (held s); [by apply not_elem_of_nil in Hl|cbn; lia]).
  assert (c_sie c4 = false) as Hs4.
  { destruct (proj1 Hi4 me c4 Hc4) as (_ & _ & Hd). destruct (Hd ltac:(done)) as [_ Hs]. apply Hs. lia. }
  destruct (advance_eq me m4 c4 (None, c4 <| noff ::= λ n, n - 1 |> <| c_sie := (noff c4 =? 1) && intena c4 |>
    <| at_pc := Idle |>) Hi4 Hc4) as (E5 & Hi5 & Hc5).
  { unfold continue. change (at_pc c4) with RelPop. cbv iota. by rewrite pop_off_eq by (done || lia). }
  change (Nat.iter 5 (advance me) m1) with (advance me (advance me (advance me (advance me (advance me m1))))).
  rewrite E1, E2, E3, E4, E5. split; [exact Hi5|]. eexists. split; [exact Hc5|].
  rewrite Hm in Hnd. unfold represents. split_and!.
  - reflexivity.
  - change (filter (λ x, x ≠ lk) (mine c) = addr <$> remove1 l (held s)). rewrite Hm. by apply filter_remove1.
  - cbn. intros Hnil. assert (length (held s) = 1%nat) as Hone.
    { rewrite <- (length_fmap addr (held s)), <- Hm.
      rewrite (length_remove (mine c) lk); [|by rewrite Hm|rewrite Hm; by apply elem_addr].
      subst lk. rewrite Hm, filter_remove1, Hnil by done. done. }
    rewrite Hn, Hone. cbn. apply H1. intros E. by rewrite E in Hone.
  - intros _. cbn. apply H1. intros E. rewrite E in Hl. by apply not_elem_of_nil in Hl.
Qed.

(** A call that panics: the message, at the check. *)
Lemma acquire_dead me m s l :
  related me m s → l ∈ held s →
  at_pc <$> cpus (call 2 me (Spinlock.acquire (addr l)) m) !! me = Some (Dead "acquire").
Proof.
  intros (Hi & c & Hc & Hr) Hl. unfold call. rewrite Hc.
  destruct (reads_represents me m c s l Hi Hc Hr) as [Hh Hk]. rewrite bool_decide_eq_true_2 in Hh by done.
  specialize (Hk Hl). destruct Hr as (Hp & _). set (c1 := Spinlock.acquire (addr l) c).
  assert (inv (put me (None, c1) m)) as Hi1 by (by apply acquire_inv).
  pose proof (lookup_put me (None, c1) m c Hc) as Hc1. set (m1 := put me (None, c1) m) in *.
  destruct (advance_eq me m1 c1 (None, c1 <| at_pc := AcqCheck2 (addr l) |>) Hi1 Hc1) as (E2 & Hi2 & Hc2).
  { cbn. unfold m1. by rewrite lock_at_put_none, Hk. }
  set (c2 := c1 <| at_pc := _ |>) in *. set (m2 := put me (None, c2) m1) in *.
  destruct (advance_eq me m2 c2 (None, c2 <| at_pc := Dead "acquire" |>) Hi2 Hc2) as (E3 & Hi3 & Hc3).
  { cbn. unfold m2. rewrite lock_at_put_none. unfold m1. by rewrite lock_at_put_none, Hh. }
  change (Nat.iter 2 (advance me) m1) with (advance me (advance me m1)). rewrite E2, E3, Hc3. done.
Qed.

(** release() of a lock the thread does not hold panics in its first or second
    check. *)
Lemma release_dead me m s l :
  related me m s → l ∉ held s →
  at_pc <$> cpus (call 2 me (Spinlock.release (addr l)) m) !! me = Some (Dead "release").
Proof.
  intros (Hi & c & Hc & Hr) Hl. unfold call. rewrite Hc.
  destruct (reads_represents me m c s l Hi Hc Hr) as [Hh _]. rewrite bool_decide_eq_false_2 in Hh by done.
  destruct Hr as (Hp & _). set (c1 := Spinlock.release (addr l) c).
  assert (inv (put me (None, c1) m)) as Hi1 by (by apply release_inv).
  pose proof (lookup_put me (None, c1) m c Hc) as Hc1. set (m1 := put me (None, c1) m) in *.
  set (r := if holding_locked (lock_at m (addr l)) then RelCheck2 (addr l) else Dead "release").
  destruct (advance_eq me m1 c1 (None, c1 <| at_pc := r |>) Hi1 Hc1) as (E2 & Hi2 & Hc2); [done|].
  set (c2 := c1 <| at_pc := r |>) in *. set (m2 := put me (None, c2) m1) in *.
  destruct (advance_eq me m2 c2 (None, c2 <| at_pc := Dead "release" |>) Hi2 Hc2) as (E3 & Hi3 & Hc3).
  { unfold continue. change (at_pc c2) with r. unfold r. destruct (holding_locked _) eqn:E; [|done].
    unfold m2. rewrite lock_at_put_none. unfold m1. by rewrite lock_at_put_none, Hh. }
  change (Nat.iter 2 (advance me) m1) with (advance me (advance me m1)). rewrite E2, E3, Hc3. done.
Qed.

(** C26: the lock operations the kernel model uses are implemented by
    spinlock.c: with noff, intena and the interrupt bit of the processor
    representing the list of held locks, acquire() of a free lock and release()
    run their steps to the end and represent the new list, the interrupt flag
    of the thread is saved and restored across nested calls, the panics agree,
    and intr_get() is the processor's bit. *)
Theorem spinlock_refines me m s l :
  related me m s →
  (match Machine.acquire l s with
   | Ret _ s' => locked (lock_at m (addr l)) = 0 →
                 related me (call 3 me (Spinlock.acquire (addr l)) m) s'
   | Panic msg _ => at_pc <$> cpus (call 2 me (Spinlock.acquire (addr l)) m) !! me = Some (Dead msg)
   | _ => False
   end) ∧
  (match Machine.release l s with
   | Ret _ s' => related me (call 5 me (Spinlock.release (addr l)) m) s'
   | Panic msg _ => at_pc <$> cpus (call 2 me (Spinlock.release (addr l)) m) !! me = Some (Dead msg)
   | _ => False
   end) ∧
  ∃ c, cpus m !! me = Some c ∧ Machine.intr_get s = Ret (c_sie c) s.
Proof.
  intros Hr. split_and!.
  - destruct (decide (l ∈ held s)) as [Hl|Hl].
    + rewrite acquire_held by done. by eapply acquire_dead.
    + rewrite acquire_free by done. by apply acquire_represents.
  - destruct (decide (l ∈ held s)) as [Hl|Hl].
    + rewrite release_held by done. by apply release_represents.
    + rewrite release_free by done. by eapply release_dead.
  - destruct Hr as (Hi & c & Hc & Hr). exists c. split; [done|]. by eapply intr_get_represents.
Qed.
End refine.

(** ** Examples *)

(** Two processors; the first has taken lock 7, the second is spinning on it. *)
Definition ex_boot : smp := mkSmp [mkCpu 0 false true Idle []; mkCpu 0 false true Idle []] ∅.

Definition ex_smp : smp :=
  Nat.iter 2 (advance 1) (put 1 (None, Spinlock.acquire 7 (mkCpu 0 false true Idle []))
    (call 3 0 (Spinlock.acquire 7) ex_boot)).

Lemma ex_boot_ok : boot ex_boot.
Proof. split; [done|]. intros [|[|me]] c [= <-]; done. Qed.

Lemma reach_advance m0 m me : reachable m0 m → is_Some (cpus m !! me) → reachable m0 (advance me m).
Proof.
  intros Hr [c Hc]. unfold advance. rewrite Hc. eapply reach_step; [done|]. by constructor.
Qed.

Lemma ex_taken_reachable : reachable ex_boot (call 3 0 (Spinlock.acquire 7) ex_boot).
Proof.
  do 3 (apply (reach_advance _ _ 0); [|by eexists]).
  eapply reach_step; [constructor|]. by apply (step_acquire ex_boot 0 _ 7).
Qed.

Lemma ex_smp_reachable : reachable ex_boot ex_smp.
Proof.
  do 2 (apply (reach_advance _ _ 1); [|by eexists]).
  eapply reach_step; [exact ex_taken_reachable|]. by apply (step_acquire _ 1 (mkCpu 0 false true Idle []) 7).
Qed.

Lemma mutual_exclusion_witness :
  (∃ c, cpus ex_smp !! 0%nat = Some c ∧ 7 ∈ mine c) ∧
  (∀ j c, cpus ex_smp !! j = Some c → 7 ∈ mine c → 0%nat = j).
Proof.
  assert (cpus ex_smp !! 0%nat = Some (mkCpu 1 true false Idle [7])) as H0 by (vm_compute; reflexivity).
  split.
  - exists (mkCpu 1 true false Idle [7]). split; [exact H0|left].
  - intros j c Hc Hin.
    apply (mutual_exclusion ex_boot ex_smp 0 j (mkCpu 1 true false Idle [7]) c 7 ex_boot_ok
             ex_smp_reachable H0 Hc); [left|exact Hin].
Defined.

(** The second processor has seen the lock taken and is about to read its owner. *)
Definition ex_check : smp :=
  advance 1 (put 1 (None, Spinlock.acquire 7 (mkCpu 0 false true Idle []))
    (call 3 0 (Spinlock.acquire 7) ex_boot)).

Lemma holding_correct_witness :
  at_pc (continue 1 (mkCpu 1 true false (AcqCheck2 7) []) (lock_at ex_check)).2 = AcqSpin 7.
Proof.
  assert (reachable ex_boot ex_check) as Hr.
  { apply (reach_advance _ _ 1); [|by eexists].
    eapply reach_step; [exact ex_taken_reachable|]. by apply (step_acquire _ 1 (mkCpu 0 false true Idle []) 7). }
  destruct (holding_correct ex_boot ex_check 1 (mkCpu 1 true false (AcqCheck2 7) []) 7 ex_boot_ok Hr)
    as (_ & H & _).
  - vm_compute. reflexivity.
  - rewrite H by reflexivity. reflexivity.
Defined.

(** Some addresses for the locks. *)
Definition ex_addr (l : lockid) : Z :=
  match l with
  | kmem_lock => 0 | pid_lock => 1 | wait_lock => 2 | tickslock => 3 | bcache_lock => 4
  | log_lock => 5 | itable_lock => 6 | ftable_lock => 7 | cons_lock => 8 | uart_tx_lock => 9
  | vdisk_lock => 10 | pr_lock => 11
  | proc_lock p => 16 + 4 * p
  | pipe_lock pi => 17 + 4 * (if 0 <=? pi then 2 * pi else - 2 * pi - 1)
  | sleep_lk (buf_sleeplock b) => 18 + 4 * b
  | sleep_lk (inode_sleeplock ip) => 19 + 4 * ip
  end.

Lemma ex_addr_inj : Inj eq eq ex_addr.
Proof.
  intros x y. destruct x as [| | | | | | | | | | | |p|pi|[b|b]], y as [| | | | | | | | | | | |p'|pi'|[b'|b']];
    cbn; intros E; try lia; try done;
    repeat match goal with H : context [0 <=? ?x] |- _ => destruct (Z.leb_spec 0 x) end;
    first [lia|do 2 f_equal; lia|f_equal; lia].
Qed.

Definition ex_thread : kernel := kernel0 <| sie := true |>.

Lemma spinlock_refines_witness :
  related ex_addr 0 (call 3 0 (Spinlock.acquire (ex_addr kmem_lock)) ex_boot)
    (ex_thread <| held ::= cons kmem_lock |>).
Proof.
  assert (related ex_addr 0 ex_boot ex_thread) as H.
  { split; [apply boot_inv, ex_boot_ok|]. eexists. split; [reflexivity|]. split_and!; done. }
  pose proof (spinlock_refines ex_addr ex_addr_inj 0 ex_boot ex_thread kmem_lock H) as [Ha _].
  apply Ha. reflexivity.
Defined.
