(* ===== verification/Cstring.v ===== *)
(** * kernel/string.c

    The memory functions work on physical memory by address.  The string
    functions get a [char *] as the list of bytes from the pointer to the end
    of the object it points into; reading or writing past that end is
    undefined behaviour in C and [None] here.  [char] is unsigned on RISC-V. *)

From Stdlib Require Import ZArith Lia.
From stdpp Require Import base numbers option list gmap.
From S2P Require Import Prelude Params Machine.

Open Scope Z_scope.

(** ** Memory functions *)

Definition memset (m : gmap Z Z) (dst c n : Z) : gmap Z Z :=
  foldl (λ m i, store8 m (dst + i) c) m (seqZ 0 n).

Fixpoint memcmp_loop (m : gmap Z Z) (n : nat) (s1 s2 : Z) : Z :=
  match n with
  | O => 0
  | S n =>
      if negb (load8 m s1 =? load8 m s2) then load8 m s1 - load8 m s2
      else memcmp_loop m n (s1 + 1) (s2 + 1)
  end.
Definition memcmp (m : gmap Z Z) (v1 v2 n : Z) : Z := memcmp_loop m (Z.to_nat n) v1 v2.

Fixpoint move_fwd (n : nat) (m : gmap Z Z) (d s : Z) : gmap Z Z :=
  match n with
  | O => m
  | S n => move_fwd n (store8 m d (load8 m s)) (d + 1) (s + 1)
  end.

Fixpoint move_bwd (n : nat) (m : gmap Z Z) (d s : Z) : gmap Z Z :=
  match n with
  | O => m
  | S n => move_bwd n (store8 m (d - 1) (load8 m (s - 1))) (d - 1) (s - 1)
  end.

Definition memmove (m : gmap Z Z) (dst src n : Z) : gmap Z Z :=
  if n =? 0 then m
  else if (src <? dst) && (dst <? src + n) then move_bwd (Z.to_nat n) m (dst + n) (src + n)
  else move_fwd (Z.to_nat n) m dst src.

Definition memcpy (m : gmap Z Z) (dst src n : Z) : gmap Z Z := memmove m dst src n.

(** ** String functions *)

Fixpoint strncmp (p q : list Z) (n : nat) {struct n} : option Z :=
  match n with
  | O => Some 0
  | S n =>
      match p, q with
      | a :: p, b :: q =>
          if negb (a =? 0) && (a =? b) then strncmp p q n else Some (a - b)
      | _, _ => None
      end
  end.

(** [while(n-- > 0) *s++ = 0;] *)
Fixpoint zero_fill (s : list Z) (n : nat) {struct n} : option (list Z) :=
  match n with
  | O => Some s
  | S n => match s with [] => None | _ :: s => cons 0 <$> zero_fill s n end
  end.

(** The new contents of the object [s]. *)
Fixpoint strncpy (s t : list Z) (n : nat) {struct n} : option (list Z) :=
  match n with
  | O => Some s
  | S n =>
      match s, t with
      | _ :: s, c :: t =>
          if c =? 0 then cons c <$> zero_fill s n else cons c <$> strncpy s t n
      | _, _ => None
      end
  end.

(** [*s = 0;] *)
Definition put_nul (s : list Z) : option (list Z) :=
  match s with [] => None | _ :: s => Some (0 :: s) end.

(** [k] is the value of [n] after the loop's [--n]. *)
Fixpoint safestrcpy_loop (s t : list Z) (k : nat) {struct k} : option (list Z) :=
  match k with
  | O => put_nul s
  | S k =>
      match s, t with
      | _ :: s, c :: t =>
          if c =? 0 then cons c <$> put_nul s else cons c <$> safestrcpy_loop s t k
      | _, _ => None
      end
  end.
Definition safestrcpy (s t : list Z) (n : Z) : option (list Z) :=
  if n <=? 0 then Some s else safestrcpy_loop s t (Z.to_nat (n - 1)).

Fixpoint strlen (s : list Z) : option Z :=
  match s with
  | [] => None
  | c :: s => if c =? 0 then Some 0 else (λ n, n + 1) <$> strlen s
  end.

(** The string an object holds: its bytes before the first NUL. *)
Fixpoint cstr (s : list Z) : list Z :=
  match s with
  | [] => []
  | c :: s => if c =? 0 then [] else c :: cstr s
  end.

(** ** Lemmas: memory functions *)

Lemma memset_succ m dst c (n : nat) :
  memset m dst c (S n) = store8 (memset m dst c n) (dst + n) c.
Proof.
  unfold memset. rewrite seqZ_S, foldl_app. simpl. by rewrite Z.add_0_l.
Qed.

Lemma load8_memset m dst c n b :
  load8 (memset m dst c n) b = if decide (dst ≤ b < dst + n) then u8 c else load8 m b.
Proof.
  destruct (decide (n ≤ 0)) as [Hn|Hn].
  { unfold memset. rewrite seqZ_nil by lia. simpl. rewrite decide_False by lia. done. }
  rewrite <-(Z2Nat.id n) by lia. generalize (Z.to_nat n) as k. clear n Hn.
  induction k as [|k IH].
  - unfold memset. rewrite seqZ_nil by lia. simpl. rewrite decide_False by lia. done.
  - rewrite memset_succ. destruct (decide (b = dst + k)) as [->|Hb].
    + rewrite load8_store8_eq, decide_True by lia. done.
    + rewrite load8_store8_ne by done. rewrite IH.
      repeat case_decide; try done; lia.
Qed.

Lemma load_memset_out (k : nat) m dst c n b :
  b + k ≤ dst ∨ dst + n ≤ b → load k (memset m dst c n) b = load k m b.
Proof.
  intros H. apply load_ext. intros x Hx. rewrite load8_memset, decide_False; [done|lia].
Qed.

Lemma load64_memset_zero m dst n b :
  dst ≤ b → b + 8 ≤ dst + n → load64 (memset m dst 0 n) b = 0.
Proof.
  intros H1 H2. unfold load64. simpl.
  rewrite !load8_memset, !decide_True by lia. done.
Qed.

Lemma move_fwd_spec (n : nat) m d s b :
  d ≤ s ∨ s + n ≤ d →
  load8 (move_fwd n m d s) b =
    if decide (d ≤ b < d + n) then load8 m (s + (b - d)) else load8 m b.
Proof.
  revert m d s. induction n as [|n IH]; intros m d s H.
  - rewrite decide_False by lia. done.
  - simpl move_fwd. rewrite IH by lia. destruct (decide (b = d)) as [->|Hb].
    + rewrite decide_False, load8_store8_eq by lia. rewrite decide_True by lia.
      rewrite Z.sub_diag, Z.add_0_r. apply Z.mod_small, load8_range.
    + repeat case_decide; try lia.
      * rewrite load8_store8_ne by lia. f_equal. lia.
      * rewrite load8_store8_ne by lia. done.
Qed.

Lemma move_bwd_spec (n : nat) m d s b :
  s ≤ d ∨ d ≤ s - n →
  load8 (move_bwd n m d s) b =
    if decide (d - n ≤ b < d) then load8 m (s + (b - d)) else load8 m b.
Proof.
  revert m d s. induction n as [|n IH]; intros m d s H.
  - rewrite decide_False by lia. done.
  - simpl move_bwd. rewrite IH by lia. destruct (decide (b = d - 1)) as [->|Hb].
    + rewrite decide_False, load8_store8_eq by lia. rewrite decide_True by lia.
      replace (s + (d - 1 - d)) with (s - 1) by lia. apply Z.mod_small, load8_range.
    + repeat case_decide; try lia.
      * rewrite load8_store8_ne by lia. f_equal. lia.
      * rewrite load8_store8_ne by lia. done.
Qed.

Lemma load8_memmove m dst src n b :
  0 ≤ n →
  load8 (memmove m dst src n) b =
    if decide (dst ≤ b < dst + n) then load8 m (src + (b - dst)) else load8 m b.
Proof.
  intros Hn. unfold memmove. destruct (Z.eqb_spec n 0) as [->|Hn0].
  { rewrite decide_False by lia. done. }
  destruct ((src <? dst) && (dst <? src + n)) eqn:E.
  - rewrite move_bwd_spec by lia. rewrite Z2Nat.id by lia.
    repeat case_decide; try lia; f_equal; lia.
  - rewrite move_fwd_spec by lia. rewrite Z2Nat.id by lia. done.
Qed.

Lemma load_memmove_out (k : nat) m dst src n b :
  0 ≤ n → b + k ≤ dst ∨ dst + n ≤ b → load k (memmove m dst src n) b = load k m b.
Proof.
  intros Hn H. apply load_ext. intros x Hx. rewrite load8_memmove by done.
  rewrite decide_False; [done|lia].
Qed.

(** ** Lemmas: strings *)

Lemma zero_fill_eq s n :
  (n ≤ length s)%nat → zero_fill s n = Some (replicate n 0 ++ drop n s).
Proof.
  revert s. induction n as [|n IH]; intros s H; [done|].
  destruct s as [|x s]; simpl in *; [lia|]. rewrite IH by lia. done.
Qed.

(** strncpy() writes the first [n] bytes of the string, NUL padded. *)
Lemma strncpy_eq s t n :
  (n ≤ length s)%nat → 0 ∈ t →
  strncpy s t n =
    Some (take n (cstr t) ++ replicate (n - length (take n (cstr t))) 0 ++ drop n s).
Proof.
  revert s t. induction n as [|n IH]; intros s t Hs Ht; [done|].
  destruct s as [|x s]; [simpl in Hs; lia|].
  destruct t as [|c t]; [by apply not_elem_of_nil in Ht|].
  simpl. destruct (Z.eqb_spec c 0) as [->|Hc].
  - rewrite zero_fill_eq by (simpl in Hs; lia). done.
  - rewrite IH; [|simpl in Hs; lia|].
    + simpl. done.
    + apply elem_of_cons in Ht as [E|]; congruence.
Qed.

Lemma strncmp_zero p q n d :
  strncmp p q n = Some d → d = 0 ↔ take n (cstr p) = take n (cstr q).
Proof.
  revert p q. induction n as [|n IH]; intros p q H; simpl in H.
  - rewrite !take_0. naive_solver.
  - destruct p as [|a p]; [done|]. destruct q as [|b q]; [done|].
    simpl. destruct (Z.eqb_spec a 0) as [->|Ha], (Z.eqb_spec b 0) as [->|Hb];
      simpl in H; try (injection H as <-).
    + done.
    + simpl. split; [lia|done].
    + destruct (Z.eqb_spec a 0); [lia|]. injection H as <-. simpl. split; [lia|done].
    + destruct (Z.eqb_spec a b) as [->|Hab].
      * rewrite IH by done. simpl. split; [by intros ->|by intros [= ?]].
      * injection H as <-. simpl. split; [lia|]. intros [= ?]. done.
Qed.

Lemma strncmp_defined p q n :
  0 ∈ p ∨ (n ≤ length p)%nat → 0 ∈ q ∨ (n ≤ length q)%nat → is_Some (strncmp p q n).
Proof.
  revert p q. induction n as [|n IH]; intros p q Hp Hq; simpl; [done|].
  destruct p as [|a p]; [destruct Hp as [H|H]; [by apply not_elem_of_nil in H|simpl in H; lia]|].
  destruct q as [|b q]; [destruct Hq as [H|H]; [by apply not_elem_of_nil in H|simpl in H; lia]|].
  destruct (Z.eqb_spec a 0) as [->|Ha]; simpl; [done|].
  destruct (Z.eqb_spec a b) as [->|Hab]; [|done].
  apply IH.
  - destruct Hp as [Hp|Hp]; [|right; simpl in Hp; lia].
    apply elem_of_cons in Hp as [E|]; [congruence|by left].
  - destruct Hq as [Hq|Hq]; [|right; simpl in Hq; lia].
    apply elem_of_cons in Hq as [E|]; [congruence|by left].
Qed.

Lemma cstr_no_nul s : Forall (λ c, c ≠ 0) (cstr s).
Proof.
  induction s as [|c s IH]; simpl; [done|].
  destruct (Z.eqb_spec c 0); [done|]. by constructor.
Qed.

Lemma cstr_app_nul l r : Forall (λ c, c ≠ 0) l → cstr (l ++ 0 :: r) = l.
Proof.
  induction 1 as [|c l Hc Hl IH]; simpl; [done|].
  destruct (Z.eqb_spec c 0); [done|]. by rewrite IH.
Qed.

Lemma cstr_app_full l : Forall (λ c, c ≠ 0) l → cstr l = l.
Proof.
  induction 1 as [|c l Hc Hl IH]; simpl; [done|].
  destruct (Z.eqb_spec c 0); [done|]. by rewrite IH.
Qed.

Lemma strlen_cstr s : 0 ∈ s → strlen s = Some (Z.of_nat (length (cstr s))).
Proof.
  induction s as [|c s IH]; intros H; [by apply not_elem_of_nil in H|].
  simpl. destruct (Z.eqb_spec c 0) as [->|Hc]; [done|].
  apply elem_of_cons in H as [E|H]; [congruence|]. rewrite IH by done. simpl. f_equal. lia.
Qed.

(** safestrcpy() always leaves a NUL-terminated prefix of the source. *)
Lemma safestrcpy_loop_eq s t k :
  (k < length s)%nat → 0 ∈ t →
  ∃ r, safestrcpy_loop s t k = Some (take k (cstr t) ++ 0 :: r) ∧
       length (take k (cstr t) ++ 0 :: r) = length s.
Proof.
  revert s t. induction k as [|k IH]; intros s t Hs Ht.
  - destruct s as [|x s]; [simpl in Hs; lia|]. exists s. done.
  - destruct s as [|x s]; [simpl in Hs; lia|].
    destruct t as [|c t]; [by apply not_elem_of_nil in Ht|].
    simpl. destruct (Z.eqb_spec c 0) as [->|Hc].
    + destruct s as [|y s]; [simpl in Hs; lia|]. exists (0 :: s). done.
    + destruct (IH s t) as (r & -> & Hl); [simpl in Hs; lia| |].
      { apply elem_of_cons in Ht as [E|]; congruence. }
      exists r. split; [done|]. simpl. by f_equal.
Qed.

(** The copying functions are used through their lemmas only. *)
#[global] Opaque memset memmove load64 store64 load32 store32 load_bytes store_bytes.
