(* ===== verification/Kalloc.v ===== *)
(** * kernel/kalloc.c: the reference-counted page allocator

    The free list is kept inside the free pages: [kmem.freelist] is the
    address of the first one and the first eight bytes of each hold the
    address of the next.  [refcnt] counts the page tables that map a page
    (copy-on-write); kfree() returns a page to the list when its count drops
    to zero.

    [kmem_inv s l]: the chain in memory is the list [l], without repetition,
    of allocatable pages; the pages of [l] are exactly the allocatable pages
    whose count is zero. *)

From Stdlib Require Import ZArith Lia.
From stdpp Require Import base numbers strings option list gmap.
From S2P Require Import Prelude Params Machine Cstring.

Open Scope Z_scope.

(** Addresses fixed by the linker script kernel.ld and by the code it lays
    out: the end of the kernel image, the end of its text, the trampoline page
    and the entry points the kernel takes the address of. *)
Class Linker := {
  kend : Z;
  etext : Z;
  trampoline : Z;
  uservec_off : Z;
  userret_off : Z;
  forkret_addr : Z;
  usertrap_addr : Z;
  kernelvec_addr : Z;
  kend_range : KERNBASE ≤ kend ≤ PHYSTOP;
  etext_range : KERNBASE < etext ≤ kend;
  etext_aligned : etext mod PGSIZE = 0;
  trampoline_range : KERNBASE ≤ trampoline < etext;
  trampoline_aligned : trampoline mod PGSIZE = 0
}.

(** [memset] and stores on the kernel's memory. *)
Definition memset_k (dst c n : Z) : K () := modify (λ s, s <| mem ::= λ m, memset m dst c n |>).
Definition memmove_k (dst src n : Z) : K () :=
  modify (λ s, s <| mem ::= λ m, memmove m dst src n |>).
Definition store64_k (a v : Z) : K () := modify (λ s, s <| mem ::= λ m, store64 m a v |>).
Definition load64_k (a : Z) : K Z := gets (λ s, load64 (mem s) a).

(** [refcnt[pn]], a C int. *)
Definition ref_at (s : kernel) (pn : Z) : Z := default 0 (refcnt s !! pn).
Definition set_ref (pn v : Z) : K () := modify (λ s, s <| refcnt ::= <[pn := v]> |>).

Section kalloc.
  Context `{Linker}.

Definition increse (pa : Z) : K () :=
  acquire kmem_lock;;
  let pn := i32 (pa / PGSIZE) in
  c ← gets (λ s, ref_at s pn);
  if (PHYSTOP <? pa) || (c <? 1) then panic "increase ref cnt"
  else
    set_ref pn (i32 (c + 1));;
    release kmem_lock.

Definition kfree (pa : Z) : K () :=
  if negb (pa mod PGSIZE =? 0) || (pa <? kend) || (PHYSTOP <=? pa) then panic "kfree"
  else
    acquire kmem_lock;;
    let pn := i32 (pa / PGSIZE) in
    c ← gets (λ s, ref_at s pn);
    if c <? 1 then panic "kfree panic"
    else
      set_ref pn (c - 1);;
      tmp ← gets (λ s, ref_at s pn);
      release kmem_lock;;
      if 0 <? tmp then mret ()
      else
        memset_k pa 1 PGSIZE;;
        acquire kmem_lock;;
        fl ← gets freelist;
        store64_k pa fl;;
        modify (λ s, s <| freelist := pa |>);;
        release kmem_lock.

Definition kalloc : K Z :=
  acquire kmem_lock;;
  r ← gets freelist;
  (if r =? 0 then mret ()
   else
     let pn := i32 (r / PGSIZE) in
     c ← gets (λ s, ref_at s pn);
     if negb (c =? 0) then panic "refcnt kalloc"
     else
       set_ref pn 1;;
       next ← load64_k r;
       modify (λ s, s <| freelist := next |>));;
  release kmem_lock;;
  when (negb (r =? 0)) (memset_k r 5 PGSIZE);;
  mret r.

(** The loop's bound: one iteration per page of the range, and the exit. *)
Definition freerange (pa_start pa_end : Z) : K () :=
  let p0 := PGROUNDUP pa_start in
  loop (S (Z.to_nat ((pa_end - p0) / PGSIZE)))
    (λ p : Z,
       if p + PGSIZE <=? pa_end then
         set_ref (p / PGSIZE) 1;;
         kfree p;;
         mret (inl (p + PGSIZE))
       else mret (inr ()))
    p0.

(** initlock(&kmem.lock) leaves the lock unheld, as it is at reset. *)
Definition kinit : K () := freerange kend PHYSTOP.

(** ** Invariant *)

Definition is_page (p : Z) : Prop := p mod PGSIZE = 0 ∧ kend ≤ p < PHYSTOP.

Fixpoint chain (m : gmap Z Z) (r : Z) (l : list Z) : Prop :=
  match l with
  | [] => r = 0
  | p :: l => r = p ∧ chain m (load64 m p) l
  end.

(** The chain alone. *)
Definition kmem_list (s : kernel) (l : list Z) : Prop :=
  chain (mem s) (freelist s) l ∧ NoDup l ∧ Forall is_page l.

Record kmem_inv (s : kernel) (l : list Z) : Prop := {
  km_list : kmem_list s l;
  km_free : ∀ p, is_page p → p ∈ l ↔ ref_at s (p / PGSIZE) = 0;
  km_nonneg : ∀ p, is_page p → 0 ≤ ref_at s (p / PGSIZE)
}.

(** Only the allocator's own state and memory differ. *)
Definition kmem_frame (s s' : kernel) : Prop :=
  s' = s <| mem := mem s' |> <| freelist := freelist s' |> <| refcnt := refcnt s' |>.
Arguments kmem_frame s s' /.

(** ** Specification: a pool of pages with reference counts

    The abstract allocator is a list of free pages and a positive count for
    every page in use.  [pool_step] is [None] where the caller must not make
    the call: freeing or sharing a page that is not in use, or a count that
    would leave a C int. *)

Record pool := mkPool { pool_free : list Z; pool_refs : gmap Z Z }.

Inductive kop := OpAlloc | OpFree (pa : Z) | OpIncr (pa : Z).

Definition pool_step (a : pool) (o : kop) : option (Z * pool) :=
  match o with
  | OpAlloc =>
      match pool_free a with
      | [] => Some (0, a)
      | p :: l => Some (p, mkPool l (<[p := 1]> (pool_refs a)))
      end
  | OpFree p =>
      c ← pool_refs a !! p;
      if c =? 1 then Some (0, mkPool (p :: pool_free a) (delete p (pool_refs a)))
      else Some (0, mkPool (pool_free a) (<[p := c - 1]> (pool_refs a)))
  | OpIncr p =>
      c ← pool_refs a !! p;
      if c <? 2 ^ 31 - 1 then Some (0, mkPool (pool_free a) (<[p := c + 1]> (pool_refs a)))
      else None
  end.

Fixpoint pool_run (a : pool) (os : list kop) : option (list Z * pool) :=
  match os with
  | [] => Some ([], a)
  | o :: os => '(r, a1) ← pool_step a o; '(rs, a2) ← pool_run a1 os; Some (r :: rs, a2)
  end.

Definition run_kop (o : kop) : K Z :=
  match o with
  | OpAlloc => kalloc
  | OpFree pa => kfree pa;; mret 0
  | OpIncr pa => increse pa;; mret 0
  end.

Fixpoint run_kops (os : list kop) : K (list Z) :=
  match os with
  | [] => mret []
  | o :: os => r ← run_kop o; rs ← run_kops os; mret (r :: rs)
  end.

Record pool_rel (s : kernel) (a : pool) : Prop := {
  pr_inv : kmem_inv s (pool_free a);
  pr_refs : ∀ p, is_page p → ref_at s (p / PGSIZE) = default 0 (pool_refs a !! p);
  pr_used : ∀ p c, pool_refs a !! p = Some c → is_page p ∧ 0 < c
}.

Lemma pool_run_cons a o os r a1 rs a2 :
  pool_step a o = Some (r, a1) → pool_run a1 os = Some (rs, a2) →
  pool_run a (o :: os) = Some (r :: rs, a2).
Proof. intros E1 E2. cbn [pool_run]. rewrite E1. simpl. by rewrite E2. Qed.

(** ** Lemmas *)

Lemma i32_pn p : 0 ≤ p < 2 ^ 43 → i32 (p / PGSIZE) = p / PGSIZE.
Proof.
  intros Hp. unfold i32. unfold PGSIZE.
  assert (0 ≤ p / 4096 < 2 ^ 31) by (split; [apply Z.div_pos|apply Z.div_lt_upper_bound]; lia).
  rewrite u32_small by lia. destruct (Z.ltb_spec (p / 4096) (2 ^ 31)); lia.
Qed.

Lemma is_page_bounds p : is_page p → KERNBASE ≤ p < PHYSTOP ∧ p + PGSIZE ≤ PHYSTOP.
Proof.
  intros [Hm Hr]. pose proof kend_range. split; [lia|].
  unfold PGSIZE in *. assert (PHYSTOP mod 4096 = 0) by done.
  pose proof (Z.div_mod p 4096 ltac:(lia)). pose proof (Z.div_mod PHYSTOP 4096 ltac:(lia)).
  lia.
Qed.

Lemma is_page_pn p : is_page p → i32 (p / PGSIZE) = p / PGSIZE.
Proof.
  intros Hp. apply is_page_bounds in Hp. apply i32_pn.
  unfold PHYSTOP, KERNBASE in *. lia.
Qed.

Lemma page_pn_inj p q : p mod PGSIZE = 0 → q mod PGSIZE = 0 → p / PGSIZE = q / PGSIZE → p = q.
Proof.
  unfold PGSIZE. intros Hp Hq E.
  pose proof (Z.div_mod p 4096 ltac:(lia)). pose proof (Z.div_mod q 4096 ltac:(lia)). lia.
Qed.

(** Two different pages do not overlap. *)
Lemma page_disjoint p q :
  p mod PGSIZE = 0 → q mod PGSIZE = 0 → p ≠ q → p + PGSIZE ≤ q ∨ q + PGSIZE ≤ p.
Proof.
  unfold PGSIZE. intros Hp Hq E.
  pose proof (Z.div_mod p 4096 ltac:(lia)). pose proof (Z.div_mod q 4096 ltac:(lia)). lia.
Qed.

Lemma ref_at_set_eq s pn v : ref_at (s <| refcnt ::= <[pn := v]> |>) pn = v.
Proof. unfold ref_at. simpl. by rewrite lookup_insert_eq. Qed.

Lemma ref_at_set_ne s pn v q : pn ≠ q → ref_at (s <| refcnt ::= <[pn := v]> |>) q = ref_at s q.
Proof. intros E. unfold ref_at. simpl. by rewrite lookup_insert_ne. Qed.

Lemma chain_ext m m' r l :
  (∀ p, p ∈ l → load64 m' p = load64 m p) → chain m r l → chain m' r l.
Proof.
  revert r. induction l as [|p l IH]; intros r E; simpl; [done|].
  intros [-> Hc]. split; [done|]. rewrite E by left. apply IH; [|done].
  intros q Hq. apply E. by right.
Qed.

(** Writing inside one page leaves a chain of other pages alone. *)
Lemma chain_other_page m m' r l q :
  (∀ b, ¬ (q ≤ b < q + PGSIZE) → load8 m' b = load8 m b) →
  q mod PGSIZE = 0 → Forall is_page l → q ∉ l → chain m r l → chain m' r l.
Proof.
  intros E Hq Hl Hn. apply chain_ext. intros p Hp. apply load64_ext. intros b Hb. apply E.
  rewrite Forall_forall in Hl. destruct (Hl p Hp) as [Hpm _].
  assert (p ≠ q) by (intros ->; done).
  destruct (page_disjoint p q) as [?|?]; try done; unfold PGSIZE in *; lia.
Qed.

(** ** kalloc() *)

Definition after_kalloc (s : kernel) (p : Z) : kernel :=
  s <| refcnt ::= <[p / PGSIZE := 1]> |> <| freelist := load64 (mem s) p |>
    <| mem ::= λ m, memset m p 5 PGSIZE |>.
Arguments after_kalloc s p /.

Lemma kalloc_eq s p l :
  kmem_inv s (p :: l) → kmem_lock ∉ held s → kalloc s = Ret p (after_kalloc s p).
Proof.
  intros [(Hc & Hnd & Hp) Hf Hnn] Hl. inversion Hp as [|? ? Hpp Hpl]; subst.
  destruct Hc as [Hfl Hc]. pose proof (is_page_bounds p Hpp) as Hb.
  assert (p ≠ 0) as Hp0 by (unfold KERNBASE in Hb; lia).
  assert (ref_at s (p / PGSIZE) = 0) as Hr by (apply Hf; [done|left]).
  unfold kalloc. msimpl. mrun acquire_free by done.
  replace (freelist _) with p by done.
  rewrite (proj2 (Z.eqb_neq p 0) Hp0). msimpl. rewrite is_page_pn by done.
  change (ref_at _ _) with (ref_at s (p / PGSIZE)). rewrite Hr, Z.eqb_refl. msimpl. unfold set_ref, load64_k, memset_k. msimpl.
  mrun (release_head kmem_lock (held s)) by done.
  same_record s.
Qed.

Lemma kalloc_none s : kmem_inv s [] → kmem_lock ∉ held s → kalloc s = Ret 0 s.
Proof.
  intros [(Hc & _) _ _] Hl. simpl in Hc. unfold kalloc. msimpl. mrun acquire_free by done.
  replace (freelist _) with 0 by done. rewrite Z.eqb_refl. msimpl.
  mrun (release_head kmem_lock (held s)) by done.
  same_record s.
Qed.

Lemma ref_at_after_kalloc s p q :
  ref_at (after_kalloc s p) q = if decide (q = p / PGSIZE) then 1 else ref_at s q.
Proof.
  unfold ref_at. simpl. case_decide as E; [subst; by rewrite lookup_insert_eq|].
  by rewrite lookup_insert_ne.
Qed.

Lemma kalloc_inv s p l : kmem_inv s (p :: l) → kmem_inv (after_kalloc s p) l.
Proof.
  intros [(Hc & Hnd & Hp) Hf Hnn]. inversion Hp as [|? ? Hpp Hpl]; subst.
  apply NoDup_cons in Hnd as [Hnin Hnd]. destruct Hc as [Hfl Hc]. split.
  - split; [|done]. simpl. eapply chain_other_page; [|apply Hpp|done|done|done].
    intros b Hb. by rewrite load8_memset, decide_False.
  - intros q Hq. rewrite ref_at_after_kalloc. case_decide as E.
    + apply page_pn_inj in E as ->; [|apply Hq|apply Hpp]. done.
    + rewrite <-Hf by done. rewrite elem_of_cons. intuition congruence.
  - intros q Hq. rewrite ref_at_after_kalloc. case_decide; [lia|]. by apply Hnn.
Qed.

(** ** kfree() and increse() *)

Definition after_kfree (s : kernel) (p : Z) : kernel :=
  s <| refcnt ::= <[p / PGSIZE := 0]> |> <| freelist := p |>
    <| mem ::= λ m, store64 (memset m p 1 PGSIZE) p (freelist s) |>.
Arguments after_kfree s p /.

Lemma kfree_page_guard p :
  is_page p → negb (p mod PGSIZE =? 0) || (p <? kend) || (PHYSTOP <=? p) = false.
Proof.
  intros [Hm Hr]. rewrite Hm. simpl.
  destruct (Z.ltb_spec p kend), (Z.leb_spec PHYSTOP p); simpl; try done; lia.
Qed.

Lemma kfree_last s p :
  is_page p → ref_at s (p / PGSIZE) = 1 → kmem_lock ∉ held s →
  kfree p s = Ret () (after_kfree s p).
Proof.
  intros Hp Hr Hl. unfold kfree. rewrite kfree_page_guard, is_page_pn by done. msimpl.
  mrun acquire_free by done. change (ref_at (s <| held ::= cons kmem_lock |>)) with (ref_at s).
  rewrite Hr. mif_false. unfold set_ref, memset_k, store64_k. msimpl.
  mrun (release_head kmem_lock (held s)) by done.
  mif_false by (by rewrite ref_at_set_eq).
  mrun acquire_free by done. mrun (release_head kmem_lock (held s)) by done.
  same_record s.
Qed.

(** A page still mapped elsewhere only loses one reference. *)
Lemma kfree_shared s p :
  is_page p → 1 < ref_at s (p / PGSIZE) → kmem_lock ∉ held s →
  kfree p s = Ret () (s <| refcnt ::= <[p / PGSIZE := ref_at s (p / PGSIZE) - 1]> |>).
Proof.
  intros Hp Hr Hl. unfold kfree. rewrite kfree_page_guard, is_page_pn by done. msimpl.
  mrun acquire_free by done. change (ref_at (s <| held ::= cons kmem_lock |>)) with (ref_at s).
  mif_false. unfold set_ref. msimpl.
  mrun (release_head kmem_lock (held s)) by done.
  mif_true by (rewrite ref_at_set_eq; lia). same_record s.
Qed.

Lemma ref_at_after_kfree s p q :
  ref_at (after_kfree s p) q = if decide (q = p / PGSIZE) then 0 else ref_at s q.
Proof.
  unfold ref_at. simpl. case_decide as E; [subst; by rewrite lookup_insert_eq|].
  by rewrite lookup_insert_ne.
Qed.

Lemma load8_after_kfree s p b :
  p + 8 ≤ b < p + PGSIZE ∨ ¬ (p ≤ b < p + PGSIZE) →
  load8 (mem (after_kfree s p)) b =
    if decide (p ≤ b < p + PGSIZE) then 1 else load8 (mem s) b.
Proof.
  intros Hb. unfold PGSIZE in *. simpl.
  rewrite load8_store64 by lia. rewrite load8_memset. unfold PGSIZE. done.
Qed.

Lemma kfree_list s p l :
  kmem_list s l → is_page p → p ∉ l → kmem_list (after_kfree s p) (p :: l).
Proof.
  intros (Hc & Hnd & Hp) Hpp Hnin. split; [|split; [by apply NoDup_cons|by constructor]].
  split; [done|].
  replace (load64 (mem (after_kfree s p)) p) with (freelist s).
  - eapply chain_other_page; [|apply Hpp|done|done|done].
    intros b Hb. rewrite load8_after_kfree by (right; done). by rewrite decide_False.
  - simpl. rewrite load64_store64_eq. symmetry. apply u64_small.
    destruct l as [|q l]; simpl in Hc; [lia|]. destruct Hc as [-> _].
    inversion Hp; subst. pose proof (is_page_bounds q ltac:(done)).
    unfold PHYSTOP, KERNBASE in *. lia.
Qed.

Lemma kfree_inv s p l :
  kmem_inv s l → is_page p → ref_at s (p / PGSIZE) ≠ 0 → kmem_inv (after_kfree s p) (p :: l).
Proof.
  intros [Hl Hf Hnn] Hpp Hr. split.
  - apply kfree_list; [done|done|]. by rewrite Hf.
  - intros q Hq. rewrite ref_at_after_kfree, elem_of_cons. case_decide as E.
    + apply page_pn_inj in E as ->; [|apply Hq|apply Hpp]. tauto.
    + rewrite <-Hf by done. intuition congruence.
  - intros q Hq. rewrite ref_at_after_kfree. case_decide; [lia|]. by apply Hnn.
Qed.

(** Changing the count of a page in use to another positive count. *)
Lemma set_ref_inv s p l c :
  kmem_inv s l → is_page p → ref_at s (p / PGSIZE) ≠ 0 → 0 < c →
  kmem_inv (s <| refcnt ::= <[p / PGSIZE := c]> |>) l.
Proof.
  intros [Hl Hf Hnn] Hpp Hr Hc0. split; [done| |].
  - intros q Hq. destruct (decide (p / PGSIZE = q / PGSIZE)) as [E|E].
    + apply page_pn_inj in E as <-; [|apply Hpp|apply Hq].
      rewrite ref_at_set_eq, Hf by done. lia.
    + rewrite ref_at_set_ne by done. by apply Hf.
  - intros q Hq. destruct (decide (p / PGSIZE = q / PGSIZE)) as [E|E].
    + rewrite <-E, ref_at_set_eq. lia.
    + rewrite ref_at_set_ne by done. by apply Hnn.
Qed.

Lemma increse_eq s p :
  is_page p → 1 ≤ ref_at s (p / PGSIZE) < 2 ^ 31 - 1 → kmem_lock ∉ held s →
  increse p s = Ret () (s <| refcnt ::= <[p / PGSIZE := ref_at s (p / PGSIZE) + 1]> |>).
Proof.
  intros Hp Hr Hl. pose proof (is_page_bounds p Hp) as Hb.
  unfold increse. rewrite is_page_pn by done. msimpl.
  mrun acquire_free by done. change (ref_at (s <| held ::= cons kmem_lock |>)) with (ref_at s).
  mif_false. unfold set_ref. msimpl.
  mrun (release_head kmem_lock (held s)) by done.
  replace (i32 (ref_at s (p / PGSIZE) + 1)) with (ref_at s (p / PGSIZE) + 1); [same_record s|].
  unfold i32. rewrite u32_small by lia. by case_match; lia.
Qed.

(** ** The panics of kfree() and increse() *)

Lemma kfree_bad_address s pa :
  ¬ is_page pa → kfree pa s = Panic "kfree" s.
Proof.
  intros Hp. unfold kfree. unfold is_page in Hp. mif_true by (clear -Hp; lia). done.
Qed.

Lemma kfree_unreferenced s p :
  is_page p → ref_at s (p / PGSIZE) < 1 → kmem_lock ∉ held s →
  ∃ s', kfree p s = Panic "kfree panic" s'.
Proof.
  intros Hp Hr Hl. unfold kfree. rewrite kfree_page_guard, is_page_pn by done. msimpl.
  mrun acquire_free by done. change (ref_at (s <| held ::= cons kmem_lock |>)) with (ref_at s).
  mif_true. eauto.
Qed.

(** ** Boot: freerange() links every allocatable page *)

Definition freerange_body (pa_end p : Z) : K (Z + ()) :=
  if p + PGSIZE <=? pa_end then
    set_ref (p / PGSIZE) 1;; kfree p;; mret (inl (p + PGSIZE))
  else mret (inr ()).

Lemma freerange_loop (k : nat) p s l :
  p mod PGSIZE = 0 → kend ≤ p → p + PGSIZE * k = PHYSTOP →
  kmem_list s l → (∀ q, q ∈ l → q < p) → (∀ q, is_page q → ref_at s (q / PGSIZE) = 0) →
  kmem_lock ∉ held s →
  ∃ s' l', loop (S k) (freerange_body PHYSTOP) p s = Ret () s' ∧ kmem_list s' l' ∧
    (∀ q, q ∈ l' ↔ q ∈ l ∨ (is_page q ∧ p ≤ q)) ∧
    (∀ q, is_page q → ref_at s' (q / PGSIZE) = 0) ∧ kmem_frame s s'.
Proof.
  revert p s l. induction k as [|k IH]; intros p s l Hm Hk Hp Hlist Hlt Href Hl.
  - exists s, l. rewrite (loop_exit _ _ _ _ () s).
    2: { unfold freerange_body. unfold PGSIZE in *. mif_false. done. }
    split; [done|]. split; [done|]. split; [|split; [done|same_record s]].
    intros q. split; [by left|]. intros [?|[[_ Hq] ?]]; [done|lia].
  - assert (is_page p) as Hpp by (split; [done|]; unfold PGSIZE in *; lia).
    set (s1 := after_kfree (s <| refcnt ::= <[p / PGSIZE := 1]> |>) p).
    assert (freerange_body PHYSTOP p s = Ret (inl (p + PGSIZE)) s1) as E.
    { unfold freerange_body. mif_true by (unfold PGSIZE in *; lia).
      unfold set_ref. msimpl. rewrite kfree_last by (try done; by rewrite ref_at_set_eq). done. }
    rewrite (loop_next _ _ _ _ _ _ E).
    destruct (IH (p + PGSIZE) s1 (p :: l)) as (s' & l' & E' & HL & Hin & Hr' & Hfr); try done.
    + unfold PGSIZE in *. rewrite <-Z.add_mod_idemp_l, Hm by lia. done.
    + unfold PGSIZE in *. lia.
    + unfold PGSIZE in *. lia.
    + apply kfree_list; [done|done|]. intros Hin. specialize (Hlt p Hin). lia.
    + intros q [->|Hq]%elem_of_cons; unfold PGSIZE; [lia|]. specialize (Hlt q Hq). lia.
    + intros q Hq. unfold s1. rewrite ref_at_after_kfree. case_decide; [done|].
      rewrite ref_at_set_ne by done. by apply Href.
    + exists s', l'. split; [done|]. split; [done|]. split; [|split; [done|]].
      * intros q. rewrite Hin, elem_of_cons. split; [intros [[->|?]|[? ?]]|intros [?|[Hq ?]]].
        -- right. split; [done|lia].
        -- by left.
        -- right. split; [done|]. unfold PGSIZE in *. lia.
        -- left. by right.
        -- destruct (decide (q = p)) as [->|Hne]; [left; by left|right]. split; [done|].
           destruct (page_disjoint p q); try done; [apply Hq|unfold PGSIZE in *; lia].
      * unfold kmem_frame in *. rewrite Hfr. same_record s.
Qed.

Lemma kend_roundup : kend ≤ PGROUNDUP kend < kend + PGSIZE ∧ PGROUNDUP kend mod PGSIZE = 0.
Proof.
  pose proof kend_range. apply PGROUNDUP_spec. unfold PHYSTOP, KERNBASE, PGSIZE in *. lia.
Qed.

Lemma kinit_eq s :
  freelist s = 0 → refcnt s = ∅ → kmem_lock ∉ held s →
  ∃ s' l, kinit s = Ret () s' ∧ (∀ p, is_page p → ref_at s' (p / PGSIZE) = 0) ∧
    kmem_inv s' l ∧ kmem_frame s s'.
Proof.
  intros Hfl Href Hl. destruct kend_roundup as [Hlo Hm]. pose proof kend_range as Hke.
  set (p0 := PGROUNDUP kend) in *.
  assert (p0 ≤ PHYSTOP) as Hhi.
  { destruct (decide (p0 = PHYSTOP)); [lia|].
    destruct (page_disjoint p0 PHYSTOP); try done; unfold PGSIZE in *; lia. }
  assert (PHYSTOP mod PGSIZE = 0) as Hpm by done.
  destruct (freerange_loop (Z.to_nat ((PHYSTOP - p0) / PGSIZE)) p0 s [])
    as (s' & l & E & HL & Hin & Hr & Hfr); try done; try lia.
  - unfold PGSIZE in *. rewrite Z2Nat.id by (apply Z.div_pos; lia).
    pose proof (Z.div_mod p0 4096 ltac:(lia)). pose proof (Z.div_mod PHYSTOP 4096 ltac:(lia)).
    pose proof (Z.div_mod (PHYSTOP - p0) 4096 ltac:(lia)).
    rewrite Zminus_mod, Hm, Hpm in *. change ((0 - 0) mod 4096) with 0 in *. lia.
  - split; [done|]. split; [apply NoDup_nil_2|by constructor].
  - intros q Hq. by apply not_elem_of_nil in Hq.
  - intros q _. unfold ref_at. by rewrite Href, lookup_empty.
  - exists s', l. split; [done|]. split; [done|]. split; [|done]. split; [done| |].
    + intros q Hq. rewrite Hr by done. split; [done|]. intros _. apply Hin. right.
      split; [done|]. destruct Hq as [Hqm Hqr].
      destruct (decide (q = p0)) as [->|Hne]; [lia|].
      destruct (page_disjoint p0 q); try done; unfold PGSIZE in *; lia.
    + intros q Hq. by rewrite Hr.
Qed.

(** ** Refinement *)

(** One count of the concrete table against the abstract one. *)
Lemma pool_refs_update s s' (a : pool) (refs' : gmap Z Z) p c :
  (∀ q, is_page q → ref_at s (q / PGSIZE) = default 0 (pool_refs a !! q)) →
  is_page p →
  (∀ q, ref_at s' q = if decide (q = p / PGSIZE) then c else ref_at s q) →
  default 0 (refs' !! p) = c → (∀ q, q ≠ p → refs' !! q = pool_refs a !! q) →
  ∀ q, is_page q → ref_at s' (q / PGSIZE) = default 0 (refs' !! q).
Proof.
  intros Hr Hp Hs' Hc Hne q Hq. rewrite Hs'. case_decide as E.
  - apply page_pn_inj in E as ->; [done|apply Hq|apply Hp].
  - rewrite Hne by congruence. by apply Hr.
Qed.

Lemma ref_at_set s pn v q :
  ref_at (s <| refcnt ::= <[pn := v]> |>) q = if decide (q = pn) then v else ref_at s q.
Proof.
  case_decide as E; [subst; apply ref_at_set_eq|by apply ref_at_set_ne, not_eq_sym].
Qed.

Lemma alloc_refines s a r a' :
  pool_rel s a → kmem_lock ∉ held s → pool_step a OpAlloc = Some (r, a') →
  ∃ s', kalloc s = Ret r s' ∧ pool_rel s' a' ∧ kmem_frame s s' ∧
    ∀ p b, p ∈ dom (pool_refs a) → p ≤ b < p + PGSIZE → load8 (mem s') b = load8 (mem s) b.
Proof.
  intros [Hi Hr Hu] Hl Hst. unfold pool_step in Hst. destruct (pool_free a) as [|p l] eqn:El.
  - injection Hst as <- <-. exists s. rewrite (kalloc_none s) by done.
    split; [done|]. split; [by split; rewrite ?El|]. split; [same_record s|done].
  - injection Hst as <- <-. pose proof (kalloc_eq _ _ _ Hi Hl) as E.
    assert (is_page p) as Hp by (destruct Hi as [(_ & _ & HF) _ _]; by inversion HF).
    exists (after_kalloc s p). split; [done|]. split; [split|split; [same_record s|]].
    + by apply kalloc_inv.
    + eapply pool_refs_update; [done|apply Hp|apply ref_at_after_kalloc| |]; simpl.
      * by rewrite lookup_insert_eq.
      * intros q Hq. by rewrite lookup_insert_ne by done.
    + simpl. intros q c. rewrite lookup_insert. case_decide; [|apply Hu].
      intros [= <-]. subst. done.
    + intros q b [c Hq]%elem_of_dom Hb. simpl. rewrite load8_memset, decide_False; [done|].
      destruct (Hu q c Hq) as [Hqp Hc]. assert (p ≠ q) as Hne.
      { intros ->. assert (ref_at s (q / PGSIZE) = 0) as H0 by (apply Hi; [done|left]).
        rewrite Hr, Hq in H0 by done. simpl in H0. lia. }
      destruct (page_disjoint p q); [apply Hp|apply Hqp|done|lia|lia].
Qed.

Lemma free_refines s a p r a' :
  pool_rel s a → kmem_lock ∉ held s → pool_step a (OpFree p) = Some (r, a') →
  ∃ s', kfree p s = Ret () s' ∧ pool_rel s' a' ∧ kmem_frame s s' ∧
    ∀ q b, q ∈ dom (pool_refs a') → q ≤ b < q + PGSIZE → load8 (mem s') b = load8 (mem s) b.
Proof.
  intros [Hi Hr Hu] Hl Hst. unfold pool_step in Hst.
  destruct (pool_refs a !! p) as [c|] eqn:Ec; [|done]. simpl in Hst.
  destruct (Hu p c Ec) as [Hp Hc]. specialize (Hr p Hp) as Hrp. rewrite Ec in Hrp. simpl in Hrp.
  destruct (Z.eqb_spec c 1) as [->|Hc1]; injection Hst as <- <-.
  - exists (after_kfree s p). split; [by apply kfree_last|]. split; [split|split; [same_record s|]].
    + apply kfree_inv; [done|done|lia].
    + eapply pool_refs_update; [done|apply Hp|apply ref_at_after_kfree| |]; simpl.
      * by rewrite lookup_delete_eq.
      * intros q Hq. by rewrite lookup_delete_ne by done.
    + simpl. intros q c'. rewrite lookup_delete. case_decide; [done|apply Hu].
    + intros q b [c' Hq]%elem_of_dom Hb. simpl in Hq. rewrite lookup_delete_Some in Hq.
      destruct Hq as [Hne Hq]. destruct (Hu q c' Hq) as [Hqp _].
      rewrite load8_after_kfree, decide_False; [done|..];
        destruct (page_disjoint p q); try done; try apply Hp; try apply Hqp; lia.
  - eexists. split; [apply kfree_shared; [done|lia|done]|]. split; [split|split; [same_record s|done]].
    + apply set_ref_inv; [done|done|lia|lia].
    + eapply pool_refs_update; [done|apply Hp|intros q; apply ref_at_set| |]; simpl.
      * rewrite lookup_insert_eq. simpl. lia.
      * intros q Hq. by rewrite lookup_insert_ne by done.
    + simpl. intros q c'. rewrite lookup_insert. case_decide; [|apply Hu].
      intros [= <-]. subst. split; [done|lia].
Qed.

Lemma incr_refines s a p r a' :
  pool_rel s a → kmem_lock ∉ held s → pool_step a (OpIncr p) = Some (r, a') →
  ∃ s', increse p s = Ret () s' ∧ pool_rel s' a' ∧ kmem_frame s s' ∧ mem s' = mem s.
Proof.
  intros [Hi Hr Hu] Hl Hst. unfold pool_step in Hst.
  destruct (pool_refs a !! p) as [c|] eqn:Ec; [|done]. simpl in Hst.
  destruct (Hu p c Ec) as [Hp Hc]. specialize (Hr p Hp) as Hrp. rewrite Ec in Hrp. simpl in Hrp.
  destruct (Z.ltb_spec c (2 ^ 31 - 1)); [|done]. injection Hst as <- <-.
  eexists. split; [apply increse_eq; [done|lia|done]|].
  split; [split|split; [same_record s|done]].
  - apply set_ref_inv; [done|done|lia|lia].
  - eapply pool_refs_update; [done|apply Hp|intros q; apply ref_at_set| |]; simpl.
    + rewrite lookup_insert_eq. simpl. lia.
    + intros q Hq. by rewrite lookup_insert_ne by done.
  - simpl. intros q c'. rewrite lookup_insert. case_decide; [|apply Hu].
    intros [= <-]. subst. split; [done|lia].
Qed.

Lemma kop_refines s a o r a' :
  pool_rel s a → kmem_lock ∉ held s → pool_step a o = Some (r, a') →
  ∃ s', run_kop o s = Ret r s' ∧ pool_rel s' a' ∧ kmem_frame s s' ∧
    ∀ p b, p ∈ dom (pool_refs a) → p ∈ dom (pool_refs a') → p ≤ b < p + PGSIZE →
      load8 (mem s') b = load8 (mem s) b.
Proof.
  intros Hrel Hl Hst. destruct o as [|pa|pa].
  - destruct (alloc_refines s a r a') as (s' & E & ? & ? & Hm); try done.
    exists s'. split; [done|]. split; [done|]. split; [done|]. intros p b Hp _. by apply Hm.
  - destruct (free_refines s a pa r a') as (s' & E & ? & ? & Hm); try done.
    exists s'. simpl. rewrite (bind_ret _ _ _ _ _ E). split.
    + unfold pool_step in Hst. destruct (pool_refs a !! pa); [|done]. simpl in Hst.
      case_match; injection Hst as <- <-; done.
    + split; [done|]. split; [done|]. intros p b _ Hp. by apply Hm.
  - destruct (incr_refines s a pa r a') as (s' & E & ? & ? & Hm); try done.
    exists s'. simpl. rewrite (bind_ret _ _ _ _ _ E). split.
    + unfold pool_step in Hst. destruct (pool_refs a !! pa); [|done]. simpl in Hst.
      case_match; [|done]. injection Hst as <- <-; done.
    + split; [done|]. split; [done|]. intros p b _ _. by rewrite Hm.
Qed.

Lemma kmem_frame_held s s' : kmem_frame s s' → held s' = held s.
Proof. unfold kmem_frame. intros ->. done. Qed.

Lemma kmem_frame_trans s1 s2 s3 : kmem_frame s1 s2 → kmem_frame s2 s3 → kmem_frame s1 s3.
Proof. unfold kmem_frame. intros H1 H2. rewrite H2, H1. same_record s1. Qed.

(** C7: the page allocator implements the pool.  Every sequence of kalloc(),
    kfree() and increse() calls that the pool allows returns without a panic,
    with the results the pool gives, in a state that again represents the
    pool; nothing but the allocator's memory changes. *)
Theorem kalloc_refines s a os rs a' :
  pool_rel s a → kmem_lock ∉ held s → pool_run a os = Some (rs, a') →
  ∃ s', run_kops os s = Ret rs s' ∧ pool_rel s' a' ∧ kmem_frame s s'.
Proof.
  revert s a rs. induction os as [|o os IH]; intros s a rs Hrel Hl Hrun; simpl in Hrun.
  - injection Hrun as <- <-. exists s. split; [done|]. split; [done|]. same_record s.
  - destruct (pool_step a o) as [[r a1]|] eqn:Est; [|done]. simpl in Hrun.
    destruct (pool_run a1 os) as [[rs1 a2]|] eqn:Erun; [|done]. injection Hrun as <- <-.
    destruct (kop_refines s a o r a1) as (s1 & E1 & Hrel1 & Hf1 & _); try done.
    destruct (IH s1 a1 rs1) as (s2 & E2 & Hrel2 & Hf2); try done.
    { by rewrite (kmem_frame_held s s1). }
    exists s2. simpl. rewrite (bind_ret _ _ _ _ _ E1), (bind_ret _ _ _ _ _ E2).
    split; [done|]. split; [done|]. by eapply kmem_frame_trans.
Qed.

(** No call of the allocator writes a page that is in use before and after
    it: kalloc() fills only the page it hands out, kfree() only a page whose
    last reference it drops. *)
Theorem kalloc_preserves_used s a o r a' p b :
  pool_rel s a → kmem_lock ∉ held s → pool_step a o = Some (r, a') →
  p ∈ dom (pool_refs a) → p ∈ dom (pool_refs a') → p ≤ b < p + PGSIZE →
  ∃ s', run_kop o s = Ret r s' ∧ load8 (mem s') b = load8 (mem s) b.
Proof.
  intros Hrel Hl Hst Hp Hp' Hb.
  destruct (kop_refines s a o r a') as (s' & E & _ & _ & Hm); try done.
  exists s'. split; [done|]. by eapply Hm.
Qed.

(** C37: booting the allocator terminates and links every page between the end
    of the kernel and PHYSTOP: kinit() turns zeroed allocator variables into
    the pool that has every allocatable page free and none in use. *)
Theorem kinit_correct s :
  freelist s = 0 → refcnt s = ∅ → kmem_lock ∉ held s →
  ∃ s' l, kinit s = Ret () s' ∧ pool_rel s' (mkPool l ∅) ∧ (∀ p, p ∈ l ↔ is_page p) ∧
    kmem_frame s s'.
Proof.
  intros Hfl Href Hl. destruct (kinit_eq s Hfl Href Hl) as (s' & l & E & Hz & Hi & Hf).
  exists s', l. split; [done|]. split; [|split; [|done]].
  - split; [done| |done]. simpl. intros p Hp. by rewrite lookup_empty, Hz.
  - intros p. split.
    + destruct Hi as [(_ & _ & HF) _ _]. rewrite Forall_forall in HF. apply HF.
    + intros Hp. apply Hi; [done|]. by apply Hz.
Qed.

(** C38: kfree() rejects what is not its to free: an address that is not a whole
    page of allocatable memory, and a page nobody references (a double free),
    both panic. *)
Theorem kfree_rejects s pa l :
  kmem_inv s l → kmem_lock ∉ held s →
  (¬ is_page pa → kfree pa s = Panic "kfree" s) ∧
  (pa ∈ l → ∃ s', kfree pa s = Panic "kfree panic" s').
Proof.
  intros Hi Hl. split; [apply kfree_bad_address|]. intros Hin.
  assert (is_page pa) as Hp.
  { destruct Hi as [(_ & _ & HF) _ _]. rewrite Forall_forall in HF. by apply HF. }
  apply kfree_unreferenced; [done| |done].
  assert (ref_at s (pa / PGSIZE) = 0) by (apply Hi; done). lia.
Qed.

End kalloc.

(** ** Witnesses: a machine whose kernel leaves two allocatable pages *)

Definition tiny_linker : Linker.
Proof.
  refine {| kend := PHYSTOP - 2 * PGSIZE; etext := KERNBASE + 2 * PGSIZE;
            trampoline := KERNBASE + PGSIZE; uservec_off := 0; userret_off := 0x9c;
            forkret_addr := KERNBASE + 0x100; usertrap_addr := KERNBASE + 0x200;
            kernelvec_addr := KERNBASE + 0x300 |};
    vm_compute; try done; split; discriminate.
Defined.
#[local] Existing Instance tiny_linker.

Definition tiny_p1 : Z := PHYSTOP - 2 * PGSIZE.
Definition tiny_p2 : Z := PHYSTOP - PGSIZE.

(** Both pages in use, once each. *)
Definition tiny_kernel : kernel :=
  kernel0 <| refcnt := {[tiny_p1 / PGSIZE := 1; tiny_p2 / PGSIZE := 1]} |>.
Definition tiny_pool : pool := mkPool [] {[tiny_p1 := 1; tiny_p2 := 1]}.

Lemma tiny_pages p : is_page p ↔ p = tiny_p1 ∨ p = tiny_p2.
Proof.
  unfold is_page, tiny_p1, tiny_p2. change kend with (PHYSTOP - 2 * PGSIZE).
  unfold PHYSTOP, KERNBASE, PGSIZE. split.
  - intros [Hm Hr]. pose proof (Z.div_mod p 4096 ltac:(lia)). lia.
  - intros [->| ->]; split; try done; lia.
Qed.

Lemma tiny_rel : pool_rel tiny_kernel tiny_pool.
Proof.
  split; [split| |].
  - split; [done|]. split; [apply NoDup_nil_2|by constructor].
  - intros p [->| ->]%tiny_pages; vm_compute; (split; [inversion 1|discriminate]).
  - intros p [->| ->]%tiny_pages; vm_compute; discriminate.
  - intros p [->| ->]%tiny_pages; done.
  - unfold tiny_pool, pool_refs. intros p c Hp.
    apply lookup_insert_Some in Hp as [[<- <-]|[_ Hp]]; [split; [apply tiny_pages; by left|lia]|].
    apply lookup_singleton_Some in Hp as [<- <-]. split; [apply tiny_pages; by right|lia].
Qed.

Definition tiny_ops : list kop :=
  [OpIncr tiny_p1; OpFree tiny_p1; OpFree tiny_p1; OpFree tiny_p2; OpAlloc; OpAlloc; OpAlloc].

Lemma kalloc_refines_witness :
  ∃ s' a', run_kops tiny_ops tiny_kernel = Ret [0; 0; 0; 0; tiny_p2; tiny_p1; 0] s' ∧
           pool_rel s' a'.
Proof.
  destruct (pool_run tiny_pool tiny_ops) as [[rs a']|] eqn:E; [|vm_compute in E; discriminate].
  destruct (kalloc_refines tiny_kernel tiny_pool tiny_ops rs a' tiny_rel)
    as (s' & Hr & Hrel & _); [by apply not_elem_of_nil|done|].
  exists s', a'. split; [|done]. rewrite Hr. f_equal. vm_compute in E. injection E as <- _.
  reflexivity.
Defined.

Lemma kalloc_preserves_used_witness :
  ∃ s', run_kop (OpFree tiny_p2) tiny_kernel = Ret 0 s' ∧
        load8 (mem s') (tiny_p1 + 5) = load8 (mem tiny_kernel) (tiny_p1 + 5).
Proof.
  eapply (kalloc_preserves_used tiny_kernel tiny_pool (OpFree tiny_p2) 0 _ tiny_p1).
  - apply tiny_rel.
  - by apply not_elem_of_nil.
  - vm_compute. reflexivity.
  - apply elem_of_dom. by eexists.
  - apply elem_of_dom. by eexists.
  - vm_compute. split; [discriminate|reflexivity].
Defined.

Lemma kinit_correct_witness :
  ∃ s' l, kinit kernel0 = Ret () s' ∧ pool_rel s' (mkPool l ∅) ∧ (∀ p, p ∈ l ↔ is_page p) ∧
    kmem_frame kernel0 s'.
Proof.
  apply (kinit_correct kernel0); [reflexivity|reflexivity|by apply not_elem_of_nil].
Defined.

Lemma kfree_rejects_witness :
  kfree 0x1234 tiny_kernel = Panic "kfree" tiny_kernel ∧
  ∃ s s', kfree tiny_p1 tiny_kernel = Ret () s ∧ kfree tiny_p1 s = Panic "kfree panic" s'.
Proof.
  assert (is_page tiny_p1) as Hp by (apply tiny_pages; by left). split.
  - apply (kfree_rejects tiny_kernel 0x1234 []).
    + apply tiny_rel.
    + by apply not_elem_of_nil.
    + intros [Hm _]. vm_compute in Hm. discriminate.
  - destruct (kfree_rejects (after_kfree tiny_kernel tiny_p1) tiny_p1 [tiny_p1]) as [_ [s' E]].
    + apply kfree_inv; [apply tiny_rel|done|vm_compute; discriminate].
    + by apply not_elem_of_nil.
    + left.
    + exists (after_kfree tiny_kernel tiny_p1), s'. split; [|exact E].
      apply kfree_last; [done|reflexivity|by apply not_elem_of_nil].
Defined.
