(* ===== verification/Vm.v ===== *)
(** * kernel/vm.c: page tables, address spaces and user memory access

    Page tables are read and written in physical memory, word by word, as the
    C code does; the pages come from the allocator of kalloc.c.  A kernel
    buffer passed to copyout(), copyin() or copyinstr() is the list of its
    bytes; the two copies into the kernel return the bytes they have stored
    with their result.  cowfault() (trap.c) is here because copyout() calls
    it.  Loops get a bound computed from their arguments which the theorems
    show is never reached. *)

From Stdlib Require Import ZArith Lia.
From stdpp Require Import base numbers strings option list gmap.
From S2P Require Import Prelude Params Machine Cstring Kalloc.

Open Scope Z_scope.

Section vm.
Context `{Linker}.

(** ** walk() *)

(** The body of walk()'s loop: the table below [pagetable] for [va]. *)
Definition walk_level (va : Z) (alloc : bool) (level pagetable : Z) : K (option Z) :=
  let pte := pagetable + 8 * PX level va in
  v ← load64_k pte;
  if negb (Z.land v PTE_V =? 0) then mret (Some (PTE2PA v))
  else if negb alloc then mret None
  else
    pg ← kalloc;
    if pg =? 0 then mret None
    else
      memset_k pg 0 PGSIZE;;
      store64_k pte (Z.lor (PA2PTE pg) PTE_V);;
      mret (Some pg).

Fixpoint walk_loop (levels : list Z) (va : Z) (alloc : bool) (pagetable : Z) : K (option Z) :=
  match levels with
  | [] => mret (Some pagetable)
  | level :: levels =>
      r ← walk_level va alloc level pagetable;
      match r with
      | None => mret None
      | Some pt => walk_loop levels va alloc pt
      end
  end.

(** The address of the entry for [va], or 0. *)
Definition walk (pagetable va : Z) (alloc : bool) : K Z :=
  if MAXVA <=? va then panic "walk"
  else
    r ← walk_loop [2; 1] va alloc pagetable;
    match r with
    | None => mret 0
    | Some pt => mret (pt + 8 * PX 0 va)
    end.

Definition walkaddr (pagetable va : Z) : K Z :=
  if MAXVA <=? va then mret 0
  else
    pte ← walk pagetable va false;
    if pte =? 0 then mret 0
    else
      v ← load64_k pte;
      if Z.land v PTE_V =? 0 then mret 0
      else if Z.land v PTE_U =? 0 then mret 0
      else mret (PTE2PA v).

(** ** mappages() and uvmunmap() *)

Definition mappages_body (pagetable last perm : Z) (ap : Z * Z) : K (Z * Z + Z) :=
  let '(a, pa) := ap in
  pte ← walk pagetable a true;
  if pte =? 0 then mret (inr (-1))
  else
    v ← load64_k pte;
    if negb (Z.land v PTE_V =? 0) then panic "mappages: remap"
    else
      store64_k pte (Z.lor (Z.lor (PA2PTE pa) perm) PTE_V);;
      if a =? last then mret (inr 0)
      else mret (inl (u64 (a + PGSIZE), u64 (pa + PGSIZE))).

(** The loop ends at [last], or, when [last] is below [a], in walk()'s panic at
    MAXVA. *)
Definition mappages (pagetable va size pa perm : Z) : K Z :=
  if size =? 0 then panic "mappages: size"
  else
    let a := PGROUNDDOWN va in
    let last := PGROUNDDOWN (u64 (va + size - 1)) in
    let bound := if a <=? last then last else MAXVA in
    loop (S (S (Z.to_nat ((bound - a) / PGSIZE)))) (mappages_body pagetable last perm) (a, pa).

Definition kvmmap (kpgtbl va pa sz perm : Z) : K () :=
  r ← mappages kpgtbl va sz pa perm;
  if negb (r =? 0) then panic "kvmmap" else mret ().

Definition uvmunmap_body (pagetable last : Z) (do_free : bool) (a : Z) : K (Z + ()) :=
  if negb (a <? last) then mret (inr ())
  else
    pte ← walk pagetable a false;
    if pte =? 0 then panic "uvmunmap: walk"
    else
      v ← load64_k pte;
      if Z.land v PTE_V =? 0 then panic "uvmunmap: not mapped"
      else if PTE_FLAGS v =? PTE_V then panic "uvmunmap: not a leaf"
      else
        when do_free (kfree (PTE2PA v));;
        store64_k pte 0;;
        mret (inl (u64 (a + PGSIZE))).

Definition uvmunmap (pagetable va npages : Z) (do_free : bool) : K () :=
  if negb (va mod PGSIZE =? 0) then panic "uvmunmap: not aligned"
  else
    loop (S (Z.to_nat npages))
      (uvmunmap_body pagetable (u64 (va + npages * PGSIZE)) do_free) va.

(** ** Creating, growing and shrinking an address space *)

Definition uvmcreate : K Z :=
  pagetable ← kalloc;
  if pagetable =? 0 then mret 0
  else memset_k pagetable 0 PGSIZE;; mret pagetable.

Definition uvmfirst (pagetable : Z) (src : list Z) : K () :=
  let sz := Z.of_nat (length src) in
  if PGSIZE <=? sz then panic "uvmfirst: more than a page"
  else
    m ← kalloc;
    memset_k m 0 PGSIZE;;
    mappages pagetable 0 PGSIZE m (Z.lor (Z.lor (Z.lor PTE_W PTE_R) PTE_X) PTE_U);;
    modify (λ s, s <| mem ::= λ b, store_bytes b m src |>).

Definition uvmdealloc (pagetable oldsz newsz : Z) : K Z :=
  if oldsz <=? newsz then mret oldsz
  else
    when (PGROUNDUP newsz <? PGROUNDUP oldsz)
      (let npages := i32 ((PGROUNDUP oldsz - PGROUNDUP newsz) / PGSIZE) in
       uvmunmap pagetable (PGROUNDUP newsz) (u64 npages) true);;
    mret newsz.

Definition uvmalloc_body (pagetable oldsz newsz xperm a : Z) : K (Z + Z) :=
  if negb (a <? newsz) then mret (inr newsz)
  else
    m ← kalloc;
    if m =? 0 then uvmdealloc pagetable a oldsz;; mret (inr 0)
    else
      memset_k m 0 PGSIZE;;
      r ← mappages pagetable a PGSIZE m (Z.lor (Z.lor PTE_R PTE_U) xperm);
      if negb (r =? 0) then
        kfree m;; uvmdealloc pagetable a oldsz;; mret (inr 0)
      else mret (inl (u64 (a + PGSIZE))).

Definition uvmalloc (pagetable oldsz newsz xperm : Z) : K Z :=
  if newsz <? oldsz then mret oldsz
  else
    let oldsz := PGROUNDUP oldsz in
    loop (S (Z.to_nat ((newsz - oldsz + PGSIZE - 1) / PGSIZE)))
      (uvmalloc_body pagetable oldsz newsz xperm) oldsz.

(** ** Freeing an address space *)

(** [fuel] is the number of table levels below [pagetable], itself included;
    a Sv39 table has three. *)
Fixpoint freewalk (fuel : nat) (pagetable : Z) : K () :=
  match fuel with
  | O => λ _, Fuel
  | S fuel =>
      for_each (seqZ 0 512) (λ i,
        pte ← load64_k (pagetable + 8 * i);
        if negb (Z.land pte PTE_V =? 0) &&
           (Z.land pte (Z.lor (Z.lor PTE_R PTE_W) PTE_X) =? 0) then
          freewalk fuel (PTE2PA pte);;
          store64_k (pagetable + 8 * i) 0
        else if negb (Z.land pte PTE_V =? 0) then panic "freewalk: leaf"
        else mret ());;
      kfree pagetable
  end.

Definition uvmfree (pagetable sz : Z) : K () :=
  when (0 <? sz) (uvmunmap pagetable 0 (PGROUNDUP sz / PGSIZE) true);;
  freewalk 3 pagetable.

(** ** Copy-on-write *)

Definition uvmcopy_body (old new sz i : Z) : K (Z + Z) :=
  if negb (i <? sz) then mret (inr 0)
  else
    pte ← walk old i false;
    if pte =? 0 then panic "uvmcopy: pte should exist"
    else
      v ← load64_k pte;
      if Z.land v PTE_V =? 0 then panic "uvmcopy: page not present"
      else
        let pa := PTE2PA v in
        store64_k pte (Z.land v (Z.lnot PTE_W));;
        v ← load64_k pte;
        let flags := u32 (PTE_FLAGS v) in
        increse pa;;
        r ← mappages new i PGSIZE pa flags;
        if negb (r =? 0) then
          uvmunmap new 0 (i / PGSIZE) true;;
          mret (inr (-1))
        else mret (inl (u64 (i + PGSIZE))).

Definition uvmcopy (old new sz : Z) : K Z :=
  loop (S (Z.to_nat ((sz + PGSIZE - 1) / PGSIZE))) (uvmcopy_body old new sz) 0.

Definition uvmclear (pagetable va : Z) : K () :=
  pte ← walk pagetable va false;
  if pte =? 0 then panic "uvmclear"
  else
    v ← load64_k pte;
    store64_k pte (Z.land v (Z.lnot PTE_U)).

Definition cowfault (pagetable va : Z) : K Z :=
  if MAXVA <=? va then mret (-1)
  else
    pte ← walk pagetable va false;
    if pte =? 0 then mret (-1)
    else
      v ← load64_k pte;
      if (Z.land v PTE_U =? 0) || (Z.land v PTE_V =? 0) then mret (-1)
      else
        let pa1 := PTE2PA v in
        pa2 ← kalloc;
        if pa2 =? 0 then mret (-1)
        else
          memmove_k pa2 pa1 PGSIZE;;
          store64_k pte
            (Z.lor (Z.lor (Z.lor (Z.lor (Z.lor (PA2PTE pa2) PTE_U) PTE_V) PTE_W) PTE_X) PTE_R);;
          kfree pa1;;
          mret 0.

(** ** Copying between kernel and user memory *)

Definition copyout_body (pagetable : Z) (st : Z * list Z) : K (Z * list Z + Z) :=
  let '(dstva, src) := st in
  let len := Z.of_nat (length src) in
  if negb (0 <? len) then mret (inr 0)
  else
    let va0 := PGROUNDDOWN dstva in
    if MAXVA <? va0 then mret (inr (-1))
    else
      f ← cowfault pagetable va0;
      if f <? 0 then mret (inr (-1))
      else
        pa0 ← walkaddr pagetable va0;
        if pa0 =? 0 then mret (inr (-1))
        else
          let n := Z.min (PGSIZE - (dstva - va0)) len in
          modify (λ s, s <| mem ::= λ b, store_bytes b (pa0 + (dstva - va0)) (take (Z.to_nat n) src) |>);;
          mret (inl (u64 (va0 + PGSIZE), drop (Z.to_nat n) src)).

Definition copyout (pagetable dstva : Z) (src : list Z) : K Z :=
  loop (S (S (Z.to_nat (length src / PGSIZE)) + 1)) (copyout_body pagetable) (dstva, src).

(** The result and the bytes stored at [dst]. *)
Definition copyin_body (pagetable : Z) (st : Z * Z * list Z) :
    K (Z * Z * list Z + Z * list Z) :=
  let '(srcva, len, dst) := st in
  if negb (0 <? len) then mret (inr (0, dst))
  else
    let va0 := PGROUNDDOWN srcva in
    pa0 ← walkaddr pagetable va0;
    if pa0 =? 0 then mret (inr (-1, dst))
    else
      let n := Z.min (PGSIZE - (srcva - va0)) len in
      bs ← gets (λ s, load_bytes (mem s) (pa0 + (srcva - va0)) (Z.to_nat n));
      mret (inl (u64 (va0 + PGSIZE), len - n, dst ++ bs)).

Definition copyin (pagetable srcva len : Z) : K (Z * list Z) :=
  loop (S (S (Z.to_nat (len / PGSIZE)) + 1)) (copyin_body pagetable) (srcva, len, []).

(** The inner loop of copyinstr(): at most [n] bytes at [p]; whether a NUL was
    met, and the bytes stored. *)
Fixpoint copy_until_nul (m : gmap Z Z) (p : Z) (n : nat) : bool * list Z :=
  match n with
  | O => (false, [])
  | S n =>
      if load8 m p =? 0 then (true, [0])
      else let '(g, bs) := copy_until_nul m (p + 1) n in (g, load8 m p :: bs)
  end.

Definition copyinstr_body (pagetable : Z) (st : Z * Z * list Z) :
    K (Z * Z * list Z + Z * list Z) :=
  let '(srcva, max, dst) := st in
  if negb (0 <? max) then mret (inr (-1, dst))
  else
    let va0 := PGROUNDDOWN srcva in
    pa0 ← walkaddr pagetable va0;
    if pa0 =? 0 then mret (inr (-1, dst))
    else
      let n := Z.min (PGSIZE - (srcva - va0)) max in
      '(got_null, bs) ← gets (λ s, copy_until_nul (mem s) (pa0 + (srcva - va0)) (Z.to_nat n));
      if got_null : bool then mret (inr (0, dst ++ bs))
      else mret (inl (u64 (va0 + PGSIZE), max - n, dst ++ bs)).

Definition copyinstr (pagetable srcva max : Z) : K (Z * list Z) :=
  loop (S (S (Z.to_nat (max / PGSIZE)) + 1)) (copyinstr_body pagetable) (srcva, max, []).

(** ** The kernel's own page table *)

(** proc_mapstacks() of proc.c. *)
Definition proc_mapstacks (kpgtbl : Z) : K () :=
  for_each (seqZ 0 NPROC) (λ p,
    pa ← kalloc;
    if pa =? 0 then panic "kalloc"
    else kvmmap kpgtbl (KSTACK p) pa PGSIZE (Z.lor PTE_R PTE_W)).

Definition kvmmake : K Z :=
  kpgtbl ← kalloc;
  memset_k kpgtbl 0 PGSIZE;;
  kvmmap kpgtbl UART0 UART0 PGSIZE (Z.lor PTE_R PTE_W);;
  kvmmap kpgtbl VIRTIO0 VIRTIO0 PGSIZE (Z.lor PTE_R PTE_W);;
  kvmmap kpgtbl PLIC PLIC 0x400000 (Z.lor PTE_R PTE_W);;
  kvmmap kpgtbl KERNBASE KERNBASE (etext - KERNBASE) (Z.lor PTE_R PTE_X);;
  kvmmap kpgtbl etext etext (PHYSTOP - etext) (Z.lor PTE_R PTE_W);;
  kvmmap kpgtbl TRAMPOLINE trampoline PGSIZE (Z.lor PTE_R PTE_X);;
  proc_mapstacks kpgtbl;;
  mret kpgtbl.

End vm.
