(* ===== verification/VmPt.v ===== *)
(** * Page tables as functions: the meaning of walk(), mappages(), uvmunmap()

    [pte_of m root va] is the leaf entry that the page table at [root] holds
    for [va] in memory [m], 0 where the walk stops early.  [pt_wf m lab] says
    that the pages labelled by [lab] form page tables: a label is the root a
    table page belongs to and the path of indices that leads to it, so two
    table pages never coincide.  Several tables can be described by one
    [lab].  [vm_inv] adds that the table pages are in use exactly once in the
    allocator. *)

From Stdlib Require Import ZArith Lia.
From stdpp Require Import base numbers strings option list gmap.
From S2P Require Import Prelude Params Machine Cstring Kalloc Vm.

Open Scope Z_scope.

Definition pte_valid (v : Z) : bool := negb (Z.land v PTE_V =? 0).

(** The table below [pt] on the way to [va]. *)
Definition next_table (m : gmap Z Z) (level va pt : Z) : option Z :=
  let v := load64 m (pt + 8 * PX level va) in
  if pte_valid v then Some (PTE2PA v) else None.

(** The address of the leaf entry for [va]. *)
Definition leaf_slot (m : gmap Z Z) (root va : Z) : option Z :=
  pt1 ← next_table m 2 va root; pt0 ← next_table m 1 va pt1; Some (pt0 + 8 * PX 0 va).

Definition pte_of (m : gmap Z Z) (root va : Z) : Z :=
  from_option (load64 m) 0 (leaf_slot m root va).

Abbreviation tables := (gmap Z (Z * list Z)).

(** [root] is the root of one of the tables of [lab]. *)
Definition is_root (lab : tables) (root : Z) : Prop := lab !! root = Some (root, []).

Section pt.
Context `{Linker}.

Record pt_wf (m : gmap Z Z) (lab : tables) : Prop := {
  pw_page : ∀ pt x, lab !! pt = Some x → is_page pt;
  pw_next : ∀ pt root path i, lab !! pt = Some (root, path) → (length path < 2)%nat →
    0 ≤ i < 512 → pte_valid (load64 m (pt + 8 * i)) = true →
    lab !! PTE2PA (load64 m (pt + 8 * i)) = Some (root, path ++ [i])
}.

Record vm_inv (s : kernel) (a : pool) (lab : tables) : Prop := {
  vi_pool : pool_rel s a;
  vi_lock : kmem_lock ∉ held s;
  vi_wf : pt_wf (mem s) lab;
  vi_used : ∀ pt x, lab !! pt = Some x → pool_refs a !! pt = Some 1
}.

(** What a call that only adds table pages may change. *)
Record vm_ext (s : kernel) (a : pool) (lab : tables) (s' : kernel) (a' : pool) (lab' : tables) : Prop := {
  ve_frame : kmem_frame s s';
  ve_lab : lab ⊆ lab';
  ve_refs : ∀ q, lab' !! q = None ∨ is_Some (lab !! q) → pool_refs a' !! q = pool_refs a !! q;
  ve_data : ∀ q b, q ∈ dom (pool_refs a) → lab !! q = None → q ≤ b < q + PGSIZE →
    load8 (mem s') b = load8 (mem s) b;
  ve_new : ∀ q x, lab' !! q = Some x → lab !! q = None → pool_refs a !! q = None;
  ve_next : ∀ l va q r path q', lab !! q = Some (r, path) → (length path < 2)%nat → 0 ≤ l →
    next_table (mem s) l va q = Some q' → next_table (mem s') l va q = Some q';
  ve_roots : ∀ r, is_root lab' r → is_root lab r
}.

(** The tables hold the same entries. *)
Definition pt_same (lab : tables) (m m' : gmap Z Z) : Prop :=
  ∀ root va, is_root lab root → 0 ≤ va < MAXVA → pte_of m' root va = pte_of m root va.

(** ** Arithmetic of entries *)

Lemma pte_valid_odd v : pte_valid v = Z.odd v.
Proof.
  unfold pte_valid, PTE_V. rewrite Zodd_mod. change (Z.shiftl 1 0) with (Z.ones 1).
  rewrite Z.land_ones by lia. change (2 ^ 1) with 2.
  pose proof (Z.mod_pos_bound v 2 ltac:(lia)). destruct (v mod 2) as [|[]|]; try done; lia.
Qed.

Lemma is_page_pa p : is_page p → 0 ≤ p < 2 ^ 56 ∧ p mod PGSIZE = 0.
Proof.
  intros Hp. pose proof (is_page_bounds p Hp). split; [|apply Hp].
  unfold PHYSTOP, KERNBASE in *. lia.
Qed.

Lemma PA2PTE_valid p perm : 0 ≤ p < 2 ^ 56 → p mod PGSIZE = 0 → 0 ≤ perm < 2 ^ 10 →
  0 ≤ Z.lor (PA2PTE p) perm < 2 ^ 64.
Proof.
  intros Hp Hm Hf. rewrite lor_flags_eq by done.
  assert (0 ≤ p / 2 ^ 12 < 2 ^ 44) by (split; [apply Z.div_pos|apply Z.div_lt_upper_bound]; lia). lia.
Qed.

Lemma lor_valid v : pte_valid (Z.lor v PTE_V) = true.
Proof.
  rewrite pte_valid_odd, <-Z.bit0_odd, Z.lor_spec. change (Z.testbit PTE_V 0) with true.
  by rewrite orb_true_r.
Qed.

Lemma pte_invalid_0 : pte_valid 0 = false.
Proof. done. Qed.

(** Slots of one page do not overlap, nor do slots of two pages. *)
Lemma slot_disjoint p q i j :
  is_page p → is_page q → 0 ≤ i < 512 → 0 ≤ j < 512 → p ≠ q ∨ i ≠ j →
  (p + 8 * i) + 8 ≤ q + 8 * j ∨ (q + 8 * j) + 8 ≤ p + 8 * i.
Proof.
  intros Hp Hq Hi Hj Hne. destruct (decide (p = q)) as [->|E]; [lia|].
  destruct (page_disjoint p q); [apply Hp|apply Hq|done|..]; unfold PGSIZE in *; lia.
Qed.

Lemma next_table_ext m m' l va pt :
  0 ≤ l → (∀ i, 0 ≤ i < 512 → load64 m' (pt + 8 * i) = load64 m (pt + 8 * i)) →
  next_table m' l va pt = next_table m l va pt.
Proof. intros Hl E. unfold next_table. by rewrite E by (by apply PX_range). Qed.

(** ** Where a walk goes *)

Lemma next_table_lab m lab l va pt root path pt' :
  pt_wf m lab → lab !! pt = Some (root, path) → (length path < 2)%nat → 0 ≤ l →
  next_table m l va pt = Some pt' → lab !! pt' = Some (root, path ++ [PX l va]).
Proof.
  intros Hwf Hpt Hlen Hl. unfold next_table. case_match eqn:Ev; [|done]. intros [= <-].
  eapply Hwf; try done. by apply PX_range.
Qed.

Lemma leaf_slot_lab m lab root va a :
  pt_wf m lab → is_root lab root → leaf_slot m root va = Some a →
  ∃ pt0, lab !! pt0 = Some (root, [PX 2 va; PX 1 va]) ∧ a = pt0 + 8 * PX 0 va.
Proof.
  intros Hwf Hr. unfold leaf_slot. destruct (next_table m 2 va root) as [pt1|] eqn:E1; [|done].
  simpl. destruct (next_table m 1 va pt1) as [pt0|] eqn:E0; [|done]. simpl. intros [= <-].
  pose proof (next_table_lab m lab 2 va root root [] pt1 Hwf Hr ltac:(simpl; lia) ltac:(lia) E1) as H1.
  pose proof (next_table_lab m lab 1 va pt1 root _ pt0 Hwf H1 ltac:(simpl; lia) ltac:(lia) E0) as H0.
  by exists pt0.
Qed.

(** Different pages of different or equal tables have different leaf slots. *)
Lemma leaf_slot_disjoint m lab root va a root' va' a' :
  pt_wf m lab → is_root lab root → is_root lab root' →
  leaf_slot m root va = Some a → leaf_slot m root' va' = Some a' →
  0 ≤ va < MAXVA → 0 ≤ va' < MAXVA → root ≠ root' ∨ va / PGSIZE ≠ va' / PGSIZE →
  a + 8 ≤ a' ∨ a' + 8 ≤ a.
Proof.
  intros Hwf Hr Hr' Ha Ha' Hva Hva' Hne.
  apply (leaf_slot_lab _ _ _ _ _ Hwf Hr) in Ha as (p & Hp & ->).
  apply (leaf_slot_lab _ _ _ _ _ Hwf Hr') in Ha' as (p' & Hp' & ->).
  apply slot_disjoint; try (by eapply Hwf); try by apply PX_range.
  destruct (decide (p = p')) as [->|]; [right|by left].
  rewrite Hp in Hp'. injection Hp' as -> E2 E1. intros E0.
  destruct Hne as [?|Hne]; [done|]. apply Hne. by apply PX_inj.
Qed.

(** ** walk() *)

Lemma walk_level_found va alloc l pt s pt' :
  next_table (mem s) l va pt = Some pt' → walk_level va alloc l pt s = Ret (Some pt') s.
Proof.
  unfold next_table, walk_level, pte_valid, load64_k. msimpl.
  destruct (Z.land _ PTE_V =? 0); simpl; [done|]. by intros [= <-].
Qed.

Lemma walk_level_stop va l pt s :
  next_table (mem s) l va pt = None → walk_level va false l pt s = Ret None s.
Proof.
  unfold next_table, walk_level, pte_valid, load64_k. msimpl.
  by destruct (Z.land _ PTE_V =? 0).
Qed.

Lemma walk_lookup s root va :
  va < MAXVA → walk root va false s = Ret (default 0 (leaf_slot (mem s) root va)) s.
Proof.
  intros Hva. unfold walk. mif_false. unfold leaf_slot. simpl walk_loop. msimpl.
  destruct (next_table (mem s) 2 va root) as [pt1|] eqn:E1.
  - mrun (walk_level_found _ _ _ _ _ _ E1). simpl.
    destruct (next_table (mem s) 1 va pt1) as [pt0|] eqn:E0.
    + by mrun (walk_level_found _ _ _ _ _ _ E0).
    + by mrun (walk_level_stop _ _ _ _ E0).
  - by mrun (walk_level_stop _ _ _ _ E1).
Qed.

(** A new table page [p] entered in slot [i] of [pt]. *)
Definition add_table (s : kernel) (pt i p : Z) : kernel :=
  after_kalloc s p
    <| mem ::= λ m, store64 (memset m p 0 PGSIZE) (pt + 8 * i) (Z.lor (PA2PTE p) PTE_V) |>.
Arguments add_table s pt i p /.

Lemma pool_head_page s a p l : pool_rel s a → pool_free a = p :: l → is_page p ∧ p ≠ 0.
Proof.
  intros [[(_ & _ & HF) _ _] _ _] E. rewrite E in HF. inversion HF as [|? ? Hp _]; subst.
  split; [done|]. pose proof (is_page_bounds p Hp). unfold KERNBASE in *. lia.
Qed.

(** A free page is not in use. *)
Lemma pool_head_fresh s a p l : pool_rel s a → pool_free a = p :: l → pool_refs a !! p = None.
Proof.
  intros Hrel E. destruct (pool_head_page _ _ _ _ Hrel E) as [Hp _].
  destruct (pool_refs a !! p) as [c|] eqn:Ec; [|done]. destruct Hrel as [Hi Hr Hu].
  assert (ref_at s (p / PGSIZE) = 0) as H0 by (apply Hi; [done|rewrite E; left]).
  rewrite Hr, Ec in H0 by done. simpl in H0. destruct (Hu p c Ec). lia.
Qed.

Lemma walk_level_new va l pt s a p fl :
  vm_inv s a ∅ → next_table (mem s) l va pt = None → pool_free a = p :: fl →
  walk_level va true l pt s = Ret (Some p) (add_table s pt (PX l va) p).
Proof.
  intros [Hp Hl _ _] En Ef. destruct (pool_head_page _ _ _ _ Hp Ef) as [_ Hp0].
  destruct Hp as [Hi _ _]. rewrite Ef in Hi. revert En.
  unfold next_table, walk_level, pte_valid, load64_k. msimpl.
  destruct (Z.land _ PTE_V =? 0); simpl; [|done]. intros _.
  mrun (kalloc_eq s p fl) by done. rewrite (proj2 (Z.eqb_neq p 0) Hp0).
  unfold memset_k, store64_k. msimpl. same_record s.
Qed.

Lemma walk_level_nomem va l pt s a :
  vm_inv s a ∅ → next_table (mem s) l va pt = None → pool_free a = [] →
  walk_level va true l pt s = Ret None s.
Proof.
  intros [[Hi _ _] Hl _ _] En Ef. rewrite Ef in Hi. revert En.
  unfold next_table, walk_level, pte_valid, load64_k. msimpl.
  destruct (Z.land _ PTE_V =? 0); simpl; [|done]. intros _.
  mrun (kalloc_none s) by done. done.
Qed.

(** Writing inside a page in use keeps the allocator's invariant. *)
Lemma pool_rel_write s a m' q :
  pool_rel s a → q ∈ dom (pool_refs a) →
  (∀ b, ¬ (q ≤ b < q + PGSIZE) → load8 m' b = load8 (mem s) b) →
  pool_rel (s <| mem := m' |>) a.
Proof.
  intros [[(Hc & Hnd & HF) Hf Hnn] Hr Hu] [c Hq]%elem_of_dom E.
  split; [split; [|done|done]|done|done]. split; [|done]. simpl.
  destruct (Hu q c Hq) as [Hqp Hc0].
  eapply chain_other_page; [done|apply Hqp|done| |done].
  intros Hin. apply Hf in Hin; [|done]. rewrite Hr, Hq in Hin by done. simpl in Hin. lia.
Qed.

Lemma vm_inv_weaken s a lab : vm_inv s a lab → vm_inv s a ∅.
Proof. intros [? ? ? ?]. split; [done|done|split|]; by intros ?????? || intros ?. Qed.

Lemma after_kalloc_rel s a p fl :
  pool_rel s a → kmem_lock ∉ held s → pool_free a = p :: fl →
  pool_rel (after_kalloc s p) (mkPool fl (<[p := 1]> (pool_refs a))).
Proof.
  intros Hp Hl Ef. destruct (alloc_refines s a p (mkPool fl (<[p := 1]> (pool_refs a))))
    as (s' & E & Hrel & _); try done; [simpl; by rewrite Ef|].
  destruct Hp as [Hi _ _]. rewrite Ef in Hi. rewrite (kalloc_eq s p fl) in E by done.
  injection E as <-. done.
Qed.

Lemma load8_add_table s pt i p b :
  ¬ (p ≤ b < p + PGSIZE) → ¬ (pt + 8 * i ≤ b < pt + 8 * i + 8) →
  load8 (mem (add_table s pt i p)) b = load8 (mem s) b.
Proof.
  intros Hb Hs. simpl. rewrite load8_store64 by lia.
  by rewrite load8_memset, decide_False, load8_memset, decide_False by done.
Qed.

Lemma load64_add_table s pt i p q j :
  is_page pt → is_page p → is_page q → p ≠ pt → q ≠ p → 0 ≤ i < 512 → 0 ≤ j < 512 →
  q ≠ pt ∨ j ≠ i → load64 (mem (add_table s pt i p)) (q + 8 * j) = load64 (mem s) (q + 8 * j).
Proof.
  intros Hpt Hp Hq Hne Hqp Hi Hj Hd. apply load64_ext. intros b Hb. apply load8_add_table.
  - destruct (page_disjoint q p); [apply Hq|apply Hp|done|..]; unfold PGSIZE in *; lia.
  - destruct (slot_disjoint q pt j i); try done; lia.
Qed.

Lemma load64_add_table_slot s pt i p :
  is_page p → load64 (mem (add_table s pt i p)) (pt + 8 * i) = Z.lor (PA2PTE p) PTE_V.
Proof.
  intros Hp. apply is_page_pa in Hp as [? ?]. simpl. rewrite load64_store64_eq.
  apply u64_small. by apply PA2PTE_valid.
Qed.

Lemma load64_add_table_new s pt i p j :
  is_page pt → is_page p → p ≠ pt → 0 ≤ i < 512 → 0 ≤ j < 512 →
  load64 (mem (add_table s pt i p)) (p + 8 * j) = 0.
Proof.
  intros Hpt Hp Hne Hi Hj. simpl. rewrite load64_store64_ne.
  - apply load64_memset_zero; unfold PGSIZE; lia.
  - destruct (slot_disjoint p pt j i); try done; [by left|lia..].
Qed.

Section add_table.
Context (s : kernel) (a : pool) (lab : tables) (pt i p : Z) (fl : list Z).
Context (root : Z) (path : list Z).
Hypothesis Hinv : vm_inv s a lab.
Hypothesis Hpt : lab !! pt = Some (root, path).
Hypothesis Hlen : (length path < 2)%nat.
Hypothesis Hi : 0 ≤ i < 512.
Hypothesis Hfree : pool_free a = p :: fl.
Hypothesis Hslot : pte_valid (load64 (mem s) (pt + 8 * i)) = false.

Let lab' : tables := <[p := (root, path ++ [i])]> lab.
Let a' : pool := mkPool fl (<[p := 1]> (pool_refs a)).

Lemma add_table_fresh : is_page p ∧ is_page pt ∧ lab !! p = None ∧ p ≠ pt.
Proof.
  destruct Hinv as [Hrel _ Hwf Hu]. pose proof (pool_head_fresh _ _ _ _ Hrel Hfree) as Hfr.
  split; [by eapply pool_head_page|]. split; [by eapply Hwf|].
  assert (lab !! p = None) by (destruct (lab !! p) as [x|] eqn:E; [|done]; apply Hu in E; congruence).
  split; [done|congruence].
Qed.

Lemma add_table_wf : pt_wf (mem (add_table s pt i p)) lab'.
Proof.
  destruct add_table_fresh as (Hp & Hptp & Hn & Hne). destruct Hinv as [_ _ Hwf _]. split.
  - intros q x. unfold lab'. rewrite lookup_insert_Some. intros [[<- _]|[_ Hq]]; [done|].
    by eapply Hwf.
  - intros q r pa j Hq Hl Hj Hv. destruct (decide (q = p)) as [->|Hqp].
    { by rewrite load64_add_table_new in Hv by done. }
    unfold lab' in *. rewrite lookup_insert_ne in Hq by done.
    assert (is_page q) as Hqpage by (by eapply Hwf).
    destruct (decide (q = pt ∧ j = i)) as [[-> ->]|Hd].
    + rewrite load64_add_table_slot in * by done. rewrite Hpt in Hq. injection Hq as <- <-.
      destruct (is_page_pa p Hp). rewrite PTE2PA_lor by done. by rewrite lookup_insert_eq.
    + assert (q ≠ pt ∨ j ≠ i) as Hd' by (clear -Hd; lia).
      rewrite load64_add_table in Hv |- * by assumption.
      assert (PTE2PA (load64 (mem s) (q + 8 * j)) ≠ p).
      { intros E. pose proof (pw_next _ _ Hwf _ _ _ _ Hq Hl Hj Hv). congruence. }
      rewrite lookup_insert_ne by done. by eapply pw_next.
Qed.

Lemma add_table_inv : vm_inv (add_table s pt i p) a' lab'.
Proof.
  destruct add_table_fresh as (Hp & Hptp & Hn & Hne). split.
  - destruct Hinv as [Hrel Hl _ Hu]. pose proof (after_kalloc_rel _ _ _ _ Hrel Hl Hfree) as H1.
    eapply (pool_rel_write _ _ (memset (mem (after_kalloc s p)) p 0 PGSIZE) p) in H1.
    + eapply (pool_rel_write _ _ (mem (add_table s pt i p)) pt) in H1.
      * revert H1. cbn. done.
      * apply elem_of_dom. simpl. rewrite lookup_insert_ne by done. eexists. by eapply Hu.
      * intros b Hb. simpl. rewrite load8_store64; [done|]. unfold PGSIZE in *. lia.
    + apply elem_of_dom. simpl. rewrite lookup_insert_eq. by eexists.
    + intros b Hb. by rewrite load8_memset, decide_False.
  - apply Hinv.
  - apply add_table_wf.
  - intros q x. unfold lab', a'. simpl. rewrite !lookup_insert_Some.
    intros [[<- _]|[Hqp Hq]]; [by left|]. right. split; [done|]. by eapply Hinv.
Qed.

(** The entries seen through the tables do not change. *)
Lemma add_table_next l va q r pa q' :
  lab !! q = Some (r, pa) → 0 ≤ l → next_table (mem s) l va q = Some q' →
  next_table (mem (add_table s pt i p)) l va q = Some q'.
Proof.
  destruct add_table_fresh as (Hp & Hptp & Hn & Hne). destruct Hinv as [_ _ Hwf _].
  intros Hq Hl. pose proof (PX_range l va Hl). unfold next_table.
  destruct (decide (q = pt ∧ PX l va = i)) as [[-> ->]|Hd]; [by rewrite Hslot|].
  rewrite (load64_add_table _ _ _ _ q); try done; [by eapply Hwf|congruence|lia].
Qed.

Lemma add_table_next_none l va q r pa :
  lab !! q = Some (r, pa) → 0 ≤ l → next_table (mem s) l va q = None →
  next_table (mem (add_table s pt i p)) l va q = None ∨ next_table (mem (add_table s pt i p)) l va q = Some p ∧ q = pt ∧ PX l va = i.
Proof.
  destruct add_table_fresh as (Hp & Hptp & Hn & Hne). destruct Hinv as [_ _ Hwf _].
  intros Hq Hl. pose proof (PX_range l va Hl). unfold next_table.
  destruct (decide (q = pt ∧ PX l va = i)) as [[-> ->]|Hd].
  - intros _. right. rewrite load64_add_table_slot, lor_valid by done.
    destruct (is_page_pa p Hp). by rewrite PTE2PA_lor.
  - rewrite (load64_add_table _ _ _ _ q); try done; [by left|by eapply Hwf|congruence|lia].
Qed.

Lemma add_table_next_new l va : 0 ≤ l → next_table (mem (add_table s pt i p)) l va p = None.
Proof.
  destruct add_table_fresh as (Hp & Hptp & Hn & Hne). intros Hl. unfold next_table.
  by rewrite load64_add_table_new by (try done; by apply PX_range).
Qed.

Lemma add_table_ext : vm_ext s a lab (add_table s pt i p) a' lab'.
Proof.
  destruct add_table_fresh as (Hp & Hptp & Hn & Hne). split.
  - same_record s.
  - by apply insert_subseteq.
  - unfold lab', a'. simpl. intros q Hq. rewrite lookup_insert_ne; [done|]. intros <-.
    rewrite lookup_insert_eq in Hq. destruct Hq as [?|[? ?]]; congruence.
  - intros q b [c Hq]%elem_of_dom Hlq Hb. destruct Hinv as [Hrel _ _ _].
    pose proof (pool_head_fresh _ _ _ _ Hrel Hfree) as Hfr.
    assert (is_page q) as Hqpg by (by eapply Hrel).
    apply load8_add_table.
    + destruct (page_disjoint q p); [apply Hqpg|apply Hp|congruence|..]; lia.
    + destruct (page_disjoint q pt); [apply Hqpg|apply Hptp|congruence|..]; unfold PGSIZE in *; lia.
  - unfold lab'. intros q x. rewrite lookup_insert_Some. intros [[<- _]|[_ Hq]] Hnq; [|congruence].
    eapply pool_head_fresh; [apply Hinv|done].
  - intros l va q r pa q' Hq _ Hl. by eapply add_table_next.
  - unfold is_root, lab'. intros r. rewrite lookup_insert_Some. intros [[_ E]|[_ Hr]]; [|done].
    injection E as _ E. by apply app_nil in E as [_ ?].
Qed.

Lemma add_table_pte : pt_same lab (mem s) (mem (add_table s pt i p)).
Proof.
  destruct add_table_fresh as (Hp & Hptp & Hn & Hne). pose proof (vi_wf _ _ _ Hinv) as Hwf.
  pose proof add_table_next as F1. pose proof add_table_next_none as F2.
  pose proof add_table_next_new as F3.
  pose proof (λ q j, load64_add_table s pt i p q j Hptp Hp) as F4.
  pose proof (λ j, load64_add_table_new s pt i p j Hptp Hp Hne Hi) as F5.
  revert F1 F2 F3 F4 F5. generalize (mem (add_table s pt i p)). intros m' F1 F2 F3 F4 F5.
  intros r va Hr _. unfold pte_of, leaf_slot.
  destruct (next_table (mem s) 2 va r) as [pt1|] eqn:E1; simpl.
  - rewrite (F1 2 va _ _ _ _ Hr ltac:(lia) E1). simpl.
    pose proof (next_table_lab _ _ 2 va r r [] pt1 Hwf Hr ltac:(simpl; lia) ltac:(lia) E1) as H1.
    destruct (next_table (mem s) 1 va pt1) as [pt0|] eqn:E0; simpl.
    + rewrite (F1 1 va _ _ _ _ H1 ltac:(lia) E0). simpl.
      pose proof (next_table_lab _ _ 1 va pt1 r _ pt0 Hwf H1 ltac:(simpl; lia) ltac:(lia) E0) as H0.
      apply F4; try done; [by eapply Hwf|congruence|by apply PX_range|].
      left. intros ->. rewrite Hpt in H0. injection H0 as _ Epath.
      by rewrite Epath in Hlen; simpl in Hlen; lia.
    + destruct (F2 1 va _ _ _ H1 ltac:(lia) E0) as [->|(-> & _ & _)]; [done|].
      simpl. apply F5. by apply PX_range.
  - destruct (F2 2 va _ _ _ Hr ltac:(lia) E1) as [->|(-> & _ & _)]; [done|].
    simpl. by rewrite F3.
Qed.

End add_table.

Lemma vm_ext_refl s a lab : vm_ext s a lab s a lab.
Proof. split; try done; [same_record s|congruence]. Qed.

Lemma vm_ext_trans s a lab s1 a1 lab1 s2 a2 lab2 :
  vm_ext s a lab s1 a1 lab1 → vm_ext s1 a1 lab1 s2 a2 lab2 → vm_ext s a lab s2 a2 lab2.
Proof.
  intros [F1 L1 R1 D1 N1 X1 Y1] [F2 L2 R2 D2 N2 X2 Y2]. split.
  - by eapply kmem_frame_trans.
  - by transitivity lab1.
  - intros q Hq. assert (lab1 !! q = None ∨ is_Some (lab !! q)) as Hq1.
    { destruct Hq as [Hq|Hq]; [left; by eapply lookup_weaken_None|by right]. }
    rewrite R2, R1; [done|done|]. destruct Hq as [Hq|[x Hq]]; [by left|].
    right. exists x. by eapply lookup_weaken.
  - intros q b Hq Hl Hb. destruct (lab1 !! q) as [x|] eqn:E1.
    + exfalso. apply elem_of_dom in Hq as [c Hc]. rewrite (N1 q x) in Hc by done. done.
    + rewrite (D2 q), (D1 q); try done. apply elem_of_dom in Hq as [c Hc]. apply elem_of_dom. exists c.
      rewrite R1; [done|by left].
  - intros q x Hq Hl. destruct (lab1 !! q) as [y|] eqn:E1; [by eapply N1|].
    rewrite <-R1 by (by left). by eapply N2.
  - intros l va q r pa q' Hq Hlen Hl HX. eapply X2; [|done|done|by eapply X1].
    by eapply lookup_weaken.
  - intros r Hr. by apply Y1, Y2.
Qed.

Lemma is_root_weaken lab lab' r : lab ⊆ lab' → is_root lab r → is_root lab' r.
Proof. intros HL Hr. by eapply lookup_weaken. Qed.

Lemma pt_same_trans lab lab1 m m1 m2 :
  lab ⊆ lab1 → pt_same lab m m1 → pt_same lab1 m1 m2 → pt_same lab m m2.
Proof.
  intros HL H1 H2 r va Hr Hva. rewrite H2, H1; [done|done|done| |done]. by eapply is_root_weaken.
Qed.

Lemma walk_level_alloc s a lab l va pt root path :
  vm_inv s a lab → lab !! pt = Some (root, path) → (length path < 2)%nat → 0 ≤ l →
  ∃ r s' a' lab', walk_level va true l pt s = Ret r s' ∧ vm_inv s' a' lab' ∧
    vm_ext s a lab s' a' lab' ∧ pt_same lab (mem s) (mem s') ∧
    match r with
    | Some pt' => next_table (mem s') l va pt = Some pt'
    | None => pool_free a' = []
    end.
Proof.
  intros Hinv Hpt Hlen Hl. pose proof (PX_range l va Hl) as Hi.
  destruct (next_table (mem s) l va pt) as [pt'|] eqn:En.
  { exists (Some pt'), s, a, lab. rewrite (walk_level_found _ _ _ _ _ _ En).
    split; [done|]. split; [done|]. split; [apply vm_ext_refl|done]. }
  assert (pte_valid (load64 (mem s) (pt + 8 * PX l va)) = false) as Hv.
  { unfold next_table in En. by destruct (pte_valid _). }
  destruct (pool_free a) as [|p fl] eqn:Ef.
  { exists None, s, a, lab. rewrite (walk_level_nomem _ _ _ _ a); [|by eapply vm_inv_weaken|done|done].
    split; [done|]. split; [done|]. split; [apply vm_ext_refl|done]. }
  eexists (Some p), _, _, _. split.
  { eapply walk_level_new; [by eapply vm_inv_weaken|done|done]. }
  split; [by eapply add_table_inv|]. split; [by eapply add_table_ext|].
  split; [by eapply add_table_pte|].
  assert (is_page p) as Hp by (eapply pool_head_page; [apply Hinv|done]).
  destruct (is_page_pa p Hp). unfold next_table.
  by rewrite load64_add_table_slot, lor_valid, PTE2PA_lor.
Qed.

Lemma walk_alloc s a lab root va :
  vm_inv s a lab → is_root lab root → va < MAXVA →
  ∃ r s' a' lab', walk root va true s = Ret r s' ∧ vm_inv s' a' lab' ∧
    vm_ext s a lab s' a' lab' ∧ pt_same lab (mem s) (mem s') ∧
    (r = 0 ∧ pool_free a' = [] ∨ r ≠ 0 ∧ leaf_slot (mem s') root va = Some r).
Proof.
  intros Hinv Hr Hva. unfold walk. mif_false. simpl walk_loop. msimpl.
  destruct (walk_level_alloc s a lab 2 va root root [])
    as (r1 & s1 & a1 & lab1 & E1 & Hi1 & Hx1 & Hs1 & Hr1); try done; [simpl; lia|].
  rewrite E1. msimpl. destruct r1 as [pt1|].
  2: { exists 0, s1, a1, lab1. split; [done|]. split; [done|]. split; [done|]. split; [done|]. by left. }
  pose proof (is_root_weaken _ _ _ (ve_lab _ _ _ _ _ _ Hx1) Hr) as Hr'.
  pose proof (next_table_lab _ _ 2 va root root [] pt1 (vi_wf _ _ _ Hi1) Hr' ltac:(simpl; lia) ltac:(lia) Hr1) as H1.
  destruct (walk_level_alloc s1 a1 lab1 1 va pt1 root _ Hi1 H1)
    as (r0 & s2 & a2 & lab2 & E2 & Hi2 & Hx2 & Hs2 & Hr0); try done; [simpl; lia|].
  msimpl. rewrite E2. msimpl.
  pose proof (vm_ext_trans _ _ _ _ _ _ _ _ _ Hx1 Hx2) as Hx.
  pose proof (pt_same_trans _ _ _ _ _ (ve_lab _ _ _ _ _ _ Hx1) Hs1 Hs2) as Hs.
  destruct r0 as [pt0|].
  2: { exists 0, s2, a2, lab2. split; [done|]. split; [done|]. split; [done|]. split; [done|]. by left. }
  exists (pt0 + 8 * PX 0 va), s2, a2, lab2. do 4 (split; [done|]). right.
  assert (lab2 !! pt0 = Some (root, [PX 2 va; PX 1 va])) as H0.
  { eapply (next_table_lab _ _ 1 va pt1 root [PX 2 va] pt0 (vi_wf _ _ _ Hi2)); [|simpl; lia|lia|done].
    eapply lookup_weaken; [done|apply Hx2]. }
  pose proof (is_page_bounds pt0 (pw_page _ _ (vi_wf _ _ _ Hi2) _ _ H0)).
  pose proof (PX_range 0 va ltac:(lia)). split; [unfold KERNBASE in *; lia|].
  unfold leaf_slot. erewrite (ve_next _ _ _ _ _ _ Hx2); [|exact Hr'|simpl; lia|lia|exact Hr1].
  simpl. by rewrite Hr0.
Qed.

(** ** Writing a leaf entry *)

(** [m'] has the entries of [m], but the pages of [root] that [upd] gives an
    entry (by page number). *)
Definition pt_upd (lab : tables) (m m' : gmap Z Z) (root : Z) (upd : Z → option Z) : Prop :=
  ∀ r va, is_root lab r → 0 ≤ va < MAXVA →
    pte_of m' r va =
      if decide (r = root) then default (pte_of m r va) (upd (va / PGSIZE)) else pte_of m r va.

Lemma pt_upd_same lab m m' root : pt_same lab m m' → pt_upd lab m m' root (λ _, None).
Proof. intros Hs r va Hr Hva. rewrite Hs by done. by case_decide. Qed.

Lemma pt_upd_ext lab m m' root upd upd' :
  (∀ v, upd v = upd' v) → pt_upd lab m m' root upd → pt_upd lab m m' root upd'.
Proof. intros E Hu r va Hr Hva. rewrite Hu by done. by rewrite E. Qed.

Lemma pt_upd_trans lab lab1 m m1 m2 root u1 u2 :
  lab ⊆ lab1 → pt_upd lab m m1 root u1 → pt_upd lab1 m1 m2 root u2 →
  pt_upd lab m m2 root (λ v, u2 v ∪ u1 v).
Proof.
  intros HL H1 H2 r va Hr Hva.
  rewrite H2, H1 by (try done; by eapply is_root_weaken).
  case_decide; [|done]. destruct (u2 _), (u1 _); done.
Qed.

Section leaf.
Context (m : gmap Z Z) (lab : tables) (root va x v : Z).
Hypothesis Hwf : pt_wf m lab.
Hypothesis Hroot : is_root lab root.
Hypothesis Hva : 0 ≤ va < MAXVA.
Hypothesis Hx : leaf_slot m root va = Some x.

Lemma store_leaf_other q r path j :
  lab !! q = Some (r, path) → (length path < 2)%nat → 0 ≤ j < 512 →
  load64 (store64 m x v) (q + 8 * j) = load64 m (q + 8 * j).
Proof.
  intros Hq Hlen Hj. apply load64_store64_ne.
  destruct (leaf_slot_lab _ _ _ _ _ Hwf Hroot Hx) as (pt0 & Hpt0 & ->).
  apply slot_disjoint; try (by eapply Hwf); [done|by apply PX_range|left].
  intros ->. rewrite Hq in Hpt0. injection Hpt0 as -> ->. simpl in Hlen. lia.
Qed.

Lemma store_leaf_next l va' q r path :
  lab !! q = Some (r, path) → (length path < 2)%nat → 0 ≤ l →
  next_table (store64 m x v) l va' q = next_table m l va' q.
Proof.
  intros Hq Hlen Hl. apply next_table_ext; [done|]. intros j Hj. by eapply store_leaf_other.
Qed.

Lemma store_leaf_wf : pt_wf (store64 m x v) lab.
Proof.
  split; [apply Hwf|]. intros pt r path i Hpt Hlen Hi.
  rewrite (store_leaf_other pt r path) by done. by apply Hwf.
Qed.

Lemma store_leaf_slot r va' : is_root lab r → leaf_slot (store64 m x v) r va' = leaf_slot m r va'.
Proof.
  intros Hr. unfold leaf_slot. rewrite (store_leaf_next 2 va' r r []) by (try done; simpl; lia).
  destruct (next_table m 2 va' r) as [pt1|] eqn:E1; [|done]. simpl.
  pose proof (next_table_lab _ _ 2 va' r r [] pt1 Hwf Hr ltac:(simpl; lia) ltac:(lia) E1) as H1.
  by rewrite (store_leaf_next 1 va' pt1 r _ H1) by (simpl; lia).
Qed.

Lemma store_leaf_pte :
  0 ≤ v < 2 ^ 64 →
  pt_upd lab m (store64 m x v) root (λ n, if decide (n = va / PGSIZE) then Some v else None).
Proof.
  intros Hv r va' Hr Hva'. unfold pte_of. rewrite store_leaf_slot by done.
  destruct (decide (r = root ∧ va' / PGSIZE = va / PGSIZE)) as [[-> E]|Hd].
  - rewrite !decide_True by done. simpl.
    replace (leaf_slot m root va') with (Some x); [simpl; by rewrite load64_store64_eq, u64_small|].
    rewrite <-Hx. unfold leaf_slot, next_table. by rewrite !(PX_page va' va).
  - destruct (leaf_slot m r va') as [y|] eqn:Ey; simpl.
    + assert (load64 (store64 m x v) y = load64 m y) as ->.
      { apply load64_store64_ne.
        destruct (leaf_slot_disjoint m lab root va x r va' y) as [|]; try done; [|lia|lia].
        destruct (decide (r = root)) as [->|]; [right; intuition congruence|left; congruence]. }
      case_decide; [|done]. rewrite decide_False by tauto. done.
    + case_decide; [|done]. rewrite decide_False by tauto. done.
Qed.
End leaf.

Definition set_leaf (s : kernel) (x v : Z) : kernel := s <| mem ::= λ m, store64 m x v |>.
Arguments set_leaf s x v /.

Lemma store_leaf_inv s a lab root va x v :
  vm_inv s a lab → is_root lab root → leaf_slot (mem s) root va = Some x →
  vm_inv (set_leaf s x v) a lab ∧ vm_ext s a lab (set_leaf s x v) a lab.
Proof.
  intros [Hrel Hl Hwf Hu] Hr Hx. pose proof (store_leaf_wf (mem s) lab root va x v Hwf Hr Hx) as Hwf'.
  pose proof (store_leaf_next (mem s) lab root va x v Hwf Hr Hx) as Hn.
  destruct (leaf_slot_lab _ _ _ _ _ Hwf Hr Hx) as (pt0 & Hpt0 & ->).
  pose proof (PX_range 0 va ltac:(lia)) as Hi.
  assert (is_page pt0) as Hp by (by eapply Hwf). split; split; try done.
  - apply (pool_rel_write s a _ pt0); [done|apply elem_of_dom; eexists; by eapply Hu|].
    intros b Hb. rewrite load8_store64; [done|]. unfold PGSIZE in *. lia.
  - intros q b [c Hq]%elem_of_dom Hlq Hb. simpl. apply load8_store64.
    assert (is_page q) as Hqp by (by eapply Hrel).
    destruct (page_disjoint q pt0); [apply Hqp|apply Hp|congruence|..]; unfold PGSIZE in *; lia.
  - congruence.
  - intros l va' q r path q' Hq Hlen Hl0 <-. by eapply Hn.
Qed.

(** ** mappages() *)

(** One iteration: either no memory for a table page, or one entry. *)
Lemma mappages_step s a lab root va last pa perm :
  vm_inv s a lab → is_root lab root → 0 ≤ va < MAXVA →
  0 ≤ pa < 2 ^ 56 → pa mod PGSIZE = 0 → 0 ≤ perm < 2 ^ 10 →
  pte_valid (pte_of (mem s) root va) = false →
  ∃ r s' a' lab', mappages_body root last perm (va, pa) s = Ret r s' ∧
    vm_inv s' a' lab' ∧ vm_ext s a lab s' a' lab' ∧
    (r = inr (-1) ∧ pool_free a' = [] ∧ pt_same lab (mem s) (mem s') ∨
     r = (if va =? last then inr 0 else inl (u64 (va + PGSIZE), u64 (pa + PGSIZE))) ∧
     pt_upd lab (mem s) (mem s') root
       (λ n, if decide (n = va / PGSIZE) then Some (Z.lor (Z.lor (PA2PTE pa) perm) PTE_V) else None)).
Proof.
  intros Hinv Hr Hva Hpa Hal Hperm Hun.
  destruct (walk_alloc s a lab root va Hinv Hr ltac:(lia)) as (x & s1 & a1 & lab1 & Ew & Hi1 & Hx1 & Hs1 & Hx).
  pose proof (is_root_weaken _ _ _ (ve_lab _ _ _ _ _ _ Hx1) Hr) as Hr1.
  unfold mappages_body, load64_k, store64_k. msimpl. rewrite Ew. msimpl.
  destruct Hx as [[-> Hfree]|[Hx0 Hx]].
  { simpl. exists (inr (-1)), s1, a1, lab1. do 3 (split; [done|]). by left. }
  rewrite (proj2 (Z.eqb_neq x 0) Hx0). msimpl.
  assert (pte_of (mem s1) root va = load64 (mem s1) x) as Ex by (unfold pte_of; by rewrite Hx).
  assert (pte_valid (load64 (mem s1) x) = false) as Hun1 by (rewrite <-Ex, Hs1 by done; done).
  unfold pte_valid in Hun1. rewrite Hun1.
  set (v := Z.lor (Z.lor (PA2PTE pa) perm) PTE_V).
  assert (0 ≤ v < 2 ^ 64) as Hv.
  { unfold v. rewrite <-Z.lor_assoc. apply PA2PTE_valid; [done|done|].
    apply lor_flags_range; [done|vm_compute; split; [discriminate|done]]. }
  destruct (store_leaf_inv s1 a1 lab1 root va x v Hi1 Hr1 Hx) as [Hi2 Hx2].
  exists (if va =? last then inr 0 else inl (u64 (va + PGSIZE), u64 (pa + PGSIZE))),
    (set_leaf s1 x v), a1, lab1.
  split; [by case_match|]. split; [done|]. split; [by eapply vm_ext_trans|]. right. split; [done|].
  eapply pt_upd_ext; [|eapply pt_upd_trans; [apply Hx1|by apply pt_upd_same|]].
  2: { apply (store_leaf_pte (mem s1) lab1 root va x v); try done. apply Hi1. }
  intros n. simpl. by case_decide.
Qed.

(** The entries of [k] pages from page number [n0], mapped from [pa] on. *)
Definition map_upd (n0 k pa perm n : Z) : option Z :=
  if decide (n0 ≤ n < n0 + k)
  then Some (Z.lor (Z.lor (PA2PTE (pa + PGSIZE * (n - n0))) perm) PTE_V) else None.

Lemma page_number n : PGSIZE * n / PGSIZE = n.
Proof. unfold PGSIZE. rewrite Z.mul_comm. apply Z.div_mul. lia. Qed.

Lemma leaf_slot_page m root va : leaf_slot m root va = leaf_slot m root (PGSIZE * (va / PGSIZE)).
Proof.
  unfold leaf_slot, next_table.
  by rewrite !(PX_page va (PGSIZE * (va / PGSIZE))) by (rewrite ?page_number; done).
Qed.

Lemma pte_of_page m root va : pte_of m root va = pte_of m root (PGSIZE * (va / PGSIZE)).
Proof. unfold pte_of. by rewrite leaf_slot_page. Qed.

Lemma mappages_loop (k fuel : nat) s a lab root n0 pa perm :
  (k < fuel)%nat → vm_inv s a lab → is_root lab root →
  0 ≤ n0 → PGSIZE * (n0 + k) < MAXVA → 0 ≤ pa → pa + PGSIZE * k < 2 ^ 56 → pa mod PGSIZE = 0 →
  0 ≤ perm < 2 ^ 10 →
  (∀ n, n0 ≤ n ≤ n0 + k → pte_valid (pte_of (mem s) root (PGSIZE * n)) = false) →
  ∃ r (j : nat) s' a' lab',
    loop fuel (mappages_body root (PGSIZE * (n0 + k)) perm) (PGSIZE * n0, pa) s = Ret r s' ∧
    vm_inv s' a' lab' ∧ vm_ext s a lab s' a' lab' ∧
    pt_upd lab (mem s) (mem s') root (map_upd n0 j pa perm) ∧
    (r = 0 ∧ j = S k ∨ r = -1 ∧ (j ≤ k)%nat ∧ pool_free a' = []).
Proof.
  revert k s a lab n0 pa.
  induction fuel as [|fuel IH]; intros k s a lab n0 pa Hfuel Hinv Hr Hn0 Hmax Hpa Hpa' Hal Hperm Hun; [lia|].
  assert (0 ≤ PGSIZE * n0 < MAXVA) as Hva by (unfold PGSIZE in *; lia).
  destruct (mappages_step s a lab root (PGSIZE * n0) (PGSIZE * (n0 + k)) pa perm Hinv Hr Hva
    ltac:(unfold PGSIZE in *; lia) Hal Hperm (Hun n0 ltac:(lia)))
    as (r & s1 & a1 & lab1 & E & Hi1 & Hx1 & [(-> & Hf & Hs)|[-> Hu]]).
  { exists (-1), O, s1, a1, lab1. rewrite (loop_exit _ _ _ _ _ _ E). do 3 (split; [done|]).
    split; [|right; split; [done|split; [lia|done]]].
    eapply pt_upd_ext; [|by apply pt_upd_same]. intros n. unfold map_upd.
    by rewrite decide_False by lia. }
  destruct k as [|k].
  - exists 0, 1%nat, s1, a1, lab1.
    rewrite (proj2 (Z.eqb_eq (PGSIZE * n0) (PGSIZE * (n0 + 0%nat)))) in E by lia.
    rewrite (loop_exit _ _ _ _ _ _ E). do 3 (split; [done|]). split; [|by left].
    eapply pt_upd_ext; [|done]. intros n. unfold map_upd. rewrite page_number.
    destruct (decide (n = n0)) as [->|]; [rewrite decide_True by lia|by rewrite decide_False by lia].
    by replace (pa + PGSIZE * (n0 - n0)) with pa by lia.
  - rewrite (proj2 (Z.eqb_neq (PGSIZE * n0) (PGSIZE * (n0 + S k)))) in E by (unfold PGSIZE; lia).
    pose proof MAXVA_eq. rewrite !u64_small in E by (unfold PGSIZE in *; lia).
    rewrite (loop_next _ _ _ _ _ _ E).
    replace (PGSIZE * n0 + PGSIZE) with (PGSIZE * (n0 + 1)) by lia.
    replace (PGSIZE * (n0 + S k)) with (PGSIZE * (n0 + 1 + k)) in * by lia.
    destruct (IH k s1 a1 lab1 (n0 + 1) (pa + PGSIZE))
      as (r & j & s2 & a2 & lab2 & E2 & Hi2 & Hx2 & Hu2 & Hj); try done; try (unfold PGSIZE in *; lia).
    + by eapply is_root_weaken; [apply Hx1|].
    + unfold PGSIZE in *. rewrite Z.add_mod, Hal by lia. done.
    + intros n Hn. rewrite Hu; [|done|unfold PGSIZE in *; lia]. rewrite decide_True, page_number, page_number by done.
      rewrite decide_False by lia. simpl. apply Hun. lia.
    + exists r, (S j), s2, a2, lab2. split; [done|]. split; [done|].
      split; [by eapply vm_ext_trans|]. split; [|destruct Hj as [[-> ->]|(-> & ? & ?)]; [by left|right]; split; [done|split; [lia|done]]].
      eapply pt_upd_ext; [|eapply pt_upd_trans; [apply Hx1|exact Hu|exact Hu2]].
      intros n. unfold map_upd. rewrite page_number. destruct (decide (n = n0)) as [->|].
      * rewrite decide_False by lia. rewrite decide_True by lia. simpl.
        by replace (pa + PGSIZE * (n0 - n0)) with pa by lia.
      * destruct (decide (n0 + 1 ≤ n < n0 + 1 + j)).
        -- rewrite decide_True by lia. simpl.
           by replace (pa + PGSIZE + PGSIZE * (n - (n0 + 1))) with (pa + PGSIZE * (n - n0)) by lia.
        -- by rewrite decide_False by lia.
Qed.

(** The number of the first and of the last page mappages() touches, for a
    range below MAXVA. *)
Lemma mappages_eq root va size pa perm s :
  0 ≤ va → 0 < size → va + size ≤ MAXVA →
  let n0 := va / PGSIZE in
  let k := Z.to_nat ((va + size - 1) / PGSIZE - n0) in
  PGSIZE * (n0 + k) < MAXVA ∧ PGSIZE * n0 ≤ va ∧ va + size ≤ PGSIZE * (n0 + S k) ∧
  mappages root va size pa perm s =
    loop (S (S k)) (mappages_body root (PGSIZE * (n0 + k)) perm) (PGSIZE * n0, pa) s.
Proof.
  intros Hva Hsz Hmax n0 k. pose proof MAXVA_eq as HM. rewrite HM in *.
  assert (n0 ≤ (va + size - 1) / PGSIZE) as Hle by (apply Z.div_le_mono; unfold PGSIZE; lia).
  assert (n0 + k = (va + size - 1) / PGSIZE) as Ek by (unfold k; lia).
  pose proof (Z.div_mod (va + size - 1) PGSIZE ltac:(done)) as Hd.
  pose proof (Z.mod_pos_bound (va + size - 1) PGSIZE ltac:(done)) as Hm.
  pose proof (Z.mul_div_le va PGSIZE ltac:(done)) as Hlo. fold n0 in Hlo.
  split; [rewrite Ek; unfold PGSIZE in *; lia|]. split; [done|].
  split; [replace (n0 + S k) with (n0 + k + 1) by lia; rewrite Ek; unfold PGSIZE in *; lia|].
  unfold mappages. mif_false. rewrite u64_small by lia. rewrite !PGROUNDDOWN_eq. fold n0.
  rewrite <-Ek. mif_true by (unfold PGSIZE in *; lia).
  replace ((PGSIZE * (n0 + k) - PGSIZE * n0) / PGSIZE) with (Z.of_nat k); [by rewrite Nat2Z.id|].
  replace (PGSIZE * (n0 + k) - PGSIZE * n0) with (PGSIZE * k) by lia. by rewrite page_number.
Qed.

(** The whole range is mapped, or memory ran out and a prefix is. *)
Lemma mappages_spec s a lab root va size pa perm :
  vm_inv s a lab → is_root lab root → 0 ≤ va → 0 < size → va + size ≤ MAXVA →
  0 ≤ pa → pa + size + PGSIZE < 2 ^ 56 → pa mod PGSIZE = 0 → 0 ≤ perm < 2 ^ 10 →
  (∀ v, va / PGSIZE ≤ v / PGSIZE ≤ (va + size - 1) / PGSIZE →
     pte_valid (pte_of (mem s) root v) = false) →
  ∃ r (k : Z) s' a' lab', mappages root va size pa perm s = Ret r s' ∧
    vm_inv s' a' lab' ∧ vm_ext s a lab s' a' lab' ∧
    pt_upd lab (mem s) (mem s') root (map_upd (va / PGSIZE) k pa perm) ∧ 0 ≤ k ∧
    (r = 0 ∧ va / PGSIZE + k = (va + size - 1) / PGSIZE + 1 ∨
     r = -1 ∧ va / PGSIZE + k ≤ (va + size - 1) / PGSIZE ∧ pool_free a' = []).
Proof.
  intros Hinv Hr Hva Hsz Hmax Hpa Hpa' Hal Hperm Hun.
  destruct (mappages_eq root va size pa perm s Hva Hsz Hmax) as (Hk1 & Hlo & Hhi & ->).
  set (n0 := va / PGSIZE) in *. set (k := Z.to_nat ((va + size - 1) / PGSIZE - n0)) in *.
  assert (n0 ≤ (va + size - 1) / PGSIZE) as Hle by (apply Z.div_le_mono; unfold PGSIZE; lia).
  destruct (mappages_loop k (S (S k)) s a lab root n0 pa perm)
    as (r & j & s' & a' & lab' & E & Hi & Hx & Hu & Hj); try done; try lia.
  - apply Z.div_pos; [lia|done].
  - pose proof (Z.mul_div_le (va + size - 1) PGSIZE ltac:(done)).
    assert (PGSIZE * k ≤ size + PGSIZE); [|lia].
    pose proof (Z.mod_pos_bound va PGSIZE ltac:(done)). pose proof (Z.div_mod va PGSIZE ltac:(done)).
    fold n0 in H2. unfold PGSIZE in *. lia.
  - intros n Hn. apply Hun. rewrite page_number. lia.
  - exists r, j, s', a', lab'. do 4 (split; [done|]). split; [lia|].
    destruct Hj as [[-> ->]|(-> & ? & ?)]; [left|right]; (split; [done|]); [lia|split; [lia|done]].
Qed.

(** C32: mappages() maps exactly the pages of its range.  On a well-formed page
    table, over pages not yet mapped, it returns 0 with every page of the range
    mapped, in order, to the physical pages from [pa] on with permission
    [perm], or -1 because memory ran out, with a prefix of them mapped.  No
    other entry of any page table changes, the tables stay well formed, and no
    byte outside table pages changes. *)
Theorem mappages_correct s a lab root va size pa perm :
  vm_inv s a lab → is_root lab root → 0 ≤ va → 0 < size → va + size ≤ MAXVA →
  0 ≤ pa → pa + size + PGSIZE < 2 ^ 56 → pa mod PGSIZE = 0 → 0 ≤ perm < 2 ^ 10 →
  (∀ v, va / PGSIZE ≤ v / PGSIZE ≤ (va + size - 1) / PGSIZE →
     pte_valid (pte_of (mem s) root v) = false) →
  ∃ r (k : Z) s' a' lab', mappages root va size pa perm s = Ret r s' ∧
    vm_inv s' a' lab' ∧ vm_ext s a lab s' a' lab' ∧
    pt_upd lab (mem s) (mem s') root (map_upd (va / PGSIZE) k pa perm) ∧ 0 ≤ k ∧
    (r = 0 ∧ va / PGSIZE + k = (va + size - 1) / PGSIZE + 1 ∨
     r = -1 ∧ va / PGSIZE + k ≤ (va + size - 1) / PGSIZE ∧ pool_free a' = []).
Proof. apply mappages_spec. Qed.

(** ** uvmunmap() *)

Lemma uvmunmap_step s root va last do_free x v :
  va < last → va < MAXVA → leaf_slot (mem s) root va = Some x → x ≠ 0 →
  v = load64 (mem s) x → pte_valid v = true → PTE_FLAGS v ≠ PTE_V →
  uvmunmap_body root last do_free va s =
    (when do_free (kfree (PTE2PA v));; store64_k x 0;; mret (inl (u64 (va + PGSIZE)))) s.
Proof.
  intros Hlt Hmax Hx Hx0 -> Hv Hf. unfold uvmunmap_body. mif_false. rewrite walk_lookup by done.
  rewrite Hx. simpl default. unfold load64_k. msimpl. rewrite (proj2 (Z.eqb_neq x 0) Hx0).
  msimpl. unfold pte_valid in Hv. mif_false by (by destruct (_ =? 0)).
  rewrite (proj2 (Z.eqb_neq _ PTE_V) Hf). done.
Qed.

End pt.
