(* ===== verification/VmUser.v ===== *)
(** * User address spaces: sharing, copy-on-write and the copy functions

    [um] accounts for the references page tables hold: it maps a page number
    of an address space to the physical page its entry names.  [as_inv] says
    that [um] is exactly what the tables contain below the trapframe, and that
    the allocator's count of a page is at least the number of entries that
    name it, so that no page is freed while a table still maps it.
    [user_byte m root va] is what a user program running on [root] sees at
    [va]. *)

From Stdlib Require Import ZArith Lia.
From stdpp Require Import base numbers strings option list gmap.
From S2P Require Import Prelude Params Machine Cstring Kalloc Vm VmPt.

Open Scope Z_scope.

Definition pte_user (v : Z) : bool := negb (Z.land v PTE_U =? 0).
Definition pte_read (v : Z) : bool := negb (Z.land v PTE_R =? 0).
Definition pte_write (v : Z) : bool := negb (Z.land v PTE_W =? 0).

Definition user_byte (m : gmap Z Z) (root va : Z) : option Z :=
  let v := pte_of m root va in
  if pte_valid v && pte_user v then Some (load8 m (PTE2PA v + va mod PGSIZE)) else None.

(** User pages lie below the trapframe page. *)
Definition vpn_top : Z := TRAPFRAME / PGSIZE.

Abbreviation umap := (gmap (Z * Z) Z).

(** The number of entries that name page [q]. *)
Definition cnt (um : umap) (q : Z) : nat := size (filter (λ kv, kv.2 = q) um).

(** A flag test is a bit test. *)
Lemma land_pow2_testbit v n : 0 ≤ n → negb (Z.land v (2 ^ n) =? 0) = Z.testbit v n.
Proof.
  intros Hn. destruct (Z.testbit v n) eqn:E.
  - destruct (Z.eqb_spec (Z.land v (2 ^ n)) 0) as [H0|]; [|done].
    assert (Z.testbit (Z.land v (2 ^ n)) n = true) as Hb.
    { by rewrite Z.land_spec, E, Z.pow2_bits_true. }
    by rewrite H0, Z.bits_0 in Hb.
  - replace (Z.land v (2 ^ n)) with 0; [done|]. symmetry. apply Z.bits_inj'. intros k Hk.
    rewrite Z.land_spec, Z.bits_0. destruct (Z.eq_dec k n) as [->|]; [by rewrite E|].
    by rewrite Z.pow2_bits_false, andb_false_r by done.
Qed.

Lemma pte_user_testbit v : pte_user v = Z.testbit v 4.
Proof. exact (land_pow2_testbit v 4 ltac:(lia)). Qed.

Lemma pte_read_testbit v : pte_read v = Z.testbit v 1.
Proof. exact (land_pow2_testbit v 1 ltac:(lia)). Qed.

Lemma pte_write_testbit v : pte_write v = Z.testbit v 2.
Proof. exact (land_pow2_testbit v 2 ltac:(lia)). Qed.

(** A readable entry is a leaf. *)
Lemma pte_read_leaf v : pte_read v = true → PTE_FLAGS v ≠ PTE_V.
Proof.
  rewrite pte_read_testbit. intros Hr E.
  assert (Z.testbit (PTE_FLAGS v) 1 = true) as Hb by (unfold PTE_FLAGS; by rewrite Z.land_spec, Hr).
  by rewrite E in Hb.
Qed.

Section user.
Context `{Linker}.

(** [um] is what the tables hold, and its entries are readable leaves. *)
Definition um_ok (lab : tables) (m : gmap Z Z) (um : umap) : Prop :=
  ∀ root n q, um !! (root, n) = Some q ↔
    is_root lab root ∧ 0 ≤ n < vpn_top ∧
    pte_valid (pte_of m root (PGSIZE * n)) = true ∧ PTE2PA (pte_of m root (PGSIZE * n)) = q.

Definition um_leaf (m : gmap Z Z) (um : umap) : Prop :=
  ∀ root n q, um !! (root, n) = Some q → pte_read (pte_of m root (PGSIZE * n)) = true.

(** No table page is mapped, and a mapped page is referenced often enough. *)
Definition um_counted (a : pool) (lab : tables) (um : umap) : Prop :=
  ∀ k q, um !! k = Some q → lab !! q = None ∧ ∃ c, pool_refs a !! q = Some c ∧ cnt um q ≤ c.

Record as_inv (s : kernel) (a : pool) (lab : tables) (um : umap) : Prop := {
  as_vm : vm_inv s a lab;
  as_map : um_ok lab (mem s) um;
  as_leaf : um_leaf (mem s) um;
  as_cnt : um_counted a lab um
}.

(** ** Counting *)

Lemma cnt_insert (um : umap) k q q' :
  um !! k = None → cnt (<[k := q]> um) q' = (cnt um q' + if decide (q = q') then 1 else 0)%nat.
Proof.
  intros Hk. unfold cnt. case_decide as E.
  - rewrite map_filter_insert_True by done. rewrite map_size_insert_None; [lia|].
    apply map_lookup_filter_None. by left.
  - rewrite map_filter_insert_False by done. rewrite delete_id by done. lia.
Qed.

Lemma cnt_delete (um : umap) k q q' :
  um !! k = Some q → cnt um q' = (cnt (delete k um) q' + if decide (q = q') then 1 else 0)%nat.
Proof.
  intros Hk. rewrite <-(insert_delete_id um k q) at 1 by done.
  apply cnt_insert. apply lookup_delete_eq.
Qed.

Lemma cnt_pos (um : umap) k q : um !! k = Some q → (0 < cnt um q)%nat.
Proof. intros Hk. rewrite (cnt_delete um k q q) by done. rewrite decide_True by done. lia. Qed.

(** ** Memory changes that leave the tables alone *)

(** Every byte of every table page is unchanged. *)
Definition tables_same (lab : tables) (m m' : gmap Z Z) : Prop :=
  ∀ pt x b, lab !! pt = Some x → pt ≤ b < pt + PGSIZE → load8 m' b = load8 m b.

Lemma tables_same_word lab m m' pt x i :
  tables_same lab m m' → lab !! pt = Some x → 0 ≤ i < 512 →
  load64 m' (pt + 8 * i) = load64 m (pt + 8 * i).
Proof.
  intros HT Hpt Hi. apply load64_ext. intros b Hb. eapply HT; [done|]. unfold PGSIZE. lia.
Qed.

Lemma tables_same_wf lab m m' : tables_same lab m m' → pt_wf m lab → pt_wf m' lab.
Proof.
  intros HT [Hp Hn]. split; [done|]. intros pt root path i Hpt Hlen Hi.
  erewrite tables_same_word by done. by apply Hn.
Qed.

Lemma tables_same_slot lab m m' root va :
  tables_same lab m m' → pt_wf m lab → is_root lab root →
  leaf_slot m' root va = leaf_slot m root va.
Proof.
  intros HT Hwf Hr. unfold leaf_slot.
  rewrite (next_table_ext m m' 2) by (try lia; intros; by eapply tables_same_word).
  destruct (next_table m 2 va root) as [pt1|] eqn:E1; [|done]. simpl.
  pose proof (next_table_lab _ _ 2 va root root [] pt1 Hwf Hr ltac:(simpl; lia) ltac:(lia) E1) as H1.
  by rewrite (next_table_ext m m' 1) by (try lia; intros; by eapply tables_same_word).
Qed.

Lemma tables_same_pte lab m m' :
  tables_same lab m m' → pt_wf m lab → pt_same lab m m'.
Proof.
  intros HT Hwf root va Hr _. unfold pte_of. erewrite tables_same_slot by done.
  destruct (leaf_slot m root va) as [x|] eqn:Ex; [|done]. simpl.
  destruct (leaf_slot_lab _ _ _ _ _ Hwf Hr Ex) as (pt0 & Hpt0 & ->).
  eapply tables_same_word; [done|done|by apply PX_range].
Qed.

(** kalloc() and kfree() of a page that is no table. *)
Lemma vm_kalloc s a lab p fl :
  vm_inv s a lab → pool_free a = p :: fl →
  let a' := mkPool fl (<[p := 1]> (pool_refs a)) in
  ∃ s', kalloc s = Ret p s' ∧ vm_inv s' a' lab ∧ kmem_frame s s' ∧ lab !! p = None ∧
    tables_same lab (mem s) (mem s') ∧
    ∀ q b, q ∈ dom (pool_refs a) → q ≤ b < q + PGSIZE → load8 (mem s') b = load8 (mem s) b.
Proof.
  intros [Hrel Hl Hwf Hu] Hf a'. pose proof (pool_head_fresh _ _ _ _ Hrel Hf) as Hfresh.
  destruct (alloc_refines s a p a') as (s' & E & Hrel' & Hfr & Hm); try done;
    [simpl; by rewrite Hf|].
  assert (lab !! p = None) as Hp by (destruct (lab !! p) eqn:Ep; [apply Hu in Ep; congruence|done]).
  assert (tables_same lab (mem s) (mem s')) as HT.
  { intros pt x b Hpt. apply Hm. apply elem_of_dom. eexists. by eapply Hu. }
  exists s'. split; [done|]. split; [|done]. split; [done| | |].
  - by rewrite (kmem_frame_held s s').
  - by eapply tables_same_wf.
  - intros pt x Hpt. simpl. rewrite lookup_insert_ne by congruence. by eapply Hu.
Qed.

Lemma vm_kfree s a lab q r a' :
  vm_inv s a lab → lab !! q = None → pool_step a (OpFree q) = Some (r, a') →
  ∃ s', kfree q s = Ret () s' ∧ vm_inv s' a' lab ∧ kmem_frame s s' ∧
    tables_same lab (mem s) (mem s') ∧
    ∀ p b, p ∈ dom (pool_refs a') → p ≤ b < p + PGSIZE → load8 (mem s') b = load8 (mem s) b.
Proof.
  intros [Hrel Hl Hwf Hu] Hq Hst. destruct (free_refines s a q r a') as (s' & E & Hrel' & Hfr & Hm); try done.
  assert (∀ pt x, lab !! pt = Some x → pool_refs a' !! pt = Some 1) as Hu'.
  { intros pt x Hpt. unfold pool_step in Hst. destruct (pool_refs a !! q) as [c|]; [|done]. simpl in Hst.
    case_match; injection Hst as <- <-; simpl.
    - rewrite lookup_delete_ne by congruence. by eapply Hu.
    - rewrite lookup_insert_ne by congruence. by eapply Hu. }
  assert (tables_same lab (mem s) (mem s')) as HT.
  { intros pt x b Hpt. apply Hm. apply elem_of_dom. eexists. by eapply Hu'. }
  exists s'. split; [done|]. split; [|done]. split; [done| | |done].
  - by rewrite (kmem_frame_held s s').
  - by eapply tables_same_wf.
Qed.

(** Writing into a page in use that is no table. *)
Lemma vm_write s a lab m' q :
  vm_inv s a lab → q ∈ dom (pool_refs a) → lab !! q = None →
  (∀ b, ¬ (q ≤ b < q + PGSIZE) → load8 m' b = load8 (mem s) b) →
  vm_inv (s <| mem := m' |>) a lab ∧ tables_same lab (mem s) m'.
Proof.
  intros [Hrel Hl Hwf Hu] Hq Hlq E. assert (tables_same lab (mem s) m') as HT.
  { intros pt x b Hpt Hb. apply E. apply elem_of_dom in Hq as [c Hq].
    assert (is_page q) as Hqp by (by eapply Hrel). assert (is_page pt) as Hpp by (by eapply Hwf).
    destruct (page_disjoint q pt); [apply Hqp|apply Hpp|congruence|lia|lia]. }
  split; [|done]. split; [by eapply pool_rel_write|done|by eapply tables_same_wf|done].
Qed.

(** ** Entries and [um] *)

Lemma vpn_range n : 0 ≤ n < vpn_top → 0 ≤ PGSIZE * n < MAXVA.
Proof.
  assert (vpn_top = 2 ^ 26 - 2) as -> by done. rewrite MAXVA_eq. unfold PGSIZE. lia.
Qed.

Lemma as_lookup s a lab um root n q :
  as_inv s a lab um → um !! (root, n) = Some q →
  ∃ x, is_root lab root ∧ leaf_slot (mem s) root (PGSIZE * n) = Some x ∧ x ≠ 0 ∧
    pte_of (mem s) root (PGSIZE * n) = load64 (mem s) x ∧
    pte_valid (load64 (mem s) x) = true ∧ PTE2PA (load64 (mem s) x) = q ∧
    pte_read (load64 (mem s) x) = true ∧ 0 ≤ PGSIZE * n < MAXVA.
Proof.
  intros [Hvm Hm Hlf _] Hu. pose proof (Hlf _ _ _ Hu) as Hf.
  apply Hm in Hu as (Hr & Hn & Hv & Hq). unfold pte_of in *.
  destruct (leaf_slot (mem s) root (PGSIZE * n)) as [x|] eqn:Ex; [|done]. simpl in *.
  exists x. split; [done|]. split; [done|]. split; [|repeat split; try done; by apply vpn_range].
  destruct (leaf_slot_lab _ _ _ _ _ (vi_wf _ _ _ Hvm) Hr Ex) as (pt0 & Hpt0 & ->).
  pose proof (is_page_bounds pt0 (pw_page _ _ (vi_wf _ _ _ Hvm) _ _ Hpt0)).
  pose proof (PX_range 0 (PGSIZE * n) ltac:(lia)). unfold KERNBASE in *. lia.
Qed.

(** The effect on [um] of entering [v] at page [n] of [root]. *)
Definition um_set (um : umap) (root n v : Z) : umap :=
  if pte_valid v then <[(root, n) := PTE2PA v]> um else delete (root, n) um.

Definition one_upd (n v k : Z) : option Z := if decide (k = n) then Some v else None.

Lemma um_ok_upd lab lab' m m' um root n v :
  um_ok lab m um → lab ⊆ lab' → (∀ r, is_root lab' r → is_root lab r) →
  is_root lab root → 0 ≤ n < vpn_top → pt_upd lab m m' root (one_upd n v) →
  um_ok lab' m' (um_set um root n v).
Proof.
  intros Hm HL HR Hroot Hn Hu r k q.
  assert (is_root lab' r ↔ is_root lab r) as ->
    by (split; [apply HR|by apply is_root_weaken]).
  destruct (decide (r = root ∧ k = n)) as [[-> ->]|Hd].
  - assert (pte_of m' root (PGSIZE * n) = v) as ->.
    { rewrite Hu by (try done; by apply vpn_range). unfold one_upd.
      by rewrite decide_True, page_number, decide_True. }
    unfold um_set. destruct (pte_valid v).
    + rewrite lookup_insert_eq. split; [intros [= <-]; done|intros (_ & _ & _ & ->); done].
    + rewrite lookup_delete_eq. split; [done|intros (_ & _ & ? & _); done].
  - assert ((root, n) ≠ (r, k)) as Hne by (intros [= -> ->]; tauto).
    assert (um_set um root n v !! (r, k) = um !! (r, k)) as ->.
    { unfold um_set. destruct (pte_valid v); [by apply lookup_insert_ne|by apply lookup_delete_ne]. }
    rewrite (Hm r k q).
    assert (is_root lab r → 0 ≤ k < vpn_top → pte_of m' r (PGSIZE * k) = pte_of m r (PGSIZE * k)) as E.
    { intros Hr Hk. rewrite Hu by (try done; by apply vpn_range). unfold one_upd. rewrite page_number.
      case_decide; [|done]. rewrite decide_False by tauto. done. }
    split; intros (Hr & Hk & Hrest); (split; [done|split; [done|]]); by rewrite E in *.
Qed.

Lemma um_leaf_upd lab m m' um root n v :
  um_leaf m um → um_ok lab m um → is_root lab root → 0 ≤ n < vpn_top →
  pt_upd lab m m' root (one_upd n v) → (pte_valid v = true → pte_read v = true) →
  um_leaf m' (um_set um root n v).
Proof.
  intros Hlf Hm Hroot Hn Hu Hv r k q Hq.
  destruct (decide (r = root ∧ k = n)) as [[-> ->]|Hd].
  - rewrite Hu by (try done; by apply vpn_range). unfold one_upd.
    rewrite decide_True, page_number, decide_True by done. simpl. apply Hv.
    unfold um_set in Hq. destruct (pte_valid v); [done|]. by rewrite lookup_delete_eq in Hq.
  - assert ((root, n) ≠ (r, k)) as Hne by (intros [= -> ->]; tauto).
    assert (um !! (r, k) = Some q) as Hq'.
    { unfold um_set in Hq. destruct (pte_valid v);
        [by rewrite lookup_insert_ne in Hq|by rewrite lookup_delete_ne in Hq]. }
    pose proof (Hlf _ _ _ Hq') as Hf. apply Hm in Hq' as (Hr & Hk & _ & _).
    rewrite Hu by (try done; by apply vpn_range). unfold one_upd. rewrite page_number.
    case_decide; [|done]. rewrite decide_False by tauto. done.
Qed.

Lemma um_counted_free a lab um k q r a' :
  um_counted a lab um → um !! k = Some q → pool_step a (OpFree q) = Some (r, a') →
  um_counted a' lab (delete k um).
Proof.
  intros Hc Hk Hst k' q' Hk'. pose proof (cnt_pos _ _ _ Hk') as Hpos.
  apply lookup_delete_Some in Hk' as [Hne Hk'].
  destruct (Hc k' q' Hk') as [Hl (c' & Hc' & Hle)]. split; [done|].
  rewrite (cnt_delete um k q q' Hk) in Hle. unfold pool_step in Hst.
  destruct (pool_refs a !! q) as [c|] eqn:Ec; [|done]. simpl in Hst.
  destruct (Z.eqb_spec c 1); injection Hst as <- <-; simpl.
  - exists c'. rewrite lookup_delete_ne; [split; [done|]; case_decide; lia|].
    intros ->. rewrite decide_True in Hle by done. assert (c = c') by congruence. lia.
  - destruct (decide (q = q')) as [->|].
    + exists (c - 1). rewrite lookup_insert_eq. split; [done|]. assert (c = c') by congruence. lia.
    + exists c'. rewrite lookup_insert_ne by done. split; [done|lia].
Qed.

Lemma um_counted_free_ok a lab um k q :
  um_counted a lab um → um !! k = Some q → ∃ a', pool_step a (OpFree q) = Some (0, a').
Proof.
  intros Hc Hk. destruct (Hc k q Hk) as [_ (c & Ec & _)]. unfold pool_step. rewrite Ec. simpl.
  case_match; eauto.
Qed.

(** What a user program sees is determined by its entry and the page it names. *)
Lemma user_byte_frame lab m m' um r va :
  um_ok lab m um → is_root lab r → 0 ≤ va / PGSIZE < vpn_top →
  pte_of m' r va = pte_of m r va →
  (∀ q b, um !! (r, va / PGSIZE) = Some q → q ≤ b < q + PGSIZE → load8 m' b = load8 m b) →
  user_byte m' r va = user_byte m r va.
Proof.
  intros Hm Hr Hva Hp Hb. unfold user_byte. rewrite Hp.
  destruct (pte_valid (pte_of m r va)) eqn:Ev; [|done]. simpl. case_match; [|done]. f_equal.
  apply (Hb (PTE2PA (pte_of m r va))).
  - apply Hm. rewrite <-pte_of_page. done.
  - pose proof (Z.mod_pos_bound va PGSIZE ltac:(done)). lia.
Qed.

(** Every byte of user memory outside [k] pages of [root] from page [n] on is
    unchanged. *)
Definition same_except (lab : tables) (m m' : gmap Z Z) (root n k : Z) : Prop :=
  ∀ r va, is_root lab r → 0 ≤ va / PGSIZE < vpn_top →
    ¬ (r = root ∧ n ≤ va / PGSIZE < n + k) → user_byte m' r va = user_byte m r va.

Lemma same_except_weaken lab m m' root n k n' k' :
  same_except lab m m' root n k → k ≤ 0 ∨ n' ≤ n ∧ n + k ≤ n' + k' → same_except lab m m' root n' k'.
Proof. intros Hs Hk r va Hr Hva Hne. apply Hs; [done|done|lia]. Qed.

Lemma same_except_trans lab lab1 m m1 m2 root n k :
  lab ⊆ lab1 → same_except lab m m1 root n k → same_except lab1 m1 m2 root n k →
  same_except lab m m2 root n k.
Proof.
  intros HL H1 H2 r va Hr Hva Hne. rewrite H2, H1; try done. by eapply is_root_weaken.
Qed.

Lemma one_upd_other lab m m' root n v r va :
  pt_upd lab m m' root (one_upd n v) → is_root lab r → 0 ≤ va < MAXVA →
  (r, va / PGSIZE) ≠ (root, n) → pte_of m' r va = pte_of m r va.
Proof.
  intros Hu Hr Hva Hne. rewrite Hu by done. unfold one_upd. case_decide; [|done].
  rewrite decide_False by congruence. done.
Qed.

Lemma vpn_va va : 0 ≤ va / PGSIZE < vpn_top → 0 ≤ va < MAXVA.
Proof.
  intros Hv. assert (vpn_top = 2 ^ 26 - 2) as E by done. rewrite E in Hv.
  pose proof (Z.div_mod va PGSIZE ltac:(done)). pose proof (Z.mod_pos_bound va PGSIZE ltac:(done)).
  rewrite MAXVA_eq. unfold PGSIZE in *. lia.
Qed.

Lemma pt_same_upd lab m m1 m2 root u :
  pt_same lab m m1 → pt_upd lab m1 m2 root u → pt_upd lab m m2 root u.
Proof. intros Hs Hu r va Hr Hva. rewrite Hu by done. by rewrite (Hs r va). Qed.

(** Entering [v] in the slot of page [n]. *)
Lemma set_entry s a lab root n x v :
  vm_inv s a lab → is_root lab root → 0 ≤ n < vpn_top → 0 ≤ v < 2 ^ 64 →
  leaf_slot (mem s) root (PGSIZE * n) = Some x →
  vm_inv (set_leaf s x v) a lab ∧ kmem_frame s (set_leaf s x v) ∧
  pt_upd lab (mem s) (mem (set_leaf s x v)) root (one_upd n v) ∧
  (∀ q b, q ∈ dom (pool_refs a) → lab !! q = None → q ≤ b < q + PGSIZE →
     load8 (mem (set_leaf s x v)) b = load8 (mem s) b).
Proof.
  intros Hinv Hr Hn Hv Hx. pose proof (vpn_range n Hn) as Hva.
  destruct (store_leaf_inv s a lab root (PGSIZE * n) x v Hinv Hr Hx) as [Hi Hx'].
  split; [done|]. split; [apply Hx'|]. split; [|apply Hx'].
  eapply pt_upd_ext; [|apply (store_leaf_pte (mem s) lab root (PGSIZE * n) x v); try done; apply Hinv].
  intros k. unfold one_upd. by rewrite page_number.
Qed.

Lemma unmap_page s a lab um root n q last :
  as_inv s a lab um → um !! (root, n) = Some q → PGSIZE * n < last →
  ∃ s' a', uvmunmap_body root last true (PGSIZE * n) s = Ret (inl (PGSIZE * (n + 1))) s' ∧
    pool_step a (OpFree q) = Some (0, a') ∧ as_inv s' a' lab (delete (root, n) um) ∧
    kmem_frame s s' ∧ pt_upd lab (mem s) (mem s') root (one_upd n 0) ∧
    same_except lab (mem s) (mem s') root n 1.
Proof.
  intros Has Hq Hlast. pose proof Has as [Hvm Hm Hlf Hc].
  destruct (as_lookup _ _ _ _ _ _ _ Has Hq) as (x & Hr & Hx & Hx0 & Hp & Hv & Hpa & Hf & Hva).
  assert (0 ≤ n < vpn_top) as Hn by (apply Hm in Hq; tauto).
  destruct (um_counted_free_ok _ _ _ _ _ Hc Hq) as [a' Hst].
  destruct (Hc _ _ Hq) as [Hlq _].
  destruct (vm_kfree s a lab q 0 a' Hvm Hlq Hst) as (s1 & Ek & Hvm1 & Hfr1 & HT & Hd).
  pose proof (tables_same_pte _ _ _ HT (vi_wf _ _ _ Hvm)) as Hs1.
  assert (leaf_slot (mem s1) root (PGSIZE * n) = Some x) as Hx1
    by (erewrite tables_same_slot; [done|done|apply Hvm|done]).
  destruct (set_entry s1 a' lab root n x 0 Hvm1 Hr Hn ltac:(lia) Hx1) as (Hvm2 & Hfr2 & Hu2 & Hd2).
  pose proof (pt_same_upd _ _ _ _ _ _ Hs1 Hu2) as Hu.
  pose proof (um_counted_free _ _ _ _ _ _ _ Hc Hq Hst) as Hc'.
  exists (set_leaf s1 x 0), a'. split.
  { rewrite (uvmunmap_step s root _ last true x _ Hlast ltac:(lia) Hx Hx0 eq_refl Hv (pte_read_leaf _ Hf)).
    rewrite Hpa. unfold store64_k. msimpl. rewrite Ek. msimpl. pose proof MAXVA_eq.
    rewrite u64_small by (unfold PGSIZE in *; lia). do 3 f_equal. lia. }
  split; [done|]. split; [|split; [by eapply kmem_frame_trans|split; [done|]]].
  - split; [done| | |done].
    + by apply (um_ok_upd lab lab (mem s) _ um root n 0).
    + by apply (um_leaf_upd lab (mem s) _ um root n 0).
  - intros r va Hr' Hva' Hne'. assert ((r, va / PGSIZE) ≠ (root, n)) as Hne by (intros [=]; lia).
    eapply user_byte_frame; try done.
    + eapply one_upd_other; try done. by apply vpn_va.
    + intros q' b Hq' Hb. assert (delete (root, n) um !! (r, va / PGSIZE) = Some q') as Hq''
        by (by rewrite lookup_delete_ne).
      destruct (Hc' _ _ Hq'') as [Hl' (c & Hc'' & _)].
      assert (q' ∈ dom (pool_refs a')) by (apply elem_of_dom; by eexists).
      rewrite (Hd2 q'), (Hd q') by done. done.
Qed.

(** [um] without [k] pages of [root]. *)
Definition um_unmap (um : umap) (root n k : Z) : umap :=
  filter (λ kv, ¬ (kv.1.1 = root ∧ n ≤ kv.1.2 < n + k)) um.

Lemma um_unmap_0 um root n : um_unmap um root n 0 = um.
Proof. apply map_filter_id. intros [r v] q _. simpl. lia. Qed.

Lemma um_unmap_step um root n (k : nat) :
  um_unmap (delete (root, n) um) root (n + 1) k = um_unmap um root n (S k).
Proof.
  apply map_eq. intros [r v]. apply option_eq. intros q. unfold um_unmap.
  rewrite !map_lookup_filter_Some, lookup_delete_Some. simpl. split.
  - intros [[Hne ?] Hd]. split; [done|]. intros [-> ?].
    destruct (decide (v = n)) as [->|]; [done|]. apply Hd. lia.
  - intros [? Hd]. split; [split; [intros [= <- <-]|done]|]; lia.
Qed.

Definition range_upd (n k v x : Z) : option Z := if decide (n ≤ x < n + k) then Some v else None.

Lemma uvmunmap_loop s a lab um root n qs last :
  as_inv s a lab um → last = PGSIZE * (n + length qs) →
  (∀ (i : nat) q, qs !! i = Some q → um !! (root, n + i) = Some q) →
  ∃ s' a' rs, loop (S (length qs)) (uvmunmap_body root last true) (PGSIZE * n) s = Ret () s' ∧
    pool_run a (OpFree <$> qs) = Some (rs, a') ∧
    as_inv s' a' lab (um_unmap um root n (length qs)) ∧ kmem_frame s s' ∧
    pt_upd lab (mem s) (mem s') root (range_upd n (length qs) 0) ∧
    same_except lab (mem s) (mem s') root n (length qs).
Proof.
  intros Has -> Hqs. revert s a um n Has Hqs.
  induction qs as [|q qs IH]; intros s a um n Has Hqs.
  - exists s, a, []. rewrite (loop_exit _ _ _ _ () s).
    2: { unfold uvmunmap_body. mif_true by (change (n + length []) with (n + 0); rewrite Z.add_0_r, Z.ltb_irrefl; done). done. }
    split; [done|]. split; [done|]. simpl length. rewrite um_unmap_0. split; [done|].
    split; [same_record s|]. split; [|done].
    eapply pt_upd_ext; [|by apply pt_upd_same]. intros k. unfold range_upd.
    by rewrite decide_False by lia.
  - destruct (unmap_page s a lab um root n q (PGSIZE * (n + length (q :: qs))))
      as (s1 & a1 & E1 & Hst & Has1 & Hf1 & Hu1 & Hs1); [done| |simpl; unfold PGSIZE; lia|].
    { replace n with (n + 0%nat) by lia. by apply Hqs. }
    destruct (IH s1 a1 (delete (root, n) um) (n + 1) Has1) as (s2 & a2 & rs & E2 & Hrun & Has2 & Hf2 & Hu2 & Hs2).
    { intros i q' Hq'. rewrite lookup_delete_ne by (intros [=]; lia).
      replace (n + 1 + i) with (n + S i) by lia. by apply Hqs. }
    exists s2, a2, (0 :: rs). rewrite (loop_next _ _ _ _ _ _ E1).
    replace (n + length (q :: qs)) with (n + 1 + length qs) by (simpl; lia).
    split; [done|]. split; [by eapply pool_run_cons|].
    rewrite um_unmap_step in Has2. split; [done|]. split; [by eapply kmem_frame_trans|]. split.
    + eapply pt_upd_ext; [|by eapply (pt_upd_trans lab lab); [done| |]].
      intros k. unfold range_upd, one_upd. simpl length.
      destruct (decide (k = n)) as [->|]; [rewrite decide_False by lia; by rewrite decide_True by lia|].
      destruct (decide (n + 1 ≤ k < n + 1 + length qs)); [by rewrite decide_True by lia|by rewrite decide_False by lia].
    + eapply (same_except_trans lab lab); [done| |]; (eapply same_except_weaken; [done|]); simpl; lia.
Qed.

Lemma uvmunmap_spec s a lab um root n qs :
  as_inv s a lab um → 0 ≤ n → PGSIZE * (n + length qs) ≤ MAXVA →
  (∀ (i : nat) q, qs !! i = Some q → um !! (root, n + i) = Some q) →
  ∃ s' a' rs, uvmunmap root (PGSIZE * n) (length qs) true s = Ret () s' ∧
    pool_run a (OpFree <$> qs) = Some (rs, a') ∧
    as_inv s' a' lab (um_unmap um root n (length qs)) ∧ kmem_frame s s' ∧
    pt_upd lab (mem s) (mem s') root (range_upd n (length qs) 0) ∧
    same_except lab (mem s) (mem s') root n (length qs).
Proof.
  intros Has Hn Hmax Hqs. unfold uvmunmap. pose proof MAXVA_eq.
  mif_false by (rewrite Z.mul_comm, Z.mod_mul by done; done).
  rewrite Nat2Z.id. eapply uvmunmap_loop; [done| |done].
  rewrite u64_small; unfold PGSIZE in *; lia.
Qed.

(** ** Mapping one user page *)

(** A page in use that is no table keeps its count. *)
Lemma vm_ext_data s a lab s' a' lab' q c :
  vm_ext s a lab s' a' lab' → pool_refs a !! q = Some c → lab !! q = None →
  lab' !! q = None ∧ pool_refs a' !! q = Some c.
Proof.
  intros Hx Hc Hl. assert (lab' !! q = None) as Hl'.
  { destruct (lab' !! q) as [x|] eqn:E; [|done].
    rewrite (ve_new _ _ _ _ _ _ Hx q x) in Hc by done. done. }
  split; [done|]. rewrite (ve_refs _ _ _ _ _ _ Hx); [done|by left].
Qed.

Lemma um_counted_ext s a lab s' a' lab' um :
  vm_ext s a lab s' a' lab' → um_counted a lab um → um_counted a' lab' um.
Proof.
  intros Hx Hc k q Hk. destruct (Hc k q Hk) as [Hl (c & Ec & Hle)].
  destruct (vm_ext_data _ _ _ _ _ _ _ _ Hx Ec Hl). eauto.
Qed.

Lemma um_counted_insert a lab um k pa c :
  um_counted a lab um → um !! k = None → pool_refs a !! pa = Some c → cnt um pa < c →
  lab !! pa = None → um_counted a lab (<[k := pa]> um).
Proof.
  intros Hct Hk Hc Hcnt Hl k' q. rewrite lookup_insert_Some. intros Hk'.
  rewrite cnt_insert by done. destruct (decide (pa = q)) as [<-|Hne].
  - split; [done|]. exists c. split; [done|lia].
  - destruct Hk' as [[_ ?]|[_ Hk']]; [done|]. destruct (Hct _ _ Hk') as [? (c' & ? & ?)].
    split; [done|]. exists c'. split; [done|lia].
Qed.

Lemma um_ok_same lab lab' m m' um :
  lab ⊆ lab' → (∀ r, is_root lab' r → is_root lab r) → pt_same lab m m' →
  um_ok lab m um → um_ok lab' m' um.
Proof.
  intros HL HR Hs Hm r n q. rewrite (Hm r n q).
  assert (is_root lab' r ↔ is_root lab r) as -> by (split; [apply HR|by apply is_root_weaken]).
  split; intros (Hr & Hn & Hrest); (split; [done|split; [done|]]);
    by rewrite Hs in * by (try done; by apply vpn_range).
Qed.

Lemma um_leaf_same lab m m' um : pt_same lab m m' → um_ok lab m um → um_leaf m um → um_leaf m' um.
Proof.
  intros Hs Hm Hl r n q Hq. pose proof (Hl _ _ _ Hq). apply Hm in Hq as (Hr & Hn & _).
  by rewrite Hs by (try done; by apply vpn_range).
Qed.

(** A change that keeps entries and mapped pages keeps everything visible. *)
Lemma same_except_same a lab m m' um root n :
  um_ok lab m um → um_counted a lab um → pt_same lab m m' →
  (∀ q b, q ∈ dom (pool_refs a) → lab !! q = None → q ≤ b < q + PGSIZE → load8 m' b = load8 m b) →
  same_except lab m m' root n 0.
Proof.
  intros Hm Hc Hs Hd r va Hr Hva _. eapply user_byte_frame; try done; [apply Hs; [done|by apply vpn_va]|].
  intros q b Hq Hb. destruct (Hc _ _ Hq) as [Hl (c & Ec & _)].
  apply (Hd q); [|done|done]. apply elem_of_dom. by eexists.
Qed.

Definition leaf_pte (pa perm : Z) : Z := Z.lor (Z.lor (PA2PTE pa) perm) PTE_V.

Lemma leaf_pte_facts pa perm :
  is_page pa → 0 ≤ perm < 2 ^ 10 →
  pte_valid (leaf_pte pa perm) = true ∧ PTE2PA (leaf_pte pa perm) = pa ∧
  PTE_FLAGS (leaf_pte pa perm) = Z.lor perm PTE_V ∧ 0 ≤ leaf_pte pa perm < 2 ^ 64.
Proof.
  intros Hp Hf. destruct (is_page_pa pa Hp) as [Hpa Hal]. unfold leaf_pte.
  split; [apply lor_valid|]. rewrite <-Z.lor_assoc.
  assert (0 ≤ Z.lor perm PTE_V < 2 ^ 10) as Hr.
  { apply lor_flags_range; [done|]. vm_compute. split; [discriminate|done]. }
  split; [by apply PTE2PA_lor|]. split; [by apply PTE_FLAGS_lor|]. by apply PA2PTE_valid.
Qed.

Lemma leaf_pte_read p perm : pte_read perm = true → pte_read (leaf_pte p perm) = true.
Proof.
  rewrite !pte_read_testbit. unfold leaf_pte. rewrite !Z.lor_spec. intros ->.
  by rewrite orb_true_r.
Qed.

Lemma as_unmapped s a lab um root n :
  as_inv s a lab um → is_root lab root → 0 ≤ n < vpn_top → um !! (root, n) = None →
  pte_valid (pte_of (mem s) root (PGSIZE * n)) = false.
Proof.
  intros Has Hr Hn Hu. destruct (pte_valid _) eqn:E; [|done].
  assert (um !! (root, n) = Some (PTE2PA (pte_of (mem s) root (PGSIZE * n)))) by (by apply Has).
  congruence.
Qed.

Lemma map_page s a lab um root n pa perm c :
  as_inv s a lab um → is_root lab root → 0 ≤ n < vpn_top → um !! (root, n) = None →
  pool_refs a !! pa = Some c → cnt um pa < c → lab !! pa = None →
  0 ≤ perm < 2 ^ 10 → pte_read perm = true →
  ∃ r s' a' lab', mappages root (PGSIZE * n) PGSIZE pa perm s = Ret r s' ∧
    vm_ext s a lab s' a' lab' ∧
    (r = 0 ∧ as_inv s' a' lab' (<[(root, n) := pa]> um) ∧
     pt_upd lab (mem s) (mem s') root (one_upd n (leaf_pte pa perm)) ∧
     same_except lab (mem s) (mem s') root n 1 ∨
     r = -1 ∧ as_inv s' a' lab' um ∧ pt_same lab (mem s) (mem s') ∧
     same_except lab (mem s) (mem s') root n 0 ∧ pool_free a' = []).
Proof.
  intros Has Hr Hn Hum Hc Hcnt Hlpa Hperm Hf. pose proof Has as [Hvm Hm Hlf Hct].
  pose proof (vpn_range n Hn) as Hva. pose proof MAXVA_eq as HM.
  assert (vpn_top = 2 ^ 26 - 2) as Etop by done.
  assert (is_page pa) as Hp by (by eapply (pr_used _ _ (vi_pool _ _ _ Hvm))).
  destruct (leaf_pte_facts pa perm Hp Hperm) as (Lv & Lpa & Lf & Lr).
  destruct (is_page_pa pa Hp) as [Hpa Hal]. pose proof (is_page_bounds pa Hp) as Hb.
  assert ((PGSIZE * n + PGSIZE - 1) / PGSIZE = n) as En.
  { symmetry. apply (Z.div_unique _ _ _ (PGSIZE - 1)); unfold PGSIZE; lia. }
  destruct (mappages_spec s a lab root (PGSIZE * n) PGSIZE pa perm)
    as (r & k & s' & a' & lab' & E & Hvm' & Hx & Hu & Hk & Hcase); try done.
  { lia. } { rewrite HM. unfold PGSIZE. lia. } { lia. } { unfold PHYSTOP, KERNBASE, PGSIZE in *. lia. }
  { intros v. rewrite page_number, En. intros Hv. rewrite pte_of_page.
    replace (v / PGSIZE) with n by lia. by eapply as_unmapped. }
  rewrite page_number, En in *. exists r, s', a', lab'. split; [done|]. split; [done|].
  pose proof (um_counted_ext _ _ _ _ _ _ _ Hx Hct) as Hct'.
  destruct Hcase as [[-> Ek]|(-> & Ek & Hfree)]; [left|right]; (split; [done|]).
  - assert (pt_upd lab (mem s) (mem s') root (one_upd n (leaf_pte pa perm))) as Hu1.
    { eapply pt_upd_ext; [|exact Hu]. intros v. unfold map_upd, one_upd, leaf_pte.
      destruct (decide (v = n)) as [->|]; [rewrite decide_True by lia|by rewrite decide_False by lia].
      by replace (pa + PGSIZE * (n - n)) with pa by lia. }
    split; [|split; [done|]].
    + assert (um_set um root n (leaf_pte pa perm) = <[(root, n) := pa]> um) as Eset
        by (unfold um_set; by rewrite Lv, Lpa).
      rewrite <-Eset. split; [done|..].
      * eapply um_ok_upd; [done|apply Hx|apply Hx|done|done|done].
      * eapply um_leaf_upd; [done|done|done|done|done|]. intros _. by apply leaf_pte_read.
      * rewrite Eset. destruct (vm_ext_data _ _ _ _ _ _ _ _ Hx Hc Hlpa).
        by eapply um_counted_insert.
    + intros r' va Hr' Hva' Hne'. assert ((r', va / PGSIZE) ≠ (root, n)) as Hne by (intros [=]; lia).
      eapply user_byte_frame; try done.
      * eapply one_upd_other; try done. by apply vpn_va.
      * intros q b Hq. destruct (Hct _ _ Hq) as [Hl' (c' & Ec' & _)].
        apply (ve_data _ _ _ _ _ _ Hx); [|done]. apply elem_of_dom. by eexists.
  - assert (k = 0) as -> by lia.
    assert (pt_same lab (mem s) (mem s')) as Hs.
    { intros r' va Hr' Hva'. rewrite Hu by done. unfold map_upd. case_decide; [|done].
      by rewrite decide_False by lia. }
    split; [split; [done|eapply um_ok_same; [apply Hx|apply Hx|done|done]|by eapply um_leaf_same|done]|].
    split; [done|]. split; [|done].
    eapply same_except_same; [done|done|done|apply Hx].
Qed.

(** ** Fresh pages *)

Lemma as_inv_data s a s' a' lab um :
  as_inv s a lab um → vm_inv s' a' lab → tables_same lab (mem s) (mem s') →
  (∀ k q c, um !! k = Some q → pool_refs a !! q = Some c →
     ∃ c', pool_refs a' !! q = Some c' ∧ c ≤ c') → as_inv s' a' lab um.
Proof.
  intros [Hvm Hm Hlf Hct] Hvm' HT Hc.
  pose proof (tables_same_pte _ _ _ HT (vi_wf _ _ _ Hvm)) as Hs. split; [done|..].
  - by eapply (um_ok_same lab lab).
  - by eapply um_leaf_same.
  - intros k q Hk. destruct (Hct k q Hk) as [Hl (c & Ec & Hle)]. split; [done|].
    destruct (Hc k q c Hk Ec) as (c' & Ec' & ?). exists c'. split; [done|lia].
Qed.

Lemma cnt_unreferenced a lab um q :
  um_counted a lab um → pool_refs a !! q = None → cnt um q = O.
Proof.
  intros Hct Hq. unfold cnt. apply map_size_empty_iff. apply map_empty. intros k.
  apply map_lookup_filter_None. right. intros q' Hk. simpl. intros ->.
  destruct (Hct _ _ Hk) as [_ (c & ? & _)]. congruence.
Qed.

Definition zero_page (s : kernel) (p : Z) : kernel := s <| mem ::= λ m, memset m p 0 PGSIZE |>.
Arguments zero_page s p /.

(** kalloc() followed by memset(). *)
Lemma alloc_zero s a lab um p fl :
  as_inv s a lab um → pool_free a = p :: fl →
  let a' := mkPool fl (<[p := 1]> (pool_refs a)) in
  ∃ s', kalloc s = Ret p s' ∧ as_inv (zero_page s' p) a' lab um ∧ kmem_frame s (zero_page s' p) ∧
    tables_same lab (mem s) (mem (zero_page s' p)) ∧
    p ≠ 0 ∧ pool_refs a !! p = None ∧ lab !! p = None ∧
    (∀ b, p ≤ b < p + PGSIZE → load8 (mem (zero_page s' p)) b = 0) ∧
    ∀ q b, q ∈ dom (pool_refs a) → q ≤ b < q + PGSIZE →
      load8 (mem (zero_page s' p)) b = load8 (mem s) b.
Proof.
  intros Has Hf a'. pose proof Has as [Hvm Hm Hlf Hct].
  destruct (vm_kalloc s a lab p fl Hvm Hf) as (s' & E & Hvm' & Hfr & Hlp & HT & Hd).
  destruct (pool_head_page _ _ _ _ (vi_pool _ _ _ Hvm) Hf) as [Hp Hp0].
  pose proof (pool_head_fresh _ _ _ _ (vi_pool _ _ _ Hvm) Hf) as Hfresh.
  assert (∀ b, ¬ (p ≤ b < p + PGSIZE) → load8 (memset (mem s') p 0 PGSIZE) b = load8 (mem s') b) as Hout
    by (intros b Hb; by rewrite load8_memset, decide_False).
  destruct (vm_write s' a' lab (memset (mem s') p 0 PGSIZE) p) as [Hvm2 HT2]; try done.
  { apply elem_of_dom. unfold a'. simpl. rewrite lookup_insert_eq. by eexists. }
  assert (tables_same lab (mem s) (mem (zero_page s' p))) as HTT.
  { intros pt x b Hpt Hb. simpl. rewrite (HT2 pt x b Hpt Hb). by eapply HT. }
  exists s'. split; [done|]. split.
  { eapply as_inv_data; [done|done|done|]. intros k q c _ Hq. exists c. unfold a'. simpl.
    rewrite lookup_insert_ne by congruence. split; [done|lia]. }
  split; [eapply kmem_frame_trans; [done|same_record s']|].
  do 4 (split; [done|]). split.
  - intros b Hb. simpl. by rewrite load8_memset, decide_True.
  - intros q b Hq Hb. simpl. rewrite Hout; [by eapply Hd|].
    apply elem_of_dom in Hq as [c Hq].
    assert (is_page q) as Hqp by (by eapply (pr_used _ _ (vi_pool _ _ _ Hvm))).
    destruct (page_disjoint q p); [apply Hqp|apply Hp|congruence|lia|lia].
Qed.

(** ** uvmalloc(): growing an address space *)

(** [s'] is [s] with the fresh pages [qs] mapped from page [n] of [root] on,
    and possibly new table pages. *)
Record grown (s : kernel) (a : pool) (lab : tables) (um : umap) (root n : Z) (qs : list Z)
    (s' : kernel) (a' : pool) (lab' : tables) (um' : umap) : Prop := {
  gr_inv : as_inv s' a' lab' um';
  gr_frame : kmem_frame s s';
  gr_lab : lab ⊆ lab';
  gr_roots : ∀ r, is_root lab' r → is_root lab r;
  gr_new : ∀ q x, lab' !! q = Some x → lab !! q = None → pool_refs a !! q = None;
  gr_um : ∀ r v, um' !! (r, v) =
    if decide (r = root ∧ n ≤ v < n + length qs) then qs !! Z.to_nat (v - n) else um !! (r, v);
  gr_refs : ∀ q, lab' !! q = None → q ∉ qs → pool_refs a' !! q = pool_refs a !! q;
  gr_fresh : ∀ q, q ∈ qs → pool_refs a' !! q = Some 1 ∧ pool_refs a !! q = None;
  gr_nodup : NoDup qs
}.

(** The pages [qs] are zeroed and entered with permission [perm]; nothing else
    visible changes. *)
Record grown_mem (lab : tables) (m : gmap Z Z) (root n perm : Z) (qs : list Z) (m' : gmap Z Z) : Prop := {
  gm_same : same_except lab m m' root n (length qs);
  gm_pte : ∀ v, n ≤ v < n + length qs →
    ∃ q, qs !! Z.to_nat (v - n) = Some q ∧ pte_of m' root (PGSIZE * v) = leaf_pte q perm;
  gm_zero : ∀ va, n ≤ va / PGSIZE < n + length qs → user_byte m' root va = Some 0
}.

Lemma grown_refl s a lab um root n : as_inv s a lab um → grown s a lab um root n [] s a lab um.
Proof.
  intros Has. split; try done.
  - same_record s.
  - congruence.
  - intros r v. by rewrite decide_False by (simpl; lia).
  - intros q Hq. by apply not_elem_of_nil in Hq.
  - apply NoDup_nil_2.
Qed.

Lemma grown_mem_refl lab m root n perm : grown_mem lab m root n perm [] m.
Proof. split; simpl; [done|lia|lia]. Qed.

(** The pages of [qs] are no tables. *)
Lemma grown_not_table s a lab um root n qs s1 a1 lab1 um1 q :
  grown s a lab um root n qs s1 a1 lab1 um1 → q ∈ qs → lab1 !! q = None.
Proof.
  intros G [i Hi]%list_elem_of_lookup. apply lookup_lt_Some in Hi as Hlt.
  destruct (as_cnt _ _ _ _ (gr_inv _ _ _ _ _ _ _ _ _ _ _ G) (root, n + i) q) as [? _]; [|done].
  rewrite (gr_um _ _ _ _ _ _ _ _ _ _ _ G), decide_True by lia.
  by replace (Z.to_nat (n + i - n)) with i by lia.
Qed.

(** New table pages between [s1] and [s2]. *)
Lemma grown_frame s a lab um root n qs s1 a1 lab1 um1 s2 a2 lab2 :
  grown s a lab um root n qs s1 a1 lab1 um1 →
  as_inv s2 a2 lab2 um1 → kmem_frame s1 s2 → lab1 ⊆ lab2 → (∀ r, is_root lab2 r → is_root lab1 r) →
  (∀ q x, lab2 !! q = Some x → lab1 !! q = None → pool_refs a1 !! q = None) →
  (∀ q, lab2 !! q = None → pool_refs a2 !! q = pool_refs a1 !! q) →
  grown s a lab um root n qs s2 a2 lab2 um1.
Proof.
  intros G Has2 Hfr HL HR Hnew Hrefs.
  pose proof (λ q, grown_not_table _ _ _ _ _ _ _ _ _ _ _ q G) as Hq1.
  destruct G as [_ Gf GL GR Gn Gum Gr Gfr Gnd]. split; try done.
  - by eapply kmem_frame_trans.
  - by transitivity lab1.
  - intros r Hr. by apply GR, HR.
  - intros q x Hq Hl. destruct (lab1 !! q) as [y|] eqn:E; [by eapply Gn|].
    destruct (decide (q ∈ qs)) as [Hin|Hin]; [by apply Gfr|]. rewrite <-Gr by done. by eapply Hnew.
  - intros q Hq Hnin. rewrite Hrefs by done. apply Gr; [by eapply lookup_weaken_None|done].
  - intros q Hq. destruct (Gfr q Hq) as [Hc ?]. split; [|done].
    destruct (lab2 !! q) as [x|] eqn:E; [|by rewrite Hrefs].
    rewrite (Hnew q x) in Hc; [done|done|by apply Hq1].
Qed.

Lemma grown_mem_frame lab lab1 m root n perm qs m1 m2 :
  grown_mem lab m root n perm qs m1 → lab ⊆ lab1 → is_root lab root →
  0 ≤ n → n + length qs ≤ vpn_top →
  pt_same lab1 m1 m2 → same_except lab1 m1 m2 root n 0 → grown_mem lab m root n perm qs m2.
Proof.
  intros [Gs Gp Gz] HL Hroot Hn Htop Hs Hse.
  assert (is_root lab1 root) as Hroot1 by (by eapply is_root_weaken). split.
  - eapply (same_except_trans lab lab1); [done|done|]. eapply same_except_weaken; [done|lia].
  - intros v Hv. rewrite Hs by (try done; apply vpn_range; lia). by apply Gp.
  - intros va Hva. rewrite Hse; [by apply Gz|done|lia|lia].
Qed.

Lemma elem_of_snoc (qs : list Z) p q : q ∈ qs ++ [p] ↔ q ∈ qs ∨ q = p.
Proof. rewrite elem_of_app, list_elem_of_singleton. done. Qed.

(** One more page. *)
Lemma grown_snoc s a lab um root n qs s1 a1 lab1 um1 p fl s2 s3 a3 lab3 :
  grown s a lab um root n qs s1 a1 lab1 um1 →
  pool_refs a1 !! p = None → lab1 !! p = None → kmem_frame s1 s2 →
  vm_ext s2 (mkPool fl (<[p := 1]> (pool_refs a1))) lab1 s3 a3 lab3 →
  as_inv s3 a3 lab3 (<[(root, n + length qs) := p]> um1) →
  grown s a lab um root n (qs ++ [p]) s3 a3 lab3 (<[(root, n + length qs) := p]> um1).
Proof.
  intros G Hpf Hpl Hf12 Hx Has3.
  pose proof (λ q, grown_not_table _ _ _ _ _ _ _ _ _ _ _ q G) as Hq1.
  destruct (vm_ext_data _ _ _ _ _ _ p 1 Hx) as [Hpl3 Hp3]; [by apply lookup_insert_eq|done|].
  destruct G as [_ Gf GL GR Gn Gum Gr Gfr Gnd].
  assert (p ∉ qs) as Hpq by (intros Hin; destruct (Gfr p Hin); congruence).
  assert (pool_refs a !! p = None) as Hpa by (by rewrite <-(Gr p)).
  split; try done.
  - eapply kmem_frame_trans; [done|]. eapply kmem_frame_trans; [done|apply Hx].
  - transitivity lab1; [done|apply Hx].
  - intros r Hr. apply GR. by apply (ve_roots _ _ _ _ _ _ Hx).
  - intros q x Hq Hl. destruct (lab1 !! q) as [y|] eqn:E; [by eapply Gn|].
    pose proof (ve_new _ _ _ _ _ _ Hx q x Hq E) as Hnew. simpl in Hnew.
    rewrite lookup_insert_ne in Hnew by congruence.
    destruct (decide (q ∈ qs)) as [Hin|Hin]; [by apply Gfr|]. by rewrite <-Gr.
  - intros r v. destruct (decide ((root, n + length qs) = (r, v))) as [[= <- <-]|Hne].
    + rewrite lookup_insert_eq, decide_True by (rewrite length_app; simpl; lia).
      symmetry. apply list_lookup_middle. lia.
    + rewrite lookup_insert_ne, Gum by done. rewrite length_app. simpl.
      destruct (decide (r = root ∧ n ≤ v < n + length qs)) as [[-> Hv]|Hv].
      * rewrite decide_True by lia. by rewrite lookup_app_l by lia.
      * rewrite decide_False; [done|]. intros [-> Hv']. destruct Hne. f_equal. lia.
  - intros q Hq Hnin. rewrite elem_of_snoc in Hnin. apply Decidable.not_or in Hnin as [Hnin Hqp].
    rewrite (ve_refs _ _ _ _ _ _ Hx) by (by left). simpl. rewrite lookup_insert_ne by done.
    apply Gr; [|done]. eapply lookup_weaken_None; [done|apply Hx].
  - intros q [Hq| ->]%elem_of_snoc; [|done]. destruct (Gfr q Hq) as [Hqa ?]. split; [|done].
    eapply (vm_ext_data _ _ _ _ _ _ q 1 Hx); [|by apply Hq1]. simpl.
    rewrite lookup_insert_ne; [done|]. congruence.
  - apply NoDup_app. split; [done|]. split; [|apply NoDup_singleton].
    intros q Hq ->%list_elem_of_singleton. done.
Qed.

Lemma leaf_pte_user p perm : pte_user perm = true → pte_user (leaf_pte p perm) = true.
Proof.
  rewrite !pte_user_testbit. unfold leaf_pte. rewrite !Z.lor_spec. intros ->.
  by rewrite orb_true_r.
Qed.

Lemma grown_mem_snoc lab lab1 m root n perm qs m1 p m3 :
  grown_mem lab m root n perm qs m1 → lab ⊆ lab1 → is_root lab root →
  0 ≤ n → n + length qs < vpn_top → is_page p → 0 ≤ perm < 2 ^ 10 → pte_user perm = true →
  pt_upd lab1 m1 m3 root (one_upd (n + length qs) (leaf_pte p perm)) →
  same_except lab1 m1 m3 root (n + length qs) 1 →
  (∀ b, p ≤ b < p + PGSIZE → load8 m3 b = 0) →
  grown_mem lab m root n perm (qs ++ [p]) m3.
Proof.
  intros [Gs Gp Gz] HL Hroot Hn Htop Hp Hperm Huser Hu Hse Hz.
  assert (is_root lab1 root) as Hroot1 by (by eapply is_root_weaken).
  destruct (leaf_pte_facts p perm Hp Hperm) as (Lv & Lpa & _).
  assert (pte_of m3 root (PGSIZE * (n + length qs)) = leaf_pte p perm) as Ep.
  { rewrite Hu by (try done; apply vpn_range; lia). unfold one_upd.
    by rewrite decide_True, page_number, decide_True. }
  split; rewrite length_app; simpl.
  - eapply (same_except_trans lab lab1); [done| |]; (eapply same_except_weaken; [done|lia]).
  - intros v Hv. destruct (decide (v = n + length qs)) as [->|Hne].
    + exists p. split; [|done]. apply list_lookup_middle. lia.
    + destruct (Gp v ltac:(lia)) as (q & Hq & Epq). exists q. split; [by apply lookup_app_l_Some|].
      rewrite Hu by (try done; apply vpn_range; lia). unfold one_upd.
      by rewrite decide_True, page_number, decide_False.
  - intros va Hva. destruct (decide (va / PGSIZE = n + length qs)) as [E|Hne].
    + unfold user_byte. rewrite pte_of_page, E, Ep, Lv, leaf_pte_user, Lpa by done. simpl. f_equal.
      apply Hz. pose proof (Z.mod_pos_bound va PGSIZE ltac:(done)). lia.
    + rewrite Hse; [apply Gz; lia|done|lia|lia].
Qed.

(** kalloc(), memset() and mappages() of one page. *)
Lemma new_page s a lab um root n perm p fl :
  as_inv s a lab um → pool_free a = p :: fl → is_root lab root → 0 ≤ n < vpn_top →
  um !! (root, n) = None → 0 ≤ perm < 2 ^ 10 → pte_read perm = true →
  ∃ s2 r s3 a3 lab3, kalloc s = Ret p s2 ∧
    mappages root (PGSIZE * n) PGSIZE p perm (zero_page s2 p) = Ret r s3 ∧
    p ≠ 0 ∧ is_page p ∧ pool_refs a !! p = None ∧ lab !! p = None ∧ kmem_frame s (zero_page s2 p) ∧
    vm_ext (zero_page s2 p) (mkPool fl (<[p := 1]> (pool_refs a))) lab s3 a3 lab3 ∧
    (r = 0 ∧ as_inv s3 a3 lab3 (<[(root, n) := p]> um) ∧
     pt_upd lab (mem s) (mem s3) root (one_upd n (leaf_pte p perm)) ∧
     same_except lab (mem s) (mem s3) root n 1 ∧ (∀ b, p ≤ b < p + PGSIZE → load8 (mem s3) b = 0) ∨
     r = -1 ∧ as_inv s3 a3 lab3 um ∧ pt_same lab (mem s) (mem s3) ∧
     same_except lab (mem s) (mem s3) root n 0).
Proof.
  intros Has Hf Hroot Hn Hum Hperm Huser. pose proof Has as [Hvm Hm Hlf Hct].
  destruct (alloc_zero s a lab um p fl Has Hf)
    as (s2 & Ek & Has2 & Hf2 & HT & Hp0 & Hpf & Hpl & Hz & Hd).
  destruct (pool_head_page _ _ _ _ (vi_pool _ _ _ Hvm) Hf) as [Hp _].
  exists s2. revert Has2 Hf2 HT Hz Hd. generalize (zero_page s2 p). intros s2' Has2 Hf2 HT Hz Hd.
  pose proof (tables_same_pte _ _ _ HT (vi_wf _ _ _ Hvm)) as Hs.
  assert (∀ k, same_except lab (mem s) (mem s2') root k 0) as Hse
    by (intros k; eapply same_except_same; [done|done|done|intros q b Hq _; by apply Hd]).
  destruct (map_page s2' _ lab um root n p perm 1 Has2 Hroot Hn Hum (lookup_insert_eq _ _ _))
    as (r & s3 & a3 & lab3 & Em & Hx & Hcase);
    [by rewrite (cnt_unreferenced a lab)|done|done|done|].
  exists r, s3, a3, lab3. do 8 (split; [done|]).
  destruct Hcase as [(-> & Has3 & Hu & Hse3)|(-> & Has3 & Hs3 & Hse3 & _)]; [left|right].
  - split; [done|]. split; [done|]. split; [by eapply pt_same_upd|]. split.
    + eapply (same_except_trans lab lab); [done| |done]. eapply same_except_weaken; [apply (Hse n)|lia].
    + intros b Hb. rewrite <-(Hz b Hb). apply (ve_data _ _ _ _ _ _ Hx p); [|done|done].
      apply elem_of_dom. simpl. rewrite lookup_insert_eq. by eexists.
  - split; [done|]. split; [done|]. split; [by eapply (pt_same_trans lab lab)|].
    by eapply (same_except_trans lab lab).
Qed.

(** Freeing a page with one reference that no table names. *)
Lemma free_unmapped s a lab um p :
  as_inv s a lab um → pool_refs a !! p = Some 1 → cnt um p = O → lab !! p = None →
  let a' := mkPool (p :: pool_free a) (delete p (pool_refs a)) in
  ∃ s', kfree p s = Ret () s' ∧ as_inv s' a' lab um ∧ kmem_frame s s' ∧
    pt_same lab (mem s) (mem s') ∧ ∀ root n, same_except lab (mem s) (mem s') root n 0.
Proof.
  intros Has Hp Hcnt Hl a'. pose proof Has as [Hvm Hm Hlf Hct].
  assert (pool_step a (OpFree p) = Some (0, a')) as Hst by (simpl; rewrite Hp; done).
  destruct (vm_kfree s a lab p _ _ Hvm Hl Hst) as (s' & E & Hvm' & Hfr & HT & Hd).
  assert (∀ k q, um !! k = Some q → q ≠ p) as Hne.
  { intros k q Hk ->. pose proof (cnt_pos _ _ _ Hk). lia. }
  pose proof (tables_same_pte _ _ _ HT (vi_wf _ _ _ Hvm)) as Hs.
  exists s'. split; [done|]. split; [|split; [done|split; [done|]]].
  - eapply as_inv_data; [done|done|done|]. intros k q c Hk Hc. exists c. split; [|lia].
    unfold a'. simpl. rewrite lookup_delete_ne; [done|]. apply not_eq_sym. by eapply Hne.
  - intros root n r va Hr Hva _. eapply user_byte_frame; [eassumption|done|done|apply Hs; [done|by apply vpn_va]|].
    intros q b Hq. apply Hd. destruct (Hct _ _ Hq) as [_ (c & Hc & _)]. apply elem_of_dom. exists c.
    unfold a'. simpl. rewrite lookup_delete_ne; [done|]. apply not_eq_sym. by eapply Hne.
Qed.

(** The iteration that succeeds, and the two that do not. *)
Lemma uvmalloc_step s a lab um root n qs s1 a1 lab1 um1 xperm newsz perm va :
  perm = Z.lor (Z.lor PTE_R PTE_U) xperm → va = PGSIZE * (n + length qs) →
  grown s a lab um root n qs s1 a1 lab1 um1 → grown_mem lab (mem s) root n perm qs (mem s1) →
  is_root lab root → 0 ≤ n → n + length qs < vpn_top → 0 ≤ perm < 2 ^ 10 → pte_user perm = true → pte_read perm = true →
  um !! (root, n + length qs) = None → va < newsz →
  ∃ s3 a3 lab3,
    (∃ p, uvmalloc_body root (PGSIZE * n) newsz xperm va s1 = Ret (inl (va + PGSIZE)) s3 ∧
          grown s a lab um root n (qs ++ [p]) s3 a3 lab3 (<[(root, n + length qs) := p]> um1) ∧
          grown_mem lab (mem s) root n perm (qs ++ [p]) (mem s3)) ∨
    (uvmalloc_body root (PGSIZE * n) newsz xperm va s1 =
       (uvmdealloc root va (PGSIZE * n);; mret (inr 0)) s3 ∧
     grown s a lab um root n qs s3 a3 lab3 um1 ∧ grown_mem lab (mem s) root n perm qs (mem s3)).
Proof.
  intros Eperm Eva G Gm Hroot Hn Htop Hperm Huser Hread Hum Hlt.
  pose proof (gr_inv _ _ _ _ _ _ _ _ _ _ _ G) as Has1.
  pose proof (gr_lab _ _ _ _ _ _ _ _ _ _ _ G) as HL.
  assert (is_root lab1 root) as Hroot1 by (eapply is_root_weaken; [apply G|done]).
  assert (um1 !! (root, n + length qs) = None) as Hum1
    by (by rewrite (gr_um _ _ _ _ _ _ _ _ _ _ _ G), decide_False by lia).
  pose proof (as_vm _ _ _ _ Has1) as Hvm1.
  unfold uvmalloc_body. rewrite <-Eperm. mif_false. destruct (pool_free a1) as [|p fl] eqn:Ef.
  { exists s1, a1, lab1. right. split; [|done]. rewrite kalloc_none; [done| |apply Hvm1].
    rewrite <-Ef. apply Hvm1. }
  destruct (new_page s1 a1 lab1 um1 root (n + length qs) perm p fl)
    as (s2 & r & s3 & a3 & lab3 & Ek & Em & Hp0 & Hp & Hpf & Hpl & Hf2 & Hx & Hcase);
    [done|done|done|lia|done|done|done|].
  rewrite Ek. msimpl. rewrite (proj2 (Z.eqb_neq p 0) Hp0). unfold memset_k. msimpl.
  rewrite <-Eva in Em. unfold zero_page in Em. rewrite Em. msimpl. clear Em Ek.
  destruct Hcase as [(-> & Has3 & Hu & Hse & Hz)|(-> & Has3 & Hs3 & Hse3)].
  - exists s3, a3, lab3. left. exists p. simpl (negb _). cbv iota.
    split; [|split; [by eapply grown_snoc|by eapply grown_mem_snoc]].
    rewrite u64_small; [done|]. rewrite Eva. assert (vpn_top = 2 ^ 26 - 2) as E by done.
    rewrite E in Htop. unfold PGSIZE. lia.
  - destruct (free_unmapped s3 a3 lab3 um1 p Has3) as (s4 & Efr & Has4 & Hf4 & Hs4 & Hse4).
    { eapply (vm_ext_data _ _ _ _ _ _ p 1 Hx); [apply lookup_insert_eq|done]. }
    { eapply cnt_unreferenced; [apply Has1|done]. }
    { eapply (vm_ext_data _ _ _ _ _ _ p 1 Hx); [apply lookup_insert_eq|done]. }
    exists s4, (mkPool (p :: pool_free a3) (delete p (pool_refs a3))), lab3. right.
    simpl (negb _). cbv iota beta. rewrite Efr. clear Efr. split; [done|]. split.
    + eapply grown_frame; [exact G|done| |apply Hx|apply Hx|..].
      * eapply kmem_frame_trans; [done|]. eapply kmem_frame_trans; [apply Hx|done].
      * intros q x Hq Hl. pose proof (ve_new _ _ _ _ _ _ Hx q x Hq Hl) as Hnew. simpl in Hnew.
        by apply lookup_insert_None in Hnew as [? _].
      * intros q Hq. simpl. destruct (decide (q = p)) as [->|Hne]; [by rewrite lookup_delete_eq|].
        rewrite lookup_delete_ne, (ve_refs _ _ _ _ _ _ Hx) by (congruence || by left). simpl.
        by apply lookup_insert_ne.
    + eapply grown_mem_frame; [exact Gm|done|done|done|lia|..].
      * by eapply (pt_same_trans lab1 lab3); [apply Hx| |].
      * eapply (same_except_trans lab1 lab3); [apply Hx| |apply Hse4].
        eapply same_except_weaken; [exact Hse3|lia].
Qed.

(** Freeing pages that have one reference each. *)
Lemma pool_run_free_fresh a qs rs a' q :
  pool_run a (OpFree <$> qs) = Some (rs, a') → NoDup qs → (∀ p, p ∈ qs → pool_refs a !! p = Some 1) →
  pool_refs a' !! q = if decide (q ∈ qs) then None else pool_refs a !! q.
Proof.
  revert a rs. induction qs as [|p qs IH]; intros a rs Hrun Hnd Hq.
  - injection Hrun as <- <-. rewrite decide_False; [done|apply not_elem_of_nil].
  - apply NoDup_cons in Hnd as [Hp Hnd]. cbn [fmap list_fmap pool_run] in Hrun.
    assert (pool_step a (OpFree p) = Some (0, mkPool (p :: pool_free a) (delete p (pool_refs a)))) as Hst.
    { unfold pool_step. rewrite Hq by left. done. }
    rewrite Hst in Hrun. simpl in Hrun.
    destruct (pool_run _ (OpFree <$> qs)) as [[rs1 a1]|] eqn:E1; [|done]. injection Hrun as <- <-.
    rewrite (IH _ _ E1 Hnd).
    + simpl. destruct (decide (q ∈ qs)) as [Hin|Hin]; [by rewrite decide_True by (by right)|].
      destruct (decide (q = p)) as [->|Hne]; [rewrite decide_True by left; apply lookup_delete_eq|].
      rewrite decide_False by (rewrite elem_of_cons; tauto). by apply lookup_delete_ne.
    + intros p' Hp'. simpl. rewrite lookup_delete_ne by congruence. apply Hq. by right.
Qed.

Lemma PGROUNDUP_page k : 0 ≤ k ≤ 2 ^ 26 → PGROUNDUP (PGSIZE * k) = PGSIZE * k.
Proof.
  intros Hk. rewrite PGROUNDUP_small by (unfold PGSIZE; lia). f_equal. symmetry.
  apply (Z.div_unique _ _ _ (PGSIZE - 1)); unfold PGSIZE; lia.
Qed.

(** uvmdealloc() on page boundaries. *)
Lemma uvmdealloc_eq root n (k : nat) s s' :
  0 ≤ n → n + k ≤ 2 ^ 26 → uvmunmap root (PGSIZE * n) k true s = Ret () s' →
  ∃ r, uvmdealloc root (PGSIZE * (n + k)) (PGSIZE * n) s = Ret r s'.
Proof.
  intros Hn Hk E. unfold uvmdealloc. destruct k as [|k].
  - assert (s' = s) as ->.
    { revert E. unfold uvmunmap. mif_false by (rewrite Z.mul_comm, Z.mod_mul by done; done).
      rewrite u64_small by (unfold PGSIZE; lia).
      rewrite (loop_exit _ _ _ _ () s); [by intros [= ->]|].
      unfold uvmunmap_body. mif_true by (rewrite Z.mul_0_l, Z.add_0_r, Z.ltb_irrefl; done). done. }
    mif_true by (apply Z.leb_le; unfold PGSIZE; lia). by eexists.
  - mif_false by (apply Z.leb_gt; unfold PGSIZE; lia). rewrite !PGROUNDUP_page by lia.
    mif_true by (apply Z.ltb_lt; unfold PGSIZE; lia).
    replace (PGSIZE * (n + S k) - PGSIZE * n) with (PGSIZE * S k) by lia. rewrite page_number.
    replace (u64 (i32 (S k))) with (Z.of_nat (S k)).
    2: { unfold i32. rewrite u32_small by lia. destruct (Z.ltb_spec (S k) (2 ^ 31)); [|lia].
         by rewrite u64_small by lia. }
    rewrite E. by eexists.
Qed.

Lemma um_unmap_grown s a lab um root n qs s1 a1 lab1 um1 :
  grown s a lab um root n qs s1 a1 lab1 um1 →
  (∀ v, n ≤ v < n + length qs → um !! (root, v) = None) →
  um_unmap um1 root n (length qs) = um.
Proof.
  intros G Hum. apply map_eq. intros [r v]. unfold um_unmap.
  rewrite map_lookup_filter, (gr_um _ _ _ _ _ _ _ _ _ _ _ G).
  destruct (decide (r = root ∧ n ≤ v < n + length qs)) as [[-> Hv]|Hv].
  - rewrite (Hum v Hv). destruct (qs !! _); [|done]. simpl. by rewrite option_guard_False by tauto.
  - destruct (um !! (r, v)); [|done]. simpl. by rewrite option_guard_True.
Qed.

(** uvmdealloc() undoes the growth. *)
Lemma grown_undo s a lab um root n qs s1 a1 lab1 um1 perm :
  grown s a lab um root n qs s1 a1 lab1 um1 → grown_mem lab (mem s) root n perm qs (mem s1) →
  as_inv s a lab um → is_root lab root → 0 ≤ n → n + length qs ≤ vpn_top →
  (∀ v, n ≤ v < n + length qs → um !! (root, v) = None) →
  ∃ r s2 a2, uvmdealloc root (PGSIZE * (n + length qs)) (PGSIZE * n) s1 = Ret r s2 ∧
    grown s a lab um root n [] s2 a2 lab1 um ∧ same_except lab (mem s) (mem s2) root n 0.
Proof.
  intros G Gm Has Hroot Hn Htop Hum. assert (vpn_top = 2 ^ 26 - 2) as Et by done.
  pose proof (gr_inv _ _ _ _ _ _ _ _ _ _ _ G) as Has1.
  assert (is_root lab1 root) as Hroot1 by (eapply is_root_weaken; [apply G|done]).
  destruct (uvmunmap_spec s1 a1 lab1 um1 root n qs Has1 Hn) as (s2 & a2 & rs & E & Hrun & Has2 & Hf2 & Hu2 & Hse2).
  { rewrite MAXVA_eq. unfold PGSIZE. lia. }
  { intros i q Hi. apply lookup_lt_Some in Hi as Hlt. rewrite (gr_um _ _ _ _ _ _ _ _ _ _ _ G), decide_True by lia.
    by replace (Z.to_nat (n + i - n)) with i by lia. }
  destruct (uvmdealloc_eq root n (length qs) s1 s2 Hn ltac:(lia) E) as [r E']. clear E.
  pose proof (λ q, pool_run_free_fresh _ _ _ _ q Hrun (gr_nodup _ _ _ _ _ _ _ _ _ _ _ G)
    (λ p Hp, proj1 (gr_fresh _ _ _ _ _ _ _ _ _ _ _ G p Hp))) as Hrefs. clear Hrun.
  rewrite (um_unmap_grown _ _ _ _ _ _ _ _ _ _ _ G Hum) in Has2.
  exists r, s2, a2. split; [exact E'|]. clear E'. split.
  - destruct G as [_ Gf GL GR Gn Gum Gr Gfr Gnd]. split; try done.
    + by eapply kmem_frame_trans.
    + intros r' v. by rewrite decide_False by (simpl; lia).
    + intros q Hq _. rewrite Hrefs. case_decide as Hin; [|by apply Gr].
      symmetry. by apply Gfr.
    + intros q Hq. by apply not_elem_of_nil in Hq.
    + apply NoDup_nil_2.
  - intros r' va Hr' Hva _. destruct (decide (r' = root ∧ n ≤ va / PGSIZE < n + length qs)) as [[-> Hv]|Hv].
    + unfold user_byte. rewrite Hu2 by (try done; by apply vpn_va).
      rewrite decide_True by done. unfold range_upd. rewrite decide_True by lia. simpl.
      rewrite pte_of_page, (as_unmapped s a lab um root) by (try done; by apply Hum). done.
    + rewrite Hse2, (gm_same _ _ _ _ _ _ _ Gm); try done.
      eapply is_root_weaken; [apply G|done].
Qed.

(** The loop from [k] mapped pages on. *)
Lemma uvmalloc_loop (k : nat) s a lab um root n qs s1 a1 lab1 um1 xperm newsz perm :
  perm = Z.lor (Z.lor PTE_R PTE_U) xperm → as_inv s a lab um →
  grown s a lab um root n qs s1 a1 lab1 um1 → grown_mem lab (mem s) root n perm qs (mem s1) →
  is_root lab root → 0 ≤ n → n + length qs + k ≤ vpn_top → 0 ≤ perm < 2 ^ 10 → pte_user perm = true →
  pte_read perm = true →
  (∀ v, n ≤ v < n + length qs + k → um !! (root, v) = None) →
  PGSIZE * (n + length qs + k) < newsz + PGSIZE → newsz ≤ PGSIZE * (n + length qs + k) →
  ∃ r qs' s2 a2 lab2 um2,
    loop (S k) (uvmalloc_body root (PGSIZE * n) newsz xperm) (PGSIZE * (n + length qs)) s1 = Ret r s2 ∧
    grown s a lab um root n qs' s2 a2 lab2 um2 ∧
    (r = newsz ∧ length qs' = (length qs + k)%nat ∧ grown_mem lab (mem s) root n perm qs' (mem s2) ∨
     r = 0 ∧ qs' = [] ∧ um2 = um ∧ same_except lab (mem s) (mem s2) root n 0).
Proof.
  intros Eperm Has. revert qs s1 a1 lab1 um1.
  induction k as [|k IH]; intros qs s1 a1 lab1 um1 G Gm Hroot Hn Htop Hperm Huser Hread Hum Hlo Hhi.
  - exists newsz, qs, s1, a1, lab1, um1. rewrite (loop_exit _ _ _ _ newsz s1).
    2: { unfold uvmalloc_body. mif_true by (apply negb_true_iff, Z.ltb_ge; unfold PGSIZE in *; lia). done. }
    split; [done|]. split; [done|]. left. split; [done|]. split; [lia|done].
  - destruct (uvmalloc_step s a lab um root n qs s1 a1 lab1 um1 xperm newsz perm _ Eperm eq_refl G Gm)
      as (s3 & a3 & lab3 & [(p & E & G3 & Gm3)|(E & G3 & Gm3)]); try done; try lia.
    { apply Hum. lia. } { unfold PGSIZE in *. lia. }
    + assert (length (qs ++ [p]) = S (length qs)) as El by (rewrite length_app; simpl; lia).
      destruct (IH (qs ++ [p]) s3 a3 lab3 _ G3 Gm3) as (r & qs' & s4 & a4 & lab4 & um4 & E4 & G4 & H4);
        try done; rewrite ?El; try lia.
      { intros v Hv. apply Hum. lia. }
      exists r, qs', s4, a4, lab4, um4. split; [|split; [done|]].
      * rewrite (loop_next _ _ _ _ _ _ E), <-E4, El. f_equal. lia.
      * destruct H4 as [(-> & Hl & ?)|?]; [left|by right]. split; [done|]. split; [rewrite Hl, El; lia|done].
    + destruct (grown_undo s a lab um root n qs s3 a3 lab3 um1 perm G3 Gm3 Has Hroot Hn ltac:(lia))
        as (r & s4 & a4 & E4 & G4 & Hs4); [intros v Hv; apply Hum; lia|].
      exists 0, [], s4, a4, lab3, um. split; [|split; [done|by right]].
      apply loop_exit. rewrite E. msimpl. by rewrite E4.
Qed.

Lemma uvmalloc_spec s a lab um root oldsz newsz xperm :
  as_inv s a lab um → is_root lab root → 0 ≤ oldsz ≤ newsz → newsz ≤ TRAPFRAME → 0 ≤ xperm < 2 ^ 10 →
  (∀ v, PGROUNDUP oldsz / PGSIZE ≤ v < PGROUNDUP newsz / PGSIZE → um !! (root, v) = None) →
  let n := PGROUNDUP oldsz / PGSIZE in
  let perm := Z.lor (Z.lor PTE_R PTE_U) xperm in
  ∃ r qs s' a' lab' um', uvmalloc root oldsz newsz xperm s = Ret r s' ∧
    grown s a lab um root n qs s' a' lab' um' ∧
    (r = newsz ∧ n + length qs = PGROUNDUP newsz / PGSIZE ∧ grown_mem lab (mem s) root n perm qs (mem s') ∨
     r = 0 ∧ qs = [] ∧ um' = um ∧ same_except lab (mem s) (mem s') root n 0).
Proof.
  intros Has Hroot Hsz Htop Hxp Hum n perm.
  assert (TRAPFRAME = PGSIZE * (2 ^ 26 - 2)) as ET by done. rewrite ET in Htop.
  assert (vpn_top = 2 ^ 26 - 2) as Et by done.
  destruct (PGROUNDUP_spec oldsz) as [Ho Hom]; [unfold PGSIZE in *; lia|].
  destruct (PGROUNDUP_spec newsz) as [Hn Hnm]; [unfold PGSIZE in *; lia|].
  assert (PGROUNDUP oldsz = PGSIZE * n) as Eo by (unfold n; by apply Z_div_exact_full_2).
  set (n' := PGROUNDUP newsz / PGSIZE) in *.
  assert (PGROUNDUP newsz = PGSIZE * n') as En by (unfold n'; by apply Z_div_exact_full_2).
  rewrite Eo in Ho. rewrite En in Hn.
  assert (n ≤ n' ≤ vpn_top ∧ 0 ≤ n) as Hnn by (rewrite Et; unfold PGSIZE in *; lia).
  destruct (uvmalloc_loop (Z.to_nat (n' - n)) s a lab um root n [] s a lab um xperm newsz perm)
    as (r & qs & s' & a' & lab' & um' & E & G & Hc); try done.
  - by apply grown_refl.
  - apply grown_mem_refl.
  - lia.
  - simpl. lia.
  - apply lor_flags_range; [vm_compute; split; [discriminate|done]|done].
  - rewrite pte_user_testbit. unfold perm. rewrite !Z.lor_spec. done.
  - rewrite pte_read_testbit. unfold perm. rewrite !Z.lor_spec. done.
  - simpl. intros v Hv. apply Hum. lia.
  - simpl. unfold PGSIZE in *. lia.
  - simpl. unfold PGSIZE in *. lia.
  - exists r, qs, s', a', lab', um'. split; [|split; [done|]].
    + unfold uvmalloc. mif_false. rewrite Eo.
      replace ((newsz - PGSIZE * n + PGSIZE - 1) / PGSIZE) with (n' - n).
      * change (n + length []) with (n + 0) in E. by rewrite Z.add_0_r in E.
      * apply (Z.div_unique _ _ _ (newsz + PGSIZE - 1 - PGSIZE * n')); unfold PGSIZE in *; lia.
    + destruct Hc as [(-> & Hl & ?)|?]; [left|by right]. split; [done|]. split; [simpl in Hl; lia|done].
Qed.

(** C31: uvmalloc() grows an address space or leaves it alone.  It returns the
    new size with fresh, zero-filled, user-readable pages mapped over the new
    range, or 0 with every page table entry below the trapframe and every
    reference count of a data page as before.  In both cases no byte any user
    program sees elsewhere changes, and every mapped page stays counted. *)
Theorem uvmalloc_correct s a lab um root oldsz newsz xperm :
  as_inv s a lab um → is_root lab root → 0 ≤ oldsz ≤ newsz → newsz ≤ TRAPFRAME → 0 ≤ xperm < 2 ^ 10 →
  (∀ v, PGROUNDUP oldsz / PGSIZE ≤ v < PGROUNDUP newsz / PGSIZE → um !! (root, v) = None) →
  let n := PGROUNDUP oldsz / PGSIZE in
  let perm := Z.lor (Z.lor PTE_R PTE_U) xperm in
  ∃ r qs s' a' lab' um', uvmalloc root oldsz newsz xperm s = Ret r s' ∧
    grown s a lab um root n qs s' a' lab' um' ∧
    (r = newsz ∧ n + length qs = PGROUNDUP newsz / PGSIZE ∧ grown_mem lab (mem s) root n perm qs (mem s') ∨
     r = 0 ∧ qs = [] ∧ um' = um ∧ same_except lab (mem s) (mem s') root n 0).
Proof. apply uvmalloc_spec. Qed.

(** C33: uvmunmap() with [do_free] removes exactly the entries of its range and
    drops one reference per entry; a page still mapped elsewhere, by the same
    or another address space, keeps its contents. *)
Theorem uvmunmap_correct s a lab um root n qs :
  as_inv s a lab um → 0 ≤ n → PGSIZE * (n + length qs) ≤ MAXVA →
  (∀ (i : nat) q, qs !! i = Some q → um !! (root, n + i) = Some q) →
  ∃ s' a' rs, uvmunmap root (PGSIZE * n) (length qs) true s = Ret () s' ∧
    pool_run a (OpFree <$> qs) = Some (rs, a') ∧
    as_inv s' a' lab (um_unmap um root n (length qs)) ∧ kmem_frame s s' ∧
    pt_upd lab (mem s) (mem s') root (range_upd n (length qs) 0) ∧
    same_except lab (mem s) (mem s') root n (length qs).
Proof. apply uvmunmap_spec. Qed.

(** ** Copy-on-write faults *)

Definition cow_flags : Z := 31.

Lemma cow_pte p :
  Z.lor (Z.lor (Z.lor (Z.lor (Z.lor (PA2PTE p) PTE_U) PTE_V) PTE_W) PTE_X) PTE_R =
  Z.lor (PA2PTE p) cow_flags.
Proof. by rewrite <-!Z.lor_assoc. Qed.

Lemma cow_pte_facts p :
  is_page p → let v := Z.lor (PA2PTE p) cow_flags in
  pte_valid v = true ∧ pte_user v = true ∧ PTE2PA v = p ∧ pte_read v = true ∧ 0 ≤ v < 2 ^ 64.
Proof.
  intros Hp v. destruct (is_page_pa p Hp) as [Hpa Hal]. unfold v.
  assert (0 ≤ cow_flags < 2 ^ 10) as Hf by done.
  split; [rewrite pte_valid_odd, <-Z.bit0_odd, Z.lor_spec; change (Z.testbit cow_flags 0) with true; by rewrite orb_true_r|].
  split; [rewrite pte_user_testbit, Z.lor_spec; change (Z.testbit cow_flags 4) with true; by rewrite orb_true_r|].
  split; [by apply PTE2PA_lor|].
  split; [rewrite pte_read_testbit, Z.lor_spec; change (Z.testbit cow_flags 1) with true; by rewrite orb_true_r|].
  by apply PA2PTE_valid.
Qed.

End user.
