(* ===== verification/VmCow.v ===== *)
(** * Copy-on-write and access to user memory: cowfault(), uvmcopy(),
    copyin(), copyout(), copyinstr()

    The theorems are about what user programs see ([user_byte]): a
    copy-on-write fault is invisible, fork()'s uvmcopy() gives the child the
    parent's memory, and copyout() changes exactly the bytes it was asked to
    write, in the address space it was given, whatever pages are shared. *)

From Stdlib Require Import ZArith Lia.
From stdpp Require Import base numbers strings option list gmap.
From S2P Require Import Prelude Params Machine Cstring Kalloc Vm VmPt VmUser.

Open Scope Z_scope.

Section cow.
Context `{Linker}.

(** Everything every user program sees is unchanged. *)
Definition same_view (lab : tables) (m m' : gmap Z Z) : Prop :=
  ∀ r va, is_root lab r → 0 ≤ va / PGSIZE < vpn_top → user_byte m' r va = user_byte m r va.

(** ** cowfault() *)

Lemma cowfault_unmapped s root va :
  va < MAXVA →
  pte_valid (pte_of (mem s) root va) && pte_user (pte_of (mem s) root va) = false →
  (∀ x, leaf_slot (mem s) root va = Some x → x ≠ 0) →
  cowfault root va s = Ret (-1) s.
Proof.
  intros Hva Hp Hx0. unfold cowfault. mif_false. rewrite walk_lookup by done. unfold load64_k. msimpl.
  unfold pte_of in Hp. destruct (leaf_slot (mem s) root va) as [x|]; simpl in *; [|done].
  specialize (Hx0 x eq_refl). rewrite (proj2 (Z.eqb_neq x 0) Hx0).
  unfold pte_valid, pte_user in Hp. by destruct (Z.land _ PTE_V =? 0), (Z.land _ PTE_U =? 0).
Qed.

(** The body from the entry's slot on. *)
Lemma cowfault_slot s root va x v :
  va < MAXVA → leaf_slot (mem s) root va = Some x → x ≠ 0 → v = load64 (mem s) x →
  pte_valid v = true → pte_user v = true →
  cowfault root va s =
    (pa2 ← kalloc;
     if pa2 =? 0 then mret (-1)
     else
       memmove_k pa2 (PTE2PA v) PGSIZE;;
       store64_k x
         (Z.lor (Z.lor (Z.lor (Z.lor (Z.lor (PA2PTE pa2) PTE_U) PTE_V) PTE_W) PTE_X) PTE_R);;
       kfree (PTE2PA v);;
       mret 0) s.
Proof.
  intros Hva Hx Hx0 -> Hv Hu. unfold cowfault. mif_false. rewrite walk_lookup by done.
  rewrite Hx. simpl default. unfold load64_k. msimpl. rewrite (proj2 (Z.eqb_neq x 0) Hx0). msimpl.
  unfold pte_valid, pte_user in *. destruct (Z.land _ PTE_V =? 0), (Z.land _ PTE_U =? 0); done.
Qed.

Definition copy_page (s : kernel) (p q : Z) : kernel := s <| mem ::= λ m, memmove m p q PGSIZE |>.
Arguments copy_page s p q /.

(** kalloc() and memmove(): a private copy of page [q]. *)
Lemma alloc_copy s a lab um p fl q c :
  as_inv s a lab um → pool_free a = p :: fl → pool_refs a !! q = Some c →
  let a' := mkPool fl (<[p := 1]> (pool_refs a)) in
  ∃ s', kalloc s = Ret p s' ∧ as_inv (copy_page s' p q) a' lab um ∧ kmem_frame s (copy_page s' p q) ∧
    tables_same lab (mem s) (mem (copy_page s' p q)) ∧
    p ≠ 0 ∧ is_page p ∧ pool_refs a !! p = None ∧ lab !! p = None ∧
    (∀ i, 0 ≤ i < PGSIZE → load8 (mem (copy_page s' p q)) (p + i) = load8 (mem s) (q + i)) ∧
    ∀ q' b, q' ∈ dom (pool_refs a) → q' ≤ b < q' + PGSIZE →
      load8 (mem (copy_page s' p q)) b = load8 (mem s) b.
Proof.
  intros Has Hf Hq a'. pose proof Has as [Hvm Hm Hlf Hct].
  destruct (vm_kalloc s a lab p fl Hvm Hf) as (s' & E & Hvm' & Hfr & Hlp & HT & Hd).
  destruct (pool_head_page _ _ _ _ (vi_pool _ _ _ Hvm) Hf) as [Hp Hp0].
  pose proof (pool_head_fresh _ _ _ _ (vi_pool _ _ _ Hvm) Hf) as Hfresh.
  assert (∀ b, ¬ (p ≤ b < p + PGSIZE) → load8 (memmove (mem s') p q PGSIZE) b = load8 (mem s') b) as Hout
    by (intros b Hb; rewrite load8_memmove by done; by rewrite decide_False).
  destruct (vm_write s' a' lab (memmove (mem s') p q PGSIZE) p) as [Hvm2 HT2];
    [exact Hvm'| |exact Hlp|exact Hout|].
  { apply elem_of_dom. unfold a'. simpl. rewrite lookup_insert_eq. by eexists. }
  assert (tables_same lab (mem s) (mem (copy_page s' p q))) as HTT.
  { intros pt x b Hpt Hb. simpl. rewrite (HT2 pt x b Hpt Hb). by eapply HT. }
  exists s'. split; [exact E|]. clear E. split.
  { eapply as_inv_data; [exact Has|exact Hvm2|exact HTT|]. intros k q' c' _ Hq'. exists c'. unfold a'. simpl.
    rewrite lookup_insert_ne by congruence. split; [done|lia]. }
  split; [eapply kmem_frame_trans; [exact Hfr|same_record s']|]. do 5 (split; [assumption|]). split.
  - intros i Hi. simpl. rewrite load8_memmove, decide_True by (done || lia).
    replace (q + (p + i - p)) with (q + i) by lia.
    apply (Hd q); [|lia]. apply elem_of_dom. by eexists.
  - intros q' b Hq' Hb. simpl. rewrite Hout; [by eapply Hd|].
    apply elem_of_dom in Hq' as [c' Hq'].
    assert (is_page q') as Hqp by (by eapply (pr_used _ _ (vi_pool _ _ _ Hvm))).
    destruct (page_disjoint q' p); [apply Hqp|apply Hp|congruence|lia|lia].
Qed.

Lemma pool_free_refs a q r a' :
  pool_step a (OpFree q) = Some (r, a') →
  (∀ p, p ≠ q → pool_refs a' !! p = pool_refs a !! p) ∧
  (∀ p, p ∈ dom (pool_refs a') → p ∈ dom (pool_refs a)).
Proof.
  unfold pool_step. destruct (pool_refs a !! q) as [c|] eqn:Hc; [|done]. simpl. intros Hst.
  assert (∀ p, p ≠ q → pool_refs a' !! p = pool_refs a !! p) as Hp.
  { intros p Hp. case_match; injection Hst as <- <-; simpl;
      [by apply lookup_delete_ne|by apply lookup_insert_ne]. }
  split; [exact Hp|]. intros p. rewrite !elem_of_dom. destruct (decide (p = q)) as [->|Hne].
  - intros _. by eexists.
  - by rewrite Hp.
Qed.

(** Replacing the page [q] an entry names by the unshared page [p]. *)
Lemma remap_page s a lab um root n q p x v :
  as_inv s a lab um → um !! (root, n) = Some q → leaf_slot (mem s) root (PGSIZE * n) = Some x →
  pool_refs a !! p = Some 1 → lab !! p = None → cnt um p = O →
  pte_valid v = true → PTE2PA v = p → pte_read v = true → 0 ≤ v < 2 ^ 64 →
  ∃ s' a', (store64_k x v;; kfree q;; mret 0) s = Ret 0 s' ∧
    pool_step a (OpFree q) = Some (0, a') ∧
    as_inv s' a' lab (<[(root, n) := p]> um) ∧ kmem_frame s s' ∧
    pt_upd lab (mem s) (mem s') root (one_upd n v) ∧
    pool_refs a' !! p = Some 1 ∧ cnt (<[(root, n) := p]> um) p = 1%nat ∧
    ∀ q' b, q' ∈ dom (pool_refs a') → lab !! q' = None → q' ≤ b < q' + PGSIZE →
      load8 (mem s') b = load8 (mem s) b.
Proof.
  intros Has Hq Hx Hp Hpl Hcp Lv Lpa Lf Lr. pose proof Has as [Hvm Hm Hlf Hct].
  assert (is_root lab root ∧ 0 ≤ n < vpn_top) as [Hr Hn] by (apply Hm in Hq; tauto).
  assert (p ≠ q) as Hne by (intros ->; pose proof (cnt_pos _ _ _ Hq); lia).
  destruct (set_entry s a lab root n x v Hvm Hr Hn Lr Hx) as (Hvm3 & Hf3 & Hu3 & Hd3).
  destruct (Hct _ _ Hq) as [Hlq (c & Hc & Hcnt)].
  destruct (um_counted_free_ok a lab um _ q Hct Hq) as [a' Hst].
  destruct (vm_kfree _ a lab q 0 a' Hvm3 Hlq Hst) as (s' & Ek & Hvm' & Hf4 & HT4 & Hd4).
  pose proof (tables_same_pte _ _ _ HT4 (vi_wf _ _ _ Hvm3)) as Hs4.
  destruct (pool_free_refs a q 0 a' Hst) as [Hoth Hdom].
  assert (pool_refs a' !! p = Some 1) as Hp' by (by rewrite Hoth).
  assert (um_set um root n v = <[(root, n) := p]> um) as Eset by (unfold um_set; by rewrite Lv, Lpa).
  assert (pt_upd lab (mem s) (mem s') root (one_upd n v)) as Hu.
  { intros r va Hr' Hva'. rewrite (Hs4 r va Hr' Hva'). by apply Hu3. }
  assert (um_counted a' lab (<[(root, n) := p]> um)) as Hct'.
  { rewrite <-insert_delete_eq.
    eapply um_counted_insert; [by eapply um_counted_free|apply lookup_delete_eq|exact Hp'| |exact Hpl].
    rewrite (cnt_delete _ _ _ p Hq), decide_False in Hcp by done. lia. }
  exists s', a'. split; [unfold store64_k; msimpl; unfold set_leaf in Ek; by rewrite Ek|]. clear Ek.
  split; [exact Hst|]. split.
  { split; [exact Hvm'| | |exact Hct']; rewrite <-Eset.
    - eapply um_ok_upd; [exact Hm|done|done|exact Hr|exact Hn|exact Hu].
    - eapply um_leaf_upd; [exact Hlf|exact Hm|exact Hr|exact Hn|exact Hu|done]. }
  split; [by eapply kmem_frame_trans|]. split; [exact Hu|]. split; [exact Hp'|]. split.
  - rewrite <-insert_delete_eq, cnt_insert by apply lookup_delete_eq. rewrite decide_True by done.
    rewrite (cnt_delete _ _ _ p Hq), decide_False in Hcp by done. lia.
  - intros q' b Hq' Hl' Hb. rewrite (Hd4 q') by done. apply (Hd3 q'); [by apply Hdom|done|done].
Qed.

(** The invariant and the view after a copy-on-write fault at [va]. *)
Lemma cowfault_spec s a lab um root va q p fl :
  as_inv s a lab um → um !! (root, va / PGSIZE) = Some q → pte_user (pte_of (mem s) root va) = true →
  pool_free a = p :: fl →
  ∃ s' a', cowfault root va s = Ret 0 s' ∧
    pool_step (mkPool fl (<[p := 1]> (pool_refs a))) (OpFree q) = Some (0, a') ∧
    as_inv s' a' lab (<[(root, va / PGSIZE) := p]> um) ∧ kmem_frame s s' ∧
    pt_upd lab (mem s) (mem s') root (one_upd (va / PGSIZE) (Z.lor (PA2PTE p) cow_flags)) ∧
    same_view lab (mem s) (mem s') ∧ is_page p ∧ p ≠ 0 ∧
    pool_refs a' !! p = Some 1 ∧ cnt (<[(root, va / PGSIZE) := p]> um) p = 1%nat.
Proof.
  intros Has Hq Huser Hf. set (n := va / PGSIZE) in *. pose proof Has as [Hvm Hm Hlf Hct].
  destruct (as_lookup _ _ _ _ _ _ _ Has Hq) as (x & Hr & Hx & Hx0 & Hp & Hv & Hpa & _ & _).
  assert (0 ≤ n < vpn_top) as Hn by (apply Hm in Hq; tauto).
  assert (leaf_slot (mem s) root va = Some x) as Hx' by (by rewrite leaf_slot_page).
  assert (pte_of (mem s) root va = load64 (mem s) x) as Hp' by (unfold pte_of; by rewrite Hx').
  destruct (Hct _ _ Hq) as [Hlq (c & Hc & Hcnt)].
  destruct (alloc_copy s a lab um p fl q c Has Hf Hc)
    as (s1 & Ek & Has2 & Hf2 & HT2 & Hp0 & Hpp & Hpf & Hpl & Hcopy & Hd2).
  assert (cowfault root va s = (store64_k x (Z.lor (PA2PTE p) cow_flags);; kfree q;; mret 0) (copy_page s1 p q)) as E.
  { rewrite (cowfault_slot s root va x (load64 (mem s) x)); try assumption; [|by apply vpn_va|done|by rewrite <-Hp'].
    msimpl. rewrite Ek. msimpl. rewrite (proj2 (Z.eqb_neq p 0) Hp0), Hpa, cow_pte. done. }
  clear Ek. revert E Has2 Hf2 HT2 Hcopy Hd2. generalize (copy_page s1 p q). intros s2 E Has2 Hf2 HT2 Hcopy Hd2.
  destruct (cow_pte_facts p Hpp) as (Lv & Lu & Lpa & Lf & Lr). set (v := Z.lor (PA2PTE p) cow_flags) in *.
  destruct (remap_page s2 _ lab um root n q p x v Has2 Hq) as (s3 & a3 & E3 & Hst & Has3 & Hf3 & Hu3 & Hp3 & Hc3 & Hd3);
    [erewrite tables_same_slot; [exact Hx|exact HT2|apply Hvm|exact Hr]|apply lookup_insert_eq|exact Hpl|
     by eapply cnt_unreferenced|exact Lv|exact Lpa|exact Lf|exact Lr|].
  exists s3, a3. split; [by rewrite E, E3|]. clear E E3.
  assert (pt_upd lab (mem s) (mem s3) root (one_upd n v)) as Hu
    by (eapply pt_same_upd; [by eapply tables_same_pte; [|apply Hvm]|exact Hu3]).
  split; [exact Hst|]. split; [exact Has3|]. split; [by eapply kmem_frame_trans|]. split; [exact Hu|].
  split; [|done]. intros r w Hrw Hw.
  destruct (decide ((r, w / PGSIZE) = (root, n))) as [[= -> En]|Hne].
  - assert (pte_of (mem s3) root w = v) as Ew.
    { rewrite Hu by (try done; by apply vpn_va). unfold one_upd. by rewrite decide_True, En, decide_True. }
    assert (pte_of (mem s) root w = load64 (mem s) x) as Ew0 by (by rewrite pte_of_page, En).
    unfold user_byte. rewrite Ew, Ew0, Lv, Lu, Hv, <-Hp', Huser, Hp', Hpa, Lpa. simpl. f_equal.
    pose proof (Z.mod_pos_bound w PGSIZE ltac:(done)).
    rewrite (Hd3 p); [by apply Hcopy|apply elem_of_dom; by eexists|exact Hpl|lia].
  - eapply user_byte_frame; [exact Hm|exact Hrw|exact Hw|eapply one_upd_other; try done; by apply vpn_va|].
    intros q' b Hq' Hb. destruct (Hct _ _ Hq') as [Hl' (c' & Hc' & _)].
    destruct (as_cnt _ _ _ _ Has3 (r, w / PGSIZE) q') as [_ (c3 & Hc3' & _)]; [by rewrite lookup_insert_ne|].
    rewrite (Hd3 q'), (Hd2 q'); try assumption; [done|apply elem_of_dom; by eexists..].
Qed.

(** ** Reading user memory: copyin() and copyinstr() *)

(** What the kernel may read at [va] on behalf of the user of [root]. *)
Definition access (m : gmap Z Z) (root va : Z) : option Z :=
  if va <? MAXVA then user_byte m root va else None.

(** User pages are not at physical address 0. *)
Definition user_pages_ok (m : gmap Z Z) (root : Z) : Prop :=
  ∀ va, 0 ≤ va < MAXVA →
    pte_valid (pte_of m root va) && pte_user (pte_of m root va) = true → PTE2PA (pte_of m root va) ≠ 0.

Lemma slot_nonzero s a lab root va x :
  vm_inv s a lab → is_root lab root → leaf_slot (mem s) root va = Some x → x ≠ 0.
Proof.
  intros Hvm Hr Hx. destruct (leaf_slot_lab _ _ _ _ _ (vi_wf _ _ _ Hvm) Hr Hx) as (pt0 & Hpt0 & ->).
  pose proof (is_page_bounds pt0 (pw_page _ _ (vi_wf _ _ _ Hvm) _ _ Hpt0)).
  pose proof (PX_range 0 va ltac:(lia)). unfold KERNBASE in *. lia.
Qed.

Lemma walkaddr_eq s a lab root va :
  vm_inv s a lab → is_root lab root →
  walkaddr root va s =
    Ret (if (va <? MAXVA) && (pte_valid (pte_of (mem s) root va) && pte_user (pte_of (mem s) root va))
         then PTE2PA (pte_of (mem s) root va) else 0) s.
Proof.
  intros Hvm Hr. unfold walkaddr. destruct (Z.leb_spec MAXVA va) as [Hva|Hva].
  { rewrite (proj2 (Z.ltb_ge va MAXVA) Hva). done. }
  rewrite (proj2 (Z.ltb_lt va MAXVA) Hva). unfold load64_k. msimpl. rewrite walk_lookup by done. msimpl.
  unfold pte_of. destruct (leaf_slot (mem s) root va) as [x|] eqn:Hx; simpl; [|done].
  pose proof (slot_nonzero _ _ _ _ _ _ Hvm Hr Hx) as Hx0. rewrite (proj2 (Z.eqb_neq x 0) Hx0).
  unfold pte_valid, pte_user. by destruct (Z.land _ PTE_V =? 0), (Z.land _ PTE_U =? 0).
Qed.

(** [va + i] on the page of [va]. *)
Lemma page_offset va i :
  0 ≤ i → va mod PGSIZE + i < PGSIZE →
  (va + i) / PGSIZE = va / PGSIZE ∧ (va + i) mod PGSIZE = va mod PGSIZE + i.
Proof.
  intros Hi Hlt. pose proof (Z.div_mod va PGSIZE ltac:(done)) as E.
  pose proof (Z.mod_pos_bound va PGSIZE ltac:(done)) as Hb.
  assert (va + i = PGSIZE * (va / PGSIZE) + (va mod PGSIZE + i)) as E' by lia. split.
  - symmetry. apply (Z.div_unique _ _ _ (va mod PGSIZE + i)); [left; lia|lia].
  - symmetry. apply (Z.mod_unique _ _ (va / PGSIZE)); [left; lia|lia].
Qed.

Lemma PGROUNDDOWN_mod va : PGROUNDDOWN va = va - va mod PGSIZE.
Proof. rewrite PGROUNDDOWN_eq. pose proof (Z.div_mod va PGSIZE ltac:(done)). lia. Qed.

Lemma PGROUNDDOWN_page va : PGROUNDDOWN va / PGSIZE = va / PGSIZE.
Proof. rewrite PGROUNDDOWN_eq. apply page_number. Qed.

(** One page of a user range: what walkaddr() finds and the bytes behind it. *)
Lemma walkaddr_page s a lab root va :
  vm_inv s a lab → is_root lab root → user_pages_ok (mem s) root → 0 ≤ va →
  let va0 := PGROUNDDOWN va in
  (walkaddr root va0 s = Ret 0 s ∧ access (mem s) root va = None) ∨
  (∃ pa0, walkaddr root va0 s = Ret pa0 s ∧ pa0 ≠ 0 ∧ va0 < MAXVA ∧
     ∀ i, 0 ≤ i → va mod PGSIZE + i < PGSIZE →
       access (mem s) root (va + i) = Some (load8 (mem s) (pa0 + (va - va0) + i))).
Proof.
  intros Hvm Hr Hok Hva va0. rewrite (walkaddr_eq s a lab root va0 Hvm Hr).
  assert (va0 = va - va mod PGSIZE) as E0 by apply PGROUNDDOWN_mod.
  pose proof (Z.mod_pos_bound va PGSIZE ltac:(done)) as Hb.
  assert (va0 / PGSIZE = va / PGSIZE) as En by apply PGROUNDDOWN_page.
  assert (va0 = PGSIZE * (va / PGSIZE)) as E1 by (unfold va0; apply PGROUNDDOWN_eq).
  assert (MAXVA = PGSIZE * 2 ^ 26) as EM by done.
  assert (∀ i, 0 ≤ i → va mod PGSIZE + i < PGSIZE → (va + i <? MAXVA) = (va0 <? MAXVA)) as Hmax.
  { intros i Hi Hlt. rewrite EM, E0. destruct (Z.ltb_spec (va - va mod PGSIZE) (PGSIZE * 2 ^ 26)) as [Hl|Hl].
    - apply Z.ltb_lt. rewrite <-E0, E1 in Hl. assert (va / PGSIZE < 2 ^ 26) by (unfold PGSIZE in *; lia).
      pose proof (Z.div_mod va PGSIZE ltac:(done)). unfold PGSIZE in *. lia.
    - apply Z.ltb_ge. lia. }
  assert (∀ i, 0 ≤ i → va mod PGSIZE + i < PGSIZE → pte_of (mem s) root (va + i) = pte_of (mem s) root va0) as Hpte.
  { intros i Hi Hlt. destruct (page_offset va i Hi Hlt) as [Ei _].
    by rewrite (pte_of_page _ _ (va + i)), (pte_of_page _ _ va0), Ei, En. }
  destruct ((va0 <? MAXVA) && _) eqn:Ec.
  - apply andb_prop in Ec as [Hl Hpu]. right. exists (PTE2PA (pte_of (mem s) root va0)).
    split; [done|]. apply Z.ltb_lt in Hl as Hl'.
    split; [apply Hok; [split; [rewrite E1; unfold PGSIZE; pose proof (Z.div_pos va 4096); lia|done]|done]|].
    split; [done|]. intros i Hi Hlt. unfold access, user_byte. rewrite Hmax, Hl, Hpte by done.
    rewrite Hpu. do 2 f_equal. destruct (page_offset va i Hi Hlt) as [_ ->]. lia.
  - left. split; [done|]. replace va with (va + 0) by lia. unfold access, user_byte.
    rewrite Hmax, Hpte by lia. by destruct (va0 <? MAXVA), (pte_valid _), (pte_user _).
Qed.

(** The pages a range touches. *)
Definition npages (va len : Z) : Z := (va mod PGSIZE + len + PGSIZE - 1) / PGSIZE.

Lemma npages_bound va len : 0 ≤ len → npages va len < len / PGSIZE + 3.
Proof.
  intros Hl. unfold npages. pose proof (Z.mod_pos_bound va PGSIZE ltac:(done)).
  apply Z.div_lt_upper_bound; [done|]. pose proof (Z.div_mod len PGSIZE ltac:(done)).
  pose proof (Z.mod_pos_bound len PGSIZE ltac:(done)). unfold PGSIZE in *. lia.
Qed.

Lemma npages_pos va len : 0 < len → 0 < npages va len.
Proof.
  intros Hl. unfold npages. pose proof (Z.mod_pos_bound va PGSIZE ltac:(done)).
  apply Z.div_str_pos. unfold PGSIZE in *. lia.
Qed.

Lemma npages_next va len :
  0 ≤ va → PGSIZE - va mod PGSIZE < len →
  let va' := PGROUNDDOWN va + PGSIZE in
  va' = va + (PGSIZE - va mod PGSIZE) ∧ npages va' (len - (PGSIZE - va mod PGSIZE)) < npages va len.
Proof.
  intros Hva Hlen va'. pose proof (PGROUNDDOWN_mod va) as E. split; [unfold va'; lia|].
  unfold npages. assert (va' mod PGSIZE = 0) as ->.
  { unfold va'. rewrite PGROUNDDOWN_eq. replace (PGSIZE * (va / PGSIZE) + PGSIZE) with ((va / PGSIZE + 1) * PGSIZE) by lia.
    by apply Z.mod_mul. }
  pose proof (Z.mod_pos_bound va PGSIZE ltac:(done)).
  replace (va mod PGSIZE + len + PGSIZE - 1) with (0 + (len - (PGSIZE - va mod PGSIZE)) + PGSIZE - 1 + 1 * PGSIZE) by lia.
  rewrite Z.div_add by done. lia.
Qed.

(** [bs] is what the user has at [va]. *)
Definition user_has (m : gmap Z Z) (root va : Z) (bs : list Z) : Prop :=
  ∀ (i : nat) x, bs !! i = Some x → access m root (va + i) = Some x.

Lemma user_has_app m root va bs1 bs2 :
  user_has m root va bs1 → user_has m root (va + length bs1) bs2 → user_has m root va (bs1 ++ bs2).
Proof.
  intros H1 H2 i x. rewrite lookup_app_Some. intros [Hi|[Hge Hi]]; [by apply H1|].
  replace (va + i) with (va + length bs1 + (i - length bs1)%nat) by lia. by apply H2.
Qed.

(** The bytes of one page. *)
Lemma user_has_page m root va pa0 n :
  (∀ i, 0 ≤ i → va mod PGSIZE + i < PGSIZE → access m root (va + i) = Some (load8 m (pa0 + i))) →
  va mod PGSIZE + Z.of_nat n ≤ PGSIZE → user_has m root va (load_bytes m pa0 n).
Proof.
  intros Hb Hn i x Hi. apply lookup_lt_Some in Hi as Hlt. rewrite length_load_bytes in Hlt.
  rewrite lookup_load_bytes in Hi by done. injection Hi as <-. apply Hb; lia.
Qed.

(** The number of bytes copied from the page of [va]. *)
Definition chunk (va len : Z) : Z := Z.min (PGSIZE - va mod PGSIZE) len.

Lemma chunk_range va len : 0 < len → 0 < chunk va len ≤ len ∧ va mod PGSIZE + chunk va len ≤ PGSIZE.
Proof. pose proof (Z.mod_pos_bound va PGSIZE ltac:(done)). unfold chunk. lia. Qed.

(** After one page either nothing is left or the next page comes next. *)
Lemma chunk_next va len :
  0 ≤ va → 0 < len → PGROUNDDOWN va < MAXVA →
  let va' := u64 (PGROUNDDOWN va + PGSIZE) in
  0 ≤ va' ∧ npages va' (len - chunk va len) < npages va len ∧
  (len - chunk va len = 0 ∨ va' = va + chunk va len).
Proof.
  intros Hva Hlen Hmax va'. pose proof (PGROUNDDOWN_mod va) as E0. pose proof MAXVA_eq as EM.
  pose proof (Z.mod_pos_bound va PGSIZE ltac:(done)) as Hm.
  assert (0 ≤ PGROUNDDOWN va) as H0.
  { rewrite PGROUNDDOWN_eq. apply Z.mul_nonneg_nonneg; [done|]. by apply Z.div_pos. }
  assert (va' = PGROUNDDOWN va + PGSIZE) as Ev by (unfold va'; apply u64_small; unfold PGSIZE in *; lia).
  rewrite Ev. split; [unfold PGSIZE; lia|]. unfold chunk.
  destruct (Z.le_gt_cases len (PGSIZE - va mod PGSIZE)) as [Hle|Hgt].
  - rewrite Z.min_r by lia. split; [|lia]. replace (len - len) with 0 by lia.
    pose proof (npages_pos va len Hlen). enough (npages (PGROUNDDOWN va + PGSIZE) 0 = 0) by lia.
    unfold npages. rewrite PGROUNDDOWN_eq. replace (PGSIZE * (va / PGSIZE) + PGSIZE) with ((va / PGSIZE + 1) * PGSIZE) by lia.
    by rewrite Z.mod_mul.
  - rewrite Z.min_l by lia. destruct (npages_next va len Hva Hgt) as [E Hn]. split; [exact Hn|]. right. lia.
Qed.

Lemma npages_nonneg va len : 0 ≤ len → 0 ≤ npages va len.
Proof.
  intros Hl. unfold npages. pose proof (Z.mod_pos_bound va PGSIZE ltac:(done)).
  apply Z.div_pos; unfold PGSIZE in *; lia.
Qed.

Lemma copyin_step s a lab root srcva len dst :
  vm_inv s a lab → is_root lab root → user_pages_ok (mem s) root → 0 ≤ srcva → 0 < len →
  (copyin_body root (srcva, len, dst) s = Ret (inr (-1, dst)) s ∧ access (mem s) root srcva = None) ∨
  (∃ bs, copyin_body root (srcva, len, dst) s =
           Ret (inl (u64 (PGROUNDDOWN srcva + PGSIZE), len - chunk srcva len, dst ++ bs)) s ∧
         PGROUNDDOWN srcva < MAXVA ∧
         user_has (mem s) root srcva bs ∧ Z.of_nat (length bs) = chunk srcva len).
Proof.
  intros Hvm Hr Hok Hva Hlen. unfold copyin_body. mif_false. pose proof (chunk_range srcva len Hlen) as Hc.
  destruct (walkaddr_page s a lab root srcva Hvm Hr Hok Hva) as [[E Hn]|(pa0 & E & Hpa & Hmax & Hb)].
  { left. rewrite E. done. }
  right. rewrite E. msimpl. rewrite (proj2 (Z.eqb_neq pa0 0) Hpa). msimpl. clear E.
  pose proof (PGROUNDDOWN_mod srcva) as E0.
  replace (srcva - PGROUNDDOWN srcva) with (srcva mod PGSIZE) in * by lia. fold (chunk srcva len).
  eexists. split; [reflexivity|]. split; [done|].
  split; [apply user_has_page; [exact Hb|lia]|rewrite length_load_bytes; lia].
Qed.

Lemma copyin_loop (fuel : nat) s a lab root srcva len dst :
  vm_inv s a lab → is_root lab root → user_pages_ok (mem s) root →
  0 ≤ srcva → 0 ≤ len → npages srcva len < fuel →
  ∃ r bs, loop fuel (copyin_body root) (srcva, len, dst) s = Ret (r, dst ++ bs) s ∧
    user_has (mem s) root srcva bs ∧
    (r = 0 ∧ Z.of_nat (length bs) = len ∨
     r = -1 ∧ length bs < len ∧ access (mem s) root (srcva + length bs) = None).
Proof.
  intros Hvm Hr Hok. revert srcva len dst.
  induction fuel as [|fuel IH]; intros srcva len dst Hva Hlen Hfuel.
  { pose proof (npages_nonneg srcva len Hlen). lia. }
  destruct (Z.le_gt_cases len 0) as [Hneg|Hpos].
  { exists 0, []. rewrite app_nil_r. split; [|split; [by intros ? ?|left; simpl; lia]].
    apply loop_exit. unfold copyin_body. mif_true. done. }
  destruct (copyin_step s a lab root srcva len dst Hvm Hr Hok Hva Hpos) as [[E Hn]|(bs & E & Hmax & Hb & Lb)].
  { exists (-1), []. rewrite app_nil_r. split; [by apply loop_exit|]. split; [by intros ? ?|].
    right. simpl. rewrite Z.add_0_r. done. }
  pose proof (chunk_range srcva len Hpos) as Hc.
  destruct (chunk_next srcva len Hva Hpos Hmax) as (Hva' & Hnp & Hnext).
  destruct (IH _ (len - chunk srcva len) (dst ++ bs) Hva' ltac:(lia) ltac:(lia)) as (r & bs' & E' & Hb' & Hcase).
  exists r, (bs ++ bs'). rewrite (loop_next _ _ _ _ _ _ E), E', app_assoc, length_app, Nat2Z.inj_add.
  split; [done|]. destruct Hnext as [Hz|En].
  - assert (bs' = []) as ->.
    { destruct Hcase as [[_ Hl]|(_ & Hl & _)]; [|lia]. apply length_zero_iff_nil. lia. }
    rewrite app_nil_r. split; [exact Hb|]. simpl in Hcase. simpl. destruct Hcase as [[-> ?]|(_ & ? & _)]; [left|]; lia.
  - rewrite En, <-Lb in Hb', Hcase. split; [by apply user_has_app|].
    rewrite Z.add_assoc. destruct Hcase as [[-> ?]|(-> & ? & ?)]; [left|right]; (split; [done|]); [lia|split; [lia|done]].
Qed.

Lemma copyin_spec s a lab root srcva len :
  vm_inv s a lab → is_root lab root → user_pages_ok (mem s) root → 0 ≤ srcva → 0 ≤ len →
  ∃ r bs, copyin root srcva len s = Ret (r, bs) s ∧ user_has (mem s) root srcva bs ∧
    (r = 0 ∧ Z.of_nat (length bs) = len ∨
     r = -1 ∧ length bs < len ∧ access (mem s) root (srcva + length bs) = None).
Proof.
  intros Hvm Hr Hok Hva Hlen. apply (copyin_loop _ s a lab root srcva len []); try assumption.
  pose proof (npages_bound srcva len Hlen). pose proof (Z.div_pos len PGSIZE Hlen ltac:(done)). lia.
Qed.

Lemma copy_until_nul_spec m p n g bs :
  copy_until_nul m p n = (g, bs) →
  (∀ (i : nat) x, bs !! i = Some x → x = load8 m (p + i)) ∧ (length bs ≤ n)%nat ∧
  if g then ∃ str, bs = str ++ [0] ∧ Forall (λ c, c ≠ 0) str
  else length bs = n ∧ Forall (λ c, c ≠ 0) bs.
Proof.
  revert p g bs. induction n as [|n IH]; intros p g bs E; simpl in E.
  { injection E as <- <-. split; [by intros ? ?|]. simpl. split; [lia|]. split; [done|constructor]. }
  destruct (Z.eqb_spec (load8 m p) 0) as [E0|Hne].
  { injection E as <- <-. simpl. split; [|split; [lia|by exists []; split; [|constructor]]].
    intros [|i] x; simpl; [|done]. intros [= <-]. by rewrite Z.add_0_r. }
  destruct (copy_until_nul m (p + 1) n) as [g' bs'] eqn:E'. injection E as <- <-.
  destruct (IH _ _ _ E') as (Hb & Hl & Hg). split; [|simpl; split; [lia|]].
  - intros [|i] x; simpl; [intros [= <-]; by rewrite Z.add_0_r|]. intros Hx.
    replace (p + S i) with (p + 1 + i) by lia. by apply Hb.
  - destruct g'; [|destruct Hg; split; [lia|by constructor]].
    destruct Hg as (str & -> & Hs). exists (load8 m p :: str). split; [done|by constructor].
Qed.

Lemma copyinstr_step s a lab root srcva max dst :
  vm_inv s a lab → is_root lab root → user_pages_ok (mem s) root → 0 ≤ srcva → 0 < max →
  (copyinstr_body root (srcva, max, dst) s = Ret (inr (-1, dst)) s ∧ access (mem s) root srcva = None) ∨
  (∃ str, copyinstr_body root (srcva, max, dst) s = Ret (inr (0, dst ++ str ++ [0])) s ∧
     Forall (λ c, c ≠ 0) str ∧ user_has (mem s) root srcva (str ++ [0]) ∧ length str < max) ∨
  (∃ bs, copyinstr_body root (srcva, max, dst) s =
           Ret (inl (u64 (PGROUNDDOWN srcva + PGSIZE), max - chunk srcva max, dst ++ bs)) s ∧
         PGROUNDDOWN srcva < MAXVA ∧ Forall (λ c, c ≠ 0) bs ∧
         user_has (mem s) root srcva bs ∧ Z.of_nat (length bs) = chunk srcva max).
Proof.
  intros Hvm Hr Hok Hva Hlen. unfold copyinstr_body. mif_false. pose proof (chunk_range srcva max Hlen) as Hc.
  destruct (walkaddr_page s a lab root srcva Hvm Hr Hok Hva) as [[E Hn]|(pa0 & E & Hpa & Hmax & Hb)].
  { left. rewrite E. done. }
  right. rewrite E. msimpl. rewrite (proj2 (Z.eqb_neq pa0 0) Hpa). msimpl. clear E.
  pose proof (PGROUNDDOWN_mod srcva) as E0.
  replace (srcva - PGROUNDDOWN srcva) with (srcva mod PGSIZE) in * by lia. fold (chunk srcva max).
  destruct (copy_until_nul _ _ _) as [g bs] eqn:Ec.
  destruct (copy_until_nul_spec _ _ _ _ _ Ec) as (Hbs & Hl & Hg). clear Ec.
  assert (user_has (mem s) root srcva bs) as Hu.
  { intros i x Hi. rewrite (Hbs i x Hi). apply lookup_lt_Some in Hi. by rewrite Hb by lia. }
  destruct g.
  - destruct Hg as (str & -> & Hs). left. exists str. split; [done|]. split; [done|]. split; [done|].
    rewrite length_app in Hl. simpl in Hl. lia.
  - destruct Hg as [Hl' Hs]. right. exists bs. do 4 (split; [done|]). lia.
Qed.

(** A NUL-terminated string at [va], or why there is none within [max]. *)
Definition str_result (m : gmap Z Z) (root va max r : Z) (bs : list Z) : Prop :=
  user_has m root va bs ∧
  (r = 0 ∧ length bs ≤ max ∧ (∃ str, bs = str ++ [0] ∧ Forall (λ c, c ≠ 0) str) ∨
   r = -1 ∧ Forall (λ c, c ≠ 0) bs ∧
   (Z.of_nat (length bs) = max ∨ length bs < max ∧ access m root (va + length bs) = None)).

Lemma str_result_app m root va max r bs1 bs2 :
  user_has m root va bs1 → Forall (λ c, c ≠ 0) bs1 →
  str_result m root (va + length bs1) (max - length bs1) r bs2 →
  str_result m root va max r (bs1 ++ bs2).
Proof.
  intros H1 Hn [H2 Hc]. split; [by apply user_has_app|]. rewrite length_app, Nat2Z.inj_add.
  destruct Hc as [(-> & Hl & str & -> & Hs)|(-> & Hs & Hl)]; [left|right]; (split; [done|]).
  - split; [lia|]. exists (bs1 ++ str). split; [by rewrite app_assoc|by apply Forall_app].
  - split; [by apply Forall_app|]. rewrite Z.add_assoc. destruct Hl as [?|[? ?]]; [left; lia|right; split; [lia|done]].
Qed.

Lemma copyinstr_loop (fuel : nat) s a lab root srcva max dst :
  vm_inv s a lab → is_root lab root → user_pages_ok (mem s) root →
  0 ≤ srcva → 0 ≤ max → npages srcva max < fuel →
  ∃ r bs, loop fuel (copyinstr_body root) (srcva, max, dst) s = Ret (r, dst ++ bs) s ∧
    str_result (mem s) root srcva max r bs.
Proof.
  intros Hvm Hr Hok. revert srcva max dst.
  induction fuel as [|fuel IH]; intros srcva max dst Hva Hlen Hfuel.
  { pose proof (npages_nonneg srcva max Hlen). lia. }
  destruct (Z.le_gt_cases max 0) as [Hneg|Hpos].
  { exists (-1), []. rewrite app_nil_r. split; [apply loop_exit; unfold copyinstr_body; mif_true; done|].
    split; [by intros ? ?|]. right. split; [done|]. split; [constructor|left; simpl; lia]. }
  destruct (copyinstr_step s a lab root srcva max dst Hvm Hr Hok Hva Hpos)
    as [[E Hn]|[(str & E & Hs & Hu & Hl)|(bs & E & Hmax & Hs & Hb & Lb)]].
  { exists (-1), []. rewrite app_nil_r. split; [by apply loop_exit|]. split; [by intros ? ?|].
    right. split; [done|]. split; [constructor|]. right. simpl. rewrite Z.add_0_r. done. }
  { exists 0, (str ++ [0]). split; [by apply loop_exit|]. split; [done|]. left. split; [done|].
    rewrite length_app. simpl. split; [lia|by eexists]. }
  pose proof (chunk_range srcva max Hpos) as Hc.
  destruct (chunk_next srcva max Hva Hpos Hmax) as (Hva' & Hnp & Hnext).
  destruct (IH _ (max - chunk srcva max) (dst ++ bs) Hva' ltac:(lia) ltac:(lia)) as (r & bs' & E' & Hb').
  exists r, (bs ++ bs'). rewrite (loop_next _ _ _ _ _ _ E), E', app_assoc. split; [done|].
  destruct Hnext as [Hz|En].
  - destruct Hb' as [_ [(_ & Hl & str & -> & _)|(-> & _ & Hl)]].
    { rewrite length_app in Hl. simpl in Hl. lia. }
    assert (bs' = []) as -> by (apply length_zero_iff_nil; lia).
    rewrite app_nil_r. split; [exact Hb|]. right. split; [done|]. split; [done|left; lia].
  - rewrite En, <-Lb in Hb'. by apply str_result_app.
Qed.

Lemma copyinstr_spec s a lab root srcva max :
  vm_inv s a lab → is_root lab root → user_pages_ok (mem s) root → 0 ≤ srcva → 0 ≤ max →
  ∃ r bs, copyinstr root srcva max s = Ret (r, bs) s ∧ str_result (mem s) root srcva max r bs.
Proof.
  intros Hvm Hr Hok Hva Hlen. apply (copyinstr_loop _ s a lab root srcva max []); try assumption.
  pose proof (npages_bound srcva max Hlen). pose proof (Z.div_pos max PGSIZE Hlen ltac:(done)). lia.
Qed.

(** ** Writing user memory: copyout() *)

(** [m'] shows [bs] at [dstva] of [root], and everything else as [m] does. *)
Definition write_view (lab : tables) (m m' : gmap Z Z) (root dstva : Z) (bs : list Z) : Prop :=
  ∀ r va, is_root lab r → 0 ≤ va / PGSIZE < vpn_top →
    user_byte m' r va =
      if decide (r = root ∧ dstva ≤ va < dstva + length bs)
      then u8 <$> (bs !! Z.to_nat (va - dstva)) else user_byte m r va.

Lemma write_view_nil lab m m' root dstva : same_view lab m m' → write_view lab m m' root dstva [].
Proof. intros Hs r va Hr Hva. rewrite decide_False by (simpl; lia). by apply Hs. Qed.

Lemma write_view_app lab m m1 m2 root dstva bs1 bs2 :
  write_view lab m m1 root dstva bs1 → write_view lab m1 m2 root (dstva + length bs1) bs2 →
  write_view lab m m2 root dstva (bs1 ++ bs2).
Proof.
  intros H1 H2 r va Hr Hva. rewrite H2, H1 by done. rewrite length_app.
  destruct (decide (r = root ∧ dstva + length bs1 ≤ va < dstva + length bs1 + length bs2)) as [[-> Hv]|Hv].
  - rewrite decide_True by lia. rewrite lookup_app_r by lia. do 2 f_equal. lia.
  - destruct (decide (r = root ∧ dstva ≤ va < dstva + length bs1)) as [[-> Hv']|Hv'].
    + rewrite decide_True by lia. by rewrite lookup_app_l by lia.
    + rewrite decide_False by lia. done.
Qed.

Lemma write_view_trans lab m m1 m2 root dstva bs :
  same_view lab m m1 → write_view lab m1 m2 root dstva bs → write_view lab m m2 root dstva bs.
Proof. intros Hs Hw r va Hr Hva. rewrite Hw by done. case_decide; [done|]. by apply Hs. Qed.

Lemma cnt_one um k k' p : um !! k = Some p → um !! k' = Some p → cnt um p = 1%nat → k = k'.
Proof.
  intros Hk Hk' Hc. destruct (decide (k = k')) as [->|Hne]; [done|]. exfalso.
  rewrite (cnt_delete um k p p Hk), decide_True in Hc by done.
  assert (delete k um !! k' = Some p) as Hd by (by rewrite lookup_delete_ne).
  pose proof (cnt_pos _ _ _ Hd). lia.
Qed.

Lemma cowfault_nomem s a lab um root va q :
  as_inv s a lab um → um !! (root, va / PGSIZE) = Some q → pte_user (pte_of (mem s) root va) = true →
  pool_free a = [] → cowfault root va s = Ret (-1) s.
Proof.
  intros Has Hq Huser Hf. destruct (as_lookup _ _ _ _ _ _ _ Has Hq) as (x & Hr & Hx & Hx0 & Hp & Hv & _).
  assert (0 ≤ va / PGSIZE < vpn_top) as Hn by (apply (as_map _ _ _ _ Has) in Hq; tauto).
  rewrite <-leaf_slot_page in Hx. rewrite <-pte_of_page in Hp.
  rewrite (cowfault_slot s root va x (load64 (mem s) x)); try assumption; [|by apply vpn_va|done|by rewrite <-Hp].
  pose proof (as_vm _ _ _ _ Has) as Hvm. msimpl. rewrite kalloc_none; [done| |apply Hvm].
  rewrite <-Hf. apply Hvm.
Qed.

(** Writing into a page only [root] maps, at page [n]. *)
Lemma write_private s a lab um root va p bs :
  as_inv s a lab um → um !! (root, va / PGSIZE) = Some p → cnt um p = 1%nat →
  pte_user (pte_of (mem s) root va) = true → va mod PGSIZE + length bs ≤ PGSIZE →
  let s' := s <| mem ::= λ b, store_bytes b (p + va mod PGSIZE) bs |> in
  as_inv s' a lab um ∧ write_view lab (mem s) (mem s') root va bs.
Proof.
  intros Has Hp Hc1 Huser Hlen s'. pose proof Has as [Hvm Hm Hlf Hct].
  destruct (Hct _ _ Hp) as [Hlp (c & Hc & _)]. pose proof (Z.mod_pos_bound va PGSIZE ltac:(done)) as Hb.
  set (m' := store_bytes (mem s) (p + va mod PGSIZE) bs).
  assert (∀ b, ¬ (p ≤ b < p + PGSIZE) → load8 m' b = load8 (mem s) b) as Hout
    by (intros b Hb'; apply load8_store_bytes_out; lia).
  destruct (vm_write s a lab m' p Hvm) as [Hvm' HT]; [apply elem_of_dom; by eexists|exact Hlp|exact Hout|].
  pose proof (tables_same_pte _ _ _ HT (vi_wf _ _ _ Hvm)) as Hs.
  split; [eapply as_inv_data; [exact Has|exact Hvm'|exact HT|intros k q c' _ ?; exists c'; split; [done|lia]]|].
  intros r w Hr Hw. change (mem s') with m'. assert (0 ≤ w < MAXVA) as Hw' by (by apply vpn_va).
  destruct (decide ((r, w / PGSIZE) = (root, va / PGSIZE))) as [[= -> En]|Hne].
  - pose proof Hp as (_ & _ & Hv & Hpa)%Hm. rewrite <-En, <-pte_of_page in Hv, Hpa.
    assert (pte_user (pte_of (mem s) root w) = true) as Hu by (by rewrite pte_of_page, En, <-pte_of_page).
    unfold user_byte. rewrite Hs, Hv, Hu, Hpa by done. simpl.
    pose proof (Z.div_mod w PGSIZE ltac:(done)). pose proof (Z.div_mod va PGSIZE ltac:(done)).
    pose proof (Z.mod_pos_bound w PGSIZE ltac:(done)). rewrite En in *.
    destruct (decide (va ≤ w < va + length bs)) as [Hin|Hin].
    + rewrite decide_True by done. destruct (lookup_lt_is_Some_2 bs (Z.to_nat (w - va)) ltac:(lia)) as [y Hy].
      rewrite Hy. simpl. f_equal. rewrite <-(load8_store_bytes_in (mem s) (p + va mod PGSIZE) bs _ y Hy).
      unfold m'. f_equal. lia.
    + rewrite decide_False by tauto. f_equal. apply load8_store_bytes_out. lia.
  - rewrite decide_False.
    2: { intros [-> Hin]. apply Hne. f_equal. replace w with (va + (w - va)) by lia. apply page_offset; lia. }
    eapply user_byte_frame; [exact Hm|exact Hr|exact Hw|by apply Hs|].
    intros q b Hq Hb'. destruct (decide (q = p)) as [->|Hqp].
    { destruct Hne. by eapply cnt_one. }
    destruct (Hct _ _ Hq) as [_ (c' & Hc' & _)]. apply Hout.
    assert (is_page q ∧ is_page p) as [Hq1 Hp1] by (split; by eapply (pr_used _ _ (vi_pool _ _ _ Hvm))).
    destruct (page_disjoint q p); [apply Hq1|apply Hp1|done|lia|lia].
Qed.

Lemma as_user_mapped s a lab um root va :
  as_inv s a lab um → is_root lab root → 0 ≤ va / PGSIZE < vpn_top →
  pte_valid (pte_of (mem s) root va) && pte_user (pte_of (mem s) root va) = true →
  um !! (root, va / PGSIZE) = Some (PTE2PA (pte_of (mem s) root va)).
Proof.
  intros Has Hr Hva [Hv _]%andb_prop. apply Has. rewrite <-pte_of_page. done.
Qed.

Lemma copyout_step s a lab um root dstva src :
  as_inv s a lab um → is_root lab root → 0 ≤ dstva / PGSIZE < vpn_top → src ≠ [] →
  let n := Z.to_nat (chunk dstva (length src)) in
  (copyout_body root (dstva, src) s = Ret (inr (-1)) s ∧
   (user_byte (mem s) root dstva = None ∨ pool_free a = [])) ∨
  (∃ s' a' um', copyout_body root (dstva, src) s =
      Ret (inl (u64 (PGROUNDDOWN dstva + PGSIZE), drop n src)) s' ∧
    as_inv s' a' lab um' ∧ kmem_frame s s' ∧
    write_view lab (mem s) (mem s') root dstva (take n src)).
Proof.
  intros Has Hr Hn Hsrc n. pose proof (as_vm _ _ _ _ Has) as Hvm. pose proof (vpn_va _ Hn) as Hva.
  assert (0 < length src) as Hl by (destruct src; [done|simpl; lia]).
  pose proof (chunk_range dstva (length src) Hl) as Hc. pose proof (PGROUNDDOWN_mod dstva) as E0.
  pose proof (Z.mod_pos_bound dstva PGSIZE ltac:(done)) as Hm.
  pose proof (PGROUNDDOWN_page dstva) as En. set (va0 := PGROUNDDOWN dstva) in *.
  assert (∀ m, pte_of m root va0 = pte_of m root dstva) as Hpte
    by (intros m; by rewrite (pte_of_page m root va0), En, <-pte_of_page).
  unfold copyout_body. mif_false. fold va0. mif_false.
  destruct (pte_valid (pte_of (mem s) root dstva) && pte_user (pte_of (mem s) root dstva)) eqn:Eu.
  2: { left. rewrite cowfault_unmapped; [|lia|by rewrite Hpte|intros x Hx; by eapply slot_nonzero].
       msimpl. split; [done|]. left. unfold user_byte. by rewrite Eu. }
  pose proof (as_user_mapped _ _ _ _ _ _ Has Hr Hn Eu) as Hum. apply andb_prop in Eu as [Ev Eu].
  destruct (pool_free a) as [|p fl] eqn:Ef.
  { left. rewrite (cowfault_nomem s a lab um root va0 (PTE2PA (pte_of (mem s) root dstva)) Has); [by auto|by rewrite En|by rewrite Hpte|done]. }
  right. destruct (cowfault_spec s a lab um root va0 (PTE2PA (pte_of (mem s) root dstva)) p fl Has)
    as (s1 & a1 & E & _ & Has1 & Hf1 & Hu1 & Hv1 & Hp & Hp0 & _ & Hc1); [by rewrite En|by rewrite Hpte|exact Ef|].
  rewrite E. clear E. msimpl. mif_false. rewrite En in *.
  destruct (cow_pte_facts p Hp) as (Lv & Lu & Lpa & _ & _).
  assert (pte_of (mem s1) root dstva = Z.lor (PA2PTE p) cow_flags) as E1.
  { rewrite Hu1 by done. unfold one_upd. by rewrite !decide_True. }
  rewrite (walkaddr_eq s1 a1 lab root va0 (as_vm _ _ _ _ Has1) Hr), Hpte, E1, Lv, Lu, Lpa.
  rewrite (proj2 (Z.ltb_lt va0 MAXVA)) by lia. cbn [andb]. msimpl. rewrite (proj2 (Z.eqb_neq p 0) Hp0). msimpl.
  replace (dstva - va0) with (dstva mod PGSIZE) by lia. fold (chunk dstva (length src)). fold n.
  destruct (write_private s1 a1 lab _ root dstva p (take n src) Has1) as [Has2 Hw];
    [apply lookup_insert_eq|exact Hc1|by rewrite E1|rewrite length_take; unfold n; lia|].
  eexists _, a1, _. split; [reflexivity|]. split; [exact Has2|].
  split; [eapply kmem_frame_trans; [exact Hf1|same_record s1]|]. by eapply write_view_trans.
Qed.

Lemma copyout_loop (fuel : nat) s a lab um root dstva src :
  as_inv s a lab um → is_root lab root → 0 ≤ dstva → dstva + length src ≤ PGSIZE * vpn_top →
  npages dstva (length src) < fuel →
  ∃ r k s' a' um', loop fuel (copyout_body root) (dstva, src) s = Ret r s' ∧
    as_inv s' a' lab um' ∧ kmem_frame s s' ∧ write_view lab (mem s) (mem s') root dstva (take k src) ∧
    (r = 0 ∧ k = length src ∨
     r = -1 ∧ (k < length src)%nat ∧
     (user_byte (mem s) root (dstva + k) = None ∨ pool_free a' = [])).
Proof.
  intros Has Hr. revert s a um Has dstva src.
  induction fuel as [|fuel IH]; intros s a um Has dstva src Hva Htop Hfuel.
  { pose proof (npages_nonneg dstva (length src)). lia. }
  destruct (decide (src = [])) as [->|Hsrc].
  { exists 0, O, s, a, um. split; [by apply loop_exit|]. split; [exact Has|]. split; [same_record s|].
    split; [by apply write_view_nil|by left]. }
  assert (0 < length src) as Hl by (destruct src; [done|simpl; lia]).
  assert (vpn_top = 2 ^ 26 - 2) as Et by done.
  assert (0 ≤ dstva / PGSIZE < vpn_top) as Hn.
  { split; [by apply Z.div_pos|]. apply Z.div_lt_upper_bound; [done|]. lia. }
  destruct (copyout_step s a lab um root dstva src Has Hr Hn Hsrc) as [[E Hfail]|(s1 & a1 & um1 & E & Has1 & Hf1 & Hw1)].
  { exists (-1), O, s, a, um. split; [by apply loop_exit|]. split; [exact Has|]. split; [same_record s|].
    split; [by apply write_view_nil|right]. split; [done|]. split; [lia|].
    by replace (dstva + 0%nat) with dstva by lia. }
  pose proof (chunk_range dstva (length src) Hl) as Hc. set (n := Z.to_nat (chunk dstva (length src))) in *.
  assert (PGROUNDDOWN dstva < MAXVA) as Hmax.
  { pose proof (vpn_va _ Hn). pose proof (PGROUNDDOWN_mod dstva). pose proof (Z.mod_pos_bound dstva PGSIZE ltac:(done)). lia. }
  destruct (chunk_next dstva (length src) Hva Hl Hmax) as (Hva' & Hnp & Hnext).
  assert (Z.of_nat (length (drop n src)) = length src - chunk dstva (length src)) as Ld by (rewrite length_drop; unfold n; lia).
  assert (length (take n src) = n) as Lt by (rewrite length_take; unfold n; lia).
  assert (npages (u64 (PGROUNDDOWN dstva + PGSIZE)) (length (drop n src)) < fuel) as Hfu by (rewrite Ld; lia).
  rewrite (loop_next _ _ _ _ _ _ E). clear E.
  destruct Hnext as [Hz|En].
  - assert (drop n src = []) as Ed by (apply length_zero_iff_nil; lia). rewrite Ed.
    pose proof (npages_nonneg (u64 (PGROUNDDOWN dstva + PGSIZE)) (length (drop n src)) ltac:(lia)) as Hnn.
    exists 0, n, s1, a1, um1. split; [destruct fuel; [lia|by apply loop_exit]|].
    split; [exact Has1|]. split; [exact Hf1|]. split; [exact Hw1|]. left. split; [done|]. lia.
  - destruct (IH s1 a1 um1 Has1 _ (drop n src) Hva') as (r & k & s2 & a2 & um2 & E & Has2 & Hf2 & Hw2 & Hcase);
      [rewrite En; lia|exact Hfu|].
    exists r, (n + k)%nat, s2, a2, um2. split; [exact E|]. clear E. split; [exact Has2|].
    split; [by eapply kmem_frame_trans|]. rewrite En in *.
    assert (chunk dstva (length src) = n) as Ec by (unfold n; lia). rewrite Ec in *. split.
    + rewrite <-take_take_drop. eapply write_view_app; [exact Hw1|]. by rewrite Lt.
    + destruct Hcase as [[-> ->]|(-> & Hk & Hfail)]; [left; split; [done|lia]|right].
      split; [done|]. split; [lia|]. destruct Hfail as [Hf|Hf]; [left|by right].
      replace (dstva + (n + k)%nat) with (dstva + n + k) by lia.
      rewrite Hw1 in Hf; [|exact Hr|].
      * rewrite decide_False in Hf by (rewrite Lt; lia). exact Hf.
      * split; [apply Z.div_pos; [lia|done]|]. apply Z.div_lt_upper_bound; [done|]. lia.
Qed.

Lemma copyout_spec s a lab um root dstva src :
  as_inv s a lab um → is_root lab root → 0 ≤ dstva → dstva + length src ≤ TRAPFRAME →
  ∃ r k s' a' um', copyout root dstva src s = Ret r s' ∧
    as_inv s' a' lab um' ∧ kmem_frame s s' ∧ write_view lab (mem s) (mem s') root dstva (take k src) ∧
    (r = 0 ∧ k = length src ∨
     r = -1 ∧ (k < length src)%nat ∧
     (user_byte (mem s) root (dstva + k) = None ∨ pool_free a' = [])).
Proof.
  intros Has Hr Hva Htop. apply (copyout_loop _ s a lab um); try assumption.
  pose proof (npages_bound dstva (length src) ltac:(lia)).
  pose proof (Z.div_pos (length src) PGSIZE ltac:(lia) ltac:(done)). lia.
Qed.

(** ** The theorems *)

(** C11: cowfault() gives the faulting page to its address space.  On a mapped
    user page, with memory left, it maps a private page (counted once, mapped
    once) with the contents of the old one and drops one reference to that;
    every byte every user program sees stays the same.  The new entry permits
    reading, writing and executing whatever the old one permitted: cowfault()
    does not look whether the page is shared copy-on-write, so a page mapped
    read-only, such as a program's text, becomes writable too.  No other entry
    changes. *)
Theorem cowfault_correct s a lab um root va q p fl :
  as_inv s a lab um → um !! (root, va / PGSIZE) = Some q → pte_user (pte_of (mem s) root va) = true →
  pool_free a = p :: fl →
  ∃ s' a', cowfault root va s = Ret 0 s' ∧
    pool_step (mkPool fl (<[p := 1]> (pool_refs a))) (OpFree q) = Some (0, a') ∧
    as_inv s' a' lab (<[(root, va / PGSIZE) := p]> um) ∧ kmem_frame s s' ∧
    pt_upd lab (mem s) (mem s') root (one_upd (va / PGSIZE) (Z.lor (PA2PTE p) cow_flags)) ∧
    Z.land (pte_of (mem s') root va) cow_flags = PTE_V + PTE_R + PTE_W + PTE_X + PTE_U ∧
    same_view lab (mem s) (mem s') ∧ is_page p ∧ p ≠ 0 ∧
    pool_refs a' !! p = Some 1 ∧ cnt (<[(root, va / PGSIZE) := p]> um) p = 1%nat.
Proof.
  intros Has Hq Hu Hf. pose proof Hq as (Hr & Hn & _)%(as_map _ _ _ _ Has).
  destruct (cowfault_spec s a lab um root va q p fl Has Hq Hu Hf)
    as (s' & a' & E & Hst & Has' & Hfr & Hpt & Hrest).
  exists s', a'. do 5 (split; [done|]). split; [|done].
  rewrite Hpt by (try done; by apply vpn_va). rewrite decide_True by done. unfold one_upd.
  rewrite decide_True by done. change (Z.land (Z.lor (PA2PTE p) cow_flags) cow_flags = cow_flags).
  apply Z.bits_inj'. intros i _. rewrite Z.land_spec, Z.lor_spec.
  by destruct (Z.testbit (PA2PTE p) i), (Z.testbit cow_flags i).
Qed.

(** C3: copyout() writes user memory and nothing else.  It returns 0 with the
    bytes of [src] at [dstva] of the address space it was given, or -1, at a
    byte that is not user memory or when memory ran out, with a prefix
    written.  Every other byte of this and of every other address space is
    unchanged, even where the pages were shared copy-on-write. *)
Theorem copyout_correct s a lab um root dstva src :
  as_inv s a lab um → is_root lab root → 0 ≤ dstva → dstva + length src ≤ TRAPFRAME →
  ∃ r k s' a' um', copyout root dstva src s = Ret r s' ∧
    as_inv s' a' lab um' ∧ kmem_frame s s' ∧ write_view lab (mem s) (mem s') root dstva (take k src) ∧
    (r = 0 ∧ k = length src ∨
     r = -1 ∧ (k < length src)%nat ∧
     (user_byte (mem s) root (dstva + k) = None ∨ pool_free a' = [])).
Proof. apply copyout_spec. Qed.

(** C34: copyin() reads exactly the user's bytes, for any pointer and length a
    user program passes: it returns 0 with the [len] bytes at [srcva], or -1
    after the bytes before the first one that is not user memory; it changes
    nothing. *)
Theorem copyin_correct s a lab root srcva len :
  vm_inv s a lab → is_root lab root → user_pages_ok (mem s) root → 0 ≤ srcva → 0 ≤ len →
  ∃ r bs, copyin root srcva len s = Ret (r, bs) s ∧ user_has (mem s) root srcva bs ∧
    (r = 0 ∧ Z.of_nat (length bs) = len ∨
     r = -1 ∧ length bs < len ∧ access (mem s) root (srcva + length bs) = None).
Proof. apply copyin_spec. Qed.

(** C35: copyinstr() returns 0 exactly with a NUL-terminated string of at most
    [max] bytes (the NUL included) from user memory, and -1 when there is no
    NUL in the [max] bytes at [srcva] or user memory ends before it. *)
Theorem copyinstr_correct s a lab root srcva max :
  vm_inv s a lab → is_root lab root → user_pages_ok (mem s) root → 0 ≤ srcva → 0 ≤ max →
  ∃ r bs, copyinstr root srcva max s = Ret (r, bs) s ∧ str_result (mem s) root srcva max r bs.
Proof. apply copyinstr_spec. Qed.

End cow.
