(* ===== verification/VmFork.v ===== *)
(** * uvmcopy(): sharing an address space at fork

    The parent's entries lose PTE_W, the child gets the same entries, and each
    shared page one more reference.  When a page-table page cannot be
    allocated the child is unmapped again; the page at which it happened keeps
    the reference that was already taken, and the parent's entries up to it stay
    without PTE_W. *)

From Stdlib Require Import ZArith Lia.
From stdpp Require Import base numbers strings option list gmap.
From S2P Require Import Prelude Params Machine Cstring Kalloc Vm VmPt VmUser VmCow.

Open Scope Z_scope.

Definition cow_clear (v : Z) : Z := Z.land v (Z.lnot PTE_W).

Lemma cow_clear_testbit v n : n ≠ 2 → 0 ≤ n → Z.testbit (cow_clear v) n = Z.testbit v n.
Proof.
  intros Hn Hp. unfold cow_clear. rewrite Z.land_spec, Z.lnot_spec by done.
  change PTE_W with (2 ^ 2). rewrite Z.pow2_bits_false by done. by rewrite andb_true_r.
Qed.

Lemma cow_clear_facts v :
  0 ≤ v < 2 ^ 64 →
  pte_valid (cow_clear v) = pte_valid v ∧ pte_user (cow_clear v) = pte_user v ∧
  pte_read (cow_clear v) = pte_read v ∧ pte_write (cow_clear v) = false ∧
  PTE2PA (cow_clear v) = PTE2PA v ∧ 0 ≤ cow_clear v < 2 ^ 64.
Proof.
  intros Hv. rewrite !pte_valid_odd, !pte_user_testbit, !pte_read_testbit, pte_write_testbit, <-!Z.bit0_odd.
  rewrite !cow_clear_testbit by lia. do 3 (split; [done|]). split; [|split].
  - unfold cow_clear. rewrite Z.land_spec. change (Z.testbit (Z.lnot PTE_W) 2) with false. apply andb_false_r.
  - unfold PTE2PA, cow_clear. rewrite Z.shiftr_land. change (Z.shiftr (Z.lnot PTE_W) 10) with (-1).
    by rewrite Z.land_m1_r.
  - unfold cow_clear. rewrite <-Z.ldiff_land.
    assert (0 ≤ Z.ldiff v PTE_W) as H0 by (apply Z.ldiff_nonneg; lia).
    split; [done|]. assert (Z.ldiff v PTE_W ≤ v); [|lia].
    apply Z.ldiff_le; [lia|]. apply Z.bits_inj'. intros n Hn. rewrite Z.ldiff_spec, Z.ldiff_spec, Z.bits_0.
    by destruct (Z.testbit v n), (Z.testbit PTE_W n).
Qed.

Section fork.
Context `{Linker}.

(** Taking PTE_W from an entry. *)
Lemma protect_page s a lab um root n q x :
  as_inv s a lab um → um !! (root, n) = Some q → leaf_slot (mem s) root (PGSIZE * n) = Some x →
  let v := cow_clear (load64 (mem s) x) in
  as_inv (set_leaf s x v) a lab um ∧ kmem_frame s (set_leaf s x v) ∧
  pt_upd lab (mem s) (mem (set_leaf s x v)) root (one_upd n v) ∧
  same_view lab (mem s) (mem (set_leaf s x v)) ∧
  (∀ q' b, q' ∈ dom (pool_refs a) → lab !! q' = None → q' ≤ b < q' + PGSIZE →
     load8 (mem (set_leaf s x v)) b = load8 (mem s) b).
Proof.
  intros Has Hq Hx v. pose proof Has as [Hvm Hm Hlf Hct].
  pose proof Hq as (Hr & Hn & Hv & Hpa)%Hm. pose proof (Hlf _ _ _ Hq) as Hrd.
  assert (pte_of (mem s) root (PGSIZE * n) = load64 (mem s) x) as Ep by (unfold pte_of; by rewrite Hx).
  destruct (cow_clear_facts (load64 (mem s) x) (load64_range _ _)) as (Cv & Cu & Cr & _ & Cpa & Crg).
  fold v in Cv, Cu, Cr, Cpa, Crg. rewrite Ep in *.
  destruct (set_entry s a lab root n x v Hvm Hr Hn Crg Hx) as (Hvm1 & Hf1 & Hu1 & Hd1).
  assert (um_set um root n v = um) as Eum by (unfold um_set; rewrite Cv, Hv, Cpa, Hpa; by apply insert_id).
  split; [|split; [exact Hf1|split; [exact Hu1|split]]].
  - split; [exact Hvm1| | |exact Hct]; rewrite <-Eum.
    + eapply um_ok_upd; [exact Hm|done|done|exact Hr|exact Hn|exact Hu1].
    + eapply um_leaf_upd; [exact Hlf|exact Hm|exact Hr|exact Hn|exact Hu1|]. intros _. congruence.
  - intros r w Hrw Hw. assert (0 ≤ w < MAXVA) as Hw' by (by apply vpn_va).
    assert (∀ q' b, um !! (r, w / PGSIZE) = Some q' → q' ≤ b < q' + PGSIZE →
      load8 (mem (set_leaf s x v)) b = load8 (mem s) b) as Hb.
    { intros q' b Hq'. destruct (Hct _ _ Hq') as [Hl (c & Hc & _)]. apply (Hd1 q'); [|exact Hl].
      apply elem_of_dom. by eexists. }
    destruct (decide ((r, w / PGSIZE) = (root, n))) as [[= -> En]|Hne].
    + assert (pte_of (mem (set_leaf s x v)) root w = v) as E1.
      { rewrite Hu1 by done. unfold one_upd. by rewrite decide_True, En, decide_True. }
      assert (pte_of (mem s) root w = load64 (mem s) x) as E0 by (by rewrite pte_of_page, En).
      unfold user_byte. rewrite E1, E0, Cv, Cu, Cpa, Hpa. case_match; [|done]. f_equal.
      apply (Hb q); [by rewrite En|]. pose proof (Z.mod_pos_bound w PGSIZE ltac:(done)). lia.
    + eapply user_byte_frame; [exact Hm|exact Hrw|exact Hw|by eapply one_upd_other|exact Hb].
  - exact Hd1.
Qed.

(** increse() of a mapped page. *)
Lemma as_increse s a lab um k q c :
  as_inv s a lab um → um !! k = Some q → pool_refs a !! q = Some c → c < 2 ^ 31 - 1 →
  let a' := mkPool (pool_free a) (<[q := c + 1]> (pool_refs a)) in
  ∃ s', increse q s = Ret () s' ∧ as_inv s' a' lab um ∧ kmem_frame s s' ∧ mem s' = mem s.
Proof.
  intros Has Hk Hc Hlt a'. pose proof Has as [Hvm Hm Hlf Hct]. pose proof Hvm as [Hrel Hl Hwf Hu].
  assert (pool_step a (OpIncr q) = Some (0, a')) as Hst.
  { unfold pool_step. rewrite Hc. simpl. by rewrite (proj2 (Z.ltb_lt c (2 ^ 31 - 1)) Hlt). }
  destruct (incr_refines s a q 0 a' Hrel Hl Hst) as (s' & E & Hrel' & Hfr & Hmem).
  exists s'. split; [exact E|]. clear E. split; [|done]. destruct (Hct _ _ Hk) as [Hlq _].
  eapply as_inv_data; [exact Has| | |].
  - split; [exact Hrel'|by rewrite (kmem_frame_held s s')|by rewrite Hmem|].
    intros pt x Hpt. simpl. rewrite lookup_insert_ne by congruence. by eapply Hu.
  - intros pt x b _ _. by rewrite Hmem.
  - intros k' q' c' _ Hc'. simpl. destruct (decide (q = q')) as [<-|Hne].
    + exists (c + 1). rewrite lookup_insert_eq. split; [done|]. assert (c' = c) by congruence. lia.
    + exists c'. rewrite lookup_insert_ne by done. split; [done|lia].
Qed.

(** The flags uvmcopy() passes to mappages(). *)
Lemma cow_flags_facts v :
  0 ≤ v < 2 ^ 64 → pte_read v = true →
  let f := u32 (PTE_FLAGS (cow_clear v)) in
  0 ≤ f < 2 ^ 10 ∧ pte_read f = true ∧ pte_user f = pte_user v ∧ pte_write f = false.
Proof.
  intros Hv Hr f. destruct (cow_clear_facts v Hv) as (_ & Cu & Cr & Cw & _ & _).
  assert (0 ≤ PTE_FLAGS (cow_clear v) < 2 ^ 10) as Hf by (rewrite PTE_FLAGS_eq; apply Z.mod_pos_bound; lia).
  assert (f = PTE_FLAGS (cow_clear v)) as E by (unfold f; apply u32_small; lia). rewrite E.
  split; [exact Hf|]. revert Cu Cr Cw Hr. rewrite !pte_read_testbit, !pte_user_testbit, !pte_write_testbit.
  intros Cu Cr Cw Hr. unfold PTE_FLAGS. rewrite !Z.land_spec, Cr, Cw, Cu, Hr.
  repeat split; by destruct (Z.testbit v 4).
Qed.

Lemma leaf_pte_bit q f n : is_page q → 0 ≤ f < 2 ^ 10 → 0 < n < 10 → Z.testbit (leaf_pte q f) n = Z.testbit f n.
Proof.
  intros Hq Hf Hn. destruct (leaf_pte_facts q f Hq Hf) as (_ & _ & Lf & _).
  assert (Z.testbit (PTE_FLAGS (leaf_pte q f)) n = Z.testbit (leaf_pte q f) n) as <-.
  { unfold PTE_FLAGS. rewrite Z.land_spec. change 0x3FF with (Z.ones 10).
    rewrite Z.ones_spec_low by lia. apply andb_true_r. }
  rewrite Lf, Z.lor_spec. change PTE_V with (2 ^ 0). rewrite Z.pow2_bits_false by lia. apply orb_false_r.
Qed.

(** The body up to the result of mappages(). *)
Lemma uvmcopy_body_eq s old new sz n x v s2 r s3 :
  PGSIZE * n < sz → 0 ≤ PGSIZE * n < MAXVA → leaf_slot (mem s) old (PGSIZE * n) = Some x → x ≠ 0 →
  load64 (mem s) x = v → pte_valid v = true → 0 ≤ v < 2 ^ 64 →
  increse (PTE2PA v) (set_leaf s x (cow_clear v)) = Ret () s2 →
  mappages new (PGSIZE * n) PGSIZE (PTE2PA v) (u32 (PTE_FLAGS (cow_clear v))) s2 = Ret r s3 →
  uvmcopy_body old new sz (PGSIZE * n) s =
    (if negb (r =? 0) then uvmunmap new 0 n true;; mret (inr (-1)) else mret (inl (PGSIZE * (n + 1)))) s3.
Proof.
  intros Hsz Hva Hx Hx0 Ev Hv Hvr Ei Em.
  destruct (cow_clear_facts v Hvr) as (_ & _ & _ & _ & _ & Crg).
  unfold uvmcopy_body. mif_false. rewrite walk_lookup by lia. rewrite Hx. simpl default.
  unfold load64_k, store64_k. msimpl. rewrite (proj2 (Z.eqb_neq x 0) Hx0). msimpl. rewrite Ev.
  unfold pte_valid in Hv. mif_false by (by destruct (_ =? 0)). fold (cow_clear v).
  replace (load64 (mem (s <| mem ::= λ m, store64 m x (cow_clear v) |>)) x) with (cow_clear v)
    by (simpl; rewrite load64_store64_eq; symmetry; by apply u64_small).
  unfold set_leaf in Ei. rewrite Ei. msimpl. rewrite Em. msimpl.
  destruct (negb (r =? 0)); [by rewrite page_number|].
  pose proof MAXVA_eq. rewrite u64_small by (unfold PGSIZE in *; lia).
  by replace (PGSIZE * n + PGSIZE) with (PGSIZE * (n + 1)) by lia.
Qed.

(** The entry and the page of the child. *)
Lemma child_page lab m0 m1 m3 old new n q v :
  is_page q → 0 ≤ v < 2 ^ 64 → pte_valid v = true → pte_read v = true → PTE2PA v = q →
  is_root lab new → 0 ≤ n < vpn_top → pte_of m0 old (PGSIZE * n) = v →
  (∀ b, q ≤ b < q + PGSIZE → load8 m3 b = load8 m0 b) →
  pt_upd lab m1 m3 new (one_upd n (leaf_pte q (u32 (PTE_FLAGS (cow_clear v))))) →
  (∀ va, va / PGSIZE = n → user_byte m3 new va = user_byte m0 old va) ∧
  pte_write (pte_of m3 new (PGSIZE * n)) = false.
Proof.
  intros Hq Hv Hvv Hvr Hpa Hr Hn Ev Hb Hu. destruct (cow_flags_facts v Hv Hvr) as (Ff & Fr & Fu & Fw).
  set (f := u32 (PTE_FLAGS (cow_clear v))) in *. destruct (leaf_pte_facts q f Hq Ff) as (Lv & Lpa & _ & _).
  assert (pte_of m3 new (PGSIZE * n) = leaf_pte q f) as E3.
  { rewrite Hu by (try done; by apply vpn_range). unfold one_upd.
    by rewrite decide_True, page_number, decide_True. }
  split.
  - intros va En. unfold user_byte. rewrite (pte_of_page m3), (pte_of_page m0), En, E3, Ev, Lv, Hvv, Lpa, Hpa.
    rewrite pte_user_testbit, leaf_pte_bit, <-pte_user_testbit, Fu by (done || lia).
    case_match; [|done]. f_equal. apply Hb. pose proof (Z.mod_pos_bound va PGSIZE ltac:(done)). lia.
  - by rewrite E3, pte_write_testbit, leaf_pte_bit, <-pte_write_testbit by (done || lia).
Qed.

(** What a step leaves in the allocator and the table labels, whatever its
    outcome: one more reference to [q]. *)
Record took_ref (s : kernel) (a : pool) (lab : tables) (q c : Z) (s' : kernel) (a' : pool) (lab' : tables) : Prop := {
  tr_frame : kmem_frame s s';
  tr_lab : lab ⊆ lab';
  tr_roots : ∀ r, is_root lab' r → is_root lab r;
  tr_new : ∀ q' x, lab' !! q' = Some x → lab !! q' = None → pool_refs a !! q' = None;
  tr_refs : ∀ q', lab' !! q' = None →
    pool_refs a' !! q' = if decide (q' = q) then Some (c + 1) else pool_refs a !! q'
}.

Lemma took_ref_intro s a lab q c s2 s' a' lab' :
  kmem_frame s s2 → vm_ext s2 (mkPool (pool_free a) (<[q := c + 1]> (pool_refs a))) lab s' a' lab' →
  took_ref s a lab q c s' a' lab'.
Proof.
  intros Hf Hx. split.
  - eapply kmem_frame_trans; [exact Hf|apply Hx].
  - apply Hx.
  - apply Hx.
  - intros q' y Hy Hl. pose proof (ve_new _ _ _ _ _ _ Hx q' y Hy Hl) as Hnone. simpl in Hnone.
    by apply lookup_insert_None in Hnone as [? _].
  - intros q' Hl. rewrite (ve_refs _ _ _ _ _ _ Hx) by (by left). simpl.
    case_decide as Eq; [subst; apply lookup_insert_eq|by apply lookup_insert_ne].
Qed.

(** [m'] has the entries of [m], the one of page [n] of [old] without PTE_W; the
    entries in [but] are not compared. *)
Definition protect_at (lab : tables) (m m' : gmap Z Z) (old n : Z) (but : Z → Z → Prop) : Prop :=
  ∀ r v, is_root lab r → 0 ≤ v < vpn_top → ¬ but r v → pte_of m' r (PGSIZE * v) =
    if decide (r = old ∧ v = n) then cow_clear (pte_of m r (PGSIZE * v)) else pte_of m r (PGSIZE * v).

(** One page of the parent, shared with the child or not for lack of memory. *)
Lemma uvmcopy_step s a lab um old new n q c sz :
  as_inv s a lab um → um !! (old, n) = Some q → is_root lab new → old ≠ new → um !! (new, n) = None →
  pool_refs a !! q = Some c → c < 2 ^ 31 - 1 → PGSIZE * n < sz →
  ∃ s' a' lab', took_ref s a lab q c s' a' lab' ∧
    (uvmcopy_body old new sz (PGSIZE * n) s = Ret (inl (PGSIZE * (n + 1))) s' ∧
     as_inv s' a' lab' (<[(new, n) := q]> um) ∧ same_except lab (mem s) (mem s') new n 1 ∧
     (∀ va, va / PGSIZE = n → user_byte (mem s') new va = user_byte (mem s) old va) ∧
     (∀ r v, is_root lab r → 0 ≤ v < vpn_top → pte_write (pte_of (mem s') r (PGSIZE * v)) =
        if decide ((r = old ∨ r = new) ∧ v = n) then false else pte_write (pte_of (mem s) r (PGSIZE * v))) ∧
     protect_at lab (mem s) (mem s') old n (λ r v, r = new ∧ v = n) ∨
     uvmcopy_body old new sz (PGSIZE * n) s = (uvmunmap new 0 n true;; mret (inr (-1))) s' ∧
     as_inv s' a' lab' um ∧ same_view lab (mem s) (mem s') ∧
     protect_at lab (mem s) (mem s') old n (λ _ _, False)).
Proof.
  intros Has Hq Hnew Hne Hnn Hc Hlt Hsz.
  destruct (as_lookup _ _ _ _ _ _ _ Has Hq) as (x & Hr & Hx & Hx0 & Hp & Hv & Hpa & Hrd & Hva).
  assert (0 ≤ n < vpn_top) as Hn by (apply (as_map _ _ _ _ Has) in Hq; tauto).
  pose proof (load64_range (mem s) x) as Hvr.
  destruct (protect_page s a lab um old n q x Has Hq Hx) as (Has1 & Hf1 & Hu1 & Hv1 & Hd1).
  set (v := load64 (mem s) x) in *.
  destruct (as_increse _ a lab um (old, n) q c Has1 Hq Hc Hlt) as (s2 & Ei & Has2 & Hf2 & Em2).
  destruct (cow_clear_facts v Hvr) as (Cv & Cu & Cr & Cw & Cpa & Crg).
  destruct (cow_flags_facts v Hvr Hrd) as (Ff & Fr & _ & _).
  destruct (as_cnt _ _ _ _ Has _ _ Hq) as [Hlq (c0 & Hc0 & Hcnt)]. assert (c0 = c) as -> by congruence.
  assert (is_page q) as Hqp by (by eapply (pr_used _ _ (vi_pool _ _ _ (as_vm _ _ _ _ Has)))).
  destruct (map_page s2 _ lab um new n q _ (c + 1) Has2 Hnew Hn Hnn (lookup_insert_eq _ _ _) ltac:(lia) Hlq Ff Fr)
    as (r & s3 & a3 & lab3 & Em & Hx3 & Hcase).
  rewrite (uvmcopy_body_eq s old new sz n x v s2 r s3 Hsz Hva Hx Hx0 eq_refl Hv Hvr ltac:(by rewrite Hpa) ltac:(by rewrite Hpa)).
  rewrite <-Em2 in Hu1, Hv1. clear Em Ei. exists s3, a3, lab3.
  split; [eapply took_ref_intro; [by eapply kmem_frame_trans|exact Hx3]|].
  assert (protect_at lab (mem s) (mem s2) old n (λ _ _, False)) as Hpr.
  { intros r' w Hrw Hw _. rewrite Hu1 by (try done; by apply vpn_range). unfold one_upd. rewrite page_number.
    destruct (decide (r' = old)) as [->|Hro]; [|by rewrite decide_False by tauto].
    destruct (decide (w = n)) as [->|Hwn]; [|by rewrite decide_False by tauto].
    rewrite !decide_True by done. cbn [default]. by rewrite Hp. }
  destruct Hcase as [(-> & Has3 & Hu3 & Hse3)|(-> & Has3 & Hs3 & Hse3 & _)]; [left|right].
  - destruct (child_page lab (mem s) (mem s2) (mem s3) old new n q v Hqp Hvr Hv Hrd Hpa Hnew Hn Hp) as [Hchild Hcw];
      [|exact Hu3|].
    { intros b Hb. rewrite (ve_data _ _ _ _ _ _ Hx3 q b); [|apply elem_of_dom; simpl; rewrite lookup_insert_eq; by eexists|done|done].
      rewrite Em2. apply (Hd1 q); [apply elem_of_dom; by eexists|done|done]. }
    split; [done|]. split; [exact Has3|]. split.
    { intros r w Hrw Hw Hnot. rewrite Hse3 by done. by apply Hv1. }
    assert (protect_at lab (mem s) (mem s3) old n (λ r v, r = new ∧ v = n)) as Hpr3.
    { intros r w Hrw Hw Hd. rewrite <- Hpr by (done || tauto).
      eapply one_upd_other; [exact Hu3|exact Hrw|by apply vpn_range|]. rewrite page_number. intros [=]. tauto. }
    split; [exact Hchild|]. split; [|exact Hpr3]. intros r w Hrw Hw.
    destruct (decide (r = new ∧ w = n)) as [[-> ->]|Hd].
    { rewrite decide_True by tauto. exact Hcw. }
    rewrite Hpr3 by done. destruct (decide (r = old ∧ w = n)) as [[-> ->]|Ho].
    + rewrite decide_True by tauto. by rewrite Hp.
    + by rewrite decide_False by tauto.
  - split; [done|]. split; [exact Has3|]. split.
    + intros r w Hrw Hw. rewrite Hse3 by (done || lia). by apply Hv1.
    + intros r w Hrw Hw Hd. rewrite Hs3 by (try done; by apply vpn_range). by apply Hpr.
Qed.

(** How often the first [k] pages of [root] name [q]. *)
Definition occ (um : umap) (root k q : Z) : nat :=
  length (filter (λ v, um !! (root, v) = Some q) (seqZ 0 k)).

Lemma occ_succ um root k q p :
  0 ≤ k → um !! (root, k) = Some p →
  occ um root (k + 1) q = (occ um root k q + if decide (q = p) then 1 else 0)%nat.
Proof.
  intros Hk Hp. unfold occ. rewrite seqZ_app with (n1 := k) (n2 := 1) by lia.
  rewrite filter_app, length_app. f_equal. rewrite Z.add_0_l. change (seqZ k 1) with [k].
  rewrite filter_cons, filter_nil, Hp. case_decide as E1; case_decide as E2; simpl; congruence.
Qed.

(** [s'] is [s] after the first [k] pages of [old] are shared with [new]. *)
Record shared (s : kernel) (a : pool) (lab : tables) (um : umap) (old new k : Z)
    (s' : kernel) (a' : pool) (lab' : tables) (um' : umap) : Prop := {
  sh_inv : as_inv s' a' lab' um';
  sh_frame : kmem_frame s s';
  sh_lab : lab ⊆ lab';
  sh_roots : ∀ r, is_root lab' r → is_root lab r;
  sh_new : ∀ q x, lab' !! q = Some x → lab !! q = None → pool_refs a !! q = None;
  sh_um : ∀ r v, um' !! (r, v) =
    if decide (r = new ∧ 0 ≤ v < k) then um !! (old, v) else um !! (r, v);
  sh_refs : ∀ q, lab' !! q = None →
    pool_refs a' !! q = (λ c, c + occ um old k q) <$> pool_refs a !! q;
  sh_same : same_except lab (mem s) (mem s') new 0 k;
  sh_child : ∀ va, 0 ≤ va / PGSIZE < k → user_byte (mem s') new va = user_byte (mem s) old va;
  sh_prot : ∀ v, 0 ≤ v < k → pte_write (pte_of (mem s') old (PGSIZE * v)) = false ∧
    pte_write (pte_of (mem s') new (PGSIZE * v)) = false;
  sh_pte : ∀ r v, is_root lab r → 0 ≤ v < vpn_top → ¬ (r = new ∧ v < k) → pte_of (mem s') r (PGSIZE * v) =
    if decide (r = old ∧ v < k) then cow_clear (pte_of (mem s) r (PGSIZE * v))
    else pte_of (mem s) r (PGSIZE * v)
}.

Lemma shared_refl s a lab um old new : as_inv s a lab um → shared s a lab um old new 0 s a lab um.
Proof.
  intros Has. split; try done.
  - same_record s.
  - congruence.
  - intros r v. by rewrite decide_False by lia.
  - intros q _. unfold occ. simpl. destruct (pool_refs a !! q); simpl; [f_equal; lia|done].
  - lia.
  - lia.
  - intros r v _ Hv _. by rewrite decide_False by lia.
Qed.

Lemma gr_um_old s a lab um old new k s1 a1 lab1 um1 :
  shared s a lab um old new k s1 a1 lab1 um1 → ∀ v, old ≠ new → um1 !! (old, v) = um !! (old, v).
Proof. intros G v Hne. by rewrite (sh_um _ _ _ _ _ _ _ _ _ _ _ G), decide_False by tauto. Qed.

Section step.
Context (s : kernel) (a : pool) (lab : tables) (um : umap) (old new k q : Z).
Context (s1 : kernel) (a1 : pool) (lab1 : tables) (um1 : umap).
Hypothesis G : shared s a lab um old new k s1 a1 lab1 um1.
Hypothesis Has : as_inv s a lab um.
Hypothesis Hk : 0 ≤ k < vpn_top.
Hypothesis Hold : is_root lab old.
Hypothesis Hnew : is_root lab new.
Hypothesis Hne : old ≠ new.
Hypothesis Hq : um !! (old, k) = Some q.

Lemma shared_count : ∃ c, pool_refs a !! q = Some c ∧ pool_refs a1 !! q = Some (c + occ um old k q).
Proof.
  destruct (as_cnt _ _ _ _ Has _ _ Hq) as [Hl (c & Hc & _)]. exists c. split; [done|].
  rewrite (sh_refs _ _ _ _ _ _ _ _ _ _ _ G), Hc; [done|].
  destruct (lab1 !! q) as [x|] eqn:E; [|done]. rewrite (sh_new _ _ _ _ _ _ _ _ _ _ _ G q x) in Hc by done. done.
Qed.

Lemma shared_snoc c s3 a3 lab3 :
  pool_refs a1 !! q = Some c → took_ref s1 a1 lab1 q c s3 a3 lab3 →
  as_inv s3 a3 lab3 (<[(new, k) := q]> um1) → same_except lab1 (mem s1) (mem s3) new k 1 →
  (∀ va, va / PGSIZE = k → user_byte (mem s3) new va = user_byte (mem s1) old va) →
  (∀ r v, is_root lab1 r → 0 ≤ v < vpn_top → pte_write (pte_of (mem s3) r (PGSIZE * v)) =
     if decide ((r = old ∨ r = new) ∧ v = k) then false else pte_write (pte_of (mem s1) r (PGSIZE * v))) →
  protect_at lab1 (mem s1) (mem s3) old k (λ r v, r = new ∧ v = k) →
  shared s a lab um old new (k + 1) s3 a3 lab3 (<[(new, k) := q]> um1).
Proof.
  intros Hc [Tf TL TR Tn Tr] Has3 Hse Hch Hw Hpt. destruct G as [_ Gf GL GR Gn Gum Gr Gs Gc Gp Gt].
  assert (is_root lab1 old ∧ is_root lab1 new) as [Hold1 Hnew1] by (split; by eapply is_root_weaken).
  split; [exact Has3|..].
  - by eapply kmem_frame_trans.
  - by transitivity lab1.
  - intros r Hr. by apply GR, TR.
  - intros q' x Hx Hl. destruct (lab1 !! q') as [y|] eqn:E; [by eapply Gn|].
    pose proof (Tn q' x Hx E) as Hn. rewrite Gr in Hn by done. by destruct (pool_refs a !! q').
  - intros r v. destruct (decide ((new, k) = (r, v))) as [[= <- <-]|Hd].
    + by rewrite lookup_insert_eq, decide_True by lia.
    + rewrite lookup_insert_ne, Gum by done. destruct (decide (r = new ∧ 0 ≤ v < k)) as [[-> ?]|Hd'].
      * by rewrite decide_True by lia.
      * rewrite decide_False; [done|]. intros [-> Hv]. apply Hd. f_equal. lia.
  - intros q' Hl. rewrite Tr by done. assert (lab1 !! q' = None) as Hl1 by (by eapply lookup_weaken_None).
    rewrite (occ_succ um old k q' q) by (done || lia). case_decide as Eq.
    + subst q'. rewrite Gr in Hc by done. destruct (pool_refs a !! q) as [c0|]; [|done].
      simpl in *. injection Hc as <-. f_equal. lia.
    + rewrite Gr by done. destruct (pool_refs a !! q'); simpl; [f_equal; lia|done].
  - eapply (same_except_trans lab lab1); [exact GL| |]; (eapply same_except_weaken; [eassumption|lia]).
  - intros va Hva. destruct (decide (va / PGSIZE = k)) as [E|Hd].
    + rewrite Hch by done. apply Gs; [exact Hold|lia|tauto].
    + rewrite Hse; [apply Gc; lia|exact Hnew1|lia|lia].
  - intros v Hv. rewrite !Hw by (done || lia). destruct (decide (v = k)) as [->|Hd].
    + by rewrite !decide_True by tauto.
    + rewrite !decide_False by tauto. apply Gp. lia.
  - intros r v Hr Hv Hd. assert (is_root lab1 r) as Hr1 by (by eapply is_root_weaken).
    rewrite Hpt by (done || lia).
    rewrite Gt by (done || lia). destruct (decide (r = old)) as [->|Hro].
    + destruct (decide (v = k)) as [->|Hvk].
      * by rewrite decide_True, decide_False, decide_True by lia.
      * rewrite decide_False by tauto. by rewrite (decide_ext (old = old ∧ v < k) (old = old ∧ v < k + 1)) by lia.
    + by rewrite !decide_False by tauto.
Qed.
End step.

(** ** Undoing a partial copy *)

Lemma filter_omap {A} (f : A → option Z) l q :
  length (filter (λ y, y = q) (omap f l)) = length (filter (λ x, f x = Some q) l).
Proof.
  induction l as [|x l IH]; [done|]. simpl. rewrite filter_cons. destruct (f x) as [y|] eqn:E.
  - rewrite filter_cons. case_decide as E1; case_decide as E2; simpl; try congruence; [f_equal|]; exact IH.
  - rewrite decide_False by congruence. exact IH.
Qed.

Lemma lookup_omap_all {A} (f : A → option Z) l i :
  Forall (λ x, is_Some (f x)) l → omap f l !! i = l !! i ≫= f.
Proof.
  intros HF. revert i. induction HF as [|x l [y Hy] HF IH]; intros i; [done|].
  simpl. rewrite Hy. destruct i as [|i]; simpl; [done|]. apply IH.
Qed.

Lemma length_omap_all {A} (f : A → option Z) l :
  Forall (λ x, is_Some (f x)) l → length (omap f l) = length l.
Proof. induction 1 as [|x l [y Hy] HF IH]; [done|]. simpl. rewrite Hy. simpl. f_equal. exact IH. Qed.

(** Each free takes one reference. *)
Lemma pool_run_free_count a qs rs a' q :
  pool_run a (OpFree <$> qs) = Some (rs, a') →
  match pool_refs a !! q with
  | Some c => length (filter (λ y, y = q) qs) < c →
      pool_refs a' !! q = Some (c - length (filter (λ y, y = q) qs))
  | None => pool_refs a' !! q = None
  end.
Proof.
  revert a rs. induction qs as [|p qs IH]; intros a rs Hrun.
  { injection Hrun as <- <-. destruct (pool_refs a !! q); [|done]. intros _. simpl. f_equal. lia. }
  cbn [fmap list_fmap pool_run] in Hrun. destruct (pool_step a (OpFree p)) as [[r a1]|] eqn:Hst; [|done].
  simpl in Hrun. destruct (pool_run a1 (OpFree <$> qs)) as [[rs1 a2]|] eqn:E1; [|done]. injection Hrun as <- <-.
  specialize (IH a1 rs1 E1). rewrite filter_cons.
  destruct (decide (p = q)) as [->|Hne].
  - unfold pool_step in Hst. destruct (pool_refs a !! q) as [c|] eqn:Ec; [|done]. simpl in Hst. intros Hlt.
    simpl in Hlt. destruct (Z.eqb_spec c 1); injection Hst as <- <-; simpl in IH; [lia|].
    rewrite lookup_insert_eq in IH. rewrite IH by lia. f_equal. simpl. lia.
  - destruct (pool_free_refs a p r a1 Hst) as [Hoth _]. rewrite Hoth in IH by done. exact IH.
Qed.

(** The pages of the parent, in order. *)
Definition first_pages (um : umap) (root k : Z) : list Z := omap (λ v, um !! (root, v)) (seqZ 0 k).

Lemma first_pages_facts um root k :
  0 ≤ k → (∀ v, 0 ≤ v < k → is_Some (um !! (root, v))) →
  Z.of_nat (length (first_pages um root k)) = k ∧
  (∀ (i : nat) q, first_pages um root k !! i = Some q → um !! (root, Z.of_nat i) = Some q ∧ i < k) ∧
  ∀ q, length (filter (λ y, y = q) (first_pages um root k)) = occ um root k q.
Proof.
  intros Hk Hall. assert (Forall (λ v, is_Some (um !! (root, v))) (seqZ 0 k)) as HF.
  { apply Forall_forall. intros v Hv%elem_of_seqZ. apply Hall. lia. }
  unfold first_pages. split; [rewrite length_omap_all, length_seqZ by done; lia|]. split.
  - intros i q. rewrite lookup_omap_all by done. destruct (seqZ 0 k !! i) as [v|] eqn:E; [|done]. simpl.
    apply lookup_seqZ in E as [-> Hi]. rewrite Z.add_0_l. intros Hq. split; [done|lia].
  - intros q. apply filter_omap.
Qed.

(** The entries after a copy that failed at page [k]: the parent's up to and
    including [k] have lost PTE_W, the child's below [k] are zero, all others
    are as before. *)
Definition left_protected (lab : tables) (m m' : gmap Z Z) (old new k : Z) : Prop :=
  ∀ r v, is_root lab r → 0 ≤ v < vpn_top → pte_of m' r (PGSIZE * v) =
    if decide (r = old ∧ v ≤ k) then cow_clear (pte_of m r (PGSIZE * v))
    else if decide (r = new ∧ v < k) then 0 else pte_of m r (PGSIZE * v).

Lemma unshare_entries lab lab1 lab3 m m1 m3 m4 old new k :
  lab ⊆ lab1 → lab1 ⊆ lab3 → old ≠ new → 0 ≤ k →
  (∀ r v, is_root lab r → 0 ≤ v < vpn_top → ¬ (r = new ∧ v < k) → pte_of m1 r (PGSIZE * v) =
    if decide (r = old ∧ v < k) then cow_clear (pte_of m r (PGSIZE * v)) else pte_of m r (PGSIZE * v)) →
  protect_at lab1 m1 m3 old k (λ _ _, False) → pt_upd lab3 m3 m4 new (range_upd 0 k 0) →
  left_protected lab m m4 old new k.
Proof.
  intros HL1 HL3 Hne Hk Gt Hpt Hu r v Hr Hv.
  assert (is_root lab1 r) as Hr1 by (by eapply is_root_weaken).
  assert (is_root lab3 r) as Hr3 by (by eapply is_root_weaken).
  rewrite Hu by (try done; by apply vpn_range). unfold range_upd. rewrite page_number.
  destruct (decide (r = new)) as [->|Hrn].
  - rewrite (decide_False (P := new = old ∧ _)) by naive_solver.
    destruct (decide (v < k)) as [Hvk|Hvk].
    + by rewrite (decide_True (P := 0 ≤ v < 0 + k)), decide_True by lia.
    + rewrite (decide_False (P := 0 ≤ v < 0 + k)), (decide_False (P := new = new ∧ _)) by lia. simpl.
      rewrite Hpt, decide_False, Gt, decide_False by (done || naive_solver). done.
  - rewrite (decide_False (P := r = new ∧ _)) by naive_solver. rewrite Hpt, Gt by (done || tauto).
    destruct (decide (r = old)) as [->|Hro]; [|by rewrite !decide_False by tauto].
    destruct (decide (v = k)) as [->|Hvk].
    + by rewrite decide_True, decide_False, decide_True by lia.
    + rewrite decide_False by tauto. by rewrite (decide_ext (old = old ∧ v < k) (old = old ∧ v ≤ k)) by lia.
Qed.

(** uvmunmap() of the [k] shared pages. *)
Lemma unshare s a lab um old new k s1 a1 lab1 um1 q c s3 a3 lab3 :
  shared s a lab um old new k s1 a1 lab1 um1 → as_inv s a lab um → 0 ≤ k < vpn_top →
  is_root lab new → (∀ v, 0 ≤ v < k → is_Some (um !! (old, v)) ∧ um !! (new, v) = None) →
  took_ref s1 a1 lab1 q (c + occ um old k q) s3 a3 lab3 → pool_refs a !! q = Some c →
  as_inv s3 a3 lab3 um1 → same_view lab1 (mem s1) (mem s3) →
  protect_at lab1 (mem s1) (mem s3) old k (λ _ _, False) → old ≠ new →
  ∃ s4 a4, uvmunmap new 0 k true s3 = Ret () s4 ∧ as_inv s4 a4 lab3 um ∧ kmem_frame s s4 ∧
    same_view lab (mem s) (mem s4) ∧ left_protected lab (mem s) (mem s4) old new k ∧
    ∀ q', lab3 !! q' = None →
      pool_refs a4 !! q' = if decide (q' = q) then Some (c + 1) else pool_refs a !! q'.
Proof.
  intros [_ Gf GL GR Gn Gum Gr Gs Gc Gp Gt] Has Hk Hnew Hall [Tf TL TR Tn Tr] Hc Has3 Hv3 Hpt Hne.
  destruct (first_pages_facts um old k ltac:(lia) (λ v Hv, proj1 (Hall v Hv))) as (Hlen & Hqs & Hocc).
  destruct (uvmunmap_spec s3 a3 lab3 um1 new 0 (first_pages um old k) Has3) as (s4 & a4 & rs & E & Hrun & Has4 & Hf4 & Hu4 & Hse4).
  { done. } { rewrite Hlen. pose proof MAXVA_eq. assert (vpn_top = 2 ^ 26 - 2) by done. unfold PGSIZE. lia. }
  { intros i q' Hi. destruct (Hqs i q' Hi) as [Hq' Hik]. rewrite Z.add_0_l, Gum, decide_True by lia. exact Hq'. }
  rewrite Hlen in *. change (PGSIZE * 0) with 0 in E. exists s4, a4. split; [exact E|]. clear E.
  assert (um_unmap um1 new 0 k = um) as Eum.
  { apply map_eq. intros [r v]. unfold um_unmap. rewrite map_lookup_filter, Gum.
    destruct (decide (r = new ∧ 0 ≤ v < k)) as [[-> Hv]|Hd].
    - destruct (Hall v Hv) as [[p ->] ->]. simpl. by rewrite option_guard_False by tauto.
    - destruct (um !! (r, v)); [|done]. simpl. by rewrite option_guard_True. }
  rewrite Eum in Has4. split; [exact Has4|].
  split; [eapply kmem_frame_trans; [exact Gf|]; by eapply kmem_frame_trans|]. split.
  - intros r va Hr Hva. assert (is_root lab1 r) as Hr1 by (by eapply is_root_weaken).
    assert (is_root lab3 r) as Hr3 by (by eapply is_root_weaken).
    destruct (decide (r = new ∧ 0 ≤ va / PGSIZE < 0 + k)) as [[-> Hin]|Hd].
    + unfold user_byte. rewrite Hu4, decide_True by (try done; by apply vpn_va).
      unfold range_upd. rewrite decide_True by done. simpl.
      rewrite pte_of_page, (as_unmapped s a lab um) by (try done; apply Hall; lia). done.
    + rewrite Hse4, Hv3 by done. by apply Gs.
  - split; [apply (unshare_entries lab lab1 lab3 _ (mem s1) (mem s3)); (done || lia)|]. intros q' Hl. pose proof (pool_run_free_count _ _ _ _ q' Hrun) as Hfree. rewrite Hocc, Tr in Hfree by done.
    assert (∀ c', pool_refs a !! q' = Some c' → 0 < c') as Hpos
      by (intros c' Hc'; by eapply (pr_used _ _ (vi_pool _ _ _ (as_vm _ _ _ _ Has)))).
    case_decide as Eq.
    + subst q'. rewrite Hfree by (specialize (Hpos c Hc); lia). f_equal. lia.
    + rewrite Gr in Hfree by (by eapply lookup_weaken_None).
      destruct (pool_refs a !! q') as [c'|]; simpl in Hfree; [|exact Hfree].
      rewrite Hfree by (specialize (Hpos c' eq_refl); lia). f_equal. lia.
Qed.

(** ** The loop *)

Lemma occ_le um root k q : 0 ≤ k → occ um root k q ≤ k.
Proof.
  intros Hk. unfold occ. assert (length (seqZ 0 k) = Z.to_nat k) as El by (rewrite length_seqZ; lia).
  pose proof (length_filter (λ v, um !! (root, v) = Some q) (seqZ 0 k)). lia.
Qed.

(** The failure at page [v]: no byte a program sees has changed and the map is the
    one before.  Of the table entries the parent's up to [v] stay without PTE_W;
    the table pages allocated for the child stay allocated ([lab'] has them); the
    parent's page at [v] has a reference too many. *)
Definition copy_failed (s : kernel) (a : pool) (lab : tables) (um : umap) (old new n : Z)
    (s' : kernel) (a' : pool) (lab' : tables) : Prop :=
  as_inv s' a' lab' um ∧ kmem_frame s s' ∧ same_view lab (mem s) (mem s') ∧ lab ⊆ lab' ∧
  ∃ v q c, 0 ≤ v < n ∧ um !! (old, v) = Some q ∧ pool_refs a !! q = Some c ∧
    left_protected lab (mem s) (mem s') old new v ∧
    ∀ q', lab' !! q' = None → pool_refs a' !! q' = if decide (q' = q) then Some (c + 1) else pool_refs a !! q'.

Lemma uvmcopy_loop (j : nat) s a lab um old new n k sz s1 a1 lab1 um1 :
  as_inv s a lab um → is_root lab old → is_root lab new → old ≠ new →
  (∀ v, 0 ≤ v < n → is_Some (um !! (old, v)) ∧ um !! (new, v) = None) →
  (∀ q c, pool_refs a !! q = Some c → c + n < 2 ^ 31) →
  n ≤ vpn_top → 0 ≤ k → n = k + j → PGSIZE * n < sz + PGSIZE → sz ≤ PGSIZE * n →
  shared s a lab um old new k s1 a1 lab1 um1 →
  ∃ r s' a' lab' um', loop (S j) (uvmcopy_body old new sz) (PGSIZE * k) s1 = Ret r s' ∧
    (r = 0 ∧ shared s a lab um old new n s' a' lab' um' ∨
     r = -1 ∧ copy_failed s a lab um old new n s' a' lab').
Proof.
  intros Has Hold Hnew Hne Hall Hcnt Htop. revert k s1 a1 lab1 um1.
  induction j as [|j IH]; intros k s1 a1 lab1 um1 Hk En Hlo Hhi G.
  { exists 0, s1, a1, lab1, um1. split; [apply loop_exit; unfold uvmcopy_body; mif_true by (apply negb_true_iff, Z.ltb_ge; unfold PGSIZE in *; lia); done|].
    left. split; [done|]. by replace n with k by lia. }
  destruct (Hall k ltac:(lia)) as [[q Hq] Hkn].
  destruct (shared_count s a lab um old new k q s1 a1 lab1 um1 G Has Hq) as (c & Hc & Hc1).
  pose proof (gr_um_old _ _ _ _ _ _ _ _ _ _ _ G k Hne) as Hq1. rewrite Hq in Hq1.
  assert (um1 !! (new, k) = None) as Hk1 by (by rewrite (sh_um _ _ _ _ _ _ _ _ _ _ _ G), decide_False by lia).
  pose proof (occ_le um old k q Hk) as Hocc. pose proof (Hcnt q c Hc) as Hlt.
  assert (is_root lab1 new) as Hnew1 by (eapply is_root_weaken; [apply G|done]).
  destruct (uvmcopy_step s1 a1 lab1 um1 old new k q _ sz (sh_inv _ _ _ _ _ _ _ _ _ _ _ G) Hq1 Hnew1 Hne Hk1 Hc1)
    as (s3 & a3 & lab3 & Ht & [(E & Has3 & Hse & Hch & Hw & Hpt)|(E & Has3 & Hv3 & Hpt)]); [lia|unfold PGSIZE in *; lia|..].
  - assert (shared s a lab um old new (k + 1) s3 a3 lab3 (<[(new, k) := q]> um1)) as G3
      by (eapply shared_snoc; try eassumption; lia).
    destruct (IH (k + 1) s3 a3 lab3 _ ltac:(lia) ltac:(lia) Hlo Hhi G3) as (r & s4 & a4 & lab4 & um4 & E4 & Hcase).
    exists r, s4, a4, lab4, um4. by rewrite (loop_next _ _ _ _ _ _ E).
  - destruct (unshare s a lab um old new k s1 a1 lab1 um1 q c s3 a3 lab3 G Has ltac:(lia) Hnew) as (s4 & a4 & E4 & Has4 & Hf4 & Hv4 & Hl4 & Hr4);
      try assumption; [intros v Hv; apply Hall; lia|].
    exists (-1), s4, a4, lab3, um. split; [apply loop_exit; rewrite E; msimpl; by rewrite E4|]. clear E E4.
    right. split; [done|]. split; [exact Has4|]. split; [exact Hf4|]. split; [exact Hv4|].
    split; [transitivity lab1; [apply G|apply Ht]|]. exists k, q, c. split; [lia|]. done.
Qed.

(** fork()'s copy of an address space of size [sz]. *)
Lemma uvmcopy_spec s a lab um old new sz :
  let n := PGROUNDUP sz / PGSIZE in
  as_inv s a lab um → is_root lab old → is_root lab new → old ≠ new → 0 ≤ sz ≤ TRAPFRAME →
  (∀ v, 0 ≤ v < n → is_Some (um !! (old, v)) ∧ um !! (new, v) = None) →
  (∀ q c, pool_refs a !! q = Some c → c + n < 2 ^ 31) →
  ∃ r s' a' lab' um', uvmcopy old new sz s = Ret r s' ∧
    (r = 0 ∧ shared s a lab um old new n s' a' lab' um' ∨
     r = -1 ∧ copy_failed s a lab um old new n s' a' lab').
Proof.
  intros n Has Hold Hnew Hne Hsz Hall Hcnt. assert (TRAPFRAME = PGSIZE * (2 ^ 26 - 2)) as ET by done.
  assert (vpn_top = 2 ^ 26 - 2) as Et by done. rewrite ET in Hsz.
  destruct (PGROUNDUP_spec sz) as [Hup Hmod]; [unfold PGSIZE in *; lia|].
  assert (PGROUNDUP sz = PGSIZE * n) as En by (unfold n; by apply Z_div_exact_full_2). rewrite En in Hup.
  assert (0 ≤ n ≤ vpn_top) as Hn by (rewrite Et; unfold PGSIZE in *; lia).
  unfold uvmcopy. replace (Z.to_nat ((sz + PGSIZE - 1) / PGSIZE)) with (Z.to_nat n).
  - eapply (uvmcopy_loop (Z.to_nat n) s a lab um old new n 0 sz s a lab um); try assumption; try lia.
    by apply shared_refl.
  - f_equal. apply (Z.div_unique _ _ _ (sz + PGSIZE - 1 - PGSIZE * n)); unfold PGSIZE in *; lia.
Qed.

(** C10: fork()'s uvmcopy() shares the parent's memory.  On success the child
    sees the bytes the parent sees, the parent's entries are the old ones
    without PTE_W, no entry of the child permits writing, each shared page has
    one more reference per entry, and nothing else visible changes.  On failure,
    at the page for which no page-table page could be had, the child's entries
    are cleared and no byte that the parent or another process sees has changed;
    but the parent's entries up to and including that page stay without PTE_W,
    that page keeps one reference too many, and the table pages allocated for
    the child stay. *)
Theorem uvmcopy_correct s a lab um old new sz :
  let n := PGROUNDUP sz / PGSIZE in
  as_inv s a lab um → is_root lab old → is_root lab new → old ≠ new → 0 ≤ sz ≤ TRAPFRAME →
  (∀ v, 0 ≤ v < n → is_Some (um !! (old, v)) ∧ um !! (new, v) = None) →
  (∀ q c, pool_refs a !! q = Some c → c + n < 2 ^ 31) →
  ∃ r s' a' lab' um', uvmcopy old new sz s = Ret r s' ∧
    (r = 0 ∧ shared s a lab um old new n s' a' lab' um' ∨
     r = -1 ∧ copy_failed s a lab um old new n s' a' lab').
Proof. apply uvmcopy_spec. Qed.

End fork.
