(* ===== verification/VmExample.v ===== *)
(** * A concrete machine for the witnesses of the virtual-memory theorems

    A kernel that leaves eight allocatable pages [W 0] to [W 7].  The page
    table at [W 0] (with [W 1] and [W 2]) maps the page [W 3] at address 0,
    with every permission; [W 4] is an empty page table; [W 5], [W 6] and
    [W 7] are free. *)

From Stdlib Require Import ZArith Lia.
From stdpp Require Import base numbers strings option list gmap.
From S2P Require Import Prelude Params Machine Cstring Kalloc Vm VmPt VmUser VmCow VmFork.

Open Scope Z_scope.

Definition W (i : Z) : Z := PHYSTOP - 8 * PGSIZE + i * PGSIZE.

Definition ex_linker : Linker.
Proof.
  refine {| kend := W 0; etext := KERNBASE + 2 * PGSIZE;
            trampoline := KERNBASE + PGSIZE; uservec_off := 0; userret_off := 0x9c;
            forkret_addr := KERNBASE + 0x100; usertrap_addr := KERNBASE + 0x200;
            kernelvec_addr := KERNBASE + 0x300 |};
    vm_compute; try done; split; discriminate.
Defined.
#[export] Existing Instance ex_linker.

(** The words stored in memory. *)
Definition ex_words : list (Z * Z) :=
  [(W 0, Z.lor (PA2PTE (W 1)) PTE_V); (W 1, Z.lor (PA2PTE (W 2)) PTE_V);
   (W 2, Z.lor (PA2PTE (W 3)) cow_flags); (W 3, 0x6f6c6c6568);
   (W 5, W 6); (W 6, W 7); (W 7, 0)].

Definition ex_mem : gmap Z Z := foldl (λ m w, store64 m w.1 w.2) ∅ ex_words.

Definition ex_kernel : kernel :=
  kernel0 <| mem := ex_mem |> <| freelist := W 5 |>
    <| refcnt := {[W 0 / PGSIZE := 1; W 1 / PGSIZE := 1; W 2 / PGSIZE := 1; W 3 / PGSIZE := 1;
                   W 4 / PGSIZE := 1]} |>.

Definition ex_pool : pool :=
  mkPool [W 5; W 6; W 7] {[W 0 := 1; W 1 := 1; W 2 := 1; W 3 := 1; W 4 := 1]}.

Definition ex_lab : tables :=
  {[W 0 := (W 0, []); W 1 := (W 0, [0]); W 2 := (W 0, [0; 0]); W 4 := (W 4, [])]}.

Definition ex_um : umap := {[(W 0, 0) := W 3]}.

Lemma ex_pages p : is_page p ↔ ∃ i, p = W i ∧ 0 ≤ i < 8.
Proof.
  unfold is_page. change kend with (W 0). unfold W, PHYSTOP, KERNBASE, PGSIZE. split.
  - intros [Hm Hr]. pose proof (Z.div_mod p 4096 ltac:(lia)).
    exists (p / 4096 - 557048). lia.
  - intros (i & -> & Hi). split; [|lia].
    replace (0x80000000 + 128 * 1024 * 1024 - 8 * 4096 + i * 4096) with ((557048 + i) * 4096) by lia.
    apply Z.mod_mul. lia.
Qed.

(** Eight cases, one per page. *)
Lemma ex_page_cases (P : Z → Prop) :
  P (W 0) → P (W 1) → P (W 2) → P (W 3) → P (W 4) → P (W 5) → P (W 6) → P (W 7) →
  ∀ p, is_page p → P p.
Proof.
  intros ???????? p (i & -> & Hi)%ex_pages.
  assert (i = 0 ∨ i = 1 ∨ i = 2 ∨ i = 3 ∨ i = 4 ∨ i = 5 ∨ i = 6 ∨ i = 7) as Hc by lia.
  destruct Hc as [->|[->|[->|[->|[->|[->|[->| ->]]]]]]]; assumption.
Qed.

Lemma ex_rel : pool_rel ex_kernel ex_pool.
Proof.
  split; [split|..].
  - split; [vm_compute; tauto|]. split.
    + apply (bool_decide_unpack _). vm_compute. done.
    + repeat constructor; vm_compute; discriminate.
  - change (pool_free ex_pool) with [W 5; W 6; W 7].
    apply ex_page_cases; rewrite !elem_of_cons, elem_of_nil; vm_compute; intuition discriminate.
  - apply ex_page_cases; vm_compute; discriminate.
  - apply ex_page_cases; done.
  - intros p c Hp. assert (p ∈ dom (pool_refs ex_pool)) as Hd by (apply elem_of_dom; by eexists).
    assert (map_Forall (λ _ c, 0 < c) (pool_refs ex_pool)) as Hc
      by (apply (bool_decide_unpack _); vm_compute; done).
    split; [|by eapply Hc]. revert Hd. clear. intros Hd.
    assert (set_Forall (λ p, is_page p) (dom (pool_refs ex_pool))) as Hall; [|by apply Hall].
    simpl. rewrite !dom_insert_L, dom_singleton_L.
    repeat (apply set_Forall_union; [apply set_Forall_singleton, ex_pages; eexists; split; [reflexivity|lia]|]).
    apply set_Forall_singleton, ex_pages. eexists. split; [reflexivity|lia].
Qed.

(** ** The tables in memory *)

Lemma load64_words ws m a :
  Forall (λ w, a + 8 ≤ w.1 ∨ w.1 + 8 ≤ a) ws →
  load64 (foldl (λ m w, store64 m w.1 w.2) m ws) a = load64 m a.
Proof.
  intros HF. revert m. induction HF as [|w ws Hw HF IH]; intros m; simpl; [done|].
  rewrite IH. by apply load64_store64_ne.
Qed.

Lemma ex_words_pages : Forall (λ w, ∃ k, w.1 = W k ∧ 0 ≤ k < 8 ∧ k ≠ 4) ex_words.
Proof. repeat constructor; simpl; eexists; (split; [reflexivity|lia]). Qed.

(** Only the first word of a page is not zero, and page 4 is empty. *)
Lemma ex_load i j :
  0 ≤ i < 8 → 0 ≤ j < 512 → j ≠ 0 ∨ i = 4 → load64 ex_mem (W i + 8 * j) = 0.
Proof.
  intros Hi Hj Hc. unfold ex_mem. rewrite load64_words; [done|].
  eapply Forall_impl; [apply ex_words_pages|]. intros w (k & -> & Hk). unfold W, PGSIZE. lia.
Qed.

Lemma ex_lab_cases pt root path :
  ex_lab !! pt = Some (root, path) →
  (pt = W 0 ∧ root = W 0 ∧ path = []) ∨ (pt = W 1 ∧ root = W 0 ∧ path = [0]) ∨
  (pt = W 2 ∧ root = W 0 ∧ path = [0; 0]) ∨ (pt = W 4 ∧ root = W 4 ∧ path = []).
Proof.
  unfold ex_lab. rewrite !lookup_insert_Some, lookup_singleton_Some.
  intros [[<- [= <- <-]]|[_ [[<- [= <- <-]]|[_ [[<- [= <- <-]]|[_ [<- [= <- <-]]]]]]]]; tauto.
Qed.

Lemma ex_roots root : is_root ex_lab root → root = W 0 ∨ root = W 4.
Proof.
  intros Hr. destruct (ex_lab_cases _ _ _ Hr) as [(-> & _)|[(_ & _ & ?)|[(_ & _ & ?)|(-> & _)]]];
    [by left|done|done|by right].
Qed.

Lemma ex_wf : pt_wf ex_mem ex_lab.
Proof.
  split.
  - intros pt [root path] Hpt. apply ex_pages.
    destruct (ex_lab_cases _ _ _ Hpt) as [(-> & _)|[(-> & _)|[(-> & _)|(-> & _)]]];
      eexists; (split; [reflexivity|lia]).
  - intros pt root path j Hpt Hlen Hj Hv.
    assert (j = 0 ∧ pt ≠ W 4) as [-> Hne].
    { destruct (ex_lab_cases _ _ _ Hpt) as [(-> & _)|[(-> & _)|[(-> & _)|(-> & _)]]];
        (destruct (decide (j = 0)) as [->|Hj0]; [split; [reflexivity|]|rewrite ex_load in Hv by (clear Hv; lia); discriminate Hv]);
        first [vm_compute; discriminate|vm_compute in Hv; discriminate Hv]. }
    destruct (ex_lab_cases _ _ _ Hpt) as [(-> & -> & ->)|[(-> & -> & ->)|[(-> & -> & ->)|(-> & _)]]];
      [vm_compute; reflexivity|vm_compute; reflexivity|simpl in Hlen; lia|by destruct Hne].
Qed.

Lemma ex_vm : vm_inv ex_kernel ex_pool ex_lab.
Proof.
  split; [apply ex_rel|apply not_elem_of_nil|apply ex_wf|].
  intros pt [root path] Hpt. destruct (ex_lab_cases _ _ _ Hpt) as [(-> & _)|[(-> & _)|[(-> & _)|(-> & _)]]];
    by vm_compute.
Qed.

(** The page table at [W 0] has one entry, the one at [W 4] none. *)
Lemma ex_pte root va :
  is_root ex_lab root → 0 ≤ va < MAXVA →
  pte_of ex_mem root va =
    if decide (root = W 0 ∧ va / PGSIZE = 0) then Z.lor (PA2PTE (W 3)) cow_flags else 0.
Proof.
  intros Hr Hva. destruct (decide (va / PGSIZE = 0)) as [E|Hne].
  { rewrite pte_of_page, E. apply ex_roots in Hr as [-> | ->]; by vm_compute. }
  rewrite decide_False by tauto.
  assert (∀ l, 0 ≤ l → 0 ≤ PX l va < 512) as HPX by (intros; by apply PX_range).
  unfold pte_of, leaf_slot. apply ex_roots in Hr as [-> | ->].
  - destruct (decide (PX 2 va = 0)) as [E2|N2].
    2: { unfold next_table. by rewrite ex_load by (try lia; apply HPX; lia). }
    assert (next_table ex_mem 2 va (W 0) = Some (W 1)) as ->
      by (unfold next_table; rewrite E2; by vm_compute). simpl.
    destruct (decide (PX 1 va = 0)) as [E1|N1].
    2: { unfold next_table. by rewrite ex_load by (try lia; apply HPX; lia). }
    assert (next_table ex_mem 1 va (W 1) = Some (W 2)) as ->
      by (unfold next_table; rewrite E1; by vm_compute). simpl.
    apply ex_load; [lia|apply HPX; lia|]. left. intros E0. apply Hne.
    change 0 with (0 / PGSIZE). by apply PX_inj.
  - unfold next_table. by rewrite ex_load by (try lia; apply HPX; lia).
Qed.

Lemma ex_inv : as_inv ex_kernel ex_pool ex_lab ex_um.
Proof.
  assert (vpn_top = 2 ^ 26 - 2) as Et by done.
  unfold ex_um. split; [apply ex_vm|..].
  - intros root n q. split.
    + intros [[= <- <-] <-]%lookup_singleton_Some. split; [done|]. split; [lia|].
      split; vm_compute; reflexivity.
    + intros (Hr & Hn & Hv & Hq). change (mem ex_kernel) with ex_mem in *.
      rewrite ex_pte in Hv, Hq by (exact Hr || by apply vpn_range). rewrite page_number in *.
      case_decide as Hd; [|discriminate Hv]. destruct Hd as [-> ->]. apply lookup_singleton_Some.
      split; [reflexivity|]. rewrite <-Hq. vm_compute. reflexivity.
  - intros root n q [[= <- <-] <-]%lookup_singleton_Some. by vm_compute.
  - intros k q [<- <-]%lookup_singleton_Some. split; [done|]. exists 1. split; [done|]. by vm_compute.
Qed.

(** ** Witnesses *)

Lemma ex_root0 : is_root ex_lab (W 0).
Proof. done. Qed.

Lemma ex_root4 : is_root ex_lab (W 4).
Proof. done. Qed.

Lemma ex_user_ok root : is_root ex_lab root → user_pages_ok (mem ex_kernel) root.
Proof.
  intros Hr va Hva. change (mem ex_kernel) with ex_mem. rewrite ex_pte by done.
  case_decide; [|done]. intros _. by vm_compute.
Qed.

(** Page 1 of the empty table is mapped to [W 3]. *)
Lemma mappages_correct_witness :
  ∃ r (k : Z) s' a' lab', mappages (W 4) PGSIZE PGSIZE (W 3) PTE_R ex_kernel = Ret r s' ∧
    vm_inv s' a' lab' ∧ vm_ext ex_kernel ex_pool ex_lab s' a' lab' ∧
    pt_upd ex_lab ex_mem (mem s') (W 4) (map_upd (PGSIZE / PGSIZE) k (W 3) PTE_R) ∧ 0 ≤ k ∧
    (r = 0 ∧ PGSIZE / PGSIZE + k = (PGSIZE + PGSIZE - 1) / PGSIZE + 1 ∨
     r = -1 ∧ PGSIZE / PGSIZE + k ≤ (PGSIZE + PGSIZE - 1) / PGSIZE ∧ pool_free a' = []).
Proof.
  apply (mappages_correct ex_kernel ex_pool ex_lab (W 4) PGSIZE PGSIZE (W 3) PTE_R);
    [apply ex_vm|apply ex_root4|done|done|done|done|done|done|done|].
  change (mem ex_kernel) with ex_mem. intros v Hv. rewrite pte_of_page.
  assert (v / PGSIZE = 1) as -> by (change (PGSIZE / PGSIZE) with 1 in Hv; change ((PGSIZE + PGSIZE - 1) / PGSIZE) with 1 in Hv; lia).
  rewrite ex_pte by (apply ex_root4 || done). by rewrite decide_False by (intros [? ?]; done).
Defined.

Lemma uvmalloc_correct_witness :
  ∃ r qs s' a' lab' um', uvmalloc (W 0) PGSIZE (2 * PGSIZE) PTE_W ex_kernel = Ret r s' ∧
    grown ex_kernel ex_pool ex_lab ex_um (W 0) 1 qs s' a' lab' um'.
Proof.
  destruct (uvmalloc_correct ex_kernel ex_pool ex_lab ex_um (W 0) PGSIZE (2 * PGSIZE) PTE_W)
    as (r & qs & s' & a' & lab' & um' & E & G & _);
    [apply ex_inv|apply ex_root0|done|done|done| |exists r, qs, s', a', lab', um'; split; [exact E|exact G]].
  change (PGROUNDUP PGSIZE / PGSIZE) with 1. change (PGROUNDUP (2 * PGSIZE) / PGSIZE) with 2.
  intros v Hv. assert (v = 1) as -> by lia. reflexivity.
Defined.

Lemma uvmunmap_correct_witness :
  ∃ s' a' rs, uvmunmap (W 0) (PGSIZE * 0) 1 true ex_kernel = Ret () s' ∧
    pool_run ex_pool (OpFree <$> [W 3]) = Some (rs, a') ∧
    as_inv s' a' ex_lab (um_unmap ex_um (W 0) 0 1).
Proof.
  destruct (uvmunmap_correct ex_kernel ex_pool ex_lab ex_um (W 0) 0 [W 3])
    as (s' & a' & rs & E & Hrun & Has & _); [apply ex_inv|done|done| |].
  - intros [|i] q; simpl; [intros [= <-]; reflexivity|done].
  - exists s', a', rs. split; [exact E|]. split; [exact Hrun|exact Has].
Defined.

Lemma cowfault_correct_witness :
  ∃ s' a', cowfault (W 0) 5 ex_kernel = Ret 0 s' ∧
    as_inv s' a' ex_lab (<[(W 0, 0) := W 5]> ex_um) ∧ same_view ex_lab ex_mem (mem s').
Proof.
  destruct (cowfault_correct ex_kernel ex_pool ex_lab ex_um (W 0) 5 (W 3) (W 5) [W 6; W 7])
    as (s' & a' & E & _ & Has & _ & _ & _ & Hv & _);
    [apply ex_inv|reflexivity|vm_compute; reflexivity|reflexivity|].
  exists s', a'. split; [exact E|]. split; [exact Has|exact Hv].
Defined.

Lemma copyout_correct_witness :
  ∃ r k s' a' um', copyout (W 0) 1 [97; 98] ex_kernel = Ret r s' ∧ as_inv s' a' ex_lab um' ∧
    write_view ex_lab ex_mem (mem s') (W 0) 1 (take k [97; 98]).
Proof.
  destruct (copyout_correct ex_kernel ex_pool ex_lab ex_um (W 0) 1 [97; 98])
    as (r & k & s' & a' & um' & E & Has & _ & Hw & _); [apply ex_inv|apply ex_root0|done|done|].
  exists r, k, s', a', um'. split; [exact E|]. split; [exact Has|exact Hw].
Defined.

Lemma copyin_correct_witness :
  ∃ r bs, copyin (W 0) 1 4 ex_kernel = Ret (r, bs) ex_kernel ∧ user_has ex_mem (W 0) 1 bs.
Proof.
  destruct (copyin_correct ex_kernel ex_pool ex_lab (W 0) 1 4) as (r & bs & E & Hu & _);
    [apply ex_vm|apply ex_root0|apply ex_user_ok, ex_root0|done|done|].
  exists r, bs. split; [exact E|exact Hu].
Defined.

Lemma copyinstr_correct_witness :
  ∃ r bs, copyinstr (W 0) 0 16 ex_kernel = Ret (r, bs) ex_kernel ∧ str_result ex_mem (W 0) 0 16 r bs.
Proof.
  apply (copyinstr_correct ex_kernel ex_pool ex_lab (W 0) 0 16);
    [apply ex_vm|apply ex_root0|apply ex_user_ok, ex_root0|done|done].
Defined.

Lemma uvmcopy_correct_witness :
  ∃ r s' a' lab' um', uvmcopy (W 0) (W 4) PGSIZE ex_kernel = Ret r s' ∧
    (r = 0 ∧ shared ex_kernel ex_pool ex_lab ex_um (W 0) (W 4) 1 s' a' lab' um' ∨
     r = -1 ∧ copy_failed ex_kernel ex_pool ex_lab ex_um (W 0) (W 4) 1 s' a' lab').
Proof.
  apply (uvmcopy_correct ex_kernel ex_pool ex_lab ex_um (W 0) (W 4) PGSIZE);
    [apply ex_inv|apply ex_root0|apply ex_root4|done|done| |].
  - change (PGROUNDUP PGSIZE / PGSIZE) with 1. intros v Hv. assert (v = 0) as -> by lia.
    split; [by eexists|reflexivity].
  - change (PGROUNDUP PGSIZE / PGSIZE) with 1. intros q c Hc.
    assert (map_Forall (λ _ c, c = 1) (pool_refs ex_pool)) as Hall
      by (apply (bool_decide_unpack _); vm_compute; done).
    rewrite (Hall q c Hc). done.
Defined.
