(* ===== verification/Float32.v ===== *)
(** * C float on RISC-V

    The priority and lottery schedulers compute in single precision.  A float
    is IEEE 754 binary32 as the Standard Library's SpecFloat has it (24 bits of
    precision, largest exponent 128), rounding to nearest, ties to even; the
    conversion to int is the instruction the compiler emits, fcvt.w.s rounding
    towards zero, which saturates and turns NaN into the largest int. *)

From Stdlib Require Import ZArith Lia.
From Corelib Require Import SpecFloat.
From S2P Require Import Prelude.

Open Scope Z_scope.

Definition float32 : Type := spec_float.

Definition f32_of_Z (z : Z) : float32 := binary_normalize 24 128 z 0 false.
Definition f32_mul : float32 -> float32 -> float32 := SFmul 24 128.
Definition f32_div : float32 -> float32 -> float32 := SFdiv 24 128.
Definition f32_lt : float32 -> float32 -> bool := SFltb.

Definition saturate_i32 (z : Z) : Z := Z.max (- 2 ^ 31) (Z.min (2 ^ 31 - 1) z).

Definition f32_to_i32 (f : float32) : Z :=
  match f with
  | S754_zero _ => 0
  | S754_infinity s => if s then - 2 ^ 31 else 2 ^ 31 - 1
  | S754_nan => 2 ^ 31 - 1
  | S754_finite s m e =>
      let a := if 0 <=? e then Zpos m * 2 ^ e else Zpos m / 2 ^ (- e) in
      saturate_i32 (if s then - a else a)
  end.
