(* ===== verification/Sched.v ===== *)
(** * The scheduler half of kernel/proc.c

    swtch() hands the whole state over and the caller goes on from the state it
    is resumed in; the four scheduling policies are one pass of their infinite
    loop each.  [sched] and [sleep] are the kernel threads' side. *)

From Stdlib Require Import ZArith Lia.
From stdpp Require Import base numbers strings option list gmap.
From S2P Require Import Prelude Params Machine Float32.

Open Scope Z_scope.

(** -D SCHEDULING_ALGO of the Makefile: 0 RR, 1 FCFS, 2 PBS, 3 LBS, 4 MLFQ. *)
Class BuildConfig := { SCHEDULING_ALGO : Z }.

(** A load or store through a null struct proc pointer: a page fault in the
    kernel, which kerneltrap() turns into this panic. *)
Definition null_deref {A} : K A := panic "kerneltrap".

(** [myproc()] where the code dereferences it. *)
Definition curproc : K nat :=
  p ← myproc;
  match p with Some i => mret i | None => null_deref end.

Definition proc_table : list nat := seq 0 NPROC.

(** ** Switching *)

(** Statements run one after the other; sleep() and wakeup() are given as such
    lists, between whose elements another CPU may run. *)
Definition run_steps (l : list (K ())) : K () := for_each l (λ a, a).

Definition sched : K () :=
  p ← curproc;
  h ← holding (proc_lock p);
  if negb h then panic "sched p->lock"
  else
    noff ← gets (λ s, length (held s));
    if negb (bool_decide (noff = 1%nat)) then panic "sched locks"
    else
      pr ← getp p;
      if bool_decide (p_state pr = RUNNING) then panic "sched running"
      else
        ie ← intr_get;
        if ie : bool then panic "sched interruptible"
        else
          intena ← gets sie;
          swtch;;
          modify (λ s, s <| sie := intena |>).

Definition yield : K () :=
  p ← curproc;
  acquire (proc_lock p);;
  setp p (λ q, q <| p_state := RUNNABLE |>);;
  sched;;
  release (proc_lock p).

(** The statements of sleep(chan, lk) called by process [p], in order. *)
Definition sleep_steps (chan : chan) (lk : lockid) (p : nat) : list (K ()) :=
  [ acquire (proc_lock p);
    release lk;
    setp p (λ q, q <| p_chan := Some chan |>);
    setp p (λ q, q <| p_state := SLEEPING |>);
    t ← gets ticks; setp p (λ q, q <| p_when_started_sleeping := t |>);
    sched;
    setp p (λ q, q <| p_chan := None |>);
    release (proc_lock p);
    acquire lk ].

Definition sleep (chan : chan) (lk : lockid) : K () :=
  p ← curproc;
  run_steps (sleep_steps chan lk p).

(** The body of wakeup()'s critical section on slot [p]. *)
Definition wakeup_check (chan : chan) (p : nat) : K () :=
  q ← getp p;
  when (bool_decide (p_state q = SLEEPING) && bool_decide (p_chan q = Some chan))
    (t ← gets ticks;
     setp p (λ q, q <| p_sleep_time ::= λ x, u32 (x + u32 (t - p_when_started_sleeping q)) |>);;
     setp p (λ q, q <| p_state := RUNNABLE |>)).

(** The statements of wakeup(chan) for slot [p], called by process [me]. *)
Definition wakeup_steps (me : option nat) (chan : chan) (p : nat) : list (K ()) :=
  if bool_decide (Some p = me) then []
  else [ acquire (proc_lock p); wakeup_check chan p; release (proc_lock p) ].

Definition wakeup_one (chan : chan) (p : nat) : K () :=
  me ← myproc;
  run_steps (wakeup_steps me chan p).

Definition wakeup (chan : chan) : K () := for_each proc_table (wakeup_one chan).

Definition kill_one (pid : Z) (p : nat) : K (option Z) :=
  acquire (proc_lock p);;
  q ← getp p;
  if p_pid q =? pid then
    setp p (λ q, q <| p_killed := 1 |>);;
    when (bool_decide (p_state q = SLEEPING)) (setp p (λ q, q <| p_state := RUNNABLE |>));;
    release (proc_lock p);;
    mret (Some 0)
  else
    release (proc_lock p);;
    mret None.

Definition kill (pid : Z) : K Z :=
  r ← for_ret proc_table (kill_one pid);
  mret (default (-1) r).

Definition setkilled (p : nat) : K () :=
  acquire (proc_lock p);;
  setp p (λ q, q <| p_killed := 1 |>);;
  release (proc_lock p).

Definition killed (p : nat) : K Z :=
  acquire (proc_lock p);;
  k ← getp p;
  release (proc_lock p);;
  mret (p_killed k).

(** ** Accounting and the scheduling parameters *)

Section config.
Context `{BuildConfig}.

Definition update_time : K () :=
  for_each proc_table (λ p,
    acquire (proc_lock p);;
    q ← getp p;
    (if bool_decide (p_state q = RUNNING) then
       setp p (λ q, q <| p_rtime ::= λ x, u32 (x + 1) |>)
     else if bool_decide (p_state q = SLEEPING) then
       when (SCHEDULING_ALGO =? 4) (setp p (λ q, q <| p_last_wait_time ::= λ x, i32 (x + 1) |>))
     else if bool_decide (p_state q = RUNNABLE) then
       when (SCHEDULING_ALGO =? 4) (setp p (λ q, q <| p_last_wait_time ::= λ x, i32 (x + 1) |>))
     else mret ());;
    release (proc_lock p)).

End config.

Definition set_priority (priority pid : Z) : K Z :=
  for_fold proc_table (λ old p,
    acquire (proc_lock p);;
    q ← getp p;
    old ← (if p_pid q =? pid then
             setp p (λ q, q <| p_static_priority := priority |>);;
             mret (p_static_priority q)
           else mret old);
    release (proc_lock p);;
    mret old) 0.

Definition settickets (number pid : Z) : K Z :=
  p ← curproc;
  setp p (λ q, q <| p_tickets := u32 number |>);;
  mret pid.

(** ** The lottery's random numbers *)

(** The result and the new [*ctx]. *)
Definition custom_random (ctx : Z) : Z * Z :=
  let x := ctx mod 0x7ffffffe + 1 in
  let hi := x / 127773 in
  let lo := x mod 127773 in
  let x := 16807 * lo - 2836 * hi in
  let x := if x <? 0 then x + 0x7fffffff else x in
  let x := x - 1 in
  (i32 x, u64 x).

Definition is_the_process_lucky (probability : float32) : K Z :=
  t ← gets ticks;
  let seed := t mod (2147483647 - 2) in
  let '(r, _) := custom_random seed in
  let scaled_prob := f32_mul probability (f32_of_Z (2147483647 - 2)) in
  mret (if f32_lt (f32_of_Z r) scaled_prob then 1 else 0).

(** ** The policies *)

Definition set_cur (p : option nat) : K () := modify (λ s, s <| cur := p |>).

(** Run process [p] for a quantum, its lock held. *)
Definition run_proc (p : nat) : K () :=
  setp p (λ q, q <| p_state := RUNNING |>);;
  set_cur (Some p);;
  swtch;;
  set_cur None.

(** One pass over the table, round robin. *)
Definition rr_step (p : nat) : K () :=
  acquire (proc_lock p);;
  q ← getp p;
  when (bool_decide (p_state q = RUNNABLE)) (run_proc p);;
  release (proc_lock p).

Definition rr_pass : K () :=
  intr_on;;
  for_each proc_table rr_step.

(** The scan for the earliest process; [first_come_process] with its lock held
    and [min_creation_time]. *)
Definition fcfs_step (st : option nat * Z) (p : nat) : K (option nat * Z) :=
  let '(first_come_process, min_creation_time) := st in
  acquire (proc_lock p);;
  q ← getp p;
  if bool_decide (p_state q = RUNNABLE) then
    match first_come_process with
    | None => mret (Some p, i32 (p_ctime q))
    | Some f =>
        if p_ctime q <? u32 min_creation_time then
          release (proc_lock f);;
          mret (Some p, i32 (p_ctime q))
        else
          release (proc_lock p);;
          mret st
    end
  else
    release (proc_lock p);;
    mret st.

Definition run_chosen (st : option nat * Z) : K () :=
  match st.1 with
  | Some p => run_proc p;; release (proc_lock p)
  | None => mret ()
  end.

Definition fcfs_pass : K () :=
  intr_on;;
  st ← for_fold proc_table fcfs_step (None, 0);
  run_chosen st.

Definition dynamic_priority (q : proc) : Z :=
  let niceness :=
    i32 (f32_to_i32 (f32_div (f32_of_Z (p_sleep_time q))
                             (f32_of_Z (u32 (p_sleep_time q + p_rtime q)))) * 10) in
  let dp := i32 (p_static_priority q - niceness + 5) in
  if dp <? 0 then 0 else if 100 <? dp then 100 else dp.

Definition pbs_step (st : option nat * Z) (p : nat) : K (option nat * Z) :=
  let '(most_priority_process, min_dynamic_priority) := st in
  acquire (proc_lock p);;
  q ← getp p;
  if bool_decide (p_state q = RUNNABLE) && (dynamic_priority q <? min_dynamic_priority) then
    match most_priority_process with
    | Some f => release (proc_lock f)
    | None => mret ()
    end;;
    mret (Some p, dynamic_priority q)
  else
    release (proc_lock p);;
    mret st.

Definition pbs_pass : K () :=
  intr_on;;
  st ← for_fold proc_table pbs_step (None, 500);
  run_chosen st.

Definition total_tickets (ps : list proc) : Z :=
  foldl (λ t q, if bool_decide (p_state q = RUNNABLE) then i32 (t + p_tickets q) else t) 0 ps.

Definition lbs_step (p : nat) : K () :=
  acquire (proc_lock p);;
  q ← getp p;
  when (bool_decide (p_state q = RUNNABLE))
    (ps ← gets procs;
     let success_probability := f32_div (f32_of_Z (p_tickets q)) (f32_of_Z (total_tickets ps)) in
     if f32_lt success_probability (f32_of_Z 0) || f32_lt (f32_of_Z 1) success_probability
     then panic "LBS: success probability out of bounds"
     else
       l ← is_the_process_lucky success_probability;
       when (negb (l =? 0)) (run_proc p));;
  release (proc_lock p).

Definition lbs_pass : K () :=
  intr_on;;
  for_each proc_table lbs_step.

(** [rounds] iterations of the policy's endless loop ([Fuel] after them).  With
    algorithm 4 the body is commented out and scheduler() returns. *)
Definition scheduler `{BuildConfig} (rounds : nat) : K () :=
  set_cur None;;
  let forever (pass : K ()) := loop rounds (λ _ : (), pass;; mret (inl ())) () in
  if SCHEDULING_ALGO =? 0 then forever rr_pass
  else if SCHEDULING_ALGO =? 1 then forever fcfs_pass
  else if SCHEDULING_ALGO =? 2 then forever pbs_pass
  else if SCHEDULING_ALGO =? 3 then forever lbs_pass
  else mret ().
