(* ===== verification/SchedFacts.v ===== *)
(** * Scheduler theorems

    The lottery's generator, the scans of the FCFS and priority schedulers and
    the locks they leave held, fairness of a round-robin pass, and the
    sleep/wakeup protocol.  A process that runs between a scheduler's switch
    and the switch back is any function on the state that keeps the kernel's
    rule: it comes back holding its own lock and nothing else. *)

From Stdlib Require Import ZArith Lia Sorted.
From stdpp Require Import base numbers strings option list gmap.
From S2P Require Import Prelude Params Machine Float32 Sched.

Open Scope Z_scope.

(** ** custom_random is the Park-Miller generator *)

Definition pm_modulus : Z := 2 ^ 31 - 1.
Definition pm (x : Z) : Z := (16807 * x) mod pm_modulus.

(** 16807 is invertible modulo 2^31 - 1. *)
Lemma pm_inverse x : 0 ≤ x < pm_modulus → (1407677000 * pm x) mod pm_modulus = x.
Proof.
  intros Hx. unfold pm. rewrite Z.mul_mod_idemp_r by done.
  replace (1407677000 * (16807 * x)) with (x + 11017 * x * pm_modulus) by (unfold pm_modulus; lia).
  rewrite Z_mod_plus_full. by apply Z.mod_small.
Qed.

Lemma pm_nonzero x : 1 ≤ x < pm_modulus → 1 ≤ pm x < pm_modulus.
Proof.
  intros Hx. pose proof (Z.mod_pos_bound (16807 * x) pm_modulus eq_refl) as Hb.
  fold (pm x) in Hb. destruct (decide (pm x = 0)) as [E|]; [|lia].
  pose proof (pm_inverse x ltac:(lia)) as H. rewrite E in H.
  rewrite Z.mul_0_r, Z.mod_0_l in H by done. lia.
Qed.

(** Schrage's method: no intermediate value leaves 31 bits. *)
Lemma schrage x :
  1 ≤ x < pm_modulus →
  let y := 16807 * (x mod 127773) - 2836 * (x / 127773) in
  - pm_modulus < y < pm_modulus ∧ pm x = (if y <? 0 then y + pm_modulus else y).
Proof.
  intros Hx y. unfold pm_modulus in *.
  pose proof (Z.div_mod x 127773 ltac:(done)) as Hd.
  pose proof (Z.mod_pos_bound x 127773 eq_refl) as Hm.
  assert (0 ≤ x / 127773 ≤ 16807) as Hq by (split; [apply Z.div_pos; lia|apply Z.lt_succ_r, Z.div_lt_upper_bound; lia]).
  assert (- (2 ^ 31 - 1) < y < 2 ^ 31 - 1) as Hy by (subst y; lia).
  split; [done|]. unfold pm, pm_modulus. symmetry.
  destruct (Z.ltb_spec y 0).
  - apply (Z.mod_unique_pos _ _ (x / 127773 - 1)); [lia|]. subst y. lia.
  - apply (Z.mod_unique_pos _ _ (x / 127773)); [lia|]. subst y. lia.
Qed.

Lemma custom_random_eq ctx :
  let r := pm (ctx mod 0x7ffffffe + 1) - 1 in
  custom_random ctx = (r, r) ∧ 0 ≤ r ≤ 0x7ffffffd.
Proof.
  intros r. pose proof (Z.mod_pos_bound ctx 0x7ffffffe eq_refl) as Hm.
  assert (1 ≤ ctx mod 0x7ffffffe + 1 < pm_modulus) as Hx by (unfold pm_modulus; lia).
  pose proof (pm_nonzero _ Hx) as Hr. destruct (schrage _ Hx) as [_ E].
  assert (0 ≤ r ≤ 0x7ffffffd) as Hb by (subst r; unfold pm_modulus in Hr; lia).
  split; [|done]. unfold custom_random. change 0x7fffffff with pm_modulus.
  rewrite <- E. fold r. by autorewrite with cint.
Qed.

(** custom_random() is the Park-Miller minimal standard generator
    x := 7^5 x mod (2^31 - 1) on the state shifted into [1, 2^31 - 2], computed
    by Schrage's method without leaving the range of long; the result lies in
    [0, 2^31 - 3], is also the new state, and different states in that range
    give different numbers, so the generator permutes its state space. *)
Theorem custom_random_park_miller ctx :
  custom_random ctx = (pm (ctx mod 0x7ffffffe + 1) - 1, pm (ctx mod 0x7ffffffe + 1) - 1) ∧
  0 ≤ (custom_random ctx).1 < 0x7ffffffe ∧
  ∀ ctx', 0 ≤ ctx < 0x7ffffffe → 0 ≤ ctx' < 0x7ffffffe →
    (custom_random ctx).1 = (custom_random ctx').1 → ctx = ctx'.
Proof.
  destruct (custom_random_eq ctx) as [E Hb]. split; [done|].
  split; [rewrite E; cbn; lia|]. intros ctx' H1 H2.
  destruct (custom_random_eq ctx') as [E' _]. rewrite E, E'. cbn.
  rewrite !(Z.mod_small _ 0x7ffffffe) by done. intros H.
  rewrite <- (Z.add_simpl_r ctx 1), <- (Z.add_simpl_r ctx' 1).
  rewrite <- (pm_inverse (ctx + 1)), <- (pm_inverse (ctx' + 1)) by (unfold pm_modulus; lia).
  f_equal. f_equal. f_equal. lia.
Qed.

(** ** The scans *)

(** [o] is the first of the RUNNABLE processes below [n] with the least key,
    or there is none. *)
Definition least (key : proc → Z) (ps : list proc) (n : nat) (o : option nat) : Prop :=
  match o with
  | None => ∀ j r, (j < n)%nat → ps !! j = Some r → p_state r ≠ RUNNABLE
  | Some f =>
      (f < n)%nat ∧ ∃ q, ps !! f = Some q ∧ p_state q = RUNNABLE ∧
        ∀ j r, (j < n)%nat → ps !! j = Some r → p_state r = RUNNABLE →
          key q < key r ∨ key q = key r ∧ (f ≤ j)%nat
  end.

Definition lock_of (o : option nat) : list lockid :=
  match o with Some f => [proc_lock f] | None => [] end.

Lemma least_skip key ps n o r :
  least key ps n o → ps !! n = Some r →
  (p_state r = RUNNABLE → ∃ f q, o = Some f ∧ ps !! f = Some q ∧ key q ≤ key r) →
  least key ps (S n) o.
Proof.
  intros Hl Hr Hk. destruct o as [f|]; simpl in *.
  - destruct Hl as (Hf & q & Hq & Hs & Hm). split; [lia|]. exists q. split_and!; [done..|].
    intros j r' Hj Hr' Hrun. destruct (decide (j = n)) as [->|].
    + assert (r' = r) as -> by congruence. destruct (Hk Hrun) as (f' & q' & [= <-] & Hq' & Hle).
      assert (q' = q) as -> by congruence. destruct (decide (key q = key r)); [right|left]; lia.
    + apply (Hm j); [lia|done..].
  - intros j r' Hj Hr' Hrun. destruct (decide (j = n)) as [->|].
    + assert (r' = r) as -> by congruence. destruct (Hk Hrun) as (? & ? & [=] & _).
    + apply (Hl j r'); [lia|done..].
Qed.

Lemma least_take key ps n o r :
  least key ps n o → ps !! n = Some r → p_state r = RUNNABLE →
  (∀ f q, o = Some f → ps !! f = Some q → key r < key q) →
  least key ps (S n) (Some n).
Proof.
  intros Hl Hr Hrun Hk. split; [lia|]. exists r. split_and!; [done..|].
  intros j r' Hj Hr' Hrun'. destruct (decide (j = n)) as [->|].
  - assert (r' = r) as -> by congruence. right. lia.
  - left. destruct o as [f|]; simpl in Hl.
    + destruct Hl as (Hf & q & Hq & _ & Hm). pose proof (Hk f q eq_refl Hq).
      destruct (Hm j r') as [|[]]; [lia|done..|lia|lia].
    + exfalso. apply (Hl j r'); [lia|done..].
Qed.

(** What one step of a scan does with the process it looks at; [dec] reads the
    best key so far from the scan's variable, [v0] is its initial value. *)
Definition scan_step (ok : proc → Prop) (key : proc → Z) (dec : Z → Z) (v0 : Z)
    (step : option nat * Z → nat → K (option nat * Z)) : Prop :=
  ∀ s p q o v,
    procs s !! p = Some q → ok q → held s = lock_of o → o ≠ Some p →
    (o = None → v = v0) →
    (∀ f r, o = Some f → procs s !! f = Some r → dec v = key r) →
    let take := bool_decide (p_state q = RUNNABLE) &&
                match o with None => true | Some _ => key q <? dec v end in
    ∃ v', step (o, v) p s = Ret (if take then Some p else o, v')
            (s <| held := if take then [proc_lock p] else lock_of o |>) ∧
          (if take then dec v' = key q else v' = v).

Lemma getp_eq p s q : procs s !! p = Some q → getp p s = Ret q s.
Proof. intros E. unfold getp, gets. by rewrite E. Qed.

Lemma held_acquire s l : s <| held ::= cons l |> = s <| held := l :: held s |>.
Proof. same_record s. Qed.

Lemma proc_lock_inj p f : Some f ≠ Some p → proc_lock p ∉ [proc_lock f].
Proof. intros H. rewrite list_elem_of_singleton. congruence. Qed.

Lemma held_id s h : held s = h → s <| held := h |> = s.
Proof. intros <-. same_record s. Qed.

Lemma acquire_lock_of s p o :
  held s = lock_of o → o ≠ Some p →
  acquire (proc_lock p) s = Ret () (s <| held := proc_lock p :: lock_of o |>).
Proof.
  intros Hh Ho. rewrite acquire_free, held_acquire, Hh; [done|]. rewrite Hh.
  destruct o as [f|]; [by apply proc_lock_inj|apply not_elem_of_nil].
Qed.

(** Releasing the process looked at, or the one chosen before it. *)
Lemma release_new s p o :
  release (proc_lock p) (s <| held := proc_lock p :: lock_of o |>) = Ret () (s <| held := lock_of o |>).
Proof. by rewrite (release_head _ (lock_of o)). Qed.

Lemma release_old s p f :
  f ≠ p → release (proc_lock f) (s <| held := proc_lock p :: lock_of (Some f) |>) =
          Ret () (s <| held := [proc_lock p] |>).
Proof.
  intros Hn. rewrite release_held by (right; left). cbn. rewrite decide_False by congruence.
  by rewrite decide_True.
Qed.

Ltac scan_start Hq Hh Ho :=
  msimpl; mrun (acquire_lock_of _ _ _ Hh Ho);
  match type of Hq with _ = Some ?q => mrun (getp_eq _ _ q) by exact Hq end.

Lemma fcfs_scan_step : scan_step (λ q, 0 ≤ p_ctime q < 2 ^ 32) p_ctime u32 0 fcfs_step.
Proof.
  intros s p q o v Hq Hok Hh Ho H0 Hv. cbn zeta. unfold fcfs_step. scan_start Hq Hh Ho.
  assert (u32 (i32 (p_ctime q)) = p_ctime q) as Hc by (rewrite u32_i32; by apply u32_small).
  destruct (bool_decide (p_state q = RUNNABLE)); cbn [andb].
  - destruct o as [f|]; [|eexists; split; [reflexivity|exact Hc]].
    destruct (p_ctime q <? u32 v).
    + mrun (release_old s p f) by congruence. eexists. split; [reflexivity|exact Hc].
    + mrun (release_new s p (Some f)). eexists. split; reflexivity.
  - mrun (release_new s p o). eexists. split; reflexivity.
Qed.

Lemma dynamic_priority_range q : 0 ≤ dynamic_priority q ≤ 100.
Proof.
  unfold dynamic_priority. set (d := i32 _). destruct (Z.ltb_spec d 0); [lia|].
  destruct (Z.ltb_spec 100 d); lia.
Qed.

Lemma pbs_scan_step : scan_step (λ _, True) dynamic_priority id 500 pbs_step.
Proof.
  intros s p q o v Hq Hok Hh Ho H0 Hv. cbn zeta. unfold pbs_step. scan_start Hq Hh Ho.
  destruct (bool_decide (p_state q = RUNNABLE)); cbn [andb].
  - destruct o as [f|].
    + unfold id. destruct (dynamic_priority q <? v).
      * mrun (release_old s p f) by congruence. eexists. split; reflexivity.
      * mrun (release_new s p (Some f)). eexists. split; reflexivity.
    + rewrite (H0 eq_refl). pose proof (dynamic_priority_range q).
      mif_true. eexists. split; reflexivity.
  - mrun (release_new s p o). eexists. split; reflexivity.
Qed.

Lemma lookup_proc_table i p : proc_table !! i = Some p → p = i ∧ (i < NPROC)%nat.
Proof. unfold proc_table. rewrite lookup_seq. lia. Qed.

(** A whole scan finds the least key and holds exactly its lock. *)
Lemma scan_least ok key dec v0 step s :
  scan_step ok key dec v0 step →
  held s = [] → length (procs s) = NPROC → Forall ok (procs s) →
  ∃ o v, for_fold proc_table step (None, v0) s = Ret (o, v) (s <| held := lock_of o |>) ∧
         least key (procs s) NPROC o.
Proof.
  intros Hstep Hh Hlen Hok.
  destruct (for_fold_ind proc_table step (λ i st s', s' = s <| held := lock_of st.1 |> ∧
    (st.1 = None → st.2 = v0) ∧
    (∀ f r, st.1 = Some f → procs s !! f = Some r → dec st.2 = key r) ∧
    least key (procs s) i st.1) (None, v0) s) as ([o v] & s' & E & -> & _ & _ & Hl).
  - intros i x [o v] s' [-> Hi]%lookup_proc_table (-> & H0 & Hv & Hl). cbn in H0, Hv, Hl.
    destruct (lookup_lt_is_Some_2 (procs s) i) as [q Hq]; [lia|].
    assert (o ≠ Some i) as Ho by (destruct o as [f|]; [destruct Hl; intros [= ->]; lia|done]).
    destruct (Hstep (s <| held := lock_of o |>) i q o v) as (v' & E & Hv');
      [done|by eapply Forall_lookup_1|done..|].
    cbn [fst snd]. rewrite E. eexists _, _. split; [reflexivity|]. cbn in Hv' |- *.
    destruct (bool_decide_reflect (p_state q = RUNNABLE)) as [Hr|Hr]; cbn in Hv' |- *.
    + destruct o as [f|].
      * destruct (Z.ltb_spec (key q) (dec v)).
        -- split_and!; [same_record s|done|intros ? ? [= <-]; congruence|].
           apply (least_take _ _ _ _ _ Hl Hq Hr). intros f' r [= <-] Hr'. rewrite <- (Hv f r); [lia|done..].
        -- subst v'. split_and!; [same_record s|done..|]. apply (least_skip _ _ _ _ _ Hl Hq).
           intros _. destruct Hl as (_ & r & Hr' & _). exists f, r. rewrite <- (Hv f r); done.
      * split_and!; [same_record s|done|intros ? ? [= <-]; congruence|].
        by apply (least_take _ _ _ _ _ Hl Hq Hr).
    + subst v'. split_and!; [same_record s|done..|]. by apply (least_skip _ _ _ _ _ Hl Hq).
  - split_and!; [by rewrite held_id|done..|]. intros j r Hj. lia.
  - exists o, v. split; [done|]. unfold proc_table in Hl. by rewrite length_seq in Hl.
Qed.

(** The state in which a pass switches to process [p]. *)
Definition dispatched (s : kernel) (p : nat) : kernel :=
  s <| sie := true |> <| held := [proc_lock p] |>
    <| procs ::= alter (λ q, q <| p_state := RUNNING |>) p |> <| cur := Some p |>.

(** A pass that chose [o]: it switches to it with exactly its lock held and,
    when the process gives the cpu back, lets the lock go. *)
Definition pass_runs (s : kernel) (o : option nat) (r : outcome kernel ()) : Prop :=
  match o with
  | None => r = Ret () (s <| sie := true |>)
  | Some p =>
      ∃ k, r = Swtch (dispatched s p) k ∧
        ∀ s', held s' = [proc_lock p] → k s' = Ret () (s' <| cur := None |> <| held := [] |>)
  end.

Lemma run_chosen_spec s o v :
  held s = [] → pass_runs s o (run_chosen (o, v) (s <| sie := true |> <| held := lock_of o |>)).
Proof.
  intros Hh. destruct o as [p|]; unfold run_chosen; cbn [fst].
  - eexists. split; [reflexivity|]. intros s' Hh'. cbn.
    unfold set_cur, modify. cbn. rewrite (release_head _ []) by exact Hh'. reflexivity.
  - cbn. rewrite Hh. reflexivity.
Qed.

Lemma pass_least ok key dec v0 step s :
  scan_step ok key dec v0 step →
  held s = [] → length (procs s) = NPROC → Forall ok (procs s) →
  ∃ o, least key (procs s) NPROC o ∧
    pass_runs s o ((intr_on;; st ← for_fold proc_table step (None, v0); run_chosen st) s).
Proof.
  intros Hstep Hh Hlen Hok.
  destruct (scan_least ok key dec v0 step (s <| sie := true |>)) as (o & v & E & Hl); [done..|].
  exists o. split; [exact Hl|].
  rewrite (bind_ret intr_on _ _ () (s <| sie := true |>)) by reflexivity.
  rewrite (bind_ret _ _ _ _ _ E). by apply run_chosen_spec.
Qed.

(** A pass of the first-come-first-serve scheduler switches to the RUNNABLE
    process created first (the lowest slot among equals), marked RUNNING, with
    its lock and no other held, although the scan moves the lock from candidate
    to candidate; the pass ends with no lock held when the process comes back.
    With nothing RUNNABLE it holds no lock and switches to nobody. *)
Theorem fcfs_pass_correct s :
  held s = [] → length (procs s) = NPROC → Forall (λ q, 0 ≤ p_ctime q < 2 ^ 32) (procs s) →
  ∃ o, least p_ctime (procs s) NPROC o ∧ pass_runs s o (fcfs_pass s).
Proof. apply (pass_least _ _ _ _ _ _ fcfs_scan_step). Qed.

(** The same for the priority scheduler and the least dynamic priority. *)
Theorem pbs_pass_correct s :
  held s = [] → length (procs s) = NPROC →
  ∃ o, least dynamic_priority (procs s) NPROC o ∧ pass_runs s o (pbs_pass s).
Proof.
  intros Hh Hlen. apply (pass_least _ _ _ _ _ _ pbs_scan_step Hh Hlen).
  by apply Forall_true.
Qed.

(** ** Round robin *)

(** The processes a scheduler pass gave the cpu to, and how the pass ended,
    where [env] is what the machine does between the switch to a process and
    its switch back. *)
Fixpoint runs {A} (env : kernel → kernel) (o : outcome kernel A) : list nat * outcome kernel A :=
  match o with
  | Swtch s k =>
      let '(l, r) := runs env (k (env s)) in
      (match cur s with Some p => p :: l | None => l end, r)
  | _ => ([], o)
  end.

Definition runnable (s : kernel) (j : nat) : Prop := p_state <$> procs s !! j = Some RUNNABLE.

#[export] Instance runnable_dec s j : Decision (runnable s j).
Proof. unfold runnable. apply _. Defined.

(** The process comes back holding only its lock, and whoever was RUNNABLE
    meanwhile still is. *)
Definition gives_back (env : kernel → kernel) : Prop :=
  ∀ s p, cur s = Some p → held s = [proc_lock p] →
    held (env s) = [proc_lock p] ∧ length (procs (env s)) = length (procs s) ∧
    ∀ j, j ≠ p → runnable s j → runnable (env s) j.

Lemma runs_bind {A B} env (c : K A) (f : A → K B) s :
  runs env ((c ≫= f) s) =
    let '(l1, r1) := runs env (c s) in
    match r1 with
    | Ret a s' => let '(l2, r2) := runs env (f a s') in (l1 ++ l2, r2)
    | Panic m s' => (l1, Panic m s')
    | Swtch s' k => (l1, Swtch s' (λ s'', bindO (k s'') f))
    | Fuel => (l1, Fuel)
    end.
Proof.
  unfold mbind, M_bind. induction (c s) as [a s'|m s'|s' k IH|]; cbn.
  - by destruct (runs env (f a s')).
  - done.
  - rewrite IH. destruct (runs env (k (env s'))) as [l1 [a s2|m s2|s2 k2|]]; cbn.
    + destruct (runs env (f a s2)). by destruct (cur s').
    + done.
    + done.
    + done.
  - done.
Qed.

Lemma runnable_alter s p j f : j ≠ p → runnable (s <| procs ::= alter f p |>) j ↔ runnable s j.
Proof. intros H. unfold runnable. cbn. by rewrite list_lookup_alter_ne. Qed.

Lemma run_proc_eq p s :
  run_proc p s = Swtch (s <| procs ::= alter (λ q, q <| p_state := RUNNING |>) p |> <| cur := Some p |>)
    (λ s', Ret () (s' <| cur := None |>)).
Proof. reflexivity. Qed.

(** One slot of the pass: its process runs exactly if it is RUNNABLE. *)
Lemma rr_step_runs env s p :
  gives_back env → held s = [] → (p < length (procs s))%nat →
  ∃ s', runs env (rr_step p s) = (if decide (runnable s p) then [p] else [], Ret () s') ∧
    held s' = [] ∧ length (procs s') = length (procs s) ∧
    ∀ j, j ≠ p → runnable s j → runnable s' j.
Proof.
  intros Henv Hh Hp. destruct (lookup_lt_is_Some_2 _ _ Hp) as [q Hq].
  unfold rr_step. msimpl. mrun acquire_free by (rewrite Hh; apply not_elem_of_nil).
  mrun (getp_eq p _ q) by exact Hq.
  destruct (bool_decide_reflect (p_state q = RUNNABLE)) as [Hr|Hr].
  - rewrite decide_True by (unfold runnable; rewrite Hq; cbn; congruence). rewrite held_acquire, Hh.
    rewrite run_proc_eq. cbn [bindO].
    match goal with |- context [Swtch ?x _] => set (s1 := x) end.
    destruct (Henv s1 p eq_refl eq_refl) as (Hh1 & Hl1 & Hr1).
    exists (env s1 <| cur := None |> <| held := [] |>).
    cbn [runs]. rewrite (release_head _ []) by exact Hh1. split_and!; try done.
    + cbn [procs set]. transitivity (length (procs (env s1))); [done|]. rewrite Hl1. subst s1. cbn. apply length_alter.
    + intros j Hj H. apply Hr1; [done|]. subst s1.
      apply (runnable_alter (s <| held := [proc_lock p] |>)); done.
  - rewrite decide_False by (unfold runnable; rewrite Hq; cbn; congruence). exists s. cbn [bindO].
    rewrite (release_head _ []) by (cbn; by rewrite Hh). cbn [runs].
    split_and!; [|done..]. f_equal. f_equal. rewrite <- Hh. same_record s.
Qed.

Lemma rr_from env n i s :
  gives_back env → held s = [] → length (procs s) = (i + n)%nat →
  ∃ l s', runs env (for_each (seq i n) rr_step s) = (l, Ret () s') ∧
    held s' = [] ∧ StronglySorted lt l ∧ Forall (λ j, i ≤ j)%nat l ∧
    ∀ j, (i ≤ j)%nat → runnable s j → j ∈ l.
Proof.
  intros Henv. revert i s. induction n as [|n IH]; intros i s Hh Hlen.
  - exists [], s. split_and!; [done|done|constructor|constructor|].
    intros j Hj Hr. unfold runnable in Hr. by rewrite lookup_ge_None_2 in Hr by lia.
  - cbn [seq for_each]. rewrite runs_bind.
    destruct (rr_step_runs env s i Henv Hh) as (s1 & -> & Hh1 & Hl1 & Hr1); [lia|].
    destruct (IH (S i) s1) as (l & s2 & -> & Hh2 & Hs & Hf & Hin); [done|lia|].
    eexists _, s2. split; [reflexivity|]. split; [done|].
    assert (Forall (lt i) l) as Hi by (eapply Forall_impl; [exact Hf|cbn; lia]).
    destruct (decide (runnable s i)) as [Hr|Hr]; cbn [app]; split_and!.
    + by constructor.
    + constructor; [lia|]. eapply Forall_impl; [exact Hf|cbn; lia].
    + intros j Hj Hrj. destruct (decide (j = i)) as [->|]; [left|]. right. apply Hin; [lia|by apply Hr1].
    + done.
    + eapply Forall_impl; [exact Hf|cbn; lia].
    + intros j Hj Hrj. destruct (decide (j = i)) as [->|]; [done|]. apply Hin; [lia|by apply Hr1].
Qed.

(** C29: a round-robin pass is fair: every process that is RUNNABLE when the
    pass begins is given the cpu during the pass, no process more than once
    and in slot order, whatever the processes do in between as long as each
    comes back with only its own lock and takes no other process off the run
    queue; the pass ends holding no lock. *)
Theorem rr_pass_fair env s :
  gives_back env → held s = [] → length (procs s) = NPROC →
  ∃ l s', runs env (rr_pass s) = (l, Ret () s') ∧ held s' = [] ∧ StronglySorted lt l ∧
    ∀ j, runnable s j → j ∈ l.
Proof.
  intros Henv Hh Hlen. unfold rr_pass.
  rewrite (bind_ret intr_on _ _ () (s <| sie := true |>)) by reflexivity.
  destruct (rr_from env NPROC 0 (s <| sie := true |>)) as (l & s' & E & Hh' & Hs & _ & Hin); [done..|].
  exists l, s'. split_and!; [exact E|done..|]. intros j Hj. apply Hin; [lia|done].
Qed.

(** ** Loops over the process table that treat each slot by itself *)

Lemma alter_seq (g : nat → proc → proc) ps i n :
  length ps = (i + n)%nat →
  foldl (λ ps p, alter (g p) p ps) ps (seq i n) =
    imap (λ j q, if decide (i ≤ j)%nat then g j q else q) ps.
Proof.
  revert i ps. induction n as [|n IH]; intros i ps Hlen; cbn.
  - apply list_eq. intros j. rewrite list_lookup_imap.
    destruct (ps !! j) eqn:Ej; [|done]. cbn. apply lookup_lt_Some in Ej.
    by rewrite decide_False by lia.
  - rewrite IH by (rewrite length_alter; lia). apply list_eq. intros j.
    rewrite !list_lookup_imap. destruct (decide (j = i)) as [->|Hj].
    + rewrite list_lookup_alter_eq. destruct (ps !! i); [|done]. cbn.
      rewrite decide_False, decide_True by lia. done.
    + rewrite list_lookup_alter_ne by done. destruct (ps !! j); [|done]. cbn. f_equal.
      destruct (decide (S i ≤ j)%nat), (decide (i ≤ j)%nat); try done; lia.
Qed.

(** If the body turns slot [p] into [g p] of it, the loop maps [g]. *)
Lemma for_each_procs (body : nat → K ()) g s :
  length (procs s) = NPROC →
  (∀ p ps q, length ps = NPROC → ps !! p = Some q →
     body p (s <| procs := ps |>) = Ret () (s <| procs := alter (g p) p ps |>)) →
  for_each proc_table body s = Ret () (s <| procs := imap g (procs s) |>).
Proof.
  intros Hlen Hb.
  assert (∀ i n ps, length ps = (i + n)%nat → (i + n = NPROC)%nat →
    for_each (seq i n) body (s <| procs := ps |>) =
      Ret () (s <| procs := foldl (λ ps p, alter (g p) p ps) ps (seq i n) |>)) as H.
  { intros i n. revert i. induction n as [|n IH]; intros i ps Hps Hn; [done|]. cbn [seq for_each foldl].
    destruct (lookup_lt_is_Some_2 ps i) as [q Hq]; [lia|].
    erewrite bind_ret; [|apply (Hb i ps q); [lia|done]].
    apply IH; [rewrite length_alter; lia|lia]. }
  specialize (H O NPROC (procs s) Hlen eq_refl).
  replace (s <| procs := procs s |>) with s in H by same_record s. unfold proc_table. rewrite H.
  rewrite (alter_seq g) by done. f_equal.
Qed.

(** A critical section on one slot. *)
Lemma locked_proc (body : K ()) p s ps' :
  proc_lock p ∉ held s →
  body (s <| held ::= cons (proc_lock p) |>) = Ret () (s <| held ::= cons (proc_lock p) |> <| procs := ps' |>) →
  (acquire (proc_lock p);; body;; release (proc_lock p)) s = Ret () (s <| procs := ps' |>).
Proof.
  intros Hl Hb. rewrite (bind_ret _ _ _ _ _ (acquire_free _ _ Hl)), (bind_ret _ _ _ _ _ Hb).
  rewrite (release_head _ (held s)) by done. f_equal.
Qed.

(** What wakeup(chan) does to the process in slot [p] when [me] calls it. *)
Definition woken (me : option nat) (chan : chan) (now : Z) (p : nat) (q : proc) : proc :=
  if bool_decide (Some p = me) then q
  else if bool_decide (p_state q = SLEEPING) && bool_decide (p_chan q = Some chan)
  then q <| p_sleep_time ::= λ x, u32 (x + u32 (now - p_when_started_sleeping q)) |>
         <| p_state := RUNNABLE |>
  else q.

Lemma woken_other me chan now p q : Some p ≠ me → woken me chan now p q = woken None chan now p q.
Proof. intros H. unfold woken. by rewrite !bool_decide_eq_false_2 by done. Qed.

Lemma wakeup_check_eq chan p s q :
  procs s !! p = Some q →
  wakeup_check chan p s = Ret () (s <| procs ::= alter (woken None chan (ticks s) p) p |>).
Proof.
  intros Hq. unfold wakeup_check, setp. msimpl. mrun (getp_eq p _ q) by exact Hq.
  assert (alter (woken None chan (ticks s) p) p (procs s) =
    if bool_decide (p_state q = SLEEPING) && bool_decide (p_chan q = Some chan)
    then alter (λ q, q <| p_state := RUNNABLE |>) p (alter (λ q,
      q <| p_sleep_time ::= λ x, u32 (x + u32 (ticks s - p_when_started_sleeping q)) |>) p (procs s))
    else procs s) as E.
  { destruct (bool_decide (p_state q = SLEEPING) && _) eqn:Eb; unfold woken;
      [rewrite alter_alter; apply (alter_ext_lookup _ _ _ _ _ Hq)|apply (alter_id_lookup _ _ _ _ Hq)];
      by rewrite bool_decide_eq_false_2, Eb by done. }
  destruct (bool_decide (p_state q = SLEEPING) && _); cbn [when]; f_equal; unfold set; rewrite E;
    [done|same_record s].
Qed.

Lemma wakeup_one_eq chan p s ps q :
  ps !! p = Some q → (Some p = cur s ∨ proc_lock p ∉ held s) →
  wakeup_one chan p (s <| procs := ps |>) =
    Ret () (s <| procs := alter (woken (cur s) chan (ticks s) p) p ps |>).
Proof.
  intros Hq Hl. unfold wakeup_one. msimpl. unfold myproc. msimpl. unfold wakeup_steps, run_steps.
  change (cur (s <| procs := ps |>)) with (cur s).
  destruct (bool_decide_reflect (Some p = cur s)) as [Hp|Hp]; cbn [for_each].
  { rewrite (alter_id_lookup _ _ _ _ Hq); [done|]. unfold woken. by rewrite bool_decide_eq_true_2. }
  destruct Hl as [|Hl]; [done|]. msimpl. mrun acquire_free by exact Hl.
  mrun (wakeup_check_eq chan p _ q) by exact Hq. mrun (release_head _ (held s)) by done.
  f_equal. cbn. f_equal. apply (alter_ext_lookup _ _ _ _ _ Hq). by rewrite (woken_other (cur s)).
Qed.

Lemma wakeup_spec chan s :
  length (procs s) = NPROC → (∀ p, Some p = cur s ∨ proc_lock p ∉ held s) →
  wakeup chan s = Ret () (s <| procs := imap (woken (cur s) chan (ticks s)) (procs s) |>).
Proof.
  intros Hlen Hl. apply for_each_procs; [done|]. intros p ps q _ Hq. by eapply wakeup_one_eq.
Qed.

(** ** sleep *)

(** The state in which sleep(chan, lk) switches away. *)
Definition asleep (s : kernel) (p : nat) (chan : chan) : kernel :=
  s <| held := [proc_lock p] |>
    <| procs ::= alter (λ q, q <| p_chan := Some chan |> <| p_state := SLEEPING |>
                               <| p_when_started_sleeping := ticks s |>) p |>.

(** [sched] switches exactly when its four checks pass. *)
Lemma sched_eq s p q :
  cur s = Some p → held s = [proc_lock p] → procs s !! p = Some q → p_state q ≠ RUNNING →
  sched s = Swtch s (λ s', Ret () (s' <| sie := sie s |>)).
Proof.
  intros Hc Hh Hq Hr. unfold sched, curproc, myproc. msimpl. rewrite Hc. msimpl.
  unfold holding. msimpl. rewrite bool_decide_eq_true_2 by (rewrite Hh; left). msimpl.
  rewrite Hh. cbn [length]. rewrite bool_decide_eq_true_2 by done. msimpl.
  mrun (getp_eq p s q) by exact Hq. rewrite bool_decide_eq_false_2 by done. msimpl.
  unfold intr_get. msimpl. rewrite Hh, (bool_decide_eq_false_2 (_ = [])) by done.
  rewrite andb_false_r. reflexivity.
Qed.

Lemma setp_eq p f s : setp p f s = Ret () (s <| procs ::= alter f p |>).
Proof. reflexivity. Qed.

Lemma curproc_eq p s : cur s = Some p → curproc s = Ret p s.
Proof. intros Hc. unfold curproc, myproc. msimpl. by rewrite Hc. Qed.

Lemma sleep_spec s p q chan lk :
  cur s = Some p → held s = [lk] → lk ≠ proc_lock p → procs s !! p = Some q →
  ∃ k, sleep chan lk s = Swtch (asleep s p chan) k ∧
    ∀ s', held s' = [proc_lock p] →
      k s' = Ret () (s' <| sie := sie s |> <| procs ::= alter (λ q, q <| p_chan := None |>) p |>
                        <| held := [lk] |>).
Proof.
  intros Hc Hh Hn Hq. unfold sleep. msimpl. mrun (curproc_eq p) by done.
  unfold run_steps, sleep_steps. cbn [for_each]. msimpl.
  mrun acquire_free by (rewrite Hh, list_elem_of_singleton; congruence).
  mrun release_held by (cbn; rewrite Hh; right; left).
  mrun setp_eq. mrun setp_eq. mrun setp_eq.
  match goal with |- context [sched ?x] => replace x with (asleep s p chan) end.
  2:{ unfold asleep. cbn. rewrite Hh. cbn. rewrite decide_False, decide_True by congruence.
      rewrite !alter_alter. reflexivity. }
  rewrite (sched_eq _ p (q <| p_chan := Some chan |> <| p_state := SLEEPING |>
                           <| p_when_started_sleeping := ticks s |>)); [|done|done| |done].
  2:{ cbn. by rewrite list_lookup_alter_eq, Hq. }
  cbn [bindO]. eexists. split; [reflexivity|]. intros s' Hh'. cbn beta. mrun setp_eq.
  rewrite (release_head _ []) by exact Hh'. cbn [bindO].
  rewrite acquire_free by apply not_elem_of_nil. f_equal.
Qed.

(** What sleep() and wakeup() do, each run without a break.  A process that
    holds exactly the condition lock and calls sleep(chan, lk) switches away
    marked SLEEPING on chan with only its own lock held; when it is resumed it
    holds the condition lock again and sleeps on nothing.  In every later state
    in which its slot is as it left it, another thread's wakeup(chan) makes it
    RUNNABLE and adds the elapsed ticks to its sleep time, and wakeup on any
    other channel leaves the slot alone.  SleepRace.v interleaves the two. *)
Theorem sleep_wakeup s p q chan lk :
  cur s = Some p → held s = [lk] → lk ≠ proc_lock p → procs s !! p = Some q →
  ∃ k, sleep chan lk s = Swtch (asleep s p chan) k ∧
    (∀ s', held s' = [proc_lock p] →
      k s' = Ret () (s' <| sie := sie s |> <| procs ::= alter (λ q, q <| p_chan := None |>) p |>
                        <| held := [lk] |>)) ∧
    ∀ s2, length (procs s2) = NPROC → cur s2 ≠ Some p →
      (∀ j, Some j = cur s2 ∨ proc_lock j ∉ held s2) →
      procs s2 !! p = procs (asleep s p chan) !! p →
      ∀ chan', ∃ s3, wakeup chan' s2 = Ret () s3 ∧ held s3 = held s2 ∧
        procs s3 !! p = if decide (chan' = chan)
          then Some (q <| p_chan := Some chan |> <| p_state := RUNNABLE |>
                       <| p_when_started_sleeping := ticks s |>
                       <| p_sleep_time := u32 (p_sleep_time q + u32 (ticks s2 - ticks s)) |>)
          else procs s2 !! p.
Proof.
  intros Hc Hh Hn Hq. destruct (sleep_spec s p q chan lk Hc Hh Hn Hq) as (k & E & Hk).
  exists k. split; [done|]. split; [done|]. intros s2 Hlen Hc2 Hl Hp chan'.
  eexists. split; [by apply wakeup_spec|]. split; [done|].
  assert (procs s2 !! p = Some (q <| p_chan := Some chan |> <| p_state := SLEEPING |>
    <| p_when_started_sleeping := ticks s |>)) as Hp2.
  { rewrite Hp. unfold asleep. cbn. by rewrite list_lookup_alter_eq, Hq. }
  change (procs (_ <| procs := ?x |>)) with x. rewrite list_lookup_imap, Hp2. cbn -[decide].
  unfold woken. rewrite (bool_decide_eq_false_2 (Some p = cur s2)) by congruence. cbn -[decide].
  destruct (decide (chan' = chan)) as [->|Hne].
  - by rewrite !bool_decide_eq_true_2 by done.
  - by rewrite (bool_decide_eq_false_2 (_ = Some chan')), andb_false_r by congruence.
Qed.

(** ** kill *)

Definition kill_proc (q : proc) : proc :=
  if bool_decide (p_state q = SLEEPING)
  then q <| p_killed := 1 |> <| p_state := RUNNABLE |> else q <| p_killed := 1 |>.

Lemma kill_one_eq pid p s q :
  procs s !! p = Some q → proc_lock p ∉ held s →
  kill_one pid p s = if p_pid q =? pid then Ret (Some 0) (s <| procs ::= alter kill_proc p |>)
                     else Ret None s.
Proof.
  intros Hq Hl. unfold kill_one, setp. msimpl. mrun (acquire_free _ _ Hl).
  mrun (getp_eq p _ q) by exact Hq. destruct (p_pid q =? pid).
  - assert (alter kill_proc p (procs s) = if bool_decide (p_state q = SLEEPING)
      then alter (λ q, q <| p_state := RUNNABLE |>) p (alter (λ q, q <| p_killed := 1 |>) p (procs s))
      else alter (λ q, q <| p_killed := 1 |>) p (procs s)) as E.
    { rewrite alter_alter. destruct (bool_decide (p_state q = SLEEPING)) eqn:Eb;
        apply (alter_ext_lookup _ _ _ _ _ Hq); unfold kill_proc; by rewrite Eb. }
    destruct (bool_decide (p_state q = SLEEPING)); cbn [bindO];
      rewrite (release_head _ (held s)) by done; cbn [bindO]; f_equal; cbn; by rewrite E.
  - rewrite (release_head _ (held s)) by done. cbn [bindO]. f_equal. same_record s.
Qed.

Lemma kill_from pid n i s :
  length (procs s) = (i + n)%nat → (∀ p, proc_lock p ∉ held s) →
  for_ret (seq i n) (kill_one pid) s =
    match list_find (λ q, p_pid q = pid) (drop i (procs s)) with
    | Some (j, _) => Ret (Some 0) (s <| procs ::= alter kill_proc (i + j)%nat |>)
    | None => Ret None s
    end.
Proof.
  intros Hlen Hl. revert i Hlen. induction n as [|n IH]; intros i Hlen; cbn [seq for_ret].
  - by rewrite drop_ge by lia.
  - destruct (lookup_lt_is_Some_2 (procs s) i) as [q Hq]; [lia|].
    rewrite (drop_S _ _ _ Hq). cbn [list_find]. msimpl. mrun (kill_one_eq pid i s q Hq (Hl i)).
    destruct (Z.eqb_spec (p_pid q) pid) as [Hp|Hp].
    + rewrite decide_True by done. cbn. by rewrite Nat.add_0_r.
    + rewrite decide_False by done. cbn [bindO]. fold (for_ret (S := kernel) (A := nat) (R := Z)).
      rewrite (IH (S i)) by lia. destruct (list_find _ _) as [[j r]|]; cbn; [|done].
      by rewrite Nat.add_succ_r.
Qed.

(** kill(pid) marks the first process with that pid as killed, wakes it if
    it sleeps, changes nothing else and returns 0; with no such process it
    changes nothing and returns -1.  Every lock it takes it gives back. *)
Theorem kill_correct s pid :
  length (procs s) = NPROC → (∀ p, proc_lock p ∉ held s) →
  kill pid s =
    match list_find (λ q, p_pid q = pid) (procs s) with
    | Some (p, _) => Ret 0 (s <| procs ::= alter kill_proc p |>)
    | None => Ret (-1) s
    end.
Proof.
  intros Hlen Hl. unfold kill. msimpl. unfold proc_table.
  rewrite (kill_from pid NPROC 0 s Hlen Hl), drop_0.
  by destruct (list_find _ _) as [[j r]|].
Qed.

(** ** The lottery *)

Definition idle (q : proc) : Prop := p_state q ≠ RUNNABLE.

Lemma total_tickets_one l1 q l2 :
  Forall idle l1 → Forall idle l2 → p_state q = RUNNABLE →
  total_tickets (l1 ++ q :: l2) = i32 (p_tickets q).
Proof.
  intros H1 H2 Hq. unfold total_tickets.
  assert (∀ t l, Forall idle l → foldl (λ t q, if bool_decide (p_state q = RUNNABLE)
    then i32 (t + p_tickets q) else t) t l = t) as H.
  { intros t l Hl. induction Hl as [|x l Hx Hl IH]; [done|]. cbn.
    by rewrite bool_decide_eq_false_2. }
  rewrite foldl_app, (H 0 l1 H1). cbn. rewrite bool_decide_eq_true_2 by done. by rewrite H.
Qed.

Lemma lbs_idle s l i :
  held s = [] → (∀ j q, (i ≤ j < i + l)%nat → procs s !! j = Some q → idle q) →
  (i + l ≤ length (procs s))%nat →
  for_each (seq i l) lbs_step s = Ret () s.
Proof.
  intros Hh. revert i. induction l as [|l IH]; intros i Hi Hl; [done|]. cbn [seq for_each].
  destruct (lookup_lt_is_Some_2 (procs s) i) as [q Hq]; [lia|].
  rewrite (bind_ret _ _ _ () s).
  { apply IH; [|lia]. intros j r Hj. apply Hi. lia. }
  unfold lbs_step. msimpl. mrun acquire_free by (rewrite Hh; apply not_elem_of_nil).
  mrun (getp_eq i _ q) by exact Hq. rewrite bool_decide_eq_false_2 by (apply (Hi i); [lia|done]).
  cbn [bindO]. rewrite (release_head _ []) by (cbn; by rewrite Hh). f_equal.
  rewrite <- Hh. same_record s.
Qed.

(** The lottery scheduler adds the tickets up in an int, so a process that
    holds 2^31 tickets makes the total negative and its own probability -1:
    when it is the only RUNNABLE process the kernel panics.  settickets()
    accepts any number from the process itself. *)
Theorem lbs_ticket_overflow s p q :
  held s = [] → length (procs s) = NPROC → procs s !! p = Some q → p_state q = RUNNABLE →
  p_tickets q = 2 ^ 31 → (∀ j r, j ≠ p → procs s !! j = Some r → p_state r ≠ RUNNABLE) →
  ∃ s', lbs_pass s = Panic "LBS: success probability out of bounds" s'.
Proof.
  intros Hh Hlen Hq Hr Ht Hi.
  assert (total_tickets (procs s) = i32 (p_tickets q)) as Htot.
  { rewrite <- (take_drop_middle (procs s) p q Hq). apply total_tickets_one; [| |done].
    - apply Forall_lookup_2. intros j r [Hj Hl]%lookup_take_Some. apply (Hi j r); [lia|done].
    - apply Forall_lookup_2. intros j r Hj. rewrite lookup_drop in Hj.
      apply (Hi (S p + j)%nat r); [lia|done]. }
  unfold lbs_pass.
  rewrite (bind_ret intr_on _ _ () (s <| sie := true |>)) by reflexivity.
  pose proof (lookup_lt_Some _ _ _ Hq) as Hp. unfold proc_table.
  replace NPROC with (p + S (NPROC - S p))%nat by lia.
  rewrite seq_app, (for_each_app _ _ _ _ (s <| sie := true |>)).
  2:{ apply lbs_idle; [done| |cbn; lia]. intros j r Hj Hr'. apply (Hi j r); [lia|done]. }
  cbn [seq for_each]. eexists. apply bind_panic. unfold lbs_step. msimpl.
  mrun acquire_free by (cbn; rewrite Hh; apply not_elem_of_nil).
  mrun (getp_eq p _ q) by exact Hq. rewrite bool_decide_eq_true_2 by done. msimpl.
  cbn [procs set]. rewrite Htot, Ht. reflexivity.
Qed.

(** A process that has neither run nor slept yet divides 0 by 0, and the
    conversion of that NaN to int makes its niceness -10: the priority
    scheduler treats every new process as 15 points worse than its static
    priority, where a niceness between 0 and 10 allows at most 5. *)
Theorem new_process_priority q :
  p_sleep_time q = 0 → p_rtime q = 0 → 0 ≤ p_static_priority q ≤ 100 →
  dynamic_priority q = Z.min 100 (p_static_priority q + 15).
Proof.
  intros Hs Hr Hp. unfold dynamic_priority. rewrite Hs, Hr.
  replace (i32 (f32_to_i32 _ * 10)) with (-10) by (symmetry; vm_compute; reflexivity).
  rewrite i32_small by lia. destruct (Z.ltb_spec (p_static_priority q - -10 + 5) 0); [lia|].
  destruct (Z.ltb_spec 100 (p_static_priority q - -10 + 5)); lia.
Qed.

(** ** Examples *)

Definition ex_proc (st : procstate) (pid ctime prio tickets : Z) : proc :=
  proc0 <| p_state := st |> <| p_pid := pid |> <| p_ctime := ctime |>
        <| p_static_priority := prio |> <| p_tickets := tickets |>.

(** Three processes, the second the oldest, the third the most urgent. *)
Definition ex_procs : list proc :=
  ex_proc RUNNABLE 1 9 60 1 :: ex_proc RUNNABLE 2 3 60 1 :: ex_proc RUNNABLE 3 5 20 1 ::
  replicate (NPROC - 3) proc0.

Definition ex_sched : kernel := kernel0 <| procs := ex_procs |>.

(** A process that uses its quantum and yields. *)
Definition ex_yield (s : kernel) : kernel :=
  match cur s with
  | Some p => s <| procs ::= alter (λ q, q <| p_state := RUNNABLE |>) p |>
  | None => s
  end.

Lemma fcfs_pass_correct_witness :
  ∃ o, least p_ctime (procs ex_sched) NPROC o ∧ pass_runs ex_sched o (fcfs_pass ex_sched).
Proof.
  apply (fcfs_pass_correct ex_sched).
  - reflexivity.
  - reflexivity.
  - apply (bool_decide_unpack _). vm_compute. exact I.
Defined.

Lemma pbs_pass_correct_witness :
  ∃ o, least dynamic_priority (procs ex_sched) NPROC o ∧ pass_runs ex_sched o (pbs_pass ex_sched).
Proof. apply (pbs_pass_correct ex_sched); reflexivity. Defined.

Lemma rr_pass_fair_witness :
  gives_back ex_yield ∧
  ∃ l s', runs ex_yield (rr_pass ex_sched) = (l, Ret () s') ∧ held s' = [] ∧ StronglySorted lt l ∧
    ∀ j, runnable ex_sched j → j ∈ l.
Proof.
  assert (gives_back ex_yield) as H.
  { intros s p Hc Hh. unfold ex_yield. rewrite Hc. split; [exact Hh|]. split; [apply length_alter|].
    intros j Hj. apply runnable_alter. exact Hj. }
  split; [exact H|]. apply (rr_pass_fair ex_yield ex_sched H); reflexivity.
Defined.

(** Process 2 sleeps until a clock tick. *)
Definition ex_sleeper : kernel := ex_sched <| cur := Some 1%nat |> <| held := [tickslock] |> <| ticks := 40 |>.
Definition ex_tick : kernel := asleep ex_sleeper 1 chan_ticks <| cur := Some 0%nat |> <| held := [tickslock] |> <| ticks := 41 |>.

Lemma sleep_wakeup_witness :
  ∃ k, sleep chan_ticks tickslock ex_sleeper = Swtch (asleep ex_sleeper 1 chan_ticks) k ∧
  ∃ s3, wakeup chan_ticks ex_tick = Ret () s3 ∧
    (p_state <$> procs s3 !! 1%nat) = Some RUNNABLE ∧ (p_sleep_time <$> procs s3 !! 1%nat) = Some 1.
Proof.
  destruct (sleep_wakeup ex_sleeper 1 (ex_proc RUNNABLE 2 3 60 1) chan_ticks tickslock) as (k & E & _ & H).
  - reflexivity.
  - reflexivity.
  - intros [=].
  - reflexivity.
  - exists k. split; [exact E|].
    destruct (H ex_tick) with (chan' := chan_ticks) as (s3 & Hw & _ & Hp).
    + reflexivity.
    + intros [=].
    + intros j. right. change (proc_lock j ∉ [tickslock]). rewrite list_elem_of_singleton. intros [=].
    + vm_compute. reflexivity.
    + exists s3. split; [exact Hw|]. rewrite decide_True in Hp by reflexivity. rewrite Hp.
      split; reflexivity.
Defined.

Lemma kill_correct_witness :
  kill 3 ex_sched = Ret 0 (ex_sched <| procs ::= alter kill_proc 2%nat |>) ∧
  kill 77 ex_sched = Ret (-1) ex_sched.
Proof.
  split.
  - rewrite (kill_correct ex_sched 3); [reflexivity|reflexivity|]. intros p. apply not_elem_of_nil.
  - rewrite (kill_correct ex_sched 77); [reflexivity|reflexivity|]. intros p. apply not_elem_of_nil.
Defined.

Definition ex_lottery : kernel :=
  kernel0 <| procs := ex_proc RUNNABLE 1 0 60 (2 ^ 31) :: replicate (NPROC - 1) proc0 |>.

Lemma lbs_ticket_overflow_witness :
  ∃ s', lbs_pass ex_lottery = Panic "LBS: success probability out of bounds" s'.
Proof.
  apply (lbs_ticket_overflow ex_lottery 0 (ex_proc RUNNABLE 1 0 60 (2 ^ 31))); try reflexivity.
  intros [|j] r Hj Hr; [done|]. apply lookup_replicate in Hr as [-> _]. intros [=].
Defined.

Lemma new_process_priority_witness : dynamic_priority (ex_proc RUNNABLE 1 0 60 1) = 75.
Proof.
  rewrite (new_process_priority (ex_proc RUNNABLE 1 0 60 1)); [reflexivity|reflexivity|reflexivity|].
  cbn. lia.
Defined.
