(* ===== verification/SleepRace.v ===== *)
(** * sleep() against wakeup() on another CPU

    Two CPUs run kernel threads statement by statement over one kernel state.
    Each has its own current process, locks and interrupt flag; a lock that one
    of them holds keeps the other from taking it.  A thread that calls swtch()
    leaves its CPU to the scheduler of Sched.v, which gives up the process's
    lock and looks at the process again, under that lock, until it is RUNNABLE.
    One thread is in sleep(chan, lk), the other takes [lk] and calls
    wakeup(chan): whatever the order of their statements, both finish. *)

From Stdlib Require Import ZArith Lia.
From stdpp Require Import base numbers strings option list gmap relations.
From S2P Require Import Prelude Params Machine Float32 Sched SchedFacts.

Open Scope Z_scope.

(** ** The machine *)

(** What a CPU does: the statements left of a thread, or the scheduler, with
    its statements left and the thread it will resume: process, continuation,
    statements. *)
Inductive code :=
| Run (l : list (K ()))
| Sched (bs : list (K ())) (p : nat) (k : kernel → outcome kernel ()) (l : list (K ())).

Record cpu := mkCpu { c_cur : option nat; c_held : list lockid; c_sie : bool; c_code : code }.

(** The state as a CPU sees it. *)
Definition seen (c : cpu) (s : kernel) : kernel :=
  s <| cur := c_cur c |> <| held := c_held c |> <| sie := c_sie c |>.

(** The CPU after a step to [s]. *)
Definition leave (s : kernel) (d : code) : cpu := mkCpu (cur s) (held s) (sie s) d.

(** What the scheduler does when a thread switches back to it: the rest of
    [run_proc] and of [rr_step]. *)
Definition switch_back (p : nat) : list (K ()) := [set_cur None; release (proc_lock p)].

(** One step of a CPU, if it has one: a statement of the thread or of the
    scheduler, or the scheduler's resumption of a process it finds RUNNABLE.  A
    look at a process that is not RUNNABLE changes nothing and is no step. *)
Definition cpu_next (s : kernel) (c : cpu) : option (kernel * cpu) :=
  match c_code c with
  | Run [] => None
  | Run (a :: l) =>
      match a (seen c s) with
      | Ret _ s' => Some (s', leave s' (Run l))
      | Swtch s' k => p ← cur s'; Some (s', leave s' (Sched (switch_back p) p k l))
      | _ => None
      end
  | Sched (a :: bs) p k l =>
      match a (seen c s) with
      | Ret _ s' => Some (s', leave s' (Sched bs p k l))
      | _ => None
      end
  | Sched [] p k l =>
      match rr_step p (seen c s) with
      | Swtch s1 _ =>
          match k s1 with Ret _ s' => Some (s', leave s' (Run l)) | _ => None end
      | _ => None
      end
  end.

Definition disjoint_locks (c d : cpu) : Prop := ∀ l, l ∈ c_held c → l ∉ c_held d.

(** The two CPUs interleaved; a CPU waits while a lock it needs is held by the
    other. *)
Inductive step : kernel * cpu * cpu → kernel * cpu * cpu → Prop :=
| step_fst s c d s' c' :
    cpu_next s c = Some (s', c') → disjoint_locks c' d → step (s, c, d) (s', c', d)
| step_snd s c d s' d' :
    cpu_next s d = Some (s', d') → disjoint_locks c d' → step (s, c, d) (s', c, d').

(** [switch_back] is what [rr_step] does after its switch. *)
Lemma rr_step_switch s p q :
  procs s !! p = Some q → p_state q = RUNNABLE → proc_lock p ∉ held s →
  ∃ k, rr_step p s = Swtch (s <| held ::= cons (proc_lock p) |>
      <| procs ::= alter (λ q, q <| p_state := RUNNING |>) p |> <| cur := Some p |>) k ∧
    ∀ s', k s' = run_steps (switch_back p) s'.
Proof.
  intros Hq Hr Hl. unfold rr_step, run_proc. msimpl. mrun acquire_free by exact Hl.
  mrun (getp_eq p _ q) by exact Hq. rewrite Hr. cbn. eexists. split; [reflexivity|].
  intros s'. unfold run_steps, switch_back, set_cur. cbn [for_each]. msimpl.
  unfold release, holding. msimpl. by case_bool_decide.
Qed.

Lemma rr_step_wait s p q :
  procs s !! p = Some q → p_state q ≠ RUNNABLE → proc_lock p ∉ held s → rr_step p s = Ret () s.
Proof.
  intros Hq Hr Hl. unfold rr_step. msimpl. mrun acquire_free by exact Hl.
  mrun (getp_eq p _ q) by exact Hq. rewrite bool_decide_eq_false_2 by done. cbn [when bindO].
  rewrite (release_head _ (held s)) by done. f_equal. same_record s.
Qed.

(** ** The race *)

Section race.
Context (chan : chan) (lk : lockid) (p : nat) (me : option nat).

(** The other thread: acquire(lk); wakeup(chan); release(lk). *)
Definition waker_steps : list (K ()) :=
  acquire lk :: (proc_table ≫= wakeup_steps me chan) ++ [release lk].

(** The sleeping thread holds [lk], the other no lock. *)
Definition racing (s : kernel) (ie ie' : bool) : kernel * cpu * cpu :=
  (s, mkCpu (Some p) [lk] ie (Run (sleep_steps chan lk p)), mkCpu me [] ie' (Run waker_steps)).

Definition others : list nat := filter (λ j, Some j ≠ me) proc_table.

Definition slot_steps (j : nat) : list (K ()) :=
  [ acquire (proc_lock j); wakeup_check chan j; release (proc_lock j) ].

Definition slots (js : list nat) : Prop := NoDup js ∧ Forall (λ j, (j < NPROC)%nat) js.

(** How far wakeup() is with respect to [p]. *)
Inductive stage := NotYet | Pending | Done.

Definition stage_of (js : list nat) : stage := if bool_decide (p ∈ js) then Pending else Done.

(** Where the waking thread is: before acquire(lk); with slots [js] left; in the
    critical section of slot [j], before and after its body; finished. *)
Inductive waker : stage → cpu → Prop :=
| waker_start ie : waker NotYet (mkCpu me [] ie (Run (acquire lk :: (others ≫= slot_steps) ++ [release lk])))
| waker_slots ie js :
    slots js → waker (stage_of js) (mkCpu me [lk] ie (Run ((js ≫= slot_steps) ++ [release lk])))
| waker_check ie j js :
    slots (j :: js) → waker (stage_of (j :: js)) (mkCpu me [proc_lock j; lk] ie
      (Run (wakeup_check chan j :: release (proc_lock j) :: (js ≫= slot_steps) ++ [release lk])))
| waker_checked ie j js :
    slots js → waker (stage_of js) (mkCpu me [proc_lock j; lk] ie
      (Run (release (proc_lock j) :: (js ≫= slot_steps) ++ [release lk])))
| waker_end ie : waker Done (mkCpu me [] ie (Run [])).

Definition sleeping_at (h : list lockid) (ie : bool) (n : nat) : cpu :=
  mkCpu (Some p) h ie (Run (drop n (sleep_steps chan lk p))).

(** The CPU of the sleeper while the scheduler has it. *)
Definition parked (cu : option nat) (h : list lockid) (ie ie' : bool) (bs : list (K ())) : cpu :=
  mkCpu cu h ie (Sched bs p (λ s, Ret () (s <| sie := ie' |>)) (drop 6 (sleep_steps chan lk p))).

Definition marked (q : proc) : Prop := p_state q = SLEEPING ∧ p_chan q = Some chan.

(** Where the sleeper is, with its slot [q], and what wakeup() has done by then:
    as long as the mark is not in the slot or the lock is held, wakeup() has not
    looked at it. *)
Inductive sleeper (q : proc) : stage → cpu → Prop :=
| sl_start ie : sleeper q NotYet (sleeping_at [lk] ie 0)
| sl_locked ie : sleeper q NotYet (sleeping_at [proc_lock p; lk] ie 1)
| sl_released ie w : w ≠ Done → sleeper q w (sleeping_at [proc_lock p] ie 2)
| sl_chan ie w : w ≠ Done → p_chan q = Some chan → sleeper q w (sleeping_at [proc_lock p] ie 3)
| sl_marked ie w n : w ≠ Done → marked q → n = 4%nat ∨ n = 5%nat → sleeper q w (sleeping_at [proc_lock p] ie n)
| sl_switched ie ie' w : w ≠ Done → marked q →
    sleeper q w (parked (Some p) [proc_lock p] ie ie' (switch_back p))
| sl_idle ie ie' w : w ≠ Done → marked q →
    sleeper q w (parked None [proc_lock p] ie ie' [release (proc_lock p)])
| sl_asleep ie ie' w : w ≠ Done → marked q → sleeper q w (parked None [] ie ie' [])
| sl_woken ie ie' : p_state q = RUNNABLE → sleeper q Done (parked None [] ie ie' [])
| sl_resumed ie : p_state q = RUNNING → sleeper q Done (sleeping_at [proc_lock p] ie 6)
| sl_tidied ie : p_state q = RUNNING → p_chan q = None → sleeper q Done (sleeping_at [proc_lock p] ie 7)
| sl_free ie : p_state q = RUNNING → p_chan q = None → sleeper q Done (sleeping_at [] ie 8)
| sl_end ie : p_state q = RUNNING → p_chan q = None → sleeper q Done (sleeping_at [lk] ie 9).

Definition race_inv (x : kernel * cpu * cpu) : Prop :=
  let '(s, c, d) := x in
  disjoint_locks c d ∧ length (procs s) = NPROC ∧
  ∃ q w, procs s !! p = Some q ∧ sleeper q w c ∧ waker w d.

(** Steps left, with three for a switch. *)
Definition weight (c : cpu) : nat :=
  match c_code c with
  | Run l => 4 * length l
  | Sched bs _ _ l => 4 * length l + 1 + length bs
  end.

Context (Hp : (p < NPROC)%nat) (Hme : Some p ≠ me) (Hlk : ∀ j, lk ≠ proc_lock j).

Lemma waker_steps_eq : waker_steps = acquire lk :: (others ≫= slot_steps) ++ [release lk].
Proof.
  unfold waker_steps, others. do 2 f_equal. induction proc_table as [|j js IH]; [done|].
  rewrite filter_cons. cbn. rewrite IH. unfold wakeup_steps at 1. case_bool_decide.
  - by rewrite decide_False by naive_solver.
  - by rewrite decide_True.
Qed.

Lemma weight_next s c s' c' : cpu_next s c = Some (s', c') → (weight c' < weight c)%nat.
Proof.
  unfold cpu_next, weight. destruct (c_code c) as [[|a l]|[|a bs] i k l]; cbn; intros E; [done|..].
  - destruct (a _) as [? ?| | |]; simplify_option_eq; cbn; lia.
  - destruct (rr_step _ _); [done..| |done]. destruct (k _); simplify_eq; cbn; lia.
  - destruct (a _); simplify_eq; cbn; lia.
Qed.

Definition locks_kept (w : stage) (c c' : cpu) : Prop :=
  w = NotYet ∨ c_held c = [] ∨ c_held c' ⊆ c_held c.

Ltac locks := first [by left | by right; left | right; right; cbn; set_solver].

(** The sleeper takes its next step unless it sleeps or has returned.  It takes a
    lock only before it has released [lk] or when it holds none. *)
Lemma sleeper_next s c q w :
  procs s !! p = Some q → length (procs s) = NPROC → sleeper q w c →
  match cpu_next s c with
  | Some (s', c') => length (procs s') = NPROC ∧ locks_kept w c c' ∧
      ∃ q', procs s' !! p = Some q' ∧ sleeper q' w c'
  | None => w ≠ Done ∧ c_held c = [] ∨ w = Done ∧ c_code c = Run [] ∧ c_cur c = Some p ∧
      c_held c = [lk] ∧ p_state q = RUNNING ∧ p_chan q = None
  end.
Proof.
  intros Hq Hl Hs. destruct Hs; try (destruct_or!; subst n); unfold cpu_next;
    cbn [c_code sleeping_at parked drop sleep_steps switch_back].
  - rewrite acquire_free by (cbn; set_solver). split; [done|]. split; [locks|]. exists q. split; [done|]. apply (sl_locked q ie).
  - rewrite release_held by (cbn; set_solver). split; [done|]. split; [locks|]. exists q. split; [done|].
    unfold leave. cbn. rewrite decide_False by done. rewrite decide_True by done. by apply (sl_released q ie).
  - cbn. rewrite length_alter, list_lookup_alter_eq, Hq. split; [done|]. split; [locks|]. eexists. split; [done|].
    by apply (sl_chan _ ie).
  - cbn. rewrite length_alter, list_lookup_alter_eq, Hq. split; [done|]. split; [locks|]. eexists. split; [done|].
    apply (sl_marked _ ie w 4); [done|by split|by left].
  - msimpl. cbn. rewrite length_alter, list_lookup_alter_eq, Hq. split; [done|]. split; [locks|]. eexists. split; [done|].
    apply (sl_marked _ ie w 5); [done|done|by right].
  - destruct H0 as [Hz Hc]. rewrite (sched_eq _ p q) by (done || by rewrite Hz). cbn.
    split; [done|]. split; [locks|]. exists q. split; [done|]. by apply (sl_switched _ ie ie).
  - cbn. split; [done|]. split; [locks|]. exists q. split; [done|]. by apply (sl_idle _ ie ie').
  - rewrite (release_head _ []) by done. split; [done|]. split; [locks|]. exists q. split; [done|]. by apply (sl_asleep _ ie ie').
  - destruct H0 as [Hz Hc]. rewrite (rr_step_wait _ p q);
      [by left|done|by rewrite Hz|apply not_elem_of_nil].
  - destruct (rr_step_switch (seen (parked None [] ie ie' []) s) p q) as (k & -> & _); [done|done|set_solver|].
    cbn. rewrite length_alter, list_lookup_alter_eq, Hq. split; [done|]. split; [locks|]. eexists. split; [done|].
    by apply (sl_resumed _ ie').
  - cbn. rewrite length_alter, list_lookup_alter_eq, Hq. split; [done|]. split; [locks|]. eexists. split; [done|].
    by apply (sl_tidied _ ie).
  - rewrite (release_head _ []) by done. split; [done|]. split; [locks|]. exists q. split; [done|]. by apply (sl_free _ ie).
  - rewrite acquire_free by (cbn; set_solver). split; [done|]. split; [locks|]. exists q. split; [done|]. by apply (sl_end _ ie).
  - by right.
Qed.

(** A slot that wakeup() has passed. *)
Definition passed (q : proc) (w : stage) (q' : proc) (w' : stage) (d : cpu) : Prop :=
  (q' = q ∧ w' = w) ∨ (q' = q ∧ w = NotYet ∧ w' = Pending ∧ lk ∈ c_held d) ∨
  (∃ now, q' = woken None chan now p q ∧ w = Pending ∧ w' = Done ∧ proc_lock p ∈ c_held d).

(** The sleeper's place is unaffected by the waking thread, but for the wakeup. *)
Lemma sleeper_passed q w q' w' c d :
  sleeper q w c → disjoint_locks c d → passed q w q' w' d → sleeper q' w' c.
Proof.
  intros Hs Hd [[-> ->]|[(-> & -> & -> & Hl)|(now & -> & -> & -> & Hl)]]; [done|..].
  - inversion Hs; subst; try (by econstructor); try (destruct (Hd lk); [cbn; set_solver|done]).
  - inversion Hs; subst; try (destruct (Hd (proc_lock p)); [cbn; set_solver|done]).
    destruct H0 as [Hz Hc]. 
    apply sl_woken. unfold woken. rewrite (bool_decide_eq_false_2 (Some p = None)) by done.
    by rewrite !bool_decide_eq_true_2 by done.
Qed.

Lemma stage_skip j js : j ≠ p → stage_of (j :: js) = stage_of js.
Proof. intros H. unfold stage_of. by rewrite (bool_decide_ext (p ∈ j :: js) (p ∈ js)) by set_solver. Qed.

(** The waking thread takes its next step unless it has finished. *)
Lemma waker_next s d q w :
  procs s !! p = Some q → length (procs s) = NPROC → waker w d →
  match cpu_next s d with
  | Some (s', d') => length (procs s') = NPROC ∧
      ∃ q' w', procs s' !! p = Some q' ∧ waker w' d' ∧ passed q w q' w' d'
  | None => w = Done ∧ ∃ ie, d = mkCpu me [] ie (Run [])
  end.
Proof.
  intros Hq Hl Hw. destruct Hw; unfold cpu_next; cbn [c_code].
  - rewrite acquire_free by apply not_elem_of_nil. split; [done|]. exists q, Pending. split; [done|].
    split; [|right; left; repeat split; left].
    replace Pending with (stage_of others).
    { apply (waker_slots ie). split; [apply NoDup_filter, NoDup_seq|]. apply Forall_forall.
      intros j Hj. apply list_elem_of_filter in Hj as [_ Hj%elem_of_seq]. lia. }
    unfold stage_of. rewrite bool_decide_eq_true_2; [done|]. apply list_elem_of_filter.
    split; [done|]. apply elem_of_seq. lia.
  - destruct js as [|j js]; cbn [mbind list_bind app slot_steps].
    + rewrite (release_head _ []) by done. split; [done|]. exists q, Done. split; [done|].
      split; [apply (waker_end ie)|by left].
    + rewrite acquire_free by (cbn; set_solver). split; [done|]. exists q, (stage_of (j :: js)).
      split; [done|]. split; [by apply (waker_check ie)|by left].
  - destruct H as [[Hj Hn]%NoDup_cons [Hjn Hf]%Forall_cons].
    destruct (lookup_lt_is_Some_2 (procs s) j) as [r Hr]; [lia|].
    rewrite (wakeup_check_eq chan j _ r) by exact Hr. cbn [procs set]. rewrite length_alter.
    split; [done|]. destruct (decide (j = p)) as [->|Hjp].
    + exists (woken None chan (ticks s) p q), Done. split; [cbn; by rewrite list_lookup_alter_eq, Hq|].
      assert (stage_of js = Done) as Ed by (unfold stage_of; by rewrite bool_decide_eq_false_2).
      split; [rewrite <- Ed; by apply (waker_checked ie)|]. right. right. eexists. split; [done|].
      unfold stage_of at 1. rewrite bool_decide_eq_true_2 by left.
      split; [done|]. split; [done|]. left.
    + exists q, (stage_of js). split; [by rewrite list_lookup_alter_ne|].
      split; [by apply (waker_checked ie)|]. left. by rewrite stage_skip.
  - rewrite (release_head _ [lk]) by done. split; [done|]. exists q, (stage_of js). split; [done|].
    split; [by apply (waker_slots ie)|by left].
  - eauto.
Qed.

(** The invariant holds throughout. *)
Lemma race_inv_init s ie ie' q :
  length (procs s) = NPROC → procs s !! p = Some q → race_inv (racing s ie ie').
Proof.
  intros Hl Hq. split; [intros l _; apply not_elem_of_nil|]. split; [done|]. exists q, NotYet.
  split; [done|]. split; [apply sl_start|]. rewrite waker_steps_eq. apply waker_start.
Qed.

Lemma race_inv_step x y : race_inv x → step x y → race_inv y.
Proof.
  intros HI Hs. destruct Hs as [s c d s' c' E Hd|s c d s' d' E Hd];
    destruct HI as (Hd0 & Hl & q & w & Hq & Hsl & Hw).
  - pose proof (sleeper_next s c q w Hq Hl Hsl) as H. rewrite E in H.
    destruct H as (Hl' & _ & q' & Hq' & Hsl'). split; [done|]. split; [done|]. eauto.
  - pose proof (waker_next s d q w Hq Hl Hw) as H. rewrite E in H.
    destruct H as (Hl' & q' & w' & Hq' & Hw' & Hp'). split; [done|]. split; [done|].
    exists q', w'. split; [done|]. split; [|done]. by eapply sleeper_passed.
Qed.

Lemma waker_ended w d : waker w d → c_code d = Run [] → w = Done.
Proof.
  intros Hw E. destruct Hw; [discriminate E| |discriminate E|discriminate E|done].
  injection E as E. by apply app_eq_nil in E as [_ E].
Qed.

Lemma race_inv_nsteps n x y :
  race_inv x → nsteps step n x y →
  race_inv y ∧ (n + (weight (y.1.2) + weight (y.2)) ≤ weight (x.1.2) + weight (x.2))%nat.
Proof.
  intros HI Hn. induction Hn as [x|n x y z Hs Hn IH]; [done|].
  destruct (IH (race_inv_step _ _ HI Hs)) as [Hz Hw]. split; [done|].
  destruct Hs as [s c d s' c' E _|s c d s' d' E _]; apply weight_next in E; cbn in *; lia.
Qed.

Definition finished (x : kernel * cpu * cpu) : Prop :=
  let '(s, c, d) := x in
  c_code c = Run [] ∧ c_cur c = Some p ∧ c_held c = [lk] ∧ c_code d = Run [] ∧ c_held d = [] ∧
  ∃ q, procs s !! p = Some q ∧ p_state q = RUNNING ∧ p_chan q = None.

(** No deadlock: from every state of the invariant a CPU can go on, or both
    have finished. *)
Lemma race_inv_progress x : race_inv x → finished x ∨ ∃ y, step x y.
Proof.
  destruct x as [[s c] d]. intros (Hd & Hl & q & w & Hq & Hsl & Hw).
  assert (∀ s' c', cpu_next s c = Some (s', c') → c_held d = [] → ∃ y, step (s, c, d) y) as Hfst.
  { intros s' c' E Hh. eexists. apply (step_fst _ _ _ _ _ E). intros l _. rewrite Hh. apply not_elem_of_nil. }
  assert (w = NotYet → c_held d = []) as Hny.
  { intros ->. inversion Hw; unfold stage_of in *; try done; by case_bool_decide. }
  pose proof (waker_next s d q w Hq Hl Hw) as HW. pose proof (sleeper_next s c q w Hq Hl Hsl) as HS.
  destruct (cpu_next s c) as [[s' c']|] eqn:EC.
  - right. destruct HS as (_ & [Hn|[Hn|Hn]] & _); [by eauto|..].
    + destruct (cpu_next s d) as [[s1 d1]|] eqn:ED.
      * eexists. apply (step_snd _ _ _ _ _ ED). intros l. rewrite Hn. by intros ?%not_elem_of_nil.
      * destruct HW as (_ & ie & ->). by eapply Hfst.
    + eexists. apply (step_fst _ _ _ _ _ EC). intros l Hin. apply Hd, Hn, Hin.
  - destruct HS as [[Hn Hh]|(-> & HS)].
    + right. destruct (cpu_next s d) as [[s1 d1]|] eqn:ED; [|by destruct HW].
      eexists. apply (step_snd _ _ _ _ _ ED). intros l. rewrite Hh. by intros ?%not_elem_of_nil.
    + left. destruct HS as (? & ? & Hh & ? & ?). assert (lk ∉ c_held d) as Hlkd by (apply Hd; rewrite Hh; left).
      inversion Hw; subst; try (destruct Hlkd; cbn; set_solver). naive_solver.
Qed.

End race.

(** C24: sleep() and wakeup() lose no wakeup.  A process that holds the condition
    lock calls sleep(chan, lk) while a thread on another CPU takes that lock,
    calls wakeup(chan) and releases it, their statements in any order the locks
    allow.  Every run is finite: it has at most four times as many steps as the
    two threads have statements.  No reachable state is a deadlock or
    a panic: a state without a next step is one in which wakeup() has returned
    with no lock held and sleep() has returned with the condition lock held
    again, its process RUNNING and on no channel.  As soon as wakeup() is
    through, the process is no longer marked as SLEEPING on the channel. *)
Theorem no_lost_wakeup chan lk p me s ie ie' n x :
  (p < NPROC)%nat → length (procs s) = NPROC → Some p ≠ me → (∀ j, lk ≠ proc_lock j) →
  nsteps step n (racing chan lk p me s ie ie') x →
  (n ≤ 4 * (length (sleep_steps chan lk p) + length (waker_steps chan lk me)))%nat ∧
  (finished lk p x ∨ ∃ y, step x y) ∧
  (c_code (x.2) = Run [] → ∀ q, procs (x.1.1) !! p = Some q → ¬ marked chan q).
Proof.
  intros Hp Hl Hme Hlk Hn. destruct (lookup_lt_is_Some_2 (procs s) p) as [q Hq]; [lia|].
  destruct (race_inv_nsteps _ _ _ _ Hp Hme Hlk _ _ _ (race_inv_init chan lk p me s ie ie' q Hl Hq) Hn) as [HI Hw].
  split; [unfold weight in Hw; cbn [racing fst snd c_code] in Hw; lia|].
  split; [by eapply race_inv_progress|].
  destruct x as [[s' c] d]. destruct HI as (_ & _ & q' & w & Hq' & Hsl & Hwk). cbn [fst snd].
  intros Hd q'' Hq'' [Hz _]. rewrite Hq' in Hq''. injection Hq'' as <-.
  apply (waker_ended _ _ _ _ _ _ Hwk) in Hd as ->. inversion Hsl; subst; congruence.
Qed.

(** Process 1 sleeps and a thread of process 2 wakes the channel. *)
Lemma no_lost_wakeup_witness :
  ∃ x, nsteps step 1 (racing chan_ticks tickslock 1 (Some 2%nat) ex_sched true true) x ∧
  (finished tickslock 1 x ∨ ∃ y, step x y).
Proof.
  assert (∃ x, nsteps step 1 (racing chan_ticks tickslock 1 (Some 2%nat) ex_sched true true) x) as [x Hx].
  { eexists. eapply nsteps_once, step_fst; [reflexivity|]. intros l _. apply not_elem_of_nil. }
  exists x. split; [done|].
  apply (no_lost_wakeup chan_ticks tickslock 1 (Some 2%nat) ex_sched true true 1 x);
    [unfold NPROC; lia|reflexivity|done|done|done].
Defined.
