(* ===== verification/Uart.v ===== *)
(** * The UART driver (kernel/uart.c) and formatted output (kernel/printf.c)

    The hardware is the state's [uart] record: [rx] holds received bytes,
    [tx_idle] the answers of the line status register, [printed] the bytes
    written to the transmit register.  Threads that wait in a loop around
    sleep() are given [patience] rounds. *)

From Stdlib Require Import ZArith Lia.
From stdpp Require Import base numbers strings option list gmap.
From S2P Require Import Prelude Params Machine Cstring Sched.

Open Scope Z_scope.

(** How often a waiting thread may be resumed with its condition still false. *)
Class Patience := patience : nat.

(** [while(cond) body;] where the body sleeps. *)
Definition wait_while `{Patience} (cond : K bool) (body : K ()) : K () :=
  loop patience (λ _ : (), c ← cond; if c : bool then body;; mret (inl ()) else mret (inr ())) ().

(** [for(;;) ;] *)
Definition spin {A} : K A := λ _, Fuel.

Definition str (s : string) : list Z := (λ c, Z.of_N (Ascii.N_of_ascii c)) <$> String.list_ascii_of_string s.

(** A string constant that ends in a newline. *)
Definition newline : string := String (Ascii.ascii_of_nat 10) EmptyString.
Definition ln (s : string) : string := String.append s newline.

(** ** uart.c *)

Definition UART_TX_BUF_SIZE : Z := 32.

Definition set_uart (f : uartst → uartst) : K () := modify (λ s, s <| uart ::= f |>).

(** [ReadReg(LSR) & LSR_TX_IDLE] *)
Definition lsr_tx_idle : K bool :=
  u ← gets uart;
  set_uart (λ u, u <| tx_idle ::= tail |>);;
  mret (default true (head (tx_idle u))).

(** [WriteReg(THR, c)] *)
Definition write_thr (c : Z) : K () := modify (λ s, s <| printed ::= λ l, l ++ [u8 c] |>).

(** The status register is read until it says idle, which it does at the
    latest when the recorded answers end. *)
Definition uartputc_sync (c : Z) : K () :=
  p ← gets panicked;
  if negb (p =? 0) then spin
  else
    u ← gets uart;
    loop (S (length (tx_idle u))) (λ _ : (), i ← lsr_tx_idle; mret (if i : bool then inr () else inl ())) ();;
    write_thr c.

Definition uartstart_body (_ : ()) : K (() + ()) :=
  u ← gets uart;
  if uart_tx_w u =? uart_tx_r u then mret (inr ())
  else
    i ← lsr_tx_idle;
    if negb i then mret (inr ())
    else
      let c := default 0 (uart_tx_buf u !! Z.to_nat (uart_tx_r u mod UART_TX_BUF_SIZE)) in
      set_uart (λ u, u <| uart_tx_r ::= λ r, u64 (r + 1) |>);;
      wakeup chan_uart_tx_r;;
      write_thr c;;
      mret (inl ()).

(** Each round sends one of the [uart_tx_w - uart_tx_r] waiting characters. *)
Definition uartstart : K () :=
  u ← gets uart;
  loop (S (Z.to_nat (u64 (uart_tx_w u - uart_tx_r u)))) uartstart_body ().

Definition uartputc `{Patience} (c : Z) : K () :=
  acquire uart_tx_lock;;
  p ← gets panicked;
  if negb (p =? 0) then spin
  else
    wait_while (u ← gets uart; mret (uart_tx_w u =? u64 (uart_tx_r u + UART_TX_BUF_SIZE)))
      (sleep chan_uart_tx_r uart_tx_lock);;
    set_uart (λ u, u <| uart_tx_buf ::= <[Z.to_nat (uart_tx_w u mod UART_TX_BUF_SIZE) := u8 c]> |>
                     <| uart_tx_w ::= λ w, u64 (w + 1) |>);;
    uartstart;;
    release uart_tx_lock.

Definition uartgetc : K Z :=
  u ← gets uart;
  match rx u with
  | c :: r => set_uart (λ u, u <| rx := r |>);; mret c
  | [] => mret (-1)
  end.

(** The registers are written; none of them is part of the modelled state. *)
Definition uartinit : K () := mret ().

(** ** consputc (console.c) *)

Definition BACKSPACE : Z := 0x100.

Definition consputc (c : Z) : K () :=
  if c =? BACKSPACE then
    uartputc_sync 8;; uartputc_sync 32;; uartputc_sync 8
  else uartputc_sync c.

(** ** printf.c *)

(** [digits[d]] *)
Definition digit_char (d : Z) : Z := default 0 (str "0123456789abcdef" !! Z.to_nat d).

(** The do-while loop of printint(): the digits of [x], the last first; 32
    rounds are enough for a 32-bit number in any base. *)
Fixpoint printint_digits (fuel : nat) (x base : Z) : list Z :=
  match fuel with
  | O => []
  | S n => digit_char (x mod base) :: (if x / base =? 0 then [] else printint_digits n (x / base) base)
  end.

(** [buf[i-1], ..., buf[0]] of printint(). *)
Definition printint_chars (xx base : Z) (sign : bool) : list Z :=
  let neg := sign && (xx <? 0) in
  let x := if neg then u32 (- xx) else u32 xx in
  reverse (printint_digits 32 x base ++ if neg then str "-" else []).

Definition printint (xx base : Z) (sign : bool) : K () :=
  for_each (printint_chars xx base sign) consputc.

Definition printptr_chars (x : Z) : list Z :=
  (λ i, digit_char (Z.shiftr (u64 (Z.shiftl x (4 * i))) 60)) <$> seqZ 0 16.

Definition printptr (x : Z) : K () :=
  consputc 48;; consputc 120;; for_each (printptr_chars x) consputc.

(** The variadic arguments, as the caller passes them. *)
Inductive arg := AInt (x : Z) | APtr (x : Z) | AStr (s : option (list Z)).

Definition arg_Z (a : arg) : Z := match a with AInt x | APtr x => x | AStr _ => 0 end.
Definition arg_str (a : arg) : list Z :=
  match a with AStr (Some s) => s | _ => str "(null)" end.

(** [va_arg(ap, ...)]: the next argument. *)
Definition next_arg (args : list arg) : arg := default (AInt 0) (head args).

Fixpoint printf_loop (fmt : list Z) (args : list arg) : K () :=
  match fmt with
  | [] => mret ()
  | c :: fmt =>
      if c =? 0 then mret ()
      else if negb (c =? 37) then consputc c;; printf_loop fmt args
      else match fmt with
      | [] => mret ()
      | c :: fmt =>
          if c =? 0 then mret ()
          else if c =? 100 then
            printint (i32 (arg_Z (next_arg args))) 10 true;; printf_loop fmt (tail args)
          else if c =? 120 then
            printint (i32 (arg_Z (next_arg args))) 16 true;; printf_loop fmt (tail args)
          else if c =? 112 then
            printptr (u64 (arg_Z (next_arg args)));; printf_loop fmt (tail args)
          else if c =? 115 then
            for_each (cstr (arg_str (next_arg args))) consputc;; printf_loop fmt (tail args)
          else if c =? 37 then consputc 37;; printf_loop fmt args
          else consputc 37;; consputc c;; printf_loop fmt args
      end
  end.

Definition printf (fmt : string) (args : list arg) : K () :=
  locking ← gets pr_locking;
  when (negb (locking =? 0)) (acquire pr_lock);;
  printf_loop (str fmt) args;;
  when (negb (locking =? 0)) (release pr_lock).

Definition printfinit : K () := modify (λ s, s <| pr_locking := 1 |>).
