(* ===== verification/Console.v ===== *)
(** * The console (kernel/console.c)

    Line-at-a-time input with erase and kill processing, output through the
    UART's buffer, uartintr() of uart.c, and either_copyin/either_copyout and
    procdump() of proc.c, which the console calls. *)

From Stdlib Require Import ZArith Lia.
From stdpp Require Import base numbers strings option list gmap.
From S2P Require Import Prelude Params Machine Cstring Kalloc Vm Sched Uart.

Open Scope Z_scope.

(** ** Copying to and from user or kernel memory (proc.c)

    The address is a user address, an address in physical memory, or the
    address of a local variable of the caller, which gets the bytes as a value. *)

Inductive kdst := DUser (va : Z) | DKern (a : Z) | DVar.
Inductive ksrc := SUser (va : Z) | SKern (a : Z) | SVar (bytes : list Z).

Definition dst_add (d : kdst) (n : Z) : kdst :=
  match d with DUser va => DUser (u64 (va + n)) | DKern a => DKern (u64 (a + n)) | DVar => DVar end.
Definition src_add (x : ksrc) (n : Z) : ksrc :=
  match x with
  | SUser va => SUser (u64 (va + n)) | SKern a => SKern (u64 (a + n)) | SVar l => SVar (drop (Z.to_nat n) l)
  end.

Section config.
Context `{Linker}.

Definition either_copyout (dst : kdst) (src : list Z) : K Z :=
  match dst with
  | DUser va => p ← curproc; q ← getp p; copyout (p_pagetable q) va src
  | DKern a => modify (λ s, s <| mem ::= λ m, store_bytes m a src |>);; mret 0
  | DVar => mret 0
  end.

Definition either_copyin (src : ksrc) (len : Z) : K (Z * list Z) :=
  match src with
  | SUser va => p ← curproc; q ← getp p; copyin (p_pagetable q) va len
  | SKern a => bs ← gets (λ s, load_bytes (mem s) a (Z.to_nat len)); mret (0, bs)
  | SVar l => mret (0, take (Z.to_nat len) l)
  end.

(** ** procdump (proc.c) *)

Definition state_name (st : procstate) : string :=
  match st with
  | UNUSED => "unused" | USED => "used" | SLEEPING => "sleep " | RUNNABLE => "runble"
  | RUNNING => "run   " | ZOMBIE => "zombie"
  end.

Definition procdump : K () :=
  printf newline [];;
  for_each proc_table (λ p,
    q ← getp p;
    if bool_decide (p_state q = UNUSED) then mret ()
    else
      printf "%d %s %s" [AInt (p_pid q); AStr (Some (str (state_name (p_state q)))); AStr (Some (p_name q))];;
      printf newline []).

(** ** console.c *)

Definition INPUT_BUF_SIZE : Z := 128.
Definition CTRL (x : Z) : Z := x - 64.
Definition CONSOLE : nat := 1.

Definition set_cons (f : consst → consst) : K () := modify (λ s, s <| console ::= f |>).

Definition consolewrite `{Patience} (src : ksrc) (n : Z) : K Z :=
  r ← for_ret (seqZ 0 n) (λ i,
    '(rc, bs) ← either_copyin (src_add src i) 1;
    if rc =? -1 then mret (Some i)
    else uartputc (default 0 (head bs));; mret None);
  mret (default (Z.max 0 n) r).

(** Wait for input: [true] when the process has been killed, the lock released. *)
Definition consoleread_wait `{Patience} : K bool :=
  loop patience (λ _ : (),
    c ← gets console;
    if cons_r c =? cons_w c then
      p ← curproc;
      k ← killed p;
      if negb (k =? 0) then release cons_lock;; mret (inr true)
      else sleep chan_cons_r cons_lock;; mret (inl ())
    else mret (inr false)) ().

(** One round of the reading loop on [dst] and [n]; it ends with -1 for a
    killed process or with the [n] it has come to. *)
Definition consoleread_body `{Patience} (target : Z) (st : kdst * Z) : K (kdst * Z + (option Z)) :=
  let '(dst, n) := st in
  if n <=? 0 then mret (inr (Some n))
  else
    k ← consoleread_wait;
    if k : bool then mret (inr None)
    else
      cs ← gets console;
      let c := default 0 (cons_buf cs !! Z.to_nat (cons_r cs mod INPUT_BUF_SIZE)) in
      set_cons (λ c, c <| cons_r ::= λ r, u32 (r + 1) |>);;
      if c =? CTRL 68 then
        when (u32 n <? target) (set_cons (λ c, c <| cons_r ::= λ r, u32 (r - 1) |>));;
        mret (inr (Some n))
      else
        rc ← either_copyout dst [c];
        if rc =? -1 then mret (inr (Some n))
        else if c =? 10 then mret (inr (Some (n - 1)))
        else mret (inl (dst_add dst 1, n - 1)).

Definition consoleread `{Patience} (dst : kdst) (n : Z) : K Z :=
  let target := u32 n in
  acquire cons_lock;;
  r ← loop (S (Z.to_nat n)) (consoleread_body target) (dst, n);
  match r with
  | None => mret (-1)
  | Some n => release cons_lock;; mret (i32 (u32 (target - n)))
  end.

(** ^U: erase back to the start of the line. *)
Definition kill_line_body (_ : ()) : K (() + ()) :=
  c ← gets console;
  if negb (cons_e c =? cons_w c) &&
     negb (default 0 (cons_buf c !! Z.to_nat (u32 (cons_e c - 1) mod INPUT_BUF_SIZE)) =? 10)
  then
    set_cons (λ c, c <| cons_e ::= λ e, u32 (e - 1) |>);;
    consputc BACKSPACE;;
    mret (inl ())
  else mret (inr ()).

Definition consoleintr (c : Z) : K () :=
  acquire cons_lock;;
  (if c =? CTRL 80 then procdump
   else if c =? CTRL 85 then
     cs ← gets console;
     loop (S (Z.to_nat (u32 (cons_e cs - cons_w cs)))) kill_line_body ()
   else if (c =? CTRL 72) || (c =? 0x7f) then
     cs ← gets console;
     when (negb (cons_e cs =? cons_w cs))
       (set_cons (λ c, c <| cons_e ::= λ e, u32 (e - 1) |>);;
        consputc BACKSPACE)
   else
     cs ← gets console;
     when (negb (c =? 0) && (u32 (cons_e cs - cons_r cs) <? INPUT_BUF_SIZE))
       (let c := if c =? 13 then 10 else c in
        consputc c;;
        set_cons (λ cs, cs <| cons_buf ::= <[Z.to_nat (cons_e cs mod INPUT_BUF_SIZE) := u8 c]> |>
                           <| cons_e ::= λ e, u32 (e + 1) |>);;
        cs ← gets console;
        when ((c =? 10) || (c =? CTRL 68) || (u32 (cons_e cs - cons_r cs) =? INPUT_BUF_SIZE))
          (set_cons (λ cs, cs <| cons_w := cons_e cs |>);;
           wakeup chan_cons_r)));;
  release cons_lock.

Definition uartintr : K () :=
  u ← gets uart;
  loop (S (length (rx u))) (λ _ : (),
    c ← uartgetc;
    if c =? -1 then mret (inr ()) else consoleintr c;; mret (inl ())) ();;
  acquire uart_tx_lock;;
  uartstart;;
  release uart_tx_lock.

Definition consoleinit : K () :=
  uartinit;;
  modify (λ s, s <| devsw ::= <[CONSOLE := true]> |>).

End config.
