(* ===== verification/Sleeplock.v ===== *)
(** * Sleeping locks (kernel/sleeplock.c)

    A sleep-lock is a field of a buffer or of an in-memory inode, named by
    [slid]; its spin-lock is [sleep_lk] of that name. *)

From Stdlib Require Import ZArith Lia.
From stdpp Require Import base numbers strings option list gmap.
From S2P Require Import Prelude Params Machine Sched Uart.

Open Scope Z_scope.

Definition get_sl (l : slid) (s : kernel) : sleeplock :=
  match l with
  | buf_sleeplock b => default sleeplock0 (b_lock <$> bcache s !! b)
  | inode_sleeplock ip => default sleeplock0 (i_lock <$> itable s !! ip)
  end.

Definition set_sl (l : slid) (v : sleeplock) (s : kernel) : kernel :=
  match l with
  | buf_sleeplock b => s <| bcache ::= alter (λ x, x <| b_lock := v |>) b |>
  | inode_sleeplock ip => s <| itable ::= alter (λ x, x <| i_lock := v |>) ip |>
  end.

Definition initsleeplock (l : slid) : K () := modify (set_sl l (mkSleeplock 0 0)).

Definition acquiresleep `{Patience} (l : slid) : K () :=
  acquire (sleep_lk l);;
  wait_while (sl ← gets (get_sl l); mret (negb (sl_locked sl =? 0)))
    (sleep (chan_sleeplock l) (sleep_lk l));;
  p ← curproc;
  q ← getp p;
  modify (set_sl l (mkSleeplock 1 (p_pid q)));;
  release (sleep_lk l).

Definition releasesleep (l : slid) : K () :=
  acquire (sleep_lk l);;
  modify (set_sl l (mkSleeplock 0 0));;
  wakeup (chan_sleeplock l);;
  release (sleep_lk l).

Definition holdingsleep (l : slid) : K bool :=
  acquire (sleep_lk l);;
  sl ← gets (get_sl l);
  r ← (if sl_locked sl =? 0 then mret false
       else p ← curproc; q ← getp p; mret (sl_pid sl =? p_pid q));
  release (sleep_lk l);;
  mret r.
