(* ===== verification/Bio.v ===== *)
(** * The buffer cache (kernel/bio.c)

    [bcache] is bcache.buf[NBUF] followed by bcache.head, whose index is
    [NBUF]; the LRU list goes through the prev and next fields as in the
    source.  [disk_rw] is the transfer that virtio_disk_rw() performs between
    a locked buffer and the disk; the thread's waiting for the device's
    interrupt inside it is not part of this model. *)

From Stdlib Require Import ZArith Lia.
From stdpp Require Import base numbers strings option list gmap.
From S2P Require Import Prelude Params Machine Sched Uart Sleeplock.

Open Scope Z_scope.

Definition bhead : nat := NBUF.

Definition getb (b : nat) : K buf := gets (λ s, default buf0 (bcache s !! b)).
Definition setb (b : nat) (f : buf → buf) : K () := modify (λ s, s <| bcache ::= alter f b |>).

Definition BSIZE : Z := 1024.
Definition zero_block : list Z := replicate (Z.to_nat BSIZE) 0.

(** The bytes of a disk block. *)
Definition block_at (d : gmap Z (list Z)) (n : Z) : list Z := default zero_block (d !! n).

Definition disk_rw (b : nat) (write : bool) : K () :=
  x ← getb b;
  if write then
    modify (λ s, s <| disk ::= <[b_blockno x := b_data x]> |>
                   <| dwrites ::= λ l, l ++ [(b_blockno x, b_data x)] |>)
  else
    d ← gets disk;
    setb b (λ x, x <| b_data := block_at d (b_blockno x) |>).

Definition binit : K () :=
  setb bhead (λ h, h <| b_prev := bhead |>);;
  setb bhead (λ h, h <| b_next := bhead |>);;
  for_each (seq 0 NBUF) (λ b,
    h ← getb bhead;
    setb b (λ x, x <| b_next := b_next h |>);;
    setb b (λ x, x <| b_prev := bhead |>);;
    initsleeplock (buf_sleeplock b);;
    setb (b_next h) (λ x, x <| b_prev := b |>);;
    setb bhead (λ h, h <| b_next := b |>)).

Section waiting.
Context `{Patience}.

(** The first loop of bget(): from head.next forward. *)
Definition bget_cached (dev blockno : Z) (b : nat) : K (nat + option nat) :=
  if bool_decide (b = bhead) then mret (inr None)
  else
    x ← getb b;
    if (b_dev x =? dev) && (b_blockno x =? blockno) then
      setb b (λ x, x <| b_refcnt ::= λ r, u32 (r + 1) |>);;
      release bcache_lock;;
      acquiresleep (buf_sleeplock b);;
      mret (inr (Some b))
    else mret (inl (b_next x)).

(** The second: from head.prev backward, for a buffer nobody uses. *)
Definition bget_recycle (dev blockno : Z) (b : nat) : K (nat + option nat) :=
  if bool_decide (b = bhead) then mret (inr None)
  else
    x ← getb b;
    if b_refcnt x =? 0 then
      setb b (λ x, x <| b_dev := dev |> <| b_blockno := blockno |> <| b_valid := 0 |>
                     <| b_refcnt := 1 |>);;
      release bcache_lock;;
      acquiresleep (buf_sleeplock b);;
      mret (inr (Some b))
    else mret (inl (b_prev x)).

(** The list has [NBUF] buffers and the head. *)
Definition bget (dev blockno : Z) : K nat :=
  acquire bcache_lock;;
  h ← getb bhead;
  r ← loop (S NBUF) (bget_cached dev blockno) (b_next h);
  match r with
  | Some b => mret b
  | None =>
      h ← getb bhead;
      r ← loop (S NBUF) (bget_recycle dev blockno) (b_prev h);
      match r with
      | Some b => mret b
      | None => panic "bget: no buffers"
      end
  end.

Definition bread (dev blockno : Z) : K nat :=
  b ← bget dev blockno;
  x ← getb b;
  when (b_valid x =? 0)
    (disk_rw b false;;
     setb b (λ x, x <| b_valid := 1 |>));;
  mret b.

Definition bwrite (b : nat) : K () :=
  h ← holdingsleep (buf_sleeplock b);
  if negb h then panic "bwrite" else disk_rw b true.

Definition brelse (b : nat) : K () :=
  h ← holdingsleep (buf_sleeplock b);
  if negb h then panic "brelse"
  else
    releasesleep (buf_sleeplock b);;
    acquire bcache_lock;;
    setb b (λ x, x <| b_refcnt ::= λ r, u32 (r - 1) |>);;
    x ← getb b;
    when (b_refcnt x =? 0)
      (setb (b_next x) (λ y, y <| b_prev := b_prev x |>);;
       x ← getb b;
       setb (b_prev x) (λ y, y <| b_next := b_next x |>);;
       h ← getb bhead;
       setb b (λ x, x <| b_next := b_next h |>);;
       setb b (λ x, x <| b_prev := bhead |>);;
       h ← getb bhead;
       setb (b_next h) (λ y, y <| b_prev := b |>);;
       setb bhead (λ h, h <| b_next := b |>));;
    release bcache_lock.

Definition bpin (b : nat) : K () :=
  acquire bcache_lock;;
  setb b (λ x, x <| b_refcnt ::= λ r, u32 (r + 1) |>);;
  release bcache_lock.

Definition bunpin (b : nat) : K () :=
  acquire bcache_lock;;
  setb b (λ x, x <| b_refcnt ::= λ r, u32 (r - 1) |>);;
  release bcache_lock.

End waiting.
