(* ===== verification/BioFacts.v ===== *)
(** * Buffer cache theorems

    The least-recently-used list threaded through the buffers, the exact effect
    of bget(), bread(), bwrite() and brelse() on an uncontended cache, and the
    client's view of the cache: one current copy of each block, whatever is
    cached. *)

From Stdlib Require Import ZArith Lia.
From stdpp Require Import base numbers strings option list gmap.
From S2P Require Import Prelude Params Machine Sched SchedFacts Uart Sleeplock Bio.

Open Scope Z_scope.

(** ** The doubly linked list *)

(** [pv] undoes [nx] between neighbours of [l]. *)
Fixpoint linked (nx pv : nat → nat) (l : list nat) : Prop :=
  match l with
  | x :: (y :: _) as l' => nx x = y ∧ pv y = x ∧ linked nx pv l'
  | _ => True
  end.

(** The circular list [l] of the head [h]. *)
Definition ring (nx pv : nat → nat) (h : nat) (l : list nat) : Prop := linked nx pv (h :: l ++ [h]).

Definition upd (f : nat → nat) (i v : nat) : nat → nat := λ j, if decide (j = i) then v else f j.

Lemma upd_eq f i v : upd f i v i = v.
Proof. apply decide_True. done. Qed.
Lemma upd_ne f i v j : j ≠ i → upd f i v j = f j.
Proof. apply decide_False. Qed.

Lemma linked_app nx pv l1 b l2 : linked nx pv (l1 ++ b :: l2) ↔ linked nx pv (l1 ++ [b]) ∧ linked nx pv (b :: l2).
Proof. induction l1 as [|x [|y l1] IH]; cbn in *; tauto. Qed.

Lemma linked_frame nx pv nx' pv' l :
  (∀ i, i ∈ removelast l → nx' i = nx i) → (∀ i, i ∈ tail l → pv' i = pv i) →
  linked nx pv l → linked nx' pv' l.
Proof.
  induction l as [|x [|y l] IH]; intros Hn Hp; try done. intros (<- & E & Hs).
  split; [apply Hn; left|]. split; [rewrite Hp by left; done|].
  apply IH; [|by intros i Hi; apply Hp; right|done]. intros i Hi. apply Hn. by right.
Qed.

(** Taking [b] out of the ring. *)
Lemma ring_unlink nx pv h l1 b l2 :
  NoDup (h :: l1 ++ b :: l2) → ring nx pv h (l1 ++ b :: l2) →
  ring (upd nx (pv b) (nx b)) (upd pv (nx b) (pv b)) h (l1 ++ l2).
Proof.
  unfold ring. intros Hd Hs.
  destruct (exists_last (l := h :: l1)) as (A & c & EA); [done|].
  destruct (l2 ++ [h]) as [|d Z] eqn:EZ; [by destruct l2|].
  rewrite <-app_assoc, app_comm_cons, EA in Hs. cbn [app] in Hs. rewrite EZ, <-app_assoc in Hs. cbn [app] in Hs.
  apply linked_app in Hs as [H1 (En & Ep & En' & Ep' & H2)]. rewrite Ep, En'.
  rewrite <-app_assoc, app_comm_cons, EA, EZ, <-app_assoc. cbn [app].
  assert (c ∈ h :: l1) as Hc by (rewrite EA; apply elem_of_app; right; left).
  assert (d ∈ l2 ∨ d = h) as Hdd by (rewrite <-list_elem_of_singleton, <-elem_of_app, EZ; left).
  rewrite app_comm_cons in Hd. apply NoDup_app in Hd as (Hd1 & Hd12 & Hd2).
  pose proof (NoDup_cons_1_1 _ _ Hd1) as Hhl.
  apply NoDup_cons in Hd2 as [_ Hd2]. rewrite EA in Hd1. apply NoDup_app in Hd1 as (_ & HdA & _).
  assert (tail (h :: l1) = tail (A ++ [c])) as ET by (by rewrite EA). cbn in ET.
  apply linked_app. split; [|split; [apply upd_eq|split; [apply upd_eq|]]].
  - apply (linked_frame nx pv); [| |done]; intros i Hi; apply upd_ne; intros ->.
    + rewrite removelast_last in Hi. apply (HdA c Hi). left.
    + rewrite <-ET in Hi. destruct Hdd as [Hl| ->].
      * apply (Hd12 d); [by right|by right].
      * done.
  - apply (linked_frame nx pv); [| |done]; intros i Hi; apply upd_ne; intros ->.
    + rewrite <-EZ, removelast_last in Hi. apply (Hd12 c Hc). by right.
    + destruct l2 as [|d' l2]; cbn in EZ; injection EZ as -> <-; cbn in Hi; [by apply elem_of_nil in Hi|].
      apply NoDup_cons in Hd2 as [Hd2 _]. apply elem_of_app in Hi as [Hi|Hi%list_elem_of_singleton]; [done|].
      eapply Hd12; [left|right; rewrite Hi; left].
Qed.

Lemma linked_next nx pv l i : linked nx pv l → i ∈ removelast l → nx i ∈ tail l.
Proof.
  induction l as [|x [|y l] IH]; [by intros _ ?%elem_of_nil|by intros _ ?%elem_of_nil|].
  intros (E & _ & Hl) Hi. change (removelast (x :: y :: l)) with (x :: removelast (y :: l)) in Hi.
  apply elem_of_cons in Hi as [->|Hi]; [rewrite E; left|]. right. by apply IH.
Qed.

Lemma ring_closed nx pv h l i : ring nx pv h l → i ∈ h :: l → nx i ∈ h :: l.
Proof.
  intros Hr Hi. apply (linked_next _ _ _ i) in Hr.
  - cbn in Hr. apply elem_of_app in Hr as [Hr|Hr%list_elem_of_singleton]; [by right|rewrite Hr; left].
  - rewrite app_comm_cons, removelast_last. exact Hi.
Qed.

(** Putting [b] at the front. *)
Lemma ring_push nx pv h l b :
  b ∉ h :: l → NoDup (h :: l) → ring nx pv h l →
  ring (upd (upd nx b (nx h)) h b) (upd (upd pv b h) (nx h) b) h (b :: l).
Proof.
  unfold ring. intros Hb Hd Hs. apply not_elem_of_cons in Hb as [Hbh Hb]. apply NoDup_cons in Hd as [Hh Hd].
  assert (∃ d Z, l ++ [h] = d :: Z ∧ (d ∈ l ∨ d = h) ∧ d ∉ Z) as (d & Z & E & Hdl & HZ).
  { destruct l as [|d l]; [exists h, []; split; [done|split; [by right|apply not_elem_of_nil]]|].
    exists d, (l ++ [h]). apply NoDup_cons in Hd as [? _].
    split; [done|]. split; [left; left|]. rewrite elem_of_app, list_elem_of_singleton.
    apply not_elem_of_cons in Hh as [? _]. intuition congruence. }
  cbn [app]. rewrite E in Hs |- *. destruct Hs as (En & Ep & Hs). rewrite En.
  assert (b ≠ d) as Hbd by (destruct Hdl; congruence).
  split; [apply upd_eq|]. split; [by rewrite upd_ne, upd_eq by done|].
  split; [by rewrite upd_ne, upd_eq by congruence|]. split; [apply upd_eq|].
  apply (linked_frame nx pv); [..|done]; intros i Hi.
  - rewrite <-E, removelast_last in Hi. rewrite !upd_ne; [done|congruence|congruence].
  - cbn in Hi. assert (i ∈ l ∨ i = h) as Hi' by (rewrite <-list_elem_of_singleton, <-elem_of_app, E; by right).
    rewrite !upd_ne; [done|destruct Hi'; congruence|congruence].
Qed.

Lemma linked_rev nx pv l : linked nx pv l → linked pv nx (reverse l).
Proof.
  induction l as [|x [|y l] IH]; [done|done|]. intros (E1 & E2 & Hl%IH). rewrite !reverse_cons in *.
  rewrite <-app_assoc. cbn [app]. apply linked_app. split; [exact Hl|]. split; [done|]. by split.
Qed.

Lemma ring_rev nx pv h l : ring nx pv h l → ring pv nx h (reverse l).
Proof. unfold ring. intros Hl%linked_rev. by rewrite app_comm_cons, reverse_snoc, reverse_cons in Hl. Qed.

Lemma ring_split nx pv h l1 l2 :
  ring nx pv h (l1 ++ l2) →
  linked nx pv (l1 ++ [default h (head l2)]) ∧ nx h = default h (head (l1 ++ l2)).
Proof.
  unfold ring. rewrite <-app_assoc. intros Hr.
  assert (∃ Z, l2 ++ [h] = default h (head l2) :: Z) as [Z E] by (destruct l2; by eexists).
  rewrite E, app_comm_cons in Hr. apply linked_app in Hr as [Hr _]. split.
  - by destruct l1; [|apply Hr].
  - destruct l1; cbn in Hr |- *; tauto.
Qed.

(** A loop that walks the list and does nothing on the way. *)
Lemma loop_walk {R} (f : nat → K (nat + R)) nx pv l b k s :
  linked nx pv (l ++ [b]) → (∀ i, i ∈ l → f i s = Ret (inl (nx i)) s) →
  loop (length l + k) f (default b (head l)) s = loop k f b s.
Proof.
  induction l as [|x l IH]; intros Hl Hf; [done|]. cbn [length Nat.add head default from_option id].
  rewrite (loop_next _ _ _ _ (nx x) s) by (apply Hf; left).
  assert (nx x = default b (head l) ∧ linked nx pv (l ++ [b])) as [-> Hl'] by (destruct l; cbn in *; tauto).
  apply IH; [done|]. intros i Hi. apply Hf. by right.
Qed.

Lemma first_split {A} (P : A → Prop) `{∀ x, Decision (P x)} (l : list A) :
  (∃ l1 b l2, l = l1 ++ b :: l2 ∧ P b ∧ ∀ x, x ∈ l1 → ¬ P x) ∨ (∀ x, x ∈ l → ¬ P x).
Proof.
  induction l as [|x l IH]; [right; intros x Hx; by apply elem_of_nil in Hx|].
  destruct (decide (P x)) as [Hx|Hx].
  { left. exists [], x, l. split; [done|]. split; [done|]. intros y Hy. by apply elem_of_nil in Hy. }
  destruct IH as [(l1 & b & l2 & -> & Hb & Hl)|Hl]; [left|right].
  - exists (x :: l1), b, l2. split; [done|]. split; [done|]. intros y [->|Hy]%elem_of_cons; auto.
  - intros y [->|Hy]%elem_of_cons; auto.
Qed.

(** ** Uncontended sleep-locks *)

(** Process [pr], whose entry is [q], runs in the kernel and holds no spin-lock. *)
Record thread (s : kernel) (pr : nat) (q : proc) : Prop := {
  th_cur : cur s = Some pr;
  th_proc : procs s !! pr = Some q;
  th_procs : length (procs s) = NPROC;
  th_held : held s = [];
}.

(** A sleep-lock held by [q]. *)
Definition mine (q : proc) : sleeplock := mkSleeplock 1 (p_pid q).

Section sleeplock.
Context `{Patience} (s : kernel) (pr : nat) (q : proc).

Lemma set_sl_held l v h : set_sl l v (s <| held := h |>) = set_sl l v s <| held := h |>.
Proof. destruct l; same_record s. Qed.

Lemma acquire_none lk : thread s pr q → acquire lk s = Ret () (s <| held := [lk] |>).
Proof. intros Ht. rewrite acquire_free, held_acquire, (th_held _ _ _ Ht) by (rewrite (th_held _ _ _ Ht); apply not_elem_of_nil). done. Qed.

Lemma held_none t : held t = [] → t <| held := [] |> = t.
Proof. intros E. rewrite <-E. same_record t. Qed.

Lemma held_back t h : held t = [] → t <| held := h |> <| held := [] |> = t.
Proof. intros E. exact (held_none t E). Qed.

Lemma acquiresleep_free l :
  thread s pr q → (0 < patience)%nat → sl_locked (get_sl l s) = 0 →
  acquiresleep l s = Ret () (set_sl l (mine q) s).
Proof.
  intros Ht Hpat Hl. unfold acquiresleep. msimpl. mrun acquire_none by done.
  unfold wait_while. destruct patience as [|f]; [lia|].
  replace (get_sl l s) with (get_sl l (s <| held := [sleep_lk l] |>)) in Hl by (by destruct l).
  erewrite loop_exit; [|msimpl; rewrite Hl; reflexivity]. msimpl.
  mrun (curproc_eq pr) by apply Ht. mrun (getp_eq pr _ q) by apply Ht.
  rewrite set_sl_held, (release_head _ []) by done. f_equal.
  apply held_back. destruct l; apply Ht.
Qed.

Lemma releasesleep_eq l :
  thread s pr q →
  releasesleep l s = Ret () (set_sl l (mkSleeplock 0 0) s
    <| procs := imap (woken (Some pr) (chan_sleeplock l) (ticks s)) (procs s) |>).
Proof.
  intros Ht. unfold releasesleep. msimpl. mrun acquire_none by done. rewrite set_sl_held.
  assert (procs (set_sl l (mkSleeplock 0 0) s) = procs s ∧ cur (set_sl l (mkSleeplock 0 0) s) = Some pr ∧
    ticks (set_sl l (mkSleeplock 0 0) s) = ticks s ∧ held (set_sl l (mkSleeplock 0 0) s) = []) as (Ep & Ec & Et & Eh)
    by (destruct l; repeat split; apply Ht).
  set (s1 := set_sl l (mkSleeplock 0 0) s) in *.
  mrun wakeup_spec.
  - rewrite (release_head _ []) by done. change (procs (?t <| held := _ |>)) with (procs t).
    change (cur (?t <| held := _ |>)) with (cur t). change (ticks (?t <| held := _ |>)) with (ticks t).
    rewrite Ep, Ec, Et. f_equal. rewrite <-(held_none s1) at 2 by done. same_record s1.
  - change (procs (?t <| held := _ |>)) with (procs t). rewrite Ep. apply Ht.
  - intros p. right. cbn. rewrite list_elem_of_singleton. done.
Qed.

Lemma holdingsleep_eq l :
  thread s pr q →
  holdingsleep l s = Ret (negb (sl_locked (get_sl l s) =? 0) && (sl_pid (get_sl l s) =? p_pid q)) s.
Proof.
  intros Ht. unfold holdingsleep. msimpl. mrun acquire_none by done.
  replace (get_sl l (s <| held := [sleep_lk l] |>)) with (get_sl l s) by (by destruct l).
  destruct (sl_locked (get_sl l s) =? 0); cbn [bindO negb andb].
  - rewrite (release_head _ []) by done. cbn [bindO]. f_equal. apply held_back, Ht.
  - mrun (curproc_eq pr) by apply Ht. mrun (getp_eq pr _ q) by apply Ht.
    rewrite (release_head _ []) by done. cbn [bindO]. f_equal. apply held_back, Ht.
Qed.

Lemma thread_woken chan : thread s pr q → imap (woken (Some pr) chan (ticks s)) (procs s) !! pr = Some q.
Proof.
  intros Ht. rewrite list_lookup_imap, (th_proc _ _ _ Ht). cbn. f_equal. unfold woken.
  by rewrite bool_decide_eq_true_2.
Qed.

Lemma thread_procs ps : thread s pr q → ps !! pr = Some q → length ps = NPROC → thread (s <| procs := ps |>) pr q.
Proof. intros [] ??. by split. Qed.
End sleeplock.

(** ** The cache *)

Definition nx (B : list buf) (i : nat) : nat := default 0%nat (b_next <$> B !! i).
Definition pv (B : list buf) (i : nat) : nat := default 0%nat (b_prev <$> B !! i).

(** [L] is the list of the buffers, most recently used first. *)
Record lru (B : list buf) (L : list nat) : Prop := {
  lru_len : length B = S NBUF;
  lru_perm : L ≡ₚ seq 0 NBUF;
  lru_ring : ring (nx B) (pv B) bhead L;
}.

Lemma getb_eq b s x : bcache s !! b = Some x → getb b s = Ret x s.
Proof. intros E. unfold getb, gets. by rewrite E. Qed.

Lemma setb_eq b f s : setb b f s = Ret () (s <| bcache ::= alter f b |>).
Proof. reflexivity. Qed.

Lemma lru_elem B L i : lru B L → i ∈ L ↔ (i < NBUF)%nat.
Proof. intros Hl. rewrite (lru_perm _ _ Hl), elem_of_seq. lia. Qed.

Lemma lru_lookup B L i : lru B L → i ∈ L → ∃ x, B !! i = Some x.
Proof. intros Hl Hi%(lru_elem _ _ _ Hl). apply lookup_lt_is_Some. rewrite (lru_len _ _ Hl). lia. Qed.

Lemma lru_head B L : lru B L → ∃ x, B !! bhead = Some x.
Proof. intros Hl. apply lookup_lt_is_Some. rewrite (lru_len _ _ Hl). unfold bhead. lia. Qed.

Lemma lru_nodup B L : lru B L → NoDup (bhead :: L).
Proof.
  intros Hl. apply NoDup_cons. split; [rewrite (lru_elem _ _ _ Hl); unfold bhead; lia|].
  rewrite (lru_perm _ _ Hl). apply NoDup_seq.
Qed.

Lemma lru_length B L : lru B L → length L = NBUF.
Proof. intros Hl. by rewrite (lru_perm _ _ Hl), length_seq. Qed.

(** A change to other fields than the links. *)
Lemma lru_alter B L f i :
  (∀ x, b_next (f x) = b_next x ∧ b_prev (f x) = b_prev x) → lru B L → lru (alter f i B) L.
Proof.
  intros Hf [Hl Hp Hr]. split; [by rewrite length_alter|done|].
  apply (linked_frame (nx B) (pv B)); [..|exact Hr]; intros j _; unfold nx, pv;
    (destruct (decide (j = i)) as [->|Hj]; [rewrite list_lookup_alter_eq|by rewrite list_lookup_alter_ne]);
    destruct (B !! i) as [x|]; cbn; try done; apply Hf.
Qed.

(** The buffer of the block, and the buffers in use. *)
Definition is_for (dev n : Z) (x : buf) : Prop := b_dev x = dev ∧ b_blockno x = n.
#[global] Instance is_for_dec dev n x : Decision (is_for dev n x).
Proof. unfold is_for. apply _. Defined.

Definition take_ref (x : buf) : buf := x <| b_refcnt ::= λ r, u32 (r + 1) |>.
Definition recycled (dev n : Z) (x : buf) : buf :=
  x <| b_dev := dev |> <| b_blockno := n |> <| b_valid := 0 |> <| b_refcnt := 1 |>.

Definition buf_at (s : kernel) (b : nat) : buf := default buf0 (bcache s !! b).
Definition put_buf (b : nat) (x : buf) (s : kernel) : kernel := s <| bcache := <[b := x]> (bcache s) |>.

Lemma alter_put b f s : (b < length (bcache s))%nat → s <| bcache ::= alter f b |> = put_buf b (f (buf_at s b)) s.
Proof.
  intros Hb. unfold put_buf, set. f_equal. unfold buf_at.
  destruct (lookup_lt_is_Some_2 (bcache s) b Hb) as [x Hx]. rewrite Hx. cbn.
  apply list_eq. intros j. destruct (decide (j = b)) as [->|Hj].
  - by rewrite list_lookup_alter_eq, list_lookup_insert_eq, Hx.
  - by rewrite list_lookup_alter_ne, list_lookup_insert_ne.
Qed.

Lemma setb_put b f s : (b < length (bcache s))%nat → setb b f s = Ret () (put_buf b (f (buf_at s b)) s).
Proof. intros Hb. rewrite setb_eq. f_equal. by apply alter_put. Qed.

Lemma buf_put b x s : (b < length (bcache s))%nat → buf_at (put_buf b x s) b = x.
Proof. intros Hb. unfold buf_at, put_buf. cbn. by rewrite list_lookup_insert_eq. Qed.

Lemma buf_put_ne b c x s : c ≠ b → buf_at (put_buf b x s) c = buf_at s c.
Proof. intros Hb. unfold buf_at, put_buf. cbn. by rewrite list_lookup_insert_ne. Qed.

Lemma put_put b x y s : put_buf b y (put_buf b x s) = put_buf b y s.
Proof. unfold put_buf, set. cbn. by rewrite list_insert_insert_eq. Qed.

Lemma put_length b x s : length (bcache (put_buf b x s)) = length (bcache s).
Proof. cbn. apply length_insert. Qed.

Lemma getb_at b s : getb b s = Ret (buf_at s b) s.
Proof. reflexivity. Qed.

(** The cache after bget() has chosen buffer [b], changed it with [f] and locked it. *)
Definition locked_with (q : proc) (f : buf → buf) (b : nat) (s : kernel) : kernel :=
  put_buf b (f (buf_at s b) <| b_lock := mine q |>) s.

Section cache.
Context `{Patience} (s : kernel) (pr : nat) (q : proc) (L : list nat).
Context (Ht : thread s pr q) (Hlru : lru (bcache s) L) (Hpat : (0 < patience)%nat).

Lemma buf_lookup b : b ∈ bhead :: L → bcache s !! b = Some (buf_at s b).
Proof.
  intros Hb. unfold buf_at. apply elem_of_cons in Hb as [->|Hb].
  - by destruct (lru_head _ _ Hlru) as [x ->].
  - by destruct (lru_lookup _ _ _ Hlru Hb) as [x ->].
Qed.

(** Leaving the critical section with the buffer. *)
Lemma claim_buffer {R} b f (r : R) :
  b ∈ L → (∀ x, b_lock (f x) = b_lock x) → sl_locked (b_lock (buf_at s b)) = 0 →
  (setb b f;; release bcache_lock;; acquiresleep (buf_sleeplock b);; mret r) (s <| held := [bcache_lock] |>) =
    Ret r (locked_with q f b s).
Proof.
  intros Hb Hf Hl. assert (b < length (bcache s))%nat as Hlt by (eapply lookup_lt_Some, buf_lookup; by right).
  msimpl. mrun setb_put by done. mrun (release_head _ []) by done.
  change (put_buf b ?x (s <| held := ?h |>) <| held := ?h' |>) with (put_buf b x (s <| held := h |> <| held := h' |>)).
  change (buf_at (s <| held := _ |>) b) with (buf_at s b). rewrite (held_back s) by apply Ht.
  mrun (acquiresleep_free _ pr q).
  - f_equal. unfold locked_with, set_sl.
    rewrite alter_put, buf_put, put_put by (rewrite ?put_length; done). done.
  - destruct Ht. by split.
  - done.
  - cbn. rewrite list_lookup_insert_eq by done. cbn. by rewrite Hf.
Qed.

Lemma bget_cached_skip dev n b h :
  b ∈ L → ¬ is_for dev n (buf_at s b) →
  bget_cached dev n b (s <| held := h |>) = Ret (inl (nx (bcache s) b)) (s <| held := h |>).
Proof.
  intros Hb Hn. unfold bget_cached. rewrite bool_decide_eq_false_2.
  2:{ apply (lru_elem _ _ _ Hlru) in Hb. unfold bhead. lia. }
  msimpl. mrun (getb_eq b _ (buf_at s b)) by (apply buf_lookup; by right).
  mif_false by (apply not_true_is_false; rewrite andb_true_iff, !Z.eqb_eq; exact Hn).
  unfold nx. by rewrite buf_lookup by (by right).
Qed.

Lemma bget_recycle_skip dev n b h :
  b ∈ L → b_refcnt (buf_at s b) ≠ 0 →
  bget_recycle dev n b (s <| held := h |>) = Ret (inl (pv (bcache s) b)) (s <| held := h |>).
Proof.
  intros Hb Hn. unfold bget_recycle. rewrite bool_decide_eq_false_2.
  2:{ apply (lru_elem _ _ _ Hlru) in Hb. unfold bhead. lia. }
  msimpl. mrun (getb_eq b _ (buf_at s b)) by (apply buf_lookup; by right).
  mif_false by (by apply Z.eqb_neq). unfold pv. by rewrite buf_lookup by (by right).
Qed.

Lemma head_next : b_next (buf_at s bhead) = default bhead (head L).
Proof.
  change L with ([] ++ L). rewrite <-(proj2 (ring_split _ _ _ [] L (lru_ring _ _ Hlru))).
  unfold nx. by rewrite buf_lookup by left.
Qed.

Lemma head_prev : b_prev (buf_at s bhead) = default bhead (head (reverse L)).
Proof.
  pose proof (ring_rev _ _ _ _ (lru_ring _ _ Hlru)) as Hr.
  change (reverse L) with ([] ++ reverse L). rewrite <-(proj2 (ring_split _ _ _ [] _ Hr)).
  unfold pv. by rewrite buf_lookup by left.
Qed.

(** bget() for a block in the cache: the first buffer for it gets one more
    reference and its lock. *)
Lemma bget_hit dev n l1 b l2 :
  L = l1 ++ b :: l2 → is_for dev n (buf_at s b) → (∀ i, i ∈ l1 → ¬ is_for dev n (buf_at s i)) →
  sl_locked (b_lock (buf_at s b)) = 0 →
  bget dev n s = Ret b (locked_with q take_ref b s).
Proof.
  intros EL [Hd Hn] Hl1 Hlk. assert (b ∈ L) as Hb by (rewrite EL; apply elem_of_app; right; left).
  unfold bget. msimpl. mrun (acquire_none _ pr q) by exact Ht. mrun (getb_eq bhead _ (buf_at s bhead)) by (apply buf_lookup; left).
  pose proof (lru_length _ _ Hlru) as Hlen. rewrite EL, length_app in Hlen. cbn in Hlen.
  rewrite head_next. replace (S NBUF) with (length l1 + S (S (length l2)))%nat by lia.
  pose proof (lru_ring _ _ Hlru) as Hr. rewrite EL in Hr. apply ring_split in Hr as [Hr _]. cbn [head default from_option id] in Hr.
  replace (head L) with (Some (default b (head l1))) by (rewrite EL; by destruct l1). cbn [default from_option id].
  erewrite loop_walk; [|exact Hr|intros i Hi; apply bget_cached_skip; [rewrite EL; apply elem_of_app; by left|by apply Hl1]].
  rewrite (loop_exit _ _ _ _ (Some b) (locked_with q take_ref b s)); [done|].
  unfold bget_cached. rewrite bool_decide_eq_false_2.
  2:{ apply (lru_elem _ _ _ Hlru) in Hb. unfold bhead. lia. }
  msimpl. mrun (getb_eq b _ (buf_at s b)) by (apply buf_lookup; by right).
  mif_true by (by rewrite Hd, Hn, !Z.eqb_refl).
  by apply (claim_buffer b take_ref).
Qed.

Lemma bget_miss dev n :
  (∀ i, i ∈ L → ¬ is_for dev n (buf_at s i)) →
  bget dev n s =
    (r ← loop (S NBUF) (bget_recycle dev n) (default bhead (head (reverse L)));
     match r with Some b => mret b | None => panic "bget: no buffers" end) (s <| held := [bcache_lock] |>).
Proof.
  intros Hno. unfold bget. msimpl. mrun (acquire_none _ pr q) by exact Ht.
  mrun (getb_eq bhead _ (buf_at s bhead)) by (apply buf_lookup; left).
  rewrite head_next. replace (S NBUF) with (length L + 1)%nat at 1 by (rewrite (lru_length _ _ Hlru); lia).
  pose proof (lru_ring _ _ Hlru) as Hr. rewrite <-(app_nil_r L) in Hr. apply ring_split in Hr as [Hr _]. cbn [head default from_option id] in Hr.
  erewrite loop_walk; [|exact Hr|intros i Hi; by apply bget_cached_skip; [|apply Hno]].
  erewrite loop_exit; [|unfold bget_cached; rewrite bool_decide_eq_true_2 by done; reflexivity]. msimpl.
  mrun (getb_eq bhead _ (buf_at s bhead)) by (apply buf_lookup; left). by rewrite head_prev.
Qed.

(** bget() for a block not in the cache: the least recently used of the buffers
    without references is taken. *)
Lemma bget_recycles dev n l1 b l2 :
  (∀ i, i ∈ L → ¬ is_for dev n (buf_at s i)) →
  L = l1 ++ b :: l2 → b_refcnt (buf_at s b) = 0 → (∀ i, i ∈ l2 → b_refcnt (buf_at s i) ≠ 0) →
  sl_locked (b_lock (buf_at s b)) = 0 →
  bget dev n s = Ret b (locked_with q (recycled dev n) b s).
Proof.
  intros Hno EL H0 Hl2 Hlk. assert (b ∈ L) as Hb by (rewrite EL; apply elem_of_app; right; left).
  rewrite bget_miss by done. msimpl.
  pose proof (ring_rev _ _ _ _ (lru_ring _ _ Hlru)) as Hr.
  assert (reverse L = reverse l2 ++ b :: reverse l1) as ER by (by rewrite EL, reverse_app, reverse_cons, <-app_assoc).
  rewrite ER in Hr |- *. apply ring_split in Hr as [Hr _]. cbn [head default from_option id] in Hr.
  pose proof (lru_length _ _ Hlru) as Hlen. rewrite EL, length_app in Hlen. cbn in Hlen.
  replace (S NBUF) with (length (reverse l2) + S (S (length l1)))%nat by (rewrite length_reverse; lia).
  replace (head (_ ++ _)) with (Some (default b (head (reverse l2)))) by (by destruct (reverse l2)). cbn [default from_option id].
  erewrite loop_walk; [|exact Hr|].
  2:{ intros i Hi. rewrite elem_of_reverse in Hi. apply bget_recycle_skip; [|by apply Hl2]. rewrite EL. apply elem_of_app. right. by right. }
  rewrite (loop_exit _ _ _ _ (Some b) (locked_with q (recycled dev n) b s)); [done|].
  unfold bget_recycle. rewrite bool_decide_eq_false_2.
  2:{ apply (lru_elem _ _ _ Hlru) in Hb. unfold bhead. lia. }
  msimpl. mrun (getb_eq b _ (buf_at s b)) by (apply buf_lookup; by right). rewrite H0. cbn [Z.eqb].
  by apply (claim_buffer b (recycled dev n)).
Qed.

(** ... and when every buffer has references, bget() panics. *)
Lemma bget_none dev n :
  (∀ i, i ∈ L → ¬ is_for dev n (buf_at s i)) → (∀ i, i ∈ L → b_refcnt (buf_at s i) ≠ 0) →
  bget dev n s = Panic "bget: no buffers" (s <| held := [bcache_lock] |>).
Proof.
  intros Hno Hall. rewrite bget_miss by done. msimpl.
  replace (S NBUF) with (length (reverse L) + 1)%nat by (rewrite length_reverse, (lru_length _ _ Hlru); lia).
  pose proof (ring_rev _ _ _ _ (lru_ring _ _ Hlru)) as Hr.
  rewrite <-(app_nil_r (reverse L)) in Hr. apply ring_split in Hr as [Hr _]. cbn [head default from_option id] in Hr.
  erewrite loop_walk; [|exact Hr|intros i Hi; rewrite elem_of_reverse in Hi; by apply bget_recycle_skip; [|apply Hall]].
  erewrite loop_exit; [|unfold bget_recycle; rewrite bool_decide_eq_true_2 by done; reflexivity]. done.
Qed.

End cache.

(** The buffer after bread()'s read of the disk. *)
Definition loaded (d : gmap Z (list Z)) (x : buf) : buf :=
  if b_valid x =? 0 then x <| b_data := block_at d (b_blockno x) |> <| b_valid := 1 |> else x.

(** The links of the list, as functions. *)
Lemma nx_put b x s i : (b < length (bcache s))%nat → nx (bcache (put_buf b x s)) i = upd (nx (bcache s)) b (b_next x) i.
Proof.
  intros Hb. unfold nx, upd, put_buf. cbn. destruct (decide (i = b)) as [->|Hi].
  - by rewrite list_lookup_insert_eq.
  - by rewrite list_lookup_insert_ne.
Qed.

Lemma pv_put b x s i : (b < length (bcache s))%nat → pv (bcache (put_buf b x s)) i = upd (pv (bcache s)) b (b_prev x) i.
Proof.
  intros Hb. unfold pv, upd, put_buf. cbn. destruct (decide (i = b)) as [->|Hi].
  - by rewrite list_lookup_insert_eq.
  - by rewrite list_lookup_insert_ne.
Qed.

Lemma nx_at s b : (b < length (bcache s))%nat → nx (bcache s) b = b_next (buf_at s b).
Proof. intros Hb. unfold nx, buf_at. by destruct (lookup_lt_is_Some_2 _ _ Hb) as [x ->]. Qed.

Lemma pv_at s b : (b < length (bcache s))%nat → pv (bcache s) b = b_prev (buf_at s b).
Proof. intros Hb. unfold pv, buf_at. by destruct (lookup_lt_is_Some_2 _ _ Hb) as [x ->]. Qed.

Lemma upd_same f i j : upd f i (f i) j = f j.
Proof. unfold upd. by case_decide; subst. Qed.

(** Storing a buffer with its links unchanged. *)
Lemma lru_put b x s L :
  b_next x = b_next (buf_at s b) → b_prev x = b_prev (buf_at s b) → b ∈ L →
  lru (bcache s) L → lru (bcache (put_buf b x s)) L.
Proof.
  intros En Ep Hb Hl. pose proof Hl as [Hlen Hp Hr]. apply (lru_elem _ _ _ Hl) in Hb.
  split; [by rewrite put_length|done|].
  apply (linked_frame (nx (bcache s)) (pv (bcache s))); [..|exact Hr]; intros i _.
  - rewrite nx_put, En, <-nx_at by lia. apply upd_same.
  - rewrite pv_put, Ep, <-pv_at by lia. apply upd_same.
Qed.

Lemma buf_lt s L b : lru (bcache s) L → b ∈ bhead :: L → (b < length (bcache s))%nat.
Proof. intros Hl Hb. by eapply lookup_lt_Some, buf_lookup. Qed.

Lemma elem_of_reverse_ring (l1 : list nat) h l2 i : i ∈ h :: reverse (l1 ++ l2) ↔ i ∈ h :: l1 ++ l2.
Proof. by rewrite !elem_of_cons, elem_of_reverse. Qed.

Lemma thread_put b x s pr q : thread s pr q → thread (put_buf b x s) pr q.
Proof. intros []. by split. Qed.

(** A buffer without its links. *)
Definition unlinked (x : buf) : buf := x <| b_prev := 0%nat |> <| b_next := 0%nat |>.

Lemma unlinked_put b x s :
  (b < length (bcache s))%nat → unlinked x = unlinked (buf_at s b) →
  unlinked <$> bcache (put_buf b x s) = unlinked <$> bcache s.
Proof.
  intros Hb E. unfold put_buf. cbn. rewrite list_fmap_insert, E. unfold buf_at.
  destruct (lookup_lt_is_Some_2 _ _ Hb) as [y Hy]. rewrite Hy. cbn. apply list_insert_id.
  by rewrite list_lookup_fmap, Hy.
Qed.

(** The end of brelse(): buffer [b] becomes the most recently used. *)
Definition to_front (b : nat) : K () :=
  x ← getb b;
  setb (b_next x) (λ y, y <| b_prev := b_prev x |>);;
  x ← getb b;
  setb (b_prev x) (λ y, y <| b_next := b_next x |>);;
  h ← getb bhead;
  setb b (λ x, x <| b_next := b_next h |>);;
  setb b (λ x, x <| b_prev := bhead |>);;
  h ← getb bhead;
  setb (b_next h) (λ y, y <| b_prev := b |>);;
  setb bhead (λ h, h <| b_next := b |>).

(** [t] is [s] with the links [n] and [p]. *)
Record relinked (s : kernel) (n p : nat → nat) (t : kernel) : Prop := {
  rl_state : t = s <| bcache := bcache t |>;
  rl_len : length (bcache t) = length (bcache s);
  rl_next : ∀ i, nx (bcache t) i = n i;
  rl_prev : ∀ i, pv (bcache t) i = p i;
  rl_rest : unlinked <$> bcache t = unlinked <$> bcache s;
}.

Lemma relinked_refl s : relinked s (nx (bcache s)) (pv (bcache s)) s.
Proof. split; try done. same_record s. Qed.

Lemma put_state s t i x :
  t = s <| bcache := bcache t |> → put_buf i x t = s <| bcache := bcache (put_buf i x t) |>.
Proof. intros E. cbn. unfold put_buf. rewrite E. done. Qed.

Lemma relink_next s n p t i v :
  relinked s n p t → (i < length (bcache s))%nat →
  ∃ t', setb i (λ y, y <| b_next := v |>) t = Ret () t' ∧ relinked s (upd n i v) p t'.
Proof.
  intros [E1 E2 E3 E4 E5] Hi. eexists. rewrite setb_put by lia. split; [reflexivity|]. split.
  - by apply put_state.
  - by rewrite put_length.
  - intros j. rewrite nx_put by lia. unfold upd. case_decide; [done|apply E3].
  - intros j. rewrite pv_put by lia. cbn. rewrite <-pv_at, upd_same by lia. apply E4.
  - rewrite unlinked_put; [done|lia|done].
Qed.

Lemma relink_prev s n p t i v :
  relinked s n p t → (i < length (bcache s))%nat →
  ∃ t', setb i (λ y, y <| b_prev := v |>) t = Ret () t' ∧ relinked s n (upd p i v) t'.
Proof.
  intros [E1 E2 E3 E4 E5] Hi. eexists. rewrite setb_put by lia. split; [reflexivity|]. split.
  - by apply put_state.
  - by rewrite put_length.
  - intros j. rewrite nx_put by lia. cbn. rewrite <-nx_at, upd_same by lia. apply E3.
  - intros j. rewrite pv_put by lia. unfold upd. case_decide; [done|apply E4].
  - rewrite unlinked_put; [done|lia|done].
Qed.

Lemma relinked_at s n p t i :
  relinked s n p t → (i < length (bcache s))%nat → b_next (buf_at t i) = n i ∧ b_prev (buf_at t i) = p i.
Proof. intros [_ El En Ep _] Hi. rewrite <-nx_at, <-pv_at by lia. by rewrite En, Ep. Qed.

Lemma to_front_eq s b l1 l2 :
  lru (bcache s) (l1 ++ b :: l2) →
  ∃ B', to_front b s = Ret () (s <| bcache := B' |>) ∧ lru B' (b :: l1 ++ l2) ∧ unlinked <$> B' = unlinked <$> bcache s.
Proof.
  intros Hl. pose proof Hl as [Hlen Hperm Hr]. pose proof (lru_nodup _ _ Hl) as Hnd.
  assert (∀ i, i ∈ bhead :: l1 ++ b :: l2 → (i < length (bcache s))%nat) as Hlt by (intros i; by apply buf_lt).
  assert (b ∈ bhead :: l1 ++ b :: l2) as Hb by (right; apply elem_of_app; right; left).
  pose proof (Hlt _ Hb) as Hbl. pose proof (Hlt bhead ltac:(left)) as Hhl.
  pose proof (ring_unlink _ _ _ _ _ _ Hnd Hr) as Hr1.
  assert (NoDup (b :: bhead :: l1 ++ l2)) as Hnd1 by (change (bhead :: l1 ++ l2) with ((bhead :: l1) ++ l2); rewrite Permutation_middle; exact Hnd).
  apply NoDup_cons in Hnd1 as [Hb1 Hnd1]. pose proof (ring_push _ _ _ _ _ Hb1 Hnd1 Hr1) as Hr2.
  assert (nx (bcache s) b < length (bcache s))%nat as Hn by (apply Hlt; by eapply ring_closed).
  assert (pv (bcache s) b < length (bcache s))%nat as Hp.
  { apply Hlt. rewrite <-(elem_of_reverse_ring l1). eapply ring_closed, elem_of_reverse_ring; [by apply ring_rev|done]. }
  set (n1 := upd (nx (bcache s)) _ _) in *. set (p1 := upd (pv (bcache s)) _ _) in *.
  assert (n1 bhead < length (bcache s))%nat as Hh.
  { apply Hlt. pose proof (ring_closed _ _ _ _ bhead Hr1 ltac:(left)) as Hi. revert Hi.
    rewrite !elem_of_cons, !elem_of_app, elem_of_cons. tauto. }
  unfold to_front. msimpl. mrun getb_at.
  destruct (relinked_at _ _ _ _ b (relinked_refl s) Hbl) as [-> ->].
  destruct (relink_prev _ _ _ _ (nx (bcache s) b) (pv (bcache s) b) (relinked_refl s) Hn) as (t1 & -> & R1). fold p1 in R1. msimpl.
  mrun getb_at. destruct (relinked_at _ _ _ _ b R1 Hbl) as [-> ->].
  replace (p1 b) with (pv (bcache s) b) by (unfold p1, upd; by case_decide).
  destruct (relink_next _ _ _ _ (pv (bcache s) b) (nx (bcache s) b) R1 Hp) as (t2 & -> & R2). fold n1 in R2. msimpl.
  mrun getb_at. destruct (relinked_at _ _ _ _ bhead R2 Hhl) as [-> _].
  destruct (relink_next _ _ _ _ b (n1 bhead) R2 Hbl) as (t3 & -> & R3). msimpl.
  destruct (relink_prev _ _ _ _ b bhead R3 Hbl) as (t4 & -> & R4). msimpl.
  mrun getb_at. destruct (relinked_at _ _ _ _ bhead R4 Hhl) as [-> _].
  rewrite upd_ne by (intros E; apply Hb1; rewrite E; left).
  destruct (relink_prev _ _ _ _ (n1 bhead) b R4 Hh) as (t5 & -> & R5). msimpl.
  destruct (relink_next _ _ _ _ bhead b R5 Hhl) as (t6 & -> & [E1 E2 E3 E4 E5]).
  exists (bcache t6). split; [by rewrite E1 at 1|]. split; [split|done].
  - congruence.
  - rewrite <-Hperm. apply Permutation_middle.
  - by apply (linked_frame (upd (upd n1 b (n1 bhead)) bhead b) (upd (upd p1 b bhead) (n1 bhead) b)).
Qed.

Section cache_ops.
Context `{Patience} (s : kernel) (pr : nat) (q : proc) (L : list nat).
Context (Ht : thread s pr q) (Hlru : lru (bcache s) L) (Hpat : (0 < patience)%nat).

Lemma bread_eq dev n f b :
  b ∈ L → bget dev n s = Ret b (locked_with q f b s) →
  bread dev n s = Ret b (locked_with q (λ x, loaded (disk s) (f x)) b s).
Proof.
  intros Hb E. pose proof (buf_lt s L b Hlru ltac:(by right)) as Hlt. unfold bread. msimpl. mrun E. mrun getb_at.
  unfold locked_with. rewrite buf_put by done. set (x := f (buf_at s b)). change (b_valid (x <| b_lock := _ |>)) with (b_valid x). unfold loaded.
  destruct (b_valid x =? 0).
  - unfold disk_rw. msimpl. mrun getb_at. mrun setb_put by (by rewrite put_length).
    mrun setb_put by (by rewrite !put_length). rewrite !buf_put by (by rewrite ?put_length).
    rewrite !put_put. done.
  - done.
Qed.

Lemma bwrite_eq b :
  b ∈ L → b_lock (buf_at s b) = mine q →
  bwrite b s = Ret () (s <| disk ::= <[b_blockno (buf_at s b) := b_data (buf_at s b)]> |>
                         <| dwrites ::= λ l, l ++ [(b_blockno (buf_at s b), b_data (buf_at s b))] |>).
Proof.
  intros Hb Hl. unfold bwrite. msimpl. mrun (holdingsleep_eq s pr q) by exact Ht.
  assert (get_sl (buf_sleeplock b) s = mine q) as ->.
  { cbn. rewrite (buf_lookup s L Hlru) by (by right). exact Hl. }
  cbn [sl_locked sl_pid mine]. rewrite Z.eqb_refl. cbn [Z.eqb negb andb]. unfold disk_rw. msimpl. by mrun getb_at.
Qed.

Lemma bpin_eq b : b ∈ L → bpin b s = Ret () (put_buf b (take_ref (buf_at s b)) s).
Proof.
  intros Hb. pose proof (buf_lt s L b Hlru ltac:(by right)) as Hlt. unfold bpin. msimpl.
  mrun (acquire_none s pr q) by exact Ht. mrun setb_put by done.
  rewrite (release_head _ []) by done. f_equal.
  change (put_buf b ?x (s <| held := ?h |>) <| held := ?h' |>) with (put_buf b x (s <| held := h |> <| held := h' |>)).
  by rewrite (held_back s) by apply Ht.
Qed.

Definition drop_ref (x : buf) : buf := x <| b_refcnt ::= λ r, u32 (r - 1) |>.

Lemma bunpin_eq b : b ∈ L → bunpin b s = Ret () (put_buf b (drop_ref (buf_at s b)) s).
Proof.
  intros Hb. pose proof (buf_lt s L b Hlru ltac:(by right)) as Hlt. unfold bunpin. msimpl.
  mrun (acquire_none s pr q) by exact Ht. mrun setb_put by done.
  rewrite (release_head _ []) by done. f_equal.
  change (put_buf b ?x (s <| held := ?h |>) <| held := ?h' |>) with (put_buf b x (s <| held := h |> <| held := h' |>)).
  by rewrite (held_back s) by apply Ht.
Qed.

(** The released buffer, and the list after it. *)
Definition released (x : buf) : buf := drop_ref (x <| b_lock := mkSleeplock 0 0 |>).

Lemma brelse_eq l1 b l2 :
  L = l1 ++ b :: l2 → b_lock (buf_at s b) = mine q →
  ∃ B' L', brelse b s = Ret () (s <| procs := imap (woken (Some pr) (chan_sleeplock (buf_sleeplock b)) (ticks s)) (procs s) |>
                              <| bcache := B' |>) ∧
    lru B' L' ∧ unlinked <$> B' = unlinked <$> <[b := released (buf_at s b)]> (bcache s) ∧
    L' = (if b_refcnt (released (buf_at s b)) =? 0 then b :: l1 ++ l2 else L).
Proof.
  intros EL Hl. assert (b ∈ L) as Hb by (rewrite EL; apply elem_of_app; right; left).
  pose proof (buf_lt s L b Hlru ltac:(by right)) as Hlt. set (ps := imap _ _).
  unfold brelse. msimpl. mrun (holdingsleep_eq s pr q) by exact Ht.
  assert (get_sl (buf_sleeplock b) s = mine q) as ->.
  { cbn. rewrite (buf_lookup s L Hlru) by (by right). exact Hl. }
  cbn [sl_locked sl_pid mine]. rewrite Z.eqb_refl. cbn [Z.eqb negb andb]. msimpl.
  mrun (releasesleep_eq s pr q) by exact Ht. unfold set_sl. rewrite alter_put by done. fold ps.
  set (t := put_buf _ _ s <| procs := ps |>).
  assert (thread t pr q) as Htt by (apply thread_procs; [by apply thread_put|by apply thread_woken|unfold ps; by rewrite length_imap; apply Ht]).
  mrun (acquire_none t pr q) by exact Htt. assert (b < length (bcache t))%nat as Hlt' by (unfold t; cbn; by rewrite length_insert).
  mrun setb_put by exact Hlt'. mrun getb_at. rewrite buf_put by exact Hlt'.
  change (buf_at (t <| held := _ |>) b) with (buf_at (put_buf b (buf_at s b <| b_lock := mkSleeplock 0 0 |>) s) b).
  rewrite buf_put by done. change (_ <| b_refcnt ::= _ |>) with (released (buf_at s b)).
  set (x := released (buf_at s b)). set (u := put_buf b x _).
  assert (bcache u = <[b := x]> (bcache s)) as Eu by (unfold u, t; cbn; by rewrite list_insert_insert_eq).
  assert (lru (bcache u) L) as Hlu by (rewrite Eu; by apply (lru_put b x s L)).
  destruct (b_refcnt x =? 0).
  - rewrite EL in Hlu. destruct (to_front_eq u b l1 l2 Hlu) as (B' & E & Hl' & Hu).
    exists B', (b :: l1 ++ l2). unfold to_front in E. revert E. msimpl. rewrite getb_at. cbn [bindO].
    unfold u at 1 2. rewrite buf_put by exact Hlt'. intros E. mrun E.
    rewrite (release_head _ []) by done. rewrite Hu, Eu. split; [|done]. f_equal.
    transitivity (s <| held := [] |> <| procs := ps |> <| bcache := B' |>); [reflexivity|].
    by rewrite (held_none s) by apply Ht.
  - msimpl. rewrite (release_head _ []) by done. exists (bcache u), L. split; [|split; [done|by rewrite Eu]].
    f_equal. transitivity (s <| held := [] |> <| procs := ps |> <| bcache := bcache u |>); [reflexivity|].
    by rewrite (held_none s) by apply Ht.
Qed.
End cache_ops.

(** ** The client's view

    The current contents [v] of every block of the device, the references
    [rc] to its buffers (all positive) and the set [own] of the blocks whose
    buffers process [q] has locked. *)

Record view := mkView { v_data : Z → list Z; v_refs : gmap Z Z; v_own : gset Z }.

(** What a buffer of the device is worth. *)
Record entry_ok (q : proc) (d : gmap Z (list Z)) (w : view) (x : buf) : Prop := {
  en_refs : b_refcnt x = default 0 (v_refs w !! b_blockno x);
  en_data : if b_valid x =? 0 then v_data w (b_blockno x) = block_at d (b_blockno x)
            else b_data x = v_data w (b_blockno x);
  en_clean : b_refcnt x = 0 → v_data w (b_blockno x) = block_at d (b_blockno x);
  en_lock : if decide (b_blockno x ∈ v_own w) then b_lock x = mine q ∧ b_valid x ≠ 0
            else sl_locked (b_lock x) = 0;
}.

Record bio (q : proc) (dev : Z) (w : view) (s : kernel) : Prop := {
  bio_lru : ∃ L, lru (bcache s) L;
  bio_uniq : ∀ i j n, (i < NBUF)%nat → (j < NBUF)%nat →
    is_for dev n (buf_at s i) → is_for dev n (buf_at s j) → i = j;
  bio_entry : ∀ i, (i < NBUF)%nat → b_dev (buf_at s i) = dev → entry_ok q (disk s) w (buf_at s i);
  bio_other : ∀ i, (i < NBUF)%nat → b_dev (buf_at s i) ≠ dev →
    b_refcnt (buf_at s i) = 0 ∧ sl_locked (b_lock (buf_at s i)) = 0;
  bio_miss : ∀ n, (∀ i, (i < NBUF)%nat → ¬ is_for dev n (buf_at s i)) →
    v_data w n = block_at (disk s) n ∧ v_refs w !! n = None;
  bio_pos : ∀ n c, v_refs w !! n = Some c → 0 < c < 2 ^ 32;
  bio_own : v_own w ⊆ dom (v_refs w);
}.

(** The buffer of block [n]. *)
Definition buf_of (dev : Z) (s : kernel) (n : Z) (b : nat) : Prop := (b < NBUF)%nat ∧ is_for dev n (buf_at s b).

Lemma unlinked_at s s' (b : nat) x i :
  unlinked <$> bcache s' = unlinked <$> <[b := x]> (bcache s) → (b < length (bcache s))%nat →
  (i < length (bcache s))%nat →
  unlinked (buf_at s' i) = unlinked (if decide (i = b) then x else buf_at s i).
Proof.
  intros E Hb Hi. assert ((unlinked <$> bcache s') !! i = (unlinked <$> <[b := x]> (bcache s)) !! i) as Ei by (by rewrite E).
  rewrite !list_lookup_fmap in Ei. destruct (lookup_lt_is_Some_2 _ _ Hi) as [y Hy].
  assert (<[b := x]> (bcache s) !! i = Some (if decide (i = b) then x else buf_at s i)) as Hz.
  { case_decide as Hd; [subst; by rewrite list_lookup_insert_eq|].
    unfold buf_at. rewrite list_lookup_insert_ne, Hy by done. done. }
  rewrite Hz in Ei. unfold buf_at at 1. destruct (bcache s' !! i) as [z|]; [by apply (inj Some) in Ei|discriminate].
Qed.

Lemma unlinked_fields x y :
  unlinked x = unlinked y →
  b_dev x = b_dev y ∧ b_blockno x = b_blockno y ∧ b_refcnt x = b_refcnt y ∧ b_valid x = b_valid y ∧
  b_data x = b_data y ∧ b_lock x = b_lock y.
Proof. destruct x, y. intros [=]. by subst. Qed.

Lemma entry_ok_ext q d w x y : unlinked x = unlinked y → entry_ok q d w x → entry_ok q d w y.
Proof.
  intros (_ & E1 & E2 & E3 & E4 & E5)%unlinked_fields [H1 H2 H3 H4].
  rewrite E1, E2, ?E3, ?E4, ?E5 in *. by split.
Qed.

Lemma entry_ok_view q d d' w w' x :
  v_data w' (b_blockno x) = v_data w (b_blockno x) → v_refs w' !! b_blockno x = v_refs w !! b_blockno x →
  (b_blockno x ∈ v_own w' ↔ b_blockno x ∈ v_own w) → block_at d' (b_blockno x) = block_at d (b_blockno x) →
  entry_ok q d w x → entry_ok q d' w' x.
Proof.
  intros E1 E2 E3 E4 [H1 H2 H3 H4]. split; rewrite ?E1, ?E2, ?E4; try done.
  destruct (decide (b_blockno x ∈ v_own w)); [rewrite decide_True|rewrite decide_False]; tauto.
Qed.

(** [w'] differs from [w] at block [n] only. *)
Definition same_except (n : Z) (d d' : gmap Z (list Z)) (w w' : view) : Prop :=
  ∀ m, m ≠ n → v_data w' m = v_data w m ∧ v_refs w' !! m = v_refs w !! m ∧ (m ∈ v_own w' ↔ m ∈ v_own w) ∧
    block_at d' m = block_at d m.

(** The cache with one buffer changed. *)
Definition cache_put (s s' : kernel) (b : nat) (x : buf) : Prop :=
  (∃ L, lru (bcache s') L) ∧ unlinked <$> bcache s' = unlinked <$> <[b := x]> (bcache s).

Section step.
Context (q : proc) (dev : Z) (w : view) (s : kernel) (Hbio : bio q dev w s).

Lemma bio_len b : (b < NBUF)%nat → (b < length (bcache s))%nat.
Proof. destruct (bio_lru _ _ _ _ Hbio) as [L HL]. rewrite (lru_len _ _ HL). lia. Qed.

Lemma bio_put_at s' b x i :
  (b < NBUF)%nat → cache_put s s' b x → (i < NBUF)%nat →
  unlinked (buf_at s' i) = unlinked (if decide (i = b) then x else buf_at s i).
Proof. intros Hb [_ E] Hi. by apply unlinked_at; [|apply bio_len|apply bio_len]. Qed.

Lemma buf_of_put s' b x n i :
  (b < NBUF)%nat → cache_put s s' b x → buf_of dev s n i → i ≠ b → buf_of dev s' n i.
Proof.
  intros Hb Hp [Hi Hf] Hne. split; [done|]. pose proof (bio_put_at s' b x i Hb Hp Hi) as E.
  rewrite decide_False in E by done. apply unlinked_fields in E as (E1 & E2 & _). unfold is_for in *. by rewrite E1, E2.
Qed.

(** A buffer without references can be given up. *)
Lemma bio_evict b n :
  (b < NBUF)%nat → b_refcnt (buf_at s b) = 0 → is_for dev n (buf_at s b) →
  v_data w n = block_at (disk s) n ∧ v_refs w !! n = None.
Proof.
  intros Hb H0 [Hd <-]. destruct (bio_entry _ _ _ _ Hbio b Hb Hd) as [H1 _ H3 _]. split; [auto|].
  destruct (v_refs w !! _) as [c|] eqn:Ec; [|done]. pose proof (bio_pos _ _ _ _ Hbio _ _ Ec). cbn in H1. lia.
Qed.

Lemma bio_step w' s' b x :
  (b < NBUF)%nat → cache_put s s' b x → b_dev x = dev → entry_ok q (disk s') w' x →
  (is_for dev (b_blockno x) (buf_at s b) ∨
   b_refcnt (buf_at s b) = 0 ∧ ∀ i, (i < NBUF)%nat → ¬ is_for dev (b_blockno x) (buf_at s i)) →
  same_except (b_blockno x) (disk s) (disk s') w w' →
  (∀ c, v_refs w' !! b_blockno x = Some c → 0 < c < 2 ^ 32) →
  (b_blockno x ∈ v_own w' → is_Some (v_refs w' !! b_blockno x)) →
  bio q dev w' s'.
Proof.
  intros Hb Hp Hd Hx Hcase Hsame Hpos Hown. remember (b_blockno x) as n eqn:En.
  assert (∀ i, (i < NBUF)%nat → i ≠ b → unlinked (buf_at s' i) = unlinked (buf_at s i)) as Hne.
  { intros i Hi Hib. by rewrite (bio_put_at s' b x i Hb Hp Hi), decide_False. }
  assert (unlinked (buf_at s' b) = unlinked x) as Heq by (by rewrite (bio_put_at s' b x b Hb Hp Hb), decide_True).
  assert (∀ i, (i < NBUF)%nat → i ≠ b → ¬ is_for dev n (buf_at s i)) as Hnone.
  { intros i Hi Hib Hf. destruct Hcase as [Hf'|[_ Hno]]; [|by eapply Hno].
    apply Hib. by eapply (bio_uniq _ _ _ _ Hbio). }
  assert (∀ i m, (i < NBUF)%nat → is_for dev m (buf_at s' i) → i = b ∧ m = n ∨ i ≠ b ∧ m ≠ n ∧ is_for dev m (buf_at s i)) as Hfor.
  { intros i m Hi [E1 E2]. destruct (decide (i = b)) as [->|Hib].
    - left. apply unlinked_fields in Heq as (_ & F & _). split; [done|congruence].
    - right. destruct (unlinked_fields _ _ (Hne i Hi Hib)) as (F1 & F2 & _).
      assert (is_for dev m (buf_at s i)) as Hf by (split; congruence). split; [done|]. split; [|done].
      intros ->. by eapply Hnone. }
  split.
  - apply Hp.
  - intros i j m Hi Hj [[-> ->]|(? & ? & Fi)]%Hfor [[-> Em]|(? & ? & Fj)]%Hfor; try done.
    by eapply (bio_uniq _ _ _ _ Hbio).
  - intros i Hi Hdi. destruct (Hfor i _ Hi (conj Hdi eq_refl)) as [[-> _]|(Hib & Hm & _)].
    { by eapply entry_ok_ext; [symmetry|]. }
    pose proof (Hne i Hi Hib) as E. destruct (unlinked_fields _ _ E) as (F1 & F2 & _). rewrite F2 in Hm.
    eapply entry_ok_ext; [symmetry; exact E|]. destruct (Hsame _ Hm) as (G1 & G2 & G3 & G4).
    eapply entry_ok_view; [exact G1|exact G2|exact G3|exact G4|]. apply (bio_entry _ _ _ _ Hbio); congruence.
  - intros i Hi Hdi. assert (i ≠ b) as Hib.
    { intros ->. destruct (unlinked_fields _ _ Heq) as (F & _). congruence. }
    destruct (unlinked_fields _ _ (Hne i Hi Hib)) as (F1 & _ & F3 & _ & _ & F6). rewrite F3, F6.
    apply (bio_other _ _ _ _ Hbio); congruence.
  - intros m Hm. assert (m ≠ n) as Hmn.
    { intros ->. apply (Hm b Hb). destruct (unlinked_fields _ _ Heq) as (F1 & F2 & _). by split; congruence. }
    destruct (Hsame _ Hmn) as (-> & -> & _ & ->).
    destruct (decide (is_for dev m (buf_at s b))) as [Hf|Hf].
    + destruct Hcase as [[_ Hf']|[H0 _]]; [destruct Hf; congruence|]. by eapply bio_evict.
    + apply (bio_miss _ _ _ _ Hbio). intros i Hi Hfi. destruct (decide (i = b)) as [->|Hib]; [done|].
      apply (Hm i Hi). destruct (unlinked_fields _ _ (Hne i Hi Hib)) as (F1 & F2 & _). destruct Hfi. by split; congruence.
  - intros m c. destruct (decide (m = n)) as [->|Hmn]; [apply Hpos|].
    destruct (Hsame _ Hmn) as (_ & -> & _). apply (bio_pos _ _ _ _ Hbio).
  - intros m Hm. apply elem_of_dom. destruct (decide (m = n)) as [->|Hmn]; [by apply Hown|].
    destruct (Hsame _ Hmn) as (_ & -> & E & _). apply E, (bio_own _ _ _ _ Hbio), elem_of_dom in Hm. done.
Qed.
End step.

(** ** The operations in the client's view *)

Definition fupd (f : Z → list Z) (n : Z) (d : list Z) : Z → list Z := λ m, if decide (m = n) then d else f m.

Definition refs_add (k n : Z) (rc : gmap Z Z) : gmap Z Z :=
  let c := default 0 (rc !! n) + k in if c =? 0 then delete n rc else <[n := c]> rc.

Definition w_take (n : Z) (w : view) : view := mkView (v_data w) (refs_add 1 n (v_refs w)) ({[n]} ∪ v_own w).
Definition w_set (n : Z) (d : list Z) (w : view) : view := mkView (fupd (v_data w) n d) (v_refs w) (v_own w).
Definition w_drop (n : Z) (w : view) : view := mkView (v_data w) (refs_add (-1) n (v_refs w)) (v_own w ∖ {[n]}).
Definition w_unpin (n : Z) (w : view) : view := mkView (v_data w) (refs_add (-1) n (v_refs w)) (v_own w).

Lemma refs_add_eq k n rc : default 0 (refs_add k n rc !! n) = default 0 (rc !! n) + k.
Proof.
  unfold refs_add. destruct (Z.eqb_spec (default 0 (rc !! n) + k) 0) as [->|H].
  - by rewrite lookup_delete_eq.
  - by rewrite lookup_insert_eq.
Qed.

Lemma refs_add_ne k n m rc : m ≠ n → refs_add k n rc !! m = rc !! m.
Proof.
  intros H. unfold refs_add. destruct (_ =? 0); [by rewrite lookup_delete_ne|by rewrite lookup_insert_ne].
Qed.

Lemma refs_add_pos k n rc c : 0 ≤ default 0 (rc !! n) + k < 2 ^ 32 → refs_add k n rc !! n = Some c → 0 < c < 2 ^ 32.
Proof.
  unfold refs_add. intros Hr. destruct (Z.eqb_spec (default 0 (rc !! n) + k) 0) as [E|H].
  - by rewrite lookup_delete_eq.
  - rewrite lookup_insert_eq. intros [= <-]. lia.
Qed.

Lemma fupd_eq f n d : fupd f n d n = d.
Proof. unfold fupd. by rewrite decide_True. Qed.
Lemma fupd_ne f n d m : m ≠ n → fupd f n d m = f m.
Proof. intros. unfold fupd. by rewrite decide_False. Qed.

(** Some buffer is free while fewer than [NBUF] blocks are referenced. *)
Lemma bio_free q dev w s :
  bio q dev w s → (size (v_refs w) < NBUF)%nat → ∃ i, (i < NBUF)%nat ∧ b_refcnt (buf_at s i) = 0.
Proof.
  intros Hbio Hsz. destruct (decide (Exists (λ i, b_refcnt (buf_at s i) = 0) (seq 0 NBUF))) as [He|Hne].
  { apply Exists_exists in He as (i & Hi%elem_of_seq & H0). exists i. split; [lia|done]. }
  exfalso. apply not_Exists_Forall in Hne; [|apply _]. rewrite Forall_forall in Hne.
  assert (∀ i, (i < NBUF)%nat → b_dev (buf_at s i) = dev ∧ b_blockno (buf_at s i) ∈ dom (v_refs w)) as Hin.
  { intros i Hi. specialize (Hne i ltac:(apply elem_of_seq; lia)).
    destruct (decide (b_dev (buf_at s i) = dev)) as [Hd|Hd]; [|by destruct (bio_other _ _ _ _ Hbio i Hi Hd)].
    split; [done|]. destruct (bio_entry _ _ _ _ Hbio i Hi Hd) as [E _ _ _]. apply elem_of_dom.
    destruct (v_refs w !! _); [done|]. by apply Hne in E. }
  set (l := (λ i, b_blockno (buf_at s i)) <$> seq 0 NBUF).
  assert (NoDup l) as Hnd.
  { apply NoDup_fmap_2_strong; [|apply NoDup_seq]. intros i j Hi%elem_of_seq Hj%elem_of_seq E.
    eapply (bio_uniq _ _ _ _ Hbio i j); [lia|lia|split; [apply Hin; lia|exact E]|split; [apply Hin; lia|done]]. }
  assert (list_to_set l ⊆ dom (v_refs w)) as Hsub.
  { intros m (i & -> & Hi%elem_of_seq)%elem_of_list_to_set%list_elem_of_fmap. apply Hin. lia. }
  apply subseteq_size in Hsub. rewrite size_list_to_set, size_dom in Hsub by done.
  unfold l in Hsub. rewrite length_fmap, length_seq in Hsub. lia.
Qed.

Lemma loaded_fields d x :
  b_dev (loaded d x) = b_dev x ∧ b_blockno (loaded d x) = b_blockno x ∧ b_next (loaded d x) = b_next x ∧
  b_prev (loaded d x) = b_prev x ∧ b_refcnt (loaded d x) = b_refcnt x ∧ b_valid (loaded d x) ≠ 0 ∧
  b_data (loaded d x) = (if b_valid x =? 0 then block_at d (b_blockno x) else b_data x).
Proof. unfold loaded. destruct (Z.eqb_spec (b_valid x) 0); by repeat split. Qed.

Section client.
Context `{Patience} (s : kernel) (pr : nat) (q : proc) (dev : Z) (w : view).
Context (Ht : thread s pr q) (Hbio : bio q dev w s).

Lemma own_ref n : n ∈ v_own w → 0 < default 0 (v_refs w !! n) < 2 ^ 32.
Proof.
  intros Hn. apply (bio_own _ _ _ _ Hbio), elem_of_dom in Hn as [c Hc]. rewrite Hc. cbn. by apply (bio_pos _ _ _ _ Hbio _ _ Hc).
Qed.

(** Where bread() finds the block, and what it makes of the buffer. *)
Lemma bget_choice n :
  (0 < patience)%nat → n ∉ v_own w → (v_refs w !! n = None → (size (v_refs w) < NBUF)%nat) →
  ∃ b f, (b < NBUF)%nat ∧ bget dev n s = Ret b (locked_with q f b s) ∧
    let x := buf_at s b in
    (is_for dev n x ∧ f = take_ref ∨
     b_refcnt x = 0 ∧ (∀ i, (i < NBUF)%nat → ¬ is_for dev n (buf_at s i)) ∧ f = recycled dev n).
Proof.
  intros Hpat Hn Hroom. destruct (bio_lru _ _ _ _ Hbio) as [L HL].
  destruct (first_split (λ i, is_for dev n (buf_at s i)) L) as [(l1 & b & l2 & EL & Hf & Hl1)|Hno].
  - assert (b < NBUF)%nat as Hb by (apply (lru_elem _ _ _ HL); rewrite EL; apply elem_of_app; right; left).
    exists b, take_ref. split; [done|]. split; [|by left].
    apply (bget_hit s pr q L Ht HL Hpat dev n l1 b l2); try done.
    pose proof Hf as [Hd Hbn]. destruct (bio_entry _ _ _ _ Hbio b Hb Hd) as [_ _ _ E]. by rewrite Hbn, decide_False in E.
  - assert (∀ i, (i < NBUF)%nat → ¬ is_for dev n (buf_at s i)) as Hno'.
    { intros i Hi. apply Hno. by apply (lru_elem _ _ _ HL). }
    destruct (bio_miss _ _ _ _ Hbio n Hno') as [_ Hrn].
    destruct (bio_free _ _ _ _ Hbio (Hroom Hrn)) as (i & Hi & H0).
    destruct (first_split (λ i, b_refcnt (buf_at s i) = 0) (reverse L)) as [(l2 & b & l1 & EL & Hf & Hl2)|Hall].
    2:{ exfalso. apply (Hall i); [|done]. by rewrite elem_of_reverse, (lru_elem _ _ _ HL). }
    apply (f_equal reverse) in EL. rewrite reverse_involutive, reverse_app, reverse_cons, <-app_assoc in EL.
    assert (b < NBUF)%nat as Hb by (apply (lru_elem _ _ _ HL); rewrite EL; apply elem_of_app; right; left).
    exists b, (recycled dev n). split; [done|]. split; [|by right].
    apply (bget_recycles s pr q L Ht HL Hpat dev n (reverse l1) b (reverse l2)); try done.
    + intros j Hj. apply Hl2. by rewrite elem_of_reverse in Hj.
    + destruct (decide (b_dev (buf_at s b) = dev)) as [Hd|Hd]; [|by apply (bio_other _ _ _ _ Hbio)].
      destruct (bio_entry _ _ _ _ Hbio b Hb Hd) as [E _ _ El]. rewrite decide_False in El; [done|].
      intros Ho%own_ref. lia.
Qed.

Lemma own_none n : n ∉ v_own w → 0 ≤ default 0 (v_refs w !! n).
Proof.
  intros _. destruct (v_refs w !! n) as [c|] eqn:E; [|done]. cbn. pose proof (bio_pos _ _ _ _ Hbio _ _ E). lia.
Qed.

Lemma bread_entry n b f :
  (b < NBUF)%nat → default 0 (v_refs w !! n) + 1 < 2 ^ 32 →
  (is_for dev n (buf_at s b) ∧ f = take_ref ∨
   b_refcnt (buf_at s b) = 0 ∧ (∀ i, (i < NBUF)%nat → ¬ is_for dev n (buf_at s i)) ∧ f = recycled dev n) →
  let y := f (buf_at s b) in
  b_dev y = dev ∧ b_blockno y = n ∧ b_next y = b_next (buf_at s b) ∧ b_prev y = b_prev (buf_at s b) ∧
  b_refcnt y = default 0 (v_refs w !! n) + 1 ∧
  (if b_valid y =? 0 then v_data w n = block_at (disk s) n else b_data y = v_data w n).
Proof.
  intros Hb Hc [[[Hd Hn] ->]|(H0 & Hno & ->)].
  - destruct (bio_entry _ _ _ _ Hbio b Hb Hd) as [E1 E2 _ _]. rewrite Hn in E1, E2. cbn. do 4 (split; [done|]). split; [|done].
    rewrite E1, u32_small; [done|]. split; [|lia].
    destruct (v_refs w !! n) as [c|] eqn:E; [|done]. cbn. pose proof (bio_pos _ _ _ _ Hbio _ _ E). lia.
  - destruct (bio_miss _ _ _ _ Hbio n Hno) as [E1 E2]. cbn. do 4 (split; [done|]). rewrite E2. done.
Qed.

Lemma bread_bio n :
  (0 < patience)%nat → n ∉ v_own w → (v_refs w !! n = None → (size (v_refs w) < NBUF)%nat) → default 0 (v_refs w !! n) + 1 < 2 ^ 32 →
  ∃ b s', bread dev n s = Ret b s' ∧ s' = s <| bcache := bcache s' |> ∧ bio q dev (w_take n w) s' ∧
    buf_of dev s' n b ∧ (∀ m c, m ∈ v_own w → buf_of dev s m c → buf_of dev s' m c).
Proof.
  intros Hpat Hn Hroom Hc. destruct (bget_choice n Hpat Hn Hroom) as (b & f & Hb & E & Hcase).
  destruct (bio_lru _ _ _ _ Hbio) as [L HL].
  pose proof (bread_eq s q L HL dev n f b ltac:(by apply (lru_elem _ _ _ HL)) E) as Er.
  set (y := f (buf_at s b)) in *. set (x := loaded (disk s) y <| b_lock := mine q |>).
  destruct (bread_entry n b f Hb Hc Hcase) as (Hd & Hx & En & Ep & Hr & Hdata). fold y in Hd, Hx, En, Ep, Hr, Hdata.
  destruct (loaded_fields (disk s) y) as (Ld & Lb & Ln & Lp & Lr & Lv & Ldt).
  assert (cache_put s (put_buf b x s) b x) as Hput.
  { split; [|done]. exists L. apply lru_put; unfold x; cbn; try congruence. by apply (lru_elem _ _ _ HL). }
  assert (b_blockno x = n) as Ebn by (unfold x; cbn; congruence).
  pose proof (own_none n Hn) as Hr0.
  exists b, (put_buf b x s). split; [exact Er|]. split; [done|]. split; [|split].
  - apply (bio_step q dev w s Hbio _ _ b x Hb Hput); rewrite ?Ebn.
    + unfold x. cbn. congruence.
    + split; rewrite ?Ebn; unfold x; cbn.
      * rewrite refs_add_eq. congruence.
      * rewrite (proj2 (Z.eqb_neq _ _) Lv), Ldt, Hx. by destruct (b_valid y =? 0); rewrite Hdata.
      * lia.
      * rewrite decide_True; [done|]. apply elem_of_union. left. by apply elem_of_singleton.
    + destruct Hcase as [[? _]|(? & ? & _)]; [by left|by right].
    + intros m Hm. cbn. rewrite refs_add_ne, elem_of_union, elem_of_singleton by done. tauto.
    + intros c. apply refs_add_pos. lia.
    + intros _. cbn. unfold refs_add. rewrite (proj2 (Z.eqb_neq _ _)) by lia. rewrite lookup_insert_eq. done.
  - split; [done|]. split; rewrite buf_put by (eapply bio_len; done); [|done]. unfold x. cbn. congruence.
  - intros m c Hm Hmc. apply (buf_of_put q dev w s Hbio _ b x); try done. intros ->.
    destruct Hmc as [_ [Hd' Hm']]. destruct Hcase as [[[_ ?] _]|(H0 & _)]; [congruence|].
    destruct (bio_entry _ _ _ _ Hbio b Hb Hd') as [Ec _ _ _]. rewrite Hm' in Ec. apply own_ref in Hm. lia.
Qed.

(** The buffer of an owned block. *)
Lemma owned_buf n b :
  n ∈ v_own w → buf_of dev s n b →
  b_refcnt (buf_at s b) = default 0 (v_refs w !! n) ∧ b_data (buf_at s b) = v_data w n ∧
  b_lock (buf_at s b) = mine q ∧ b_valid (buf_at s b) ≠ 0.
Proof.
  intros Hn [Hb [Hd Hbn]]. destruct (bio_entry _ _ _ _ Hbio b Hb Hd) as [E1 E2 _ E4]. rewrite Hbn in *.
  rewrite decide_True in E4 by done. destruct E4 as [E4 E5]. rewrite (proj2 (Z.eqb_neq _ _) E5) in E2. done.
Qed.

(** A buffer of the block replaced, its links kept. *)
Lemma cache_put_same b x :
  (b < NBUF)%nat → b_next x = b_next (buf_at s b) → b_prev x = b_prev (buf_at s b) →
  cache_put s (put_buf b x s) b x.
Proof.
  intros Hb En Ep. destruct (bio_lru _ _ _ _ Hbio) as [L HL]. split; [|done]. exists L.
  apply lru_put; try done. by apply (lru_elem _ _ _ HL).
Qed.

Lemma buf_of_put_same s' n b x m c :
  cache_put s s' b x → buf_of dev s n b → b_dev x = dev → b_blockno x = n →
  buf_of dev s m c → buf_of dev s' m c.
Proof.
  intros Hp [Hb Hf] Hd Hn Hmc. destruct (decide (c = b)) as [->|Hne].
  - destruct Hmc as [_ [Hd' Hm]]. split; [done|]. pose proof (bio_put_at q dev w s Hbio s' b x b Hb Hp Hb) as E.
    rewrite decide_True in E by done. apply unlinked_fields in E as (E1 & E2 & _). destruct Hf. split; congruence.
  - by apply (buf_of_put q dev w s Hbio s' b x m c).
Qed.

(** Writing an owned buffer's data. *)
Lemma setdata_bio n b g :
  n ∈ v_own w → buf_of dev s n b →
  ∃ s', setb b (λ x, x <| b_data ::= g |>) s = Ret () s' ∧ s' = s <| bcache := bcache s' |> ∧
    bio q dev (w_set n (g (v_data w n)) w) s' ∧ (∀ m c, buf_of dev s m c → buf_of dev s' m c).
Proof.
  intros Hn Hof. pose proof Hof as [Hb [Hd Hbn]]. destruct (owned_buf n b Hn Hof) as (E1 & E2 & E3 & E4).
  set (x := buf_at s b <| b_data ::= g |>).
  pose proof (cache_put_same b x Hb eq_refl eq_refl) as Hput.
  exists (put_buf b x s). rewrite setb_put by (eapply bio_len; done). split; [done|]. split; [done|]. split.
  - assert (b_blockno x = n) as Ebn by done. pose proof (own_ref n Hn).
    apply (bio_step q dev w s Hbio _ _ b x Hb Hput); rewrite ?Ebn.
    + done.
    + split; rewrite ?Ebn; unfold x; cbn; [done| |lia|].
      * rewrite (proj2 (Z.eqb_neq _ _) E4), fupd_eq, E2. done.
      * by rewrite decide_True by done.
    + left. done.
    + intros m Hm. cbn. by rewrite fupd_ne.
    + intros c Hc. cbn in Hc. rewrite Hc in *. done.
    + intros _. cbn. by apply elem_of_dom, (bio_own _ _ _ _ Hbio).
  - intros m c. by apply (buf_of_put_same _ n b x).
Qed.

Lemma bwrite_bio n b :
  n ∈ v_own w → buf_of dev s n b →
  ∃ s', bwrite b s = Ret () s' ∧
    s' = s <| disk ::= <[n := v_data w n]> |> <| dwrites ::= λ l, l ++ [(n, v_data w n)] |> ∧
    bio q dev w s' ∧ (∀ m c, buf_of dev s m c → buf_of dev s' m c).
Proof.
  intros Hn Hof. pose proof Hof as [Hb [Hd Hbn]]. destruct (owned_buf n b Hn Hof) as (E1 & E2 & E3 & E4).
  destruct (bio_lru _ _ _ _ Hbio) as [L HL]. eexists.
  rewrite (bwrite_eq s pr q L Ht HL b ltac:(by apply (lru_elem _ _ _ HL)) E3), Hbn, E2.
  split; [done|]. split; [done|]. split; [|done]. set (s' := s <| disk ::= _ |> <| dwrites ::= _ |>).
  assert (cache_put s s' b (buf_at s b)) as Hput.
  { split; [by exists L|]. rewrite list_insert_id; [done|]. apply (buf_lookup s L HL). right. by apply (lru_elem _ _ _ HL). }
  pose proof (own_ref n Hn).
  apply (bio_step q dev w s Hbio _ _ b _ Hb Hput); rewrite ?Hbn; [done|..].
  - split; rewrite ?Hbn; [done| |lia|by rewrite decide_True by done].
    by rewrite (proj2 (Z.eqb_neq _ _) E4).
  - by left.
  - intros m Hm. do 3 (split; [done|]). unfold block_at, s'. cbn. by rewrite lookup_insert_ne.
  - intros c Hc. by rewrite Hc in *.
  - intros _. by apply elem_of_dom, (bio_own _ _ _ _ Hbio).
Qed.

(** Releasing an owned buffer; a last reference goes only to a clean block. *)
Lemma brelse_bio n b :
  n ∈ v_own w → buf_of dev s n b → (v_refs w !! n = Some 1 → v_data w n = block_at (disk s) n) →
  ∃ s' ps, brelse b s = Ret () s' ∧ s' = s <| procs := ps |> <| bcache := bcache s' |> ∧
    thread s' pr q ∧ bio q dev (w_drop n w) s' ∧
    (∀ m c, m ≠ n → buf_of dev s m c → buf_of dev s' m c).
Proof.
  intros Hn Hof Hclean. pose proof Hof as [Hb [Hd Hbn]]. destruct (owned_buf n b Hn Hof) as (E1 & E2 & E3 & E4).
  destruct (bio_lru _ _ _ _ Hbio) as [L HL]. assert (b ∈ L) as HbL by (by apply (lru_elem _ _ _ HL)).
  apply list_elem_of_split in HbL as (l1 & l2 & EL).
  destruct (brelse_eq s pr q L Ht HL l1 b l2 EL E3) as (B' & L' & E & HL' & HB & _).
  set (ps := imap _ _) in E. set (s' := s <| procs := ps |> <| bcache := B' |>) in E.
  assert (cache_put s s' b (released (buf_at s b))) as Hput by (split; [by exists L'|exact HB]).
  exists s', ps. split; [exact E|]. split; [done|]. split.
  { destruct Ht as [T1 T2 T3 T4]. split; try done; cbn; unfold ps; [by apply thread_woken|by rewrite length_imap]. }
  pose proof (own_ref n Hn) as Hc.
  assert (b_refcnt (released (buf_at s b)) = default 0 (v_refs w !! n) + -1) as Er.
  { unfold released, drop_ref. cbn. rewrite E1, u32_small by lia. lia. }
  split.
  - apply (bio_step q dev w s Hbio _ _ b _ Hb Hput); change (b_blockno (released (buf_at s b))) with (b_blockno (buf_at s b)); rewrite ?Hbn; [done|..].
    + split; change (b_blockno (released (buf_at s b))) with (b_blockno (buf_at s b)); rewrite ?Hbn; cbn [w_drop v_data v_refs v_own].
      * by rewrite refs_add_eq.
      * change (b_valid (released (buf_at s b))) with (b_valid (buf_at s b)). by rewrite (proj2 (Z.eqb_neq _ _) E4).
      * intros H0. apply Hclean. destruct (v_refs w !! n) as [c|]; cbn in *; [f_equal|]; lia.
      * rewrite decide_False; [done|]. rewrite elem_of_difference, elem_of_singleton. tauto.
    + by left.
    + intros m Hm. cbn. rewrite refs_add_ne, elem_of_difference, elem_of_singleton by done. tauto.
    + intros c. apply refs_add_pos. lia.
    + cbn. rewrite elem_of_difference, elem_of_singleton. tauto.
  - intros m c _. by apply (buf_of_put_same s' n b (released (buf_at s b))).
Qed.

Lemma bunpin_bio n b :
  n ∈ v_own w → buf_of dev s n b → (v_refs w !! n ≠ Some 1) →
  ∃ s', bunpin b s = Ret () s' ∧ s' = s <| bcache := bcache s' |> ∧ bio q dev (w_unpin n w) s' ∧
    (∀ m c, buf_of dev s m c → buf_of dev s' m c).
Proof.
  intros Hn Hof H1. pose proof Hof as [Hb [Hd Hbn]]. destruct (owned_buf n b Hn Hof) as (E1 & E2 & E3 & E4).
  destruct (bio_lru _ _ _ _ Hbio) as [L HL].
  pose proof (bunpin_eq s pr q L Ht HL b ltac:(by apply (lru_elem _ _ _ HL))) as E.
  set (x := drop_ref (buf_at s b)) in E. pose proof (cache_put_same b x Hb eq_refl eq_refl) as Hput.
  pose proof (own_ref n Hn) as Hc.
  assert (default 0 (v_refs w !! n) ≠ 1) as Hc1 by (destruct (v_refs w !! n); cbn in *; congruence).
  assert (b_refcnt x = default 0 (v_refs w !! n) + -1) as Er.
  { unfold x, drop_ref. cbn. rewrite E1, u32_small by lia. lia. }
  exists (put_buf b x s). split; [exact E|]. split; [done|]. split.
  - assert (b_blockno x = n) as Ebn by done.
    apply (bio_step q dev w s Hbio _ _ b x Hb Hput); rewrite ?Ebn; [done|..].
    + split; rewrite ?Ebn; cbn [w_unpin v_data v_refs v_own].
      * by rewrite refs_add_eq.
      * change (b_valid x) with (b_valid (buf_at s b)). by rewrite (proj2 (Z.eqb_neq _ _) E4).
      * lia.
      * by rewrite decide_True by done.
    + by left.
    + intros m Hm. cbn. by rewrite refs_add_ne.
    + intros c. apply refs_add_pos. lia.
    + intros _. cbn. unfold refs_add. rewrite (proj2 (Z.eqb_neq _ _)) by lia. rewrite lookup_insert_eq. done.
  - intros m c. by apply (buf_of_put_same _ n b x).
Qed.
End client.

(** A block without references is clean. *)
Lemma bio_clean q dev w s n : bio q dev w s → v_refs w !! n = None → v_data w n = block_at (disk s) n.
Proof.
  intros Hbio Hn. destruct (decide (Exists (λ i, is_for dev n (buf_at s i)) (seq 0 NBUF))) as [He|Hne].
  - apply Exists_exists in He as (i & Hi%elem_of_seq & Hd & Hb).
    destruct (bio_entry _ _ _ _ Hbio i ltac:(lia) Hd) as [E _ Hc _]. rewrite Hb, Hn in *. by apply Hc.
  - apply not_Exists_Forall in Hne; [|apply _]. rewrite Forall_forall in Hne.
    apply (bio_miss _ _ _ _ Hbio n). intros i Hi. apply Hne. apply elem_of_seq. lia.
Qed.

(** ** After binit() *)

(** The buffers as binit() leaves the zeroed array. *)
Definition boot_buf (i : nat) : buf :=
  if decide (i = bhead) then buf0 <| b_prev := 0%nat |> <| b_next := (NBUF - 1)%nat |>
  else buf0 <| b_prev := if decide (i = NBUF - 1)%nat then bhead else S i |>
            <| b_next := if decide (i = 0)%nat then bhead else (i - 1)%nat |>.
Definition boot_bufs : list buf := boot_buf <$> seq 0 (S NBUF).

Lemma binit_eq s : bcache s = replicate (S NBUF) buf0 → binit s = Ret () (s <| bcache := boot_bufs |>).
Proof. intros E. destruct s. cbn in E. subst. vm_compute. reflexivity. Qed.

Lemma boot_lru : lru boot_bufs (reverse (seq 0 NBUF)).
Proof.
  split; [reflexivity|by rewrite reverse_Permutation|]. vm_compute. repeat split.
Qed.

(** binit() leaves an empty cache: every block is what the disk has. *)
Lemma boot_bio q dev s :
  dev ≠ 0 → bcache s = boot_bufs → bio q dev (mkView (block_at (disk s)) ∅ ∅) s.
Proof.
  intros Hdev E. assert (∀ i, (i < NBUF)%nat → b_dev (buf_at s i) = 0 ∧ b_refcnt (buf_at s i) = 0 ∧ sl_locked (b_lock (buf_at s i)) = 0) as H0.
  { intros i Hi. unfold buf_at. rewrite E. unfold boot_bufs. rewrite list_lookup_fmap, lookup_seq_lt by lia. cbn.
    unfold boot_buf. by rewrite decide_False by (unfold bhead; lia). }
  split.
  - rewrite E. eexists. apply boot_lru.
  - intros i j n Hi _ [Hd _]. destruct (H0 i Hi). congruence.
  - intros i Hi Hd. destruct (H0 i Hi). congruence.
  - intros i Hi _. apply H0. done.
  - done.
  - done.
  - set_solver.
Qed.

(** ** The theorems *)

(** C4: bread() gives its caller the locked buffer of the block with the block's
    current contents, whether they are only on disk, in an unused buffer or in
    a buffer others have changed and still refer to; the contents of no block
    change, nothing is written to the disk, and every block keeps at most one
    buffer. *)
Theorem bread_correct `{Patience} s pr q dev w n :
  thread s pr q → bio q dev w s → (0 < patience)%nat → n ∉ v_own w →
  (v_refs w !! n = None → (size (v_refs w) < NBUF)%nat) → default 0 (v_refs w !! n) + 1 < 2 ^ 32 →
  ∃ b s', bread dev n s = Ret b s' ∧ (b < NBUF)%nat ∧
    b_dev (buf_at s' b) = dev ∧ b_blockno (buf_at s' b) = n ∧ b_data (buf_at s' b) = v_data w n ∧
    b_lock (buf_at s' b) = mine q ∧ disk s' = disk s ∧ dwrites s' = dwrites s ∧ bio q dev (w_take n w) s'.
Proof.
  intros Ht Hbio Hpat Hn Hroom Hc.
  destruct (bread_bio s pr q dev w Ht Hbio n Hpat Hn Hroom Hc) as (b & s' & E & Es & Hbio' & Hof & _).
  exists b, s'. pose proof Hof as [Hb [Hd Hbn]].
  assert (n ∈ v_own (w_take n w)) as Hin by (cbn; apply elem_of_union; left; by apply elem_of_singleton).
  destruct (owned_buf s' q dev (w_take n w) Hbio' n b Hin Hof) as (_ & Ed & El & _).
  do 6 (split; [done|]). split; [by rewrite Es|]. split; [by rewrite Es|exact Hbio'].
Qed.

(** Which buffer bget() takes.  A cached block gets one more reference; a
    block that is not cached gets the least recently used buffer without
    references, and bget() panics exactly when there is none. *)
Theorem bget_correct `{Patience} s pr q L dev n :
  thread s pr q → lru (bcache s) L → (0 < patience)%nat →
  (∀ i, i ∈ L → is_for dev n (buf_at s i) ∨ b_refcnt (buf_at s i) = 0 → sl_locked (b_lock (buf_at s i)) = 0) →
  (∃ l1 b l2, L = l1 ++ b :: l2 ∧ is_for dev n (buf_at s b) ∧ (∀ i, i ∈ l1 → ¬ is_for dev n (buf_at s i)) ∧
     bget dev n s = Ret b (locked_with q take_ref b s)) ∨
  (∀ i, i ∈ L → ¬ is_for dev n (buf_at s i)) ∧
  ((∃ l1 b l2, L = l1 ++ b :: l2 ∧ b_refcnt (buf_at s b) = 0 ∧ (∀ i, i ∈ l2 → b_refcnt (buf_at s i) ≠ 0) ∧
      bget dev n s = Ret b (locked_with q (recycled dev n) b s)) ∨
   (∀ i, i ∈ L → b_refcnt (buf_at s i) ≠ 0) ∧
   bget dev n s = Panic "bget: no buffers" (s <| held := [bcache_lock] |>)).
Proof.
  intros Ht HL Hpat Hlk.
  destruct (first_split (λ i, is_for dev n (buf_at s i)) L) as [(l1 & b & l2 & EL & Hf & Hl1)|Hno]; [left|right].
  { exists l1, b, l2. do 3 (split; [done|]). apply (bget_hit s pr q L Ht HL Hpat dev n l1 b l2); try done.
    apply Hlk; [rewrite EL; apply elem_of_app; right; left|by left]. }
  split; [done|].
  destruct (first_split (λ i, b_refcnt (buf_at s i) = 0) (reverse L)) as [(l2 & b & l1 & EL & Hf & Hl2)|Hall]; [left|right].
  - apply (f_equal reverse) in EL. rewrite reverse_involutive, reverse_app, reverse_cons, <-app_assoc in EL.
    assert (∀ i, i ∈ reverse l2 → b_refcnt (buf_at s i) ≠ 0) as Hl2' by (intros j Hj; apply Hl2; by rewrite elem_of_reverse in Hj).
    exists (reverse l1), b, (reverse l2). do 3 (split; [done|]).
    apply (bget_recycles s pr q L Ht HL Hpat dev n (reverse l1) b (reverse l2)); try done.
    apply Hlk; [rewrite EL; apply elem_of_app; right; left|by right].
  - assert (∀ i, i ∈ L → b_refcnt (buf_at s i) ≠ 0) as Hall' by (intros i Hi; apply Hall; by rewrite elem_of_reverse).
    split; [done|]. by apply (bget_none s pr q L Ht HL).
Qed.

(** brelse() unlocks the buffer and drops one reference; with the last
    reference the buffer becomes the most recently used one, and the list
    stays a list of all buffers. *)
Theorem brelse_correct s pr q l1 b l2 :
  thread s pr q → lru (bcache s) (l1 ++ b :: l2) → b_lock (buf_at s b) = mine q →
  ∃ B' L', brelse b s = Ret () (s <| procs := imap (woken (Some pr) (chan_sleeplock (buf_sleeplock b)) (ticks s)) (procs s) |>
                              <| bcache := B' |>) ∧
    lru B' L' ∧ unlinked <$> B' = unlinked <$> <[b := released (buf_at s b)]> (bcache s) ∧
    L' = (if b_refcnt (released (buf_at s b)) =? 0 then b :: l1 ++ l2 else l1 ++ b :: l2).
Proof. intros Ht HL Hl. by apply (brelse_eq s pr q _ Ht HL l1 b l2). Qed.

(** ** Witnesses *)

(** Process 0 in a freshly booted kernel. *)
Definition ex_fs_proc : proc := proc0 <| p_state := RUNNING |> <| p_pid := 7 |>.
Definition ex_fs : kernel :=
  kernel0 <| cur := Some 0%nat |> <| procs := <[0%nat := ex_fs_proc]> (replicate NPROC proc0) |> <| bcache := boot_bufs |>.

Lemma ex_fs_thread : thread ex_fs 0 ex_fs_proc.
Proof. by split. Qed.

#[local] Instance ex_patience : Patience := 1%nat.

Lemma bread_correct_witness :
  ∃ b s', bread 1 5 ex_fs = Ret b s' ∧ b_data (buf_at s' b) = zero_block.
Proof.
  destruct (bread_correct ex_fs 0%nat ex_fs_proc 1 (mkView (block_at (disk ex_fs)) ∅ ∅) 5)
    as (b & s' & E & _ & _ & _ & Hd & _);
    [apply ex_fs_thread|by apply boot_bio|unfold patience, ex_patience; lia|apply not_elem_of_empty
    |intros _; vm_compute; lia|done|].
  exists b, s'. split; [exact E|]. rewrite Hd. reflexivity.
Defined.

Lemma bget_correct_witness : ∃ b s', bget 1 5 ex_fs = Ret b s'.
Proof.
  destruct (bget_correct ex_fs 0%nat ex_fs_proc (reverse (seq 0 NBUF)) 1 5) as [(l1 & b & l2 & _ & _ & _ & E)|[_ [(l1 & b & l2 & _ & _ & _ & E)|[H _]]]];
    [apply ex_fs_thread|apply boot_lru|unfold patience, ex_patience; lia| |by eexists _, _|by eexists _, _|].
  - intros i Hi _. rewrite elem_of_reverse, elem_of_seq in Hi. unfold buf_at. cbn [ex_fs bcache set].
    change (bcache ex_fs) with boot_bufs. unfold boot_bufs. rewrite list_lookup_fmap, lookup_seq_lt by lia. cbn.
    unfold boot_buf. by rewrite decide_False by (unfold bhead; lia).
  - exfalso. apply (H 0%nat); [rewrite elem_of_reverse, elem_of_seq; unfold NBUF; lia|reflexivity].
Defined.

Lemma brelse_correct_witness :
  ∃ s' L', brelse 29 (put_buf 29 (take_ref (boot_buf 29) <| b_lock := mine ex_fs_proc |>) ex_fs) = Ret () s' ∧ lru (bcache s') L'.
Proof.
  destruct (brelse_correct (put_buf 29 (take_ref (boot_buf 29) <| b_lock := mine ex_fs_proc |>) ex_fs) 0%nat ex_fs_proc [] 29%nat
    (reverse (seq 0 29))) as (B' & L' & E & HL & _).
  - by split.
  - apply lru_put; [reflexivity|reflexivity|left|apply boot_lru].
  - reflexivity.
  - eexists _, L'. split; [exact E|exact HL].
Defined.
