(* ===== verification/ConsoleFacts.v ===== *)
(** * Console and printf theorems

    printint() prints numbers that read back as themselves and fits its
    buffer, and the console's interrupt handler is a line editor on the ring
    of INPUT_BUF_SIZE bytes. *)

From Stdlib Require Import ZArith Lia.
From stdpp Require Import base numbers strings option list gmap.
From S2P Require Import Prelude Params Machine Cstring Kalloc Vm Sched SchedFacts Uart Console BioFacts.

Open Scope Z_scope.

(** ** printint *)

(** The value of a digit character, of digits (the last first), and of a number
    with an optional sign. *)
Definition digit_val (c : Z) : Z := if c <? 58 then c - 48 else c - 87.
Definition digits_val (base : Z) (l : list Z) : Z := foldr (λ c a, digit_val c + base * a) 0 l.
Definition read_int (base : Z) (l : list Z) : Z :=
  match l with
  | 45 :: l => - digits_val base (reverse l)
  | l => digits_val base (reverse l)
  end.

Lemma digit_char_val d : 0 ≤ d < 16 → digit_val (digit_char d) = d ∧ digit_char d ≠ 45.
Proof.
  intros Hd. assert (d ∈ seqZ 0 16) as Hin by (apply elem_of_seqZ; lia). clear Hd. revert d Hin.
  apply Forall_forall. repeat constructor; done.
Qed.

Lemma printint_digits_spec base (fuel : nat) x :
  2 ≤ base ≤ 16 → 0 ≤ x < base ^ fuel → (0 < fuel)%nat →
  digits_val base (printint_digits fuel x base) = x ∧
  Forall (λ c, c ≠ 45) (printint_digits fuel x base) ∧ printint_digits fuel x base ≠ [].
Proof.
  intros Hb. revert x. induction fuel as [|n IH]; intros x Hx Hf; [lia|]. cbn [printint_digits].
  pose proof (Z.mod_pos_bound x base ltac:(lia)) as Hm. destruct (digit_char_val (x mod base) ltac:(lia)) as [Hv Hc].
  pose proof (Z.div_mod x base ltac:(lia)) as Hdm. pose proof (Z.div_pos x base ltac:(lia) ltac:(lia)) as Hdp.
  split; [|split; [|done]].
  - cbn. rewrite Hv. destruct (Z.eqb_spec (x / base) 0) as [E|E]; [cbn; lia|].
    rewrite Nat2Z.inj_succ, Z.pow_succ_r in Hx by lia.
    assert (x / base < base ^ n) as Hlt by (apply Z.div_lt_upper_bound; lia).
    destruct n as [|n]; [cbn in Hlt; lia|].
    change (foldr _ 0 ?l) with (digits_val base l). rewrite (proj1 (IH (x / base) ltac:(lia) ltac:(lia))). lia.
  - constructor; [done|]. destruct (Z.eqb_spec (x / base) 0) as [E|E]; [done|].
    rewrite Nat2Z.inj_succ, Z.pow_succ_r in Hx by lia.
    assert (x / base < base ^ n) as Hlt by (apply Z.div_lt_upper_bound; lia).
    destruct n as [|n]; [cbn in Hlt; lia|]. by apply IH; [lia|lia].
Qed.

Lemma printint_digits_length base fuel x (k : nat) :
  2 ≤ base → 0 ≤ x < base ^ k → (0 < k)%nat → (length (printint_digits fuel x base) ≤ k)%nat.
Proof.
  intros Hb. revert x k. induction fuel as [|n IH]; intros x k Hx Hk; cbn; [lia|].
  destruct (Z.eqb_spec (x / base) 0) as [E|E]; [cbn; lia|]. destruct k as [|k]; [lia|].
  rewrite Nat2Z.inj_succ, Z.pow_succ_r in Hx by lia.
  assert (x / base < base ^ k) as Hlt by (apply Z.div_lt_upper_bound; lia).
  pose proof (Z.div_pos x base ltac:(lia) ltac:(lia)). destruct k as [|k]; [cbn in Hlt; lia|].
  specialize (IH (x / base) (S k) ltac:(lia) ltac:(lia)). lia.
Qed.

Lemma read_int_neg base l : read_int base (45 :: l) = - digits_val base (reverse l).
Proof. done. Qed.

Lemma read_int_pos base l : head l ≠ Some 45 → read_int base l = digits_val base (reverse l).
Proof.
  destruct l as [|c l]; [done|]. intros Hc. destruct (decide (c = 45)) as [->|Hne]; [done|].
  unfold read_int. repeat case_match; subst; congruence.
Qed.

(** What printint() prints reads back as the number, signed or unsigned, in
    every base from 10 to 16, and is never longer than its buffer of 16 bytes. *)
Theorem printint_roundtrip xx base sign :
  10 ≤ base ≤ 16 → - 2 ^ 31 ≤ xx < 2 ^ 31 →
  read_int base (printint_chars xx base sign) = (if sign : bool then xx else u32 xx) ∧
  (length (printint_chars xx base sign) ≤ 16)%nat.
Proof.
  intros Hb Hx. unfold printint_chars. set (neg := sign && (xx <? 0)). set (x := if neg then u32 (- xx) else u32 xx).
  assert (0 ≤ x < 2 ^ 32) as Hr by (unfold x; destruct neg; apply u32_range).
  assert (2 ^ 32 ≤ base ^ 10%nat) as Hp10.
  { transitivity (10 ^ 10%nat); [vm_compute; discriminate|]. apply Z.pow_le_mono_l. lia. }
  assert (base ^ 10%nat ≤ base ^ 32%nat) as Hp32 by (apply Z.pow_le_mono_r; lia).
  destruct (printint_digits_spec base 32 x ltac:(lia) ltac:(lia) ltac:(lia)) as (Hv & Hc & Hne).
  pose proof (printint_digits_length base 32 x 10 ltac:(lia) ltac:(lia) ltac:(lia)) as Hlen.
  set (l := printint_digits 32 x base) in *. split.
  - destruct neg eqn:En.
    + rewrite reverse_app. change (reverse (str "-") ++ reverse l) with (45 :: reverse l). rewrite read_int_neg, reverse_involutive, Hv.
      apply andb_true_iff in En as [-> En]. unfold x. rewrite u32_small by lia. lia.
    + rewrite app_nil_r, read_int_pos, reverse_involutive, Hv.
      * unfold x. destruct sign; [|done]. cbn in En. apply u32_small. lia.
      * intros E. assert (45 ∈ reverse l) as Hin by (destruct (reverse l); [done|]; injection E as ->; left).
        rewrite elem_of_reverse in Hin. rewrite Forall_forall in Hc. by apply (Hc 45).
  - rewrite length_reverse, length_app.
    assert (length (if neg then str "-" else []) ≤ 1)%nat by (destruct neg; vm_compute; lia). lia.
Qed.

(** ** consputc *)

(** [s'] is [s] but for the transmitter and what was printed. *)
Definition output_frame (s s' : kernel) : Prop := s' = s <| uart := uart s' |> <| printed := printed s' |>.

Lemma output_frame_trans s1 s2 s3 : output_frame s1 s2 → output_frame s2 s3 → output_frame s1 s3.
Proof. unfold output_frame. intros E1 E2. rewrite E2, E1. done. Qed.

(** The status register says idle at last. *)
Lemma tx_wait_eq s (n : nat) :
  length (tx_idle (uart s)) = n →
  ∃ rest, loop (S n) (λ _ : (), i ← lsr_tx_idle; mret (if i : bool then inr () else inl ())) () s =
    Ret () (s <| uart ::= λ u, u <| tx_idle := rest |> |>).
Proof.
  revert s. induction n as [|n IH]; intros s Hn.
  - exists []. erewrite loop_exit; [reflexivity|]. unfold lsr_tx_idle. msimpl. unfold set_uart, modify. cbn [bindO].
    apply nil_length_inv in Hn. rewrite Hn. cbn. do 2 f_equal. destruct s as [? ? ? ? ? ? ? ? ? ? ? ? ? ? ? ? ? ? ? ? ? ? ? ? ? ? u]. cbn in *.
    destruct u; cbn in *; by subst.
  - destruct (tx_idle (uart s)) as [|b l] eqn:E; [done|]. cbn in Hn. injection Hn as Hn.
    set (s1 := s <| uart ::= λ u, u <| tx_idle := l |> |>).
    assert (lsr_tx_idle s = Ret b s1) as E1.
    { unfold lsr_tx_idle, s1. msimpl. unfold set_uart, modify. cbn [bindO]. rewrite E. cbn. unfold set. cbn. by rewrite E. }
    destruct b.
    + exists l. erewrite loop_exit; [reflexivity|]. msimpl. rewrite E1. done.
    + destruct (IH s1 Hn) as [rest Er]. exists rest. erewrite loop_next; [|msimpl; rewrite E1; reflexivity]. rewrite Er. done.
Qed.

Lemma uartputc_sync_eq c s :
  panicked s = 0 → ∃ s', uartputc_sync c s = Ret () s' ∧ output_frame s s' ∧ printed s' = printed s ++ [u8 c].
Proof.
  intros Hp. unfold uartputc_sync. msimpl. rewrite Hp. cbn [Z.eqb negb].
  destruct (tx_wait_eq s _ eq_refl) as [rest E]. revert E. msimpl. intros E. mrun E. unfold write_thr, modify.
  eexists. split; [reflexivity|]. split; [unfold output_frame; by destruct s|done].
Qed.

Lemma consputc_eq c s : panicked s = 0 → ∃ s', consputc c s = Ret () s' ∧ output_frame s s'.
Proof.
  intros Hp. unfold consputc. destruct (c =? BACKSPACE); [|destruct (uartputc_sync_eq c s Hp) as (s' & E & Hf & _); by exists s'].
  destruct (uartputc_sync_eq 8 s Hp) as (s1 & E1 & Hf1 & _).
  destruct (uartputc_sync_eq 32 s1) as (s2 & E2 & Hf2 & _); [by rewrite Hf1|].
  destruct (uartputc_sync_eq 8 s2) as (s3 & E3 & Hf3 & _); [by rewrite Hf2, Hf1|].
  exists s3. msimpl. mrun E1. mrun E2. split; [exact E3|]. eapply output_frame_trans, output_frame_trans; done.
Qed.

(** ** The line editor *)

(** The complete lines not yet read, and the line being typed. *)
Record line := mkLine { committed : list Z; pending : list Z }.

Definition line_of (c : consst) : line :=
  mkLine (ring_slice INPUT_BUF_SIZE (cons_buf c) (cons_r c) (u32 (cons_w c - cons_r c)))
         (ring_slice INPUT_BUF_SIZE (cons_buf c) (cons_w c) (u32 (cons_e c - cons_w c))).

(** The editor: ^U erases the line, ^H and DEL one character; a carriage return
    is a newline; newline, ^D and the last free byte complete the line. *)
Definition edit (c : Z) (l : line) : line :=
  if c =? CTRL 85 then mkLine (committed l) []
  else if (c =? CTRL 72) || (c =? 0x7f) then mkLine (committed l) (removelast (pending l))
  else
    let used := Z.of_nat (length (committed l) + length (pending l)) in
    if negb (c =? 0) && (used <? INPUT_BUF_SIZE) then
      let c := if c =? 13 then 10 else c in
      let line := pending l ++ [c] in
      if (c =? 10) || (c =? CTRL 68) || (used + 1 =? INPUT_BUF_SIZE) then mkLine (committed l ++ line) []
      else mkLine (committed l) line
    else l.

Record cons_ring (c : consst) : Prop := {
  co_len : length (cons_buf c) = 128%nat;
  co_r : 0 ≤ cons_r c < 2 ^ 32;
  co_w : 0 ≤ cons_w c < 2 ^ 32;
  co_e : 0 ≤ cons_e c < 2 ^ 32;
  co_order : u32 (cons_w c - cons_r c) + u32 (cons_e c - cons_w c) = u32 (cons_e c - cons_r c);
  co_size : u32 (cons_e c - cons_r c) ≤ INPUT_BUF_SIZE;
}.

(** The line being typed has no newline. *)
Definition cons_ok (c : consst) : Prop := cons_ring c ∧ 10 ∉ pending (line_of c).

Ltac wraplia := unfold u32, INPUT_BUF_SIZE in *; Z.to_euclidean_division_equations; lia.

Definition c_put (x : Z) (c : consst) : consst :=
  c <| cons_buf ::= <[Z.to_nat (cons_e c mod INPUT_BUF_SIZE) := x]> |> <| cons_e ::= λ e, u32 (e + 1) |>.
Definition c_commit (c : consst) : consst := c <| cons_w := cons_e c |>.
Definition c_erase (c : consst) : consst := c <| cons_e ::= λ e, u32 (e - 1) |>.

Lemma line_length c : cons_ring c →
  Z.of_nat (length (committed (line_of c)) + length (pending (line_of c))) = u32 (cons_e c - cons_r c).
Proof.
  intros Hc. rewrite Nat2Z.inj_add. unfold line_of. cbn. rewrite !length_ring_slice by apply u32_range. apply Hc.
Qed.

Lemma put_line x c :
  cons_ring c → u32 (cons_e c - cons_r c) < INPUT_BUF_SIZE →
  cons_ring (c_put x c) ∧ line_of (c_put x c) = mkLine (committed (line_of c)) (pending (line_of c) ++ [x]).
Proof.
  intros [H1 H2 H3 H4 H5 H6] Hlt.
  pose proof (u32_range (cons_w c - cons_r c)). pose proof (u32_range (cons_e c - cons_w c)).
  assert (u32 (u32 (cons_e c + 1) - cons_w c) = u32 (cons_e c - cons_w c) + 1) as E1 by wraplia.
  assert (line_of (c_put x c) = mkLine (committed (line_of c)) (pending (line_of c) ++ [x])) as El.
  { unfold line_of. cbn. f_equal.
    - replace (cons_e c mod INPUT_BUF_SIZE) with ((cons_r c + u32 (cons_e c - cons_r c)) mod INPUT_BUF_SIZE) by wraplia.
      apply ring_slice_insert; [done|]. lia.
    - rewrite E1. replace (cons_e c mod INPUT_BUF_SIZE) with ((cons_w c + u32 (cons_e c - cons_w c)) mod INPUT_BUF_SIZE) by wraplia.
      apply ring_slice_put; [by rewrite H1|]. lia. }
  split; [|done]. split; try done; cbn -[line_of].
  - by rewrite length_insert.
  - apply u32_range.
  - rewrite E1. wraplia.
  - wraplia.
Qed.

Lemma commit_line c :
  cons_ring c → cons_ok (c_commit c) ∧ line_of (c_commit c) = mkLine (committed (line_of c) ++ pending (line_of c)) [].
Proof.
  intros [H1 H2 H3 H4 H5 H6].
  pose proof (u32_range (cons_w c - cons_r c)). pose proof (u32_range (cons_e c - cons_w c)).
  assert (line_of (c_commit c) = mkLine (committed (line_of c) ++ pending (line_of c)) []) as El.
  { unfold line_of. cbn. f_equal; [|by replace (u32 (cons_e c - cons_e c)) with 0 by wraplia].
    rewrite <-H5, ring_slice_app by lia. f_equal.
    rewrite <-(ring_slice_wrap _ (2 ^ 32) _ (cons_r c + _)) by (done || by exists (2 ^ 25)). f_equal. wraplia. }
  split; [|done]. split; [split; try done; cbn; wraplia|]. rewrite El. cbn. apply not_elem_of_nil.
Qed.

Lemma erase_line c :
  cons_ok c → cons_e c ≠ cons_w c →
  cons_ok (c_erase c) ∧ line_of (c_erase c) = mkLine (committed (line_of c)) (removelast (pending (line_of c))).
Proof.
  intros [[H1 H2 H3 H4 H5 H6] H7] Hne.
  pose proof (u32_range (cons_w c - cons_r c)). pose proof (u32_range (cons_e c - cons_w c)).
  assert (u32 (u32 (cons_e c - 1) - cons_w c) = u32 (cons_e c - cons_w c) - 1) as E1 by wraplia.
  assert (0 < u32 (cons_e c - cons_w c)) as Hp by wraplia.
  assert (line_of (c_erase c) = mkLine (committed (line_of c)) (removelast (pending (line_of c)))) as El.
  { unfold line_of. cbn. f_equal. rewrite E1. replace (u32 (cons_e c - cons_w c)) with (u32 (cons_e c - cons_w c) - 1 + 1) at 2 by lia.
    rewrite ring_slice_app by lia. change (ring_slice ?N ?b ?a 1) with [default 0 (b !! Z.to_nat ((a + 0) mod N))].
    by rewrite removelast_last. }
  split; [|done]. split; [split; try done; cbn; [apply u32_range|rewrite E1; wraplia|wraplia]|].
  - rewrite El. cbn [pending]. intros Hin. apply H7. revert Hin. destruct (pending (line_of c)) as [|y l _] using rev_ind; [done|].
    rewrite removelast_last. intros Hin. apply elem_of_app. by left.
Qed.

(** ** consoleintr *)

(** Only the console and the output change. *)
Definition cons_frame (s s' : kernel) : Prop :=
  s' = s <| console := console s' |> <| uart := uart s' |> <| printed := printed s' |>.

Lemma set_cons_eq f s : set_cons f s = Ret () (s <| console ::= f |>).
Proof. done. Qed.

Lemma cons_frame_trans s1 s2 s3 : cons_frame s1 s2 → cons_frame s2 s3 → cons_frame s1 s3.
Proof. unfold cons_frame. intros E1 E2. rewrite E2, E1. done. Qed.

Lemma erase_step s :
  panicked s = 0 →
  ∃ s', (set_cons c_erase;; consputc BACKSPACE) s = Ret () s' ∧ cons_frame s s' ∧ console s' = c_erase (console s).
Proof.
  intros Hp. msimpl. rewrite set_cons_eq. cbn [bindO].
  set (t := s <| console ::= c_erase |>). destruct (consputc_eq BACKSPACE t Hp) as (s' & E & Hf). unfold output_frame in Hf.
  exists s'. split; [exact E|]. split; [unfold cons_frame|]; rewrite Hf; done.
Qed.

Lemma no_newline c :
  cons_ok c → cons_e c ≠ cons_w c →
  default 0 (cons_buf c !! Z.to_nat (u32 (cons_e c - 1) mod INPUT_BUF_SIZE)) ≠ 10.
Proof.
  intros [[H1 H2 H3 H4 H5 H6] H7] Hne E. apply H7. assert (0 < u32 (cons_e c - cons_w c)) as Hp by wraplia.
  unfold line_of. cbn. replace (u32 (cons_e c - cons_w c)) with (u32 (cons_e c - cons_w c) - 1 + 1) by lia.
  rewrite ring_slice_app by lia. apply elem_of_app. right.
  change (ring_slice ?N ?b ?a 1) with [default 0 (b !! Z.to_nat ((a + 0) mod N))]. apply list_elem_of_singleton.
  rewrite <-E. do 3 f_equal. wraplia.
Qed.

Lemma kill_line_loop (n : nat) : ∀ s,
  panicked s = 0 → cons_ok (console s) → u32 (cons_e (console s) - cons_w (console s)) = n →
  ∃ s', loop (S n) kill_line_body () s = Ret () s' ∧ cons_frame s s' ∧ cons_ok (console s') ∧
    line_of (console s') = mkLine (committed (line_of (console s))) [].
Proof.
  induction n as [|n IH]; intros s Hp Hc Hn; pose proof Hc as [[H1 H2 H3 H4 H5 H6] H7].
  - exists s. erewrite loop_exit.
    + split; [reflexivity|]. split; [by destruct s|]. split; [done|]. unfold line_of. by rewrite Hn.
    + unfold kill_line_body. msimpl. assert (cons_e (console s) = cons_w (console s)) as -> by wraplia. by rewrite Z.eqb_refl.
  - assert (cons_e (console s) ≠ cons_w (console s)) as Hne by (intros E; rewrite E in Hn; wraplia).
    destruct (erase_step s Hp) as (s1 & E1 & Hf1 & Ec1). destruct (erase_line (console s) Hc Hne) as [Hok El].
    destruct (IH s1) as (s2 & E2 & Hf2 & Hok2 & El2); [by rewrite Hf1|by rewrite Ec1|rewrite Ec1; cbn; wraplia|].
    exists s2. erewrite loop_next.
    + split; [exact E2|]. split; [by eapply cons_frame_trans|]. split; [done|]. by rewrite El2, Ec1, El.
    + unfold kill_line_body. msimpl. rewrite (proj2 (Z.eqb_neq _ _) Hne), (proj2 (Z.eqb_neq _ _) (no_newline _ Hc Hne)).
      cbn [negb andb]. revert E1. msimpl. rewrite !set_cons_eq. cbn [bindO].
      change (λ c, c <| cons_e ::= _ |>) with c_erase. intros E1. mrun E1. reflexivity.
Qed.

(** A character that is stored, and completes the line or not. *)
Lemma store_step x s :
  0 ≤ x < 2 ^ 8 →
  panicked s = 0 → cons_ok (console s) → u32 (cons_e (console s) - cons_r (console s)) < INPUT_BUF_SIZE →
  length (procs s) = NPROC → (∀ p, Some p = cur s ∨ proc_lock p ∉ held s) →
  let full := (x =? 10) || (x =? CTRL 68) || (u32 (cons_e (console s) - cons_r (console s)) + 1 =? INPUT_BUF_SIZE) in
  let l := line_of (console s) in
  ∃ s', (consputc x;; set_cons (c_put (u8 x));; cs ← gets console;
         when ((x =? 10) || (x =? CTRL 68) || (u32 (cons_e cs - cons_r cs) =? INPUT_BUF_SIZE))
           (set_cons c_commit;; wakeup chan_cons_r)) s = Ret () s' ∧
    cons_frame (s <| procs := procs s' |>) s' ∧ cons_ok (console s') ∧
    line_of (console s') = (if full then mkLine (committed l ++ pending l ++ [u8 x]) [] else mkLine (committed l) (pending l ++ [u8 x])) ∧
    procs s' = (if full then imap (woken (cur s) chan_cons_r (ticks s)) (procs s) else procs s).
Proof.
  intros Hx8 Hp [Hr Hl] Hlt Hlen Hlk full l. destruct (consputc_eq x s Hp) as (s1 & E1 & Hf1). unfold output_frame in Hf1.
  destruct (put_line (u8 x) (console s) Hr Hlt) as [Hr1 El1].
  msimpl. mrun E1. rewrite set_cons_eq. cbn [bindO]. set (s2 := s1 <| console ::= c_put (u8 x) |>).
  assert (console s2 = c_put (u8 x) (console s)) as Ec2 by (unfold s2; rewrite Hf1; done). rewrite Ec2.
  replace ((x =? 10) || (x =? CTRL 68) || _) with full.
  2:{ unfold full. do 2 f_equal. cbn. destruct Hr. wraplia. }
  assert (line_of (console s2) = mkLine (committed l) (pending l ++ [u8 x])) as El2 by (by rewrite Ec2).
  destruct full eqn:Ef; cbn [when].
  - rewrite set_cons_eq. cbn [bindO]. set (s3 := s2 <| console ::= c_commit |>).
    assert (console s3 = c_commit (console s2)) as Ec3 by done.
    assert (procs s3 = procs s ∧ cur s3 = cur s ∧ held s3 = held s ∧ ticks s3 = ticks s) as (P3 & C3 & H3 & T3)
      by (unfold s3, s2; rewrite Hf1; done).
    destruct (commit_line (console s2)) as [Hok Elc]; [by rewrite Ec2|].
    eexists. rewrite wakeup_spec, P3, C3, T3; [|by rewrite P3|by rewrite C3, H3]. split; [reflexivity|].
    split; [|split; [exact Hok|split; [|done]]].
    + unfold cons_frame, s3, s2. rewrite Hf1. done.
    + change (line_of (c_commit (console s2)) = mkLine (committed l ++ pending l ++ [u8 x]) []). by rewrite Elc, El2.
  - exists s2. split; [done|]. assert (procs s2 = procs s) as P2 by (unfold s2; rewrite Hf1; done).
    split; [unfold cons_frame; rewrite P2; unfold s2; rewrite Hf1; by destruct s|].
    split; [|done]. split; [by rewrite Ec2|]. rewrite El2. cbn. rewrite elem_of_app, list_elem_of_singleton.
    intros [Hin|Hx]; [done|]. unfold full in Ef. apply orb_false_iff in Ef as [Ef _]. apply orb_false_iff in Ef as [Ef _].
    rewrite u8_small in Hx by lia. lia.
Qed.

Lemma edit_erase c l : (c =? CTRL 72) || (c =? 127) = true → edit c l = mkLine (committed l) (removelast (pending l)).
Proof.
  intros E. unfold edit. rewrite E. destruct (Z.eqb_spec c (CTRL 85)) as [->|]; [discriminate|done].
Qed.

(** C36: the console interrupt handler is the line editor.  Whatever character
    comes in (^P, the process listing, apart), the handler returns with the
    ring well-formed, the lines edited as [edit] says, and the readers woken
    exactly when a line is completed. *)
Theorem consoleintr_correct c s :
  panicked s = 0 → cons_ok (console s) → 0 ≤ c < 2 ^ 8 → c ≠ CTRL 80 → cons_lock ∉ held s →
  length (procs s) = NPROC → (∀ p, Some p = cur s ∨ proc_lock p ∉ held s) →
  let l := line_of (console s) in
  ∃ s', consoleintr c s = Ret () s' ∧ cons_frame (s <| procs := procs s' |>) s' ∧ cons_ok (console s') ∧
    line_of (console s') = edit c l ∧
    procs s' = (if decide (committed (edit c l) = committed l) then procs s
                else imap (woken (cur s) chan_cons_r (ticks s)) (procs s)).
Proof.
  intros Hp Hc Hr Hne Hlk Hlen Hpl l. unfold consoleintr. msimpl. mrun acquire_free by done.
  rewrite (proj2 (Z.eqb_neq _ _) Hne). set (s1 := s <| held ::= cons cons_lock |>).
  assert (panicked s1 = 0 ∧ console s1 = console s ∧ procs s1 = procs s) as (Hp1 & Ec1 & Ep1) by done.
  set (P := λ s', cons_frame (s1 <| procs := procs s' |>) s' ∧ cons_ok (console s') ∧ line_of (console s') = edit c l ∧
    procs s' = (if decide (committed (edit c l) = committed l) then procs s
                else imap (woken (cur s) chan_cons_r (ticks s)) (procs s))).
  match goal with |- ∃ s', bindO ?b _ = _ ∧ _ => enough (∃ s2, b = Ret () s2 ∧ P s2) as (s2 & E & Hf & Hok & El & Epr) end.
  { exists (s2 <| held := held s |>). rewrite E. cbn [bindO]. rewrite (release_head _ (held s)) by (by rewrite Hf).
    split; [done|]. split; [|done]. unfold cons_frame in *. rewrite Hf. by destruct s. }
  assert (∀ s', cons_frame s1 s' → cons_ok (console s') → line_of (console s') = edit c l → committed (edit c l) = committed l → P s') as HP.
  { intros s' Hf Hok El Hcm. assert (procs s' = procs s) as Eps by (by rewrite Hf). unfold P.
    rewrite decide_True, Eps by done. split; [|done]. unfold cons_frame in *. rewrite Hf. by destruct s. }
  destruct (Z.eqb_spec c (CTRL 85)) as [->|Hu].
  { msimpl. rewrite Ec1. destruct (kill_line_loop (Z.to_nat (u32 (cons_e (console s) - cons_w (console s)))) s1) as (s2 & E & Hf & Hok & El).
    - done. - by rewrite Ec1. - rewrite Ec1. pose proof (u32_range (cons_e (console s) - cons_w (console s))). lia.
    - exists s2. split; [exact E|]. by apply HP. }
  destruct ((c =? CTRL 72) || (c =? 127)) eqn:Eh.
  { msimpl. rewrite Ec1. destruct (Z.eqb_spec (cons_e (console s)) (cons_w (console s))) as [Ee|Ee]; cbn [negb].
    - exists s1. split; [done|]. apply HP; [by destruct s|done| |by rewrite edit_erase].
      rewrite edit_erase by done. rewrite Ec1. unfold l, line_of. cbn. rewrite Ee, Z.sub_diag. done.
    - destruct (erase_step s1 Hp1) as (s2 & E & Hf & Ec2). destruct (erase_line (console s) Hc Ee) as [Hok El].
      exists s2. split; [exact E|]. rewrite Ec1 in Ec2. apply HP; [done|by rewrite Ec2| |by rewrite edit_erase].
      rewrite edit_erase by done. by rewrite Ec2, El. }
  msimpl. rewrite Ec1. pose proof (line_length _ (proj1 Hc)) as Hll. fold l in Hll.
  destruct (negb (c =? 0) && (u32 (cons_e (console s) - cons_r (console s)) <? INPUT_BUF_SIZE)) eqn:Es; cbn [when].
  2:{ exists s1. split; [done|]. assert (edit c l = l) as Ee by (unfold edit; by rewrite (proj2 (Z.eqb_neq _ _) Hu), Eh, Hll, Es).
      apply HP; [by destruct s|done|by rewrite Ec1, Ee|by rewrite Ee]. }
  set (x := if c =? 13 then 10 else c).
  destruct (store_step x s1) as (s2 & E & Hf & Hok & El & Epr); rewrite ?Ec1; try done.
  { unfold x. destruct (c =? 13); lia. } { apply andb_true_iff in Es as [_ Es]. lia. }
  { intros p. destruct (Hpl p) as [?|Hn]; [by left|right]. cbn. rewrite elem_of_cons. intros [?|?]; done. }
  exists s2. split; [exact E|]. unfold P. split; [exact Hf|]. split; [exact Hok|]. rewrite El, Epr, Ec1. fold l.
  rewrite u8_small by (unfold x; destruct (c =? 13); lia).
  assert (edit c l = if (x =? 10) || (x =? CTRL 68) || (u32 (cons_e (console s) - cons_r (console s)) + 1 =? INPUT_BUF_SIZE)
    then mkLine (committed l ++ pending l ++ [x]) [] else mkLine (committed l) (pending l ++ [x])) as ->.
  { unfold edit. rewrite (proj2 (Z.eqb_neq _ _) Hu), Eh, Hll, Es. fold x. done. }
  split; [done|].
  match goal with |- (if ?b then _ else _) = _ => destruct b end; [rewrite decide_False; [done|]|by rewrite decide_True].
  intros E'. cbn in E'. apply (f_equal length) in E'. rewrite !length_app in E'. cbn in E'. lia.
Qed.

(** ** Witnesses *)

Lemma printint_roundtrip_witness :
  printint_chars (- 2 ^ 31) 10 true = str "-2147483648" ∧ read_int 10 (printint_chars (- 2 ^ 31) 10 true) = - 2 ^ 31.
Proof.
  split; [vm_compute; reflexivity|]. apply (printint_roundtrip (- 2 ^ 31) 10 true); lia.
Defined.

(** Three characters of a line have been typed; the counters are about to wrap. *)
Definition ex_cons : consst := c_put 99 (c_put 98 (c_put 97 (mkCons (replicate 128 0) (2 ^ 32 - 2) (2 ^ 32 - 2) (2 ^ 32 - 2)))).
Definition ex_typing : kernel := kernel0 <| console := ex_cons |>.

Lemma consoleintr_correct_witness :
  ∃ s', consoleintr 13 ex_typing = Ret () s' ∧ line_of (console s') = mkLine [97; 98; 99; 10] [].
Proof.
  destruct (consoleintr_correct 13 ex_typing) as (s' & E & _ & _ & El & _);
    [done| |done|done|apply not_elem_of_nil|done|by intros p; right; apply not_elem_of_nil|].
  - split; [split; vm_compute; try done; split; discriminate || done|].
    assert (pending (line_of (console ex_typing)) = [97; 98; 99]) as -> by (vm_compute; reflexivity).
    apply (bool_decide_unpack _). vm_compute. done.
  - exists s'. split; [exact E|]. rewrite El. vm_compute. reflexivity.
Defined.
