(* ===== verification/VirtioDisk.v ===== *)
(** * The disk driver (kernel/virtio_disk.c)

    The descriptor table, the available and used rings and the driver's own
    book-keeping.  The device is not part of the model: it is whatever changes
    the used ring, the status bytes and the buffers while the thread that
    waits in virtio_disk_rw() is switched away. *)

From Stdlib Require Import ZArith Lia.
From stdpp Require Import base numbers strings option list gmap.
From S2P Require Import Prelude Params Machine Cstring Kalloc Sched Uart Sleeplock Bio.

Open Scope Z_scope.

(** ** virtio.h *)

Definition NUM : nat := 8.
Definition VRING_DESC_F_NEXT : Z := 1.
Definition VRING_DESC_F_WRITE : Z := 2.
Definition VIRTIO_BLK_T_IN : Z := 0.
Definition VIRTIO_BLK_T_OUT : Z := 1.

Definition set_vdisk (f : vdiskst → vdiskst) : K () := modify (λ s, s <| vdisk ::= f |>).

Definition desc0 : virtq_desc := mkDesc A0 0 0 0.
Definition desc_at (v : vdiskst) (i : nat) : virtq_desc := default desc0 (vq_desc v !! i).

(** ** Descriptors *)

(** -1 is [None]. *)
Definition alloc_desc : K (option nat) :=
  for_ret (seq 0 NUM) (λ i,
    v ← gets vdisk;
    if negb (default 0 (vd_free v !! i) =? 0) then
      set_vdisk (λ v, v <| vd_free ::= <[i := 0]> |>);;
      mret (Some i)
    else mret None).

Definition free_desc (i : nat) : K () :=
  if (NUM <=? i)%nat then panic "free_desc 1"
  else
    v ← gets vdisk;
    if negb (default 0 (vd_free v !! i) =? 0) then panic "free_desc 2"
    else
      set_vdisk (λ v, v <| vq_desc ::= <[i := desc0]> |>);;
      set_vdisk (λ v, v <| vd_free ::= <[i := 1]> |>);;
      wakeup chan_disk_free.

Definition free_chain_body (i : nat) : K (nat + ()) :=
  v ← gets vdisk;
  let d := desc_at v i in
  free_desc i;;
  if negb (Z.land (vd_flags d) VRING_DESC_F_NEXT =? 0) then mret (inl (Z.to_nat (vd_next d)))
  else mret (inr ()).

(** A chain has no more than [NUM] descriptors. *)
Definition free_chain (i : nat) : K () := loop NUM free_chain_body i.

(** The three indices, or [None] with what had been allocated freed again. *)
Definition alloc3_desc : K (option (list nat)) :=
  r ← for_scan (seq 0 3) (λ idx _,
    d ← alloc_desc;
    match d with
    | Some i => mret (inl (idx ++ [i]))
    | None => for_each idx free_desc;; mret (inr ())
    end) [];
  match r with
  | inl idx => mret (Some idx)
  | inr _ => mret None
  end.

(** ** Requests *)

(** Format the three descriptors and the command header, and put the chain
    into the available ring. *)
Definition post_request (b : nat) (write : bool) (sector : Z) (i0 i1 i2 : nat) : K () :=
  set_vdisk (λ v, v <| vd_ops ::= <[i0 := mkReq (if write then VIRTIO_BLK_T_OUT else VIRTIO_BLK_T_IN) 0 sector]> |>);;
  set_vdisk (λ v, v <| vq_desc ::= <[i0 := mkDesc (AOps i0) 16 VRING_DESC_F_NEXT i1]> |>);;
  set_vdisk (λ v, v <| vq_desc ::= <[i1 := mkDesc (AData b) BSIZE
    (Z.lor (if write then 0 else VRING_DESC_F_WRITE) VRING_DESC_F_NEXT) i2]> |>);;
  set_vdisk (λ v, v <| vd_info ::= alter (λ x, x <| info_status := 0xff |>) i0 |>);;
  set_vdisk (λ v, v <| vq_desc ::= <[i2 := mkDesc (AStatus i0) 1 VRING_DESC_F_WRITE 0]> |>);;
  setb b (λ x, x <| b_disk := 1 |>);;
  set_vdisk (λ v, v <| vd_info ::= alter (λ x, x <| info_b := Some b |>) i0 |>);;
  set_vdisk (λ v, v <| avail_ring ::= <[Z.to_nat (avail_idx v mod NUM) := Z.of_nat i0]> |>);;
  set_vdisk (λ v, v <| avail_idx ::= λ x, u16 (x + 1) |>).

Definition virtio_disk_rw `{Patience} (b : nat) (write : bool) : K () :=
  x ← getb b;
  let sector := u32 (b_blockno x * (BSIZE / 512)) in
  acquire vdisk_lock;;
  idx ← loop patience (λ _ : (),
    r ← alloc3_desc;
    match r with
    | Some idx => mret (inr idx)
    | None => sleep chan_disk_free vdisk_lock;; mret (inl ())
    end) ();
  match idx with
  | [i0; i1; i2] =>
      post_request b write sector i0 i1 i2;;
      wait_while (x ← getb b; mret (b_disk x =? 1)) (sleep (chan_buf b) vdisk_lock);;
      set_vdisk (λ v, v <| vd_info ::= alter (λ x, x <| info_b := None |>) i0 |>);;
      free_chain i0;;
      release vdisk_lock
  | _ => panic "alloc3_desc"
  end.

(** One completed request; the loop sees at most as many as the device has
    added. *)
Definition disk_intr_body (_ : ()) : K (() + ()) :=
  v ← gets vdisk;
  if vd_used_idx v =? used_ring_idx v then mret (inr ())
  else
    let id := Z.to_nat (default 0 (used_ring v !! Z.to_nat (vd_used_idx v mod NUM))) in
    let i := default (mkInfo None 0) (vd_info v !! id) in
    if negb (info_status i =? 0) then panic "virtio_disk_intr status"
    else
      match info_b i with
      | None => null_deref
      | Some b =>
          setb b (λ x, x <| b_disk := 0 |>);;
          wakeup (chan_buf b);;
          set_vdisk (λ v, v <| vd_used_idx ::= λ x, u16 (x + 1) |>);;
          mret (inl ())
      end.

Definition virtio_disk_intr : K () :=
  acquire vdisk_lock;;
  v ← gets vdisk;
  loop (S (Z.to_nat (u16 (used_ring_idx v - vd_used_idx v)))) disk_intr_body ();;
  release vdisk_lock.

(** The part of virtio_disk_init() that sets up the driver's state; the
    device's registers are not modelled. *)
Definition virtio_queue_init : K () :=
  for_each (seq 0 NUM) (λ i, set_vdisk (λ v, v <| vd_free ::= <[i := 1]> |>)).
