(* ===== verification/VirtioFacts.v ===== *)
(** * The disk driver implements the transfer the buffer cache uses
    (kernel/virtio_disk.c)

    [disk_rw] of Bio.v is what the buffer cache needs from virtio_disk_rw().
    Here the driver's two halves, virtio_disk_rw() up to its sleep and after it,
    and virtio_disk_intr(), are put together with a device that keeps the
    virtio protocol, and the result is that of [disk_rw]. *)

From Stdlib Require Import ZArith Lia.
From stdpp Require Import base numbers strings option list gmap.
From S2P Require Import Prelude Params Machine Cstring Kalloc Sched SchedFacts Uart Sleeplock Bio VirtioDisk.

Open Scope Z_scope.

(** ** Free descriptors *)

Definition nfree (f : list Z) : nat := length (filter (λ x, x ≠ 0) f).

(** [i] is the least free descriptor. *)
Definition least_free (f : list Z) (i : nat) : Prop :=
  f !! i = Some 1 ∧ ∀ j, (j < i)%nat → f !! j = Some 0.

Lemma nfree_least f :
  Forall (λ x, x = 0 ∨ x = 1) f → (0 < nfree f)%nat →
  ∃ i, least_free f i ∧ nfree (<[i := 0]> f) = (nfree f - 1)%nat.
Proof.
  unfold nfree. induction f as [|x f IH]; intros Hf Hn; [cbn in Hn; lia|].
  apply Forall_cons in Hf as [[->| ->] Hf].
  - rewrite filter_cons_False in Hn by (intros []; done).
    destruct (IH Hf Hn) as (i & [Hi Hl] & E). exists (S i). split; [split|].
    + done.
    + intros [|j] Hj; [done|]. apply Hl. lia.
    + cbn [insert list_insert]. rewrite !(filter_cons_False _ 0) by (intros []; done). exact E.
  - exists 0%nat. split; [split; [done|lia]|].
    cbn [insert list_insert]. rewrite filter_cons_False by (intros []; done).
    rewrite filter_cons_True by done. cbn. lia.
Qed.

Lemma for_ret_skip {A R} (l1 l2 : list A) (f : A → K (option R)) s :
  Forall (λ x, f x s = Ret None s) l1 → for_ret (l1 ++ l2) f s = for_ret l2 f s.
Proof.
  induction 1 as [|x l1 Hx _ IH]; [done|]. cbn [app for_ret].
  by rewrite (bind_ret _ _ _ _ _ Hx).
Qed.

Definition take_desc (i : nat) (s : kernel) : kernel :=
  s <| vdisk ::= λ v, v <| vd_free ::= <[i := 0]> |> |>.

Lemma alloc_desc_eq i s :
  (i < NUM)%nat → least_free (vd_free (vdisk s)) i → alloc_desc s = Ret (Some i) (take_desc i s).
Proof.
  intros Hi [Hf Hl]. unfold alloc_desc.
  replace (seq 0 NUM) with (seq 0 i ++ i :: seq (S i) (NUM - S i)).
  2:{ change (i :: seq (S i) (NUM - S i)) with (seq (0 + i) (S (NUM - S i))).
      rewrite <- seq_app. f_equal. lia. }
  rewrite for_ret_skip.
  - cbn [for_ret]. msimpl. rewrite Hf. reflexivity.
  - apply Forall_seq. intros j Hj. msimpl. by rewrite Hl by lia.
Qed.

(** The flags are 0 or 1, one for each descriptor. *)
Definition flags_ok (f : list Z) : Prop := length f = NUM ∧ Forall (λ x, x = 0 ∨ x = 1) f.

Lemma flags_ok_insert f i x : flags_ok f → x = 0 ∨ x = 1 → flags_ok (<[i := x]> f).
Proof. intros [Hl Hf] Hx. split; [by rewrite length_insert|by apply Forall_insert]. Qed.

Lemma least_free_insert f i j : least_free (<[i := 0]> f) j → i ≠ j ∧ f !! j = Some 1.
Proof.
  intros [Hj _]. apply list_lookup_insert_Some in Hj as [(_ & E & _)|[Hne Hj]]; done.
Qed.

Lemma alloc_desc_some s f :
  vd_free (vdisk s) = f → flags_ok f → (0 < nfree f)%nat →
  ∃ i, alloc_desc s = Ret (Some i) (take_desc i s) ∧ least_free f i ∧ (i < NUM)%nat ∧
    flags_ok (<[i := 0]> f) ∧ nfree (<[i := 0]> f) = (nfree f - 1)%nat.
Proof.
  intros <- Hf Hn. destruct (nfree_least _ (proj2 Hf) Hn) as (i & Hi & E).
  assert (i < NUM)%nat as Hlt by (destruct Hf as [<- _]; apply (lookup_lt_Some _ _ _ (proj1 Hi))).
  exists i. split; [by apply alloc_desc_eq|]. split; [done|]. split; [done|].
  split; [|done]. apply flags_ok_insert; [done|by left].
Qed.

Definition take3 (i0 i1 i2 : nat) (f : list Z) : list Z := <[i2 := 0]> (<[i1 := 0]> (<[i0 := 0]> f)).

Lemma alloc3_desc_some s f :
  vd_free (vdisk s) = f → flags_ok f → (3 ≤ nfree f)%nat →
  ∃ i0 i1 i2, alloc3_desc s = Ret (Some [i0; i1; i2]) (s <| vdisk ::= λ v, v <| vd_free := take3 i0 i1 i2 f |> |>) ∧
    NoDup [i0; i1; i2] ∧ Forall (λ i, (i < NUM)%nat ∧ f !! i = Some 1) [i0; i1; i2].
Proof.
  intros Ef Hf Hn.
  destruct (alloc_desc_some s f Ef Hf ltac:(lia)) as (i0 & E0 & L0 & B0 & F0 & N0).
  destruct (alloc_desc_some (take_desc i0 s) _ ltac:(cbn; by rewrite Ef) F0 ltac:(lia))
    as (i1 & E1 & L1 & B1 & F1 & N1).
  destruct (alloc_desc_some (take_desc i1 (take_desc i0 s)) _ ltac:(cbn; by rewrite Ef) F1 ltac:(lia))
    as (i2 & E2 & L2 & B2 & _).
  pose proof (least_free_insert _ _ _ L1) as [H01 H1].
  pose proof (least_free_insert _ _ _ L2) as [H12 H2].
  apply list_lookup_insert_Some in H2 as [(_ & E & _)|[H02 H2]]; [done|].
  exists i0, i1, i2. split; [|split].
  - unfold alloc3_desc. cbn [seq for_scan]. msimpl. mrun E0. mrun E1. mrun E2.
    cbn [app]. f_equal. unfold take_desc, take3. subst f. by destruct s.
  - rewrite !NoDup_cons, !not_elem_of_cons. split_and!; done || apply not_elem_of_nil || apply NoDup_nil_2.
  - rewrite !Forall_cons. split_and!; done || apply L0.
Qed.

(** ** Posting a request *)

(** The chain of [i0], [i1] and [i2] transfers the data of buffer [b] to or from
    the sectors of block [n]. *)
Definition chained (v : vdiskst) (b : nat) (write : bool) (n : Z) (i0 i1 i2 : nat) : Prop :=
  vq_desc v !! i0 = Some (mkDesc (AOps i0) 16 VRING_DESC_F_NEXT i1) ∧
  vq_desc v !! i1 = Some (mkDesc (AData b) BSIZE
    (Z.lor (if write then 0 else VRING_DESC_F_WRITE) VRING_DESC_F_NEXT) i2) ∧
  vq_desc v !! i2 = Some (mkDesc (AStatus i0) 1 VRING_DESC_F_WRITE 0) ∧
  vd_ops v !! i0 = Some (mkReq (if write then VIRTIO_BLK_T_OUT else VIRTIO_BLK_T_IN) 0 (2 * n)).

Record queue_ok (v : vdiskst) : Prop := {
  q_flags : flags_ok (vd_free v);
  q_desc : length (vq_desc v) = NUM;
  q_avail : length (avail_ring v) = NUM;
  q_used : length (used_ring v) = NUM;
  q_info : length (vd_info v) = NUM;
  q_ops : length (vd_ops v) = NUM;
  q_idx : 0 ≤ used_ring_idx v < 2 ^ 16;
  q_seen : vd_used_idx v = used_ring_idx v
}.

Definition posted (b : nat) (write : bool) (sector : Z) (i0 i1 i2 : nat) (v : vdiskst) : vdiskst :=
  v <| vd_ops ::= <[i0 := mkReq (if write then VIRTIO_BLK_T_OUT else VIRTIO_BLK_T_IN) 0 sector]> |>
    <| vq_desc ::= λ d, <[i2 := mkDesc (AStatus i0) 1 VRING_DESC_F_WRITE 0]>
         (<[i1 := mkDesc (AData b) BSIZE (Z.lor (if write then 0 else VRING_DESC_F_WRITE) VRING_DESC_F_NEXT) i2]>
         (<[i0 := mkDesc (AOps i0) 16 VRING_DESC_F_NEXT i1]> d)) |>
    <| vd_info ::= λ l, alter (λ x, x <| info_b := Some b |>) i0 (alter (λ x, x <| info_status := 0xff |>) i0 l) |>
    <| avail_ring ::= <[Z.to_nat (avail_idx v mod NUM) := Z.of_nat i0]> |>
    <| avail_idx ::= λ x, u16 (x + 1) |>.

Lemma post_request_eq b write sector i0 i1 i2 s :
  post_request b write sector i0 i1 i2 s =
    Ret () (s <| vdisk ::= posted b write sector i0 i1 i2 |> <| bcache ::= alter (λ x, x <| b_disk := 1 |>) b |>).
Proof. reflexivity. Qed.

Lemma posted_chained b write n i0 i1 i2 v :
  length (vq_desc v) = NUM → length (vd_ops v) = NUM →
  NoDup [i0; i1; i2] → Forall (λ i, (i < NUM)%nat) [i0; i1; i2] →
  chained (posted b write (2 * n) i0 i1 i2 v) b write n i0 i1 i2.
Proof.
  intros Hd Ho Hnd Hb. rewrite !NoDup_cons, !not_elem_of_cons in Hnd. rewrite !Forall_cons in Hb.
  destruct Hnd as ((H01 & H02 & _) & (H12 & _) & _), Hb as (B0 & B1 & B2 & _).
  unfold chained, posted. cbn. split_and!.
  - rewrite !list_lookup_insert_ne by done. apply list_lookup_insert_eq. lia.
  - rewrite list_lookup_insert_ne by done. apply list_lookup_insert_eq. rewrite !length_insert. lia.
  - apply list_lookup_insert_eq. rewrite !length_insert. lia.
  - apply list_lookup_insert_eq. lia.
Qed.

(** ** Freeing a chain *)

Definition freed (i : nat) (v : vdiskst) : vdiskst :=
  v <| vq_desc ::= <[i := desc0]> |> <| vd_free ::= <[i := 1]> |>.

Lemma free_desc_eq i v ps s :
  (i < NUM)%nat → vd_free v !! i = Some 0 → length ps = NPROC →
  (∀ p, Some p = cur s ∨ proc_lock p ∉ held s) →
  free_desc i (s <| vdisk := v |> <| procs := ps |>) =
    Ret () (s <| vdisk := freed i v |> <| procs := imap (woken (cur s) chan_disk_free (ticks s)) ps |>).
Proof.
  intros Hi Hf Hl Hk. unfold free_desc. mif_false by (by apply Nat.leb_gt). msimpl.
  change (vd_free (vdisk _)) with (vd_free v). rewrite Hf. cbn [default from_option id Z.eqb negb].
  unfold set_vdisk. msimpl.
  match goal with |- wakeup _ ?t = _ => rewrite (wakeup_spec chan_disk_free t) end; [done|done|done].
Qed.

Lemma free_chain_link i d v ps s :
  vq_desc v !! i = Some d → (i < NUM)%nat → vd_free v !! i = Some 0 → length ps = NPROC →
  (∀ p, Some p = cur s ∨ proc_lock p ∉ held s) →
  free_chain_body i (s <| vdisk := v |> <| procs := ps |>) =
    Ret (if negb (Z.land (vd_flags d) VRING_DESC_F_NEXT =? 0) then inl (Z.to_nat (vd_next d)) else inr ())
      (s <| vdisk := freed i v |> <| procs := imap (woken (cur s) chan_disk_free (ticks s)) ps |>).
Proof.
  intros Hd Hi Hf Hl Hk. unfold free_chain_body. msimpl. mrun free_desc_eq by done.
  unfold desc_at. change (vdisk (_ <| vdisk := ?x |> <| procs := _ |>)) with x. rewrite Hd.
  cbn [default from_option id]. by destruct (negb _).
Qed.

Lemma free_chain_eq b write n i0 i1 i2 v ps s :
  chained v b write n i0 i1 i2 → NoDup [i0; i1; i2] →
  Forall (λ i, (i < NUM)%nat ∧ vd_free v !! i = Some 0) [i0; i1; i2] →
  length ps = NPROC → (∀ p, Some p = cur s ∨ proc_lock p ∉ held s) →
  free_chain i0 (s <| vdisk := v |> <| procs := ps |>) =
    Ret () (s <| vdisk := freed i2 (freed i1 (freed i0 v)) |>
              <| procs := Nat.iter 3 (imap (woken (cur s) chan_disk_free (ticks s))) ps |>).
Proof.
  intros (D0 & D1 & D2 & _) Hnd Hb Hl Hk.
  rewrite !NoDup_cons, !not_elem_of_cons in Hnd. rewrite !Forall_cons in Hb.
  destruct Hnd as ((H01 & H02 & _) & (H12 & _) & _), Hb as ((B0 & F0) & (B1 & F1) & (B2 & F2) & _).
  assert (vq_desc (freed i0 v) !! i1 = vq_desc v !! i1) as E1 by (cbn; by rewrite list_lookup_insert_ne).
  assert (vq_desc (freed i1 (freed i0 v)) !! i2 = vq_desc v !! i2) as E2
    by (cbn; by rewrite !list_lookup_insert_ne).
  rewrite D1 in E1. rewrite D2 in E2. unfold free_chain, NUM.
  erewrite loop_next by (rewrite (free_chain_link i0 _ _ _ _ D0) by done; reflexivity).
  cbn [vd_next]. rewrite Nat2Z.id.
  erewrite loop_next.
  2:{ rewrite (free_chain_link i1 _ _ _ _ E1); [by destruct write|done| |by rewrite length_imap|done].
      cbn. by rewrite list_lookup_insert_ne. }
  cbn [vd_next]. rewrite Nat2Z.id. erewrite loop_exit; [reflexivity|].
  rewrite (free_chain_link i2 _ _ _ _ E2); [reflexivity|done| |by rewrite !length_imap|done].
  cbn. by rewrite !list_lookup_insert_ne.
Qed.

(** Taking and freeing the same three descriptors changes no flag. *)
Lemma freed_flags i0 i1 i2 v f :
  vd_free v = take3 i0 i1 i2 f → NoDup [i0; i1; i2] →
  Forall (λ i, f !! i = Some 1) [i0; i1; i2] → vd_free (freed i2 (freed i1 (freed i0 v))) = f.
Proof.
  intros E Hnd Hf. cbn. rewrite E. unfold take3. rewrite !Forall_cons in Hf.
  destruct Hf as (F0 & F1 & F2 & _). apply list_eq. intros j.
  destruct (decide (j = i2)) as [->|H2]; [rewrite list_lookup_insert_eq by (rewrite !length_insert; by eapply lookup_lt_Some); done|].
  rewrite (list_lookup_insert_ne _ i2) by done.
  destruct (decide (j = i1)) as [->|H1]; [rewrite list_lookup_insert_eq by (rewrite !length_insert; by eapply lookup_lt_Some); done|].
  rewrite (list_lookup_insert_ne _ i1) by done.
  destruct (decide (j = i0)) as [->|H0]; [rewrite list_lookup_insert_eq by (rewrite !length_insert; by eapply lookup_lt_Some); done|].
  by rewrite !list_lookup_insert_ne.
Qed.

(** ** The device *)

(** The device has one request to serve, that of [i0]. *)
Definition pending (v : vdiskst) (b : nat) (write : bool) (n : Z) (i0 i1 i2 : nat) : Prop :=
  avail_idx v = u16 (used_ring_idx v + 1) ∧
  avail_ring v !! Z.to_nat (used_ring_idx v mod NUM) = Some (Z.of_nat i0) ∧
  chained v b write n i0 i1 i2.

(** The transfer of a block between a buffer and the disk. *)
Definition transfer (b : nat) (write : bool) (n : Z) (s : kernel) : kernel :=
  let data := b_data (default buf0 (bcache s !! b)) in
  if write then s <| disk ::= <[n := data]> |> <| dwrites ::= λ l, l ++ [(n, data)] |>
  else s <| bcache ::= alter (λ x, x <| b_data := block_at (disk s) n |>) b |>.

(** The chain's head is put in the used ring, and the status byte is 0. *)
Definition completed (i0 : nat) (v : vdiskst) : vdiskst :=
  v <| vd_info ::= alter (λ x, x <| info_status := 0 |>) i0 |>
    <| used_ring ::= <[Z.to_nat (used_ring_idx v mod NUM) := Z.of_nat i0]> |>
    <| used_ring_idx ::= λ x, u16 (x + 1) |>.

(** A block device of the virtio specification: it serves a pending request by
    the transfer its descriptors ask for and reports success. *)
Class BlkDevice := {
  serve : kernel → kernel;
  serve_pending s b write n i0 i1 i2 :
    pending (vdisk s) b write n i0 i1 i2 →
    serve s = transfer b write n s <| vdisk := completed i0 (vdisk s) |>
}.

(** The transfer of a buffer whose disk flag is set and then cleared is that of
    the buffer cache. *)
Lemma transfer_disk_rw b write x s s' :
  bcache s !! b = Some x → b_disk x = 0 →
  bcache s' = alter (λ x, x <| b_disk := 1 |>) b (bcache s) → disk s' = disk s → dwrites s' = dwrites s →
  ∃ t, disk_rw b write s = Ret () t ∧
    alter (λ x, x <| b_disk := 0 |>) b (bcache (transfer b write (b_blockno x) s')) = bcache t ∧
    disk (transfer b write (b_blockno x) s') = disk t ∧
    dwrites (transfer b write (b_blockno x) s') = dwrites t ∧
    ∃ x', bcache t !! b = Some x' ∧ b_disk x' = 0.
Proof.
  intros Hx Hd Eb Ed Ew. unfold disk_rw, getb, setb, transfer. msimpl. rewrite Eb, Hx.
  rewrite list_lookup_alter_eq, Hx. cbn [default from_option id fmap option_fmap option_map].
  destruct write; (eexists; split; [reflexivity|]); cbn; rewrite ?Eb, ?Ed, ?Ew; split_and!; try done;
    rewrite ?alter_alter.
  - apply (alter_id_lookup _ _ _ x Hx). destruct x. cbn in *. by subst.
  - by exists x.
  - apply (alter_ext_lookup _ _ _ _ x Hx). destruct x. cbn in *. by subst.
  - rewrite list_lookup_alter_eq, Hx. by eexists.
Qed.

Lemma transfer_fields b write n s (t := transfer b write n s) :
  held t = held s ∧ cur t = cur s ∧ procs t = procs s ∧ vdisk t = vdisk s.
Proof. unfold t, transfer. by destruct write. Qed.

(** ** The interrupt *)

Lemma u16_next u : 0 ≤ u < 2 ^ 16 → u16 (u16 (u + 1) - u) = 1.
Proof.
  intros Hu. unfold u16. rewrite Zminus_mod_idemp_l. replace (u + 1 - u) with 1 by lia. done.
Qed.

Lemma u16_next_ne u : 0 ≤ u < 2 ^ 16 → u ≠ u16 (u + 1).
Proof.
  intros Hu E. pose proof (u16_next u Hu) as H. rewrite <- E, Z.sub_diag in H. done.
Qed.

Definition acknowledged (b : nat) (s : kernel) : kernel :=
  s <| bcache ::= alter (λ x, x <| b_disk := 0 |>) b |>
    <| procs := imap (woken (cur s) (chan_buf b) (ticks s)) (procs s) |>
    <| vdisk ::= λ v, v <| vd_used_idx ::= λ x, u16 (x + 1) |> |>.

Lemma virtio_disk_intr_eq s b i0 u :
  held s = [] → length (procs s) = NPROC → vd_used_idx (vdisk s) = u → 0 ≤ u < 2 ^ 16 →
  used_ring_idx (vdisk s) = u16 (u + 1) →
  used_ring (vdisk s) !! Z.to_nat (u mod NUM) = Some (Z.of_nat i0) →
  vd_info (vdisk s) !! i0 = Some (mkInfo (Some b) 0) →
  virtio_disk_intr s = Ret () (acknowledged b s).
Proof.
  intros Hh Hl Hu Hb Hx Hr Hi. unfold virtio_disk_intr. msimpl.
  mrun acquire_free by (rewrite Hh; apply not_elem_of_nil).
  change (vdisk (s <| held ::= _ |>)) with (vdisk s). rewrite Hu, Hx, u16_next by done.
  change (S (Z.to_nat 1)) with 2%nat.
  erewrite (loop_next 1 disk_intr_body).
  2:{ unfold disk_intr_body at 1. msimpl. change (vdisk (s <| held ::= _ |>)) with (vdisk s).
      rewrite Hu, Hx. mif_false by (apply Z.eqb_neq, u16_next_ne; done).
      rewrite Hr. cbn [default from_option id]. rewrite Nat2Z.id, Hi. cbn [default from_option id info_status info_b].
      cbn [Z.eqb negb]. unfold setb. msimpl.
      match goal with |- context [wakeup ?c ?t] => rewrite (wakeup_spec c t) end; [|done|].
      2:{ intros j. right. cbn. rewrite Hh, list_elem_of_singleton. discriminate. }
      unfold set_vdisk. msimpl. reflexivity. }
  erewrite (loop_exit 0 disk_intr_body).
  2:{ unfold disk_intr_body. msimpl.
      mif_true by (cbn; rewrite Hu, Hx; apply Z.eqb_refl). reflexivity. }
  msimpl. rewrite (release_head _ (held s)) by reflexivity. f_equal.
Qed.

(** ** The two halves of virtio_disk_rw *)

(** Where the thread that has posted its request goes to sleep. *)
Definition requested (b : nat) (write : bool) (n : Z) (i0 i1 i2 : nat) (s : kernel) : kernel :=
  s <| held := [vdisk_lock] |>
    <| vdisk ::= λ v, v <| vd_free := take3 i0 i1 i2 (vd_free (vdisk s)) |> |>
    <| vdisk ::= posted b write (2 * n) i0 i1 i2 |>
    <| bcache ::= alter (λ x, x <| b_disk := 1 |>) b |>.

(** What is left to do when the request is done. *)
Definition finished (i0 i1 i2 : nat) (v : vdiskst) : vdiskst :=
  freed i2 (freed i1 (freed i0 (v <| vd_info ::= alter (λ x, x <| info_b := None |>) i0 |>))).

Section rw.
Context `{Patience} (Hpat : (2 ≤ patience)%nat).

Lemma virtio_disk_rw_start s p q b x write n :
  cur s = Some p → held s = [] → procs s !! p = Some q → bcache s !! b = Some x →
  b_blockno x = n → 0 ≤ n < 2 ^ 31 → flags_ok (vd_free (vdisk s)) → (3 ≤ nfree (vd_free (vdisk s)))%nat →
  ∃ k i0 i1 i2, virtio_disk_rw b write s = Swtch (asleep (requested b write n i0 i1 i2 s) p (chan_buf b)) k ∧
    NoDup [i0; i1; i2] ∧ Forall (λ i, (i < NUM)%nat ∧ vd_free (vdisk s) !! i = Some 1) [i0; i1; i2] ∧
    ∀ s' x', held s' = [proc_lock p] → cur s' = Some p → length (procs s') = NPROC →
      bcache s' !! b = Some x' → b_disk x' = 0 → chained (vdisk s') b write n i0 i1 i2 →
      Forall (λ i, vd_free (vdisk s') !! i = Some 0) [i0; i1; i2] →
      ∃ ps, k s' = Ret () (s' <| sie := sie s |> <| procs := ps |> <| held := [] |>
                             <| vdisk := finished i0 i1 i2 (vdisk s') |>).
Proof.
  intros Hc Hh Hq Hx Hn Hb Hf Hn3.
  set (s0 := s <| held := [vdisk_lock] |>).
  destruct (alloc3_desc_some s0 (vd_free (vdisk s)) eq_refl Hf Hn3) as (i0 & i1 & i2 & Ea & Hnd & Hi).
  destruct (sleep_spec (requested b write n i0 i1 i2 s) p q (chan_buf b) vdisk_lock Hc eq_refl
    ltac:(discriminate) Hq) as (k & Es & Hk).
  unfold virtio_disk_rw, getb. msimpl. rewrite Hx. cbn [default from_option id].
  rewrite acquire_free by (rewrite Hh; apply not_elem_of_nil). msimpl.
  replace (s <| held ::= cons vdisk_lock |>) with s0 by (unfold s0; cbn; by rewrite Hh).
  destruct patience as [|[|pat]] eqn:Ep; [lia..|].
  erewrite (loop_exit (S pat)) by (mrun Ea; reflexivity). msimpl.
  assert (u32 (b_blockno x * (BSIZE / 512)) = 2 * n) as ->.
  { rewrite Hn. change (BSIZE / 512) with 2. rewrite u32_small by lia. lia. }
  mrun post_request_eq.
  subst s0. fold (requested b write n i0 i1 i2 s).
  unfold wait_while. rewrite Ep. cbn [loop]. unfold getb. msimpl.
  mif_true by (cbn; by rewrite list_lookup_alter_eq, Hx).
  rewrite Es. cbn [bindO].
  eexists _, i0, i1, i2. split; [reflexivity|]. split; [done|]. split; [done|].
  intros s' x' Hh' Hc' Hl' Hx' Hd' Hch Hf'. rewrite Hk by done. cbn [bindO].
  change (bcache (s' <| sie := _ |> <| procs ::= _ |> <| held := _ |>)) with (bcache s').
  rewrite Hx'. cbn [default from_option id]. rewrite Hd'. msimpl.
  cbn [Z.eqb bindO]. unfold set_vdisk. msimpl.
  set (t := s' <| sie := sie s |> <| held := [vdisk_lock] |>).
  match goal with |- context [free_chain i0 ?u] =>
    change u with (t <| vdisk := vdisk s' <| vd_info ::= alter (λ x, x <| info_b := None |>) i0 |> |>
                     <| procs := alter (λ q, q <| p_chan := None |>) p (procs s') |>)
  end.
  eexists. rewrite (free_chain_eq b write n i0 i1 i2 _ _ t); [|exact Hch|exact Hnd| | |].
  - msimpl. rewrite (release_head _ []) by reflexivity. reflexivity.
  - rewrite !Forall_cons in *. destruct Hi as ((? & _) & (? & _) & (? & _) & _), Hf' as (? & ? & ? & _).
    split_and!; done.
  - by rewrite length_alter.
  - intros j. right. cbn. rewrite list_elem_of_singleton. discriminate.
Qed.

(** The scheduler resumes [p], as run_proc() of Sched.v does. *)
Definition dispatched (p : nat) (s : kernel) : kernel :=
  s <| held := [proc_lock p] |> <| procs ::= alter (λ q, q <| p_state := RUNNING |>) p |> <| cur := Some p |>.

Lemma posted_pending b write n i0 i1 i2 v :
  queue_ok v → avail_idx v = used_ring_idx v → NoDup [i0; i1; i2] → Forall (λ i, (i < NUM)%nat) [i0; i1; i2] →
  pending (posted b write (2 * n) i0 i1 i2 v) b write n i0 i1 i2.
Proof.
  intros Q E Hnd Hi. split; [cbn; by rewrite E|]. split; [|apply posted_chained; try done; apply Q].
  cbn. rewrite E, list_lookup_insert_eq; [done|]. rewrite (q_avail v Q).
  pose proof (Z.mod_pos_bound (used_ring_idx v) NUM ltac:(done)). unfold NUM in *. lia.
Qed.

(** The queue through one request. *)
Section queue.
Context (b : nat) (write : bool) (n : Z) (i0 i1 i2 : nat) (v : vdiskst).
Context (Q : queue_ok v) (Ea : avail_idx v = used_ring_idx v) (Hnd : NoDup [i0; i1; i2]).
Context (Hi : Forall (λ i, (i < NUM)%nat ∧ vd_free v !! i = Some 1) [i0; i1; i2]).

Definition v_taken : vdiskst := v <| vd_free := take3 i0 i1 i2 (vd_free v) |>.
Definition v_posted : vdiskst := posted b write (2 * n) i0 i1 i2 v_taken.
Definition v_done : vdiskst := completed i0 v_posted.
Definition v_seen : vdiskst := v_done <| vd_used_idx ::= λ x, u16 (x + 1) |>.
Definition v_end : vdiskst := finished i0 i1 i2 v_seen.

Lemma chain_lt : Forall (λ i, (i < NUM)%nat) [i0; i1; i2].
Proof. eapply Forall_impl; [exact Hi|]. by intros ? []. Qed.

Lemma taken_ok : queue_ok v_taken.
Proof.
  destruct Q. split; try done. cbn. unfold take3. repeat (apply flags_ok_insert; [|by left]). done.
Qed.

Lemma v_posted_pending : pending v_posted b write n i0 i1 i2.
Proof. apply posted_pending; [apply taken_ok|exact Ea|exact Hnd|apply chain_lt]. Qed.

Lemma v_done_info : vd_info v_done !! i0 = Some (mkInfo (Some b) 0).
Proof.
  pose proof chain_lt as Hlt. rewrite !Forall_cons in Hlt. destruct Hlt as (H0 & _).
  unfold v_done, v_posted. cbn. rewrite !list_lookup_alter_eq.
  destruct (lookup_lt_is_Some_2 (vd_info v) i0) as [[]  ->]; [|done]. rewrite (q_info v Q). exact H0.
Qed.

Lemma v_done_used :
  used_ring v_done !! Z.to_nat (vd_used_idx v mod NUM) = Some (Z.of_nat i0).
Proof.
  unfold v_done, v_posted. cbn. rewrite (q_seen v Q). apply list_lookup_insert_eq.
  rewrite (q_used v Q). pose proof (Z.mod_pos_bound (used_ring_idx v) NUM ltac:(done)). unfold NUM in *. lia.
Qed.

Lemma take3_zero : Forall (λ i, take3 i0 i1 i2 (vd_free v) !! i = Some 0) [i0; i1; i2].
Proof.
  pose proof chain_lt as Hlt. rewrite !Forall_cons in *. destruct Hlt as (B0 & B1 & B2 & _).
  rewrite !NoDup_cons, !not_elem_of_cons in Hnd. destruct Hnd as ((H01 & H02 & _) & (H12 & _) & _).
  assert (length (vd_free v) = NUM) as Hl by apply (q_flags v Q). unfold take3. split_and!; [| | |done].
  - rewrite !list_lookup_insert_ne by done. apply list_lookup_insert_eq. lia.
  - rewrite list_lookup_insert_ne by done. apply list_lookup_insert_eq. rewrite length_insert. lia.
  - apply list_lookup_insert_eq. rewrite !length_insert. lia.
Qed.

(** The device leaves the descriptors alone. *)
Lemma v_seen_fields :
  vq_desc v_seen = vq_desc v_posted ∧ vd_ops v_seen = vd_ops v_posted ∧ vd_free v_seen = vd_free v_posted.
Proof. unfold v_seen, v_done. generalize v_posted. intros w. by split. Qed.

Lemma v_seen_chained : chained v_seen b write n i0 i1 i2.
Proof.
  destruct v_seen_fields as (Ed & Eo & _). unfold chained. rewrite Ed, Eo. apply v_posted_pending.
Qed.

Lemma v_seen_taken : Forall (λ i, vd_free v_seen !! i = Some 0) [i0; i1; i2].
Proof. destruct v_seen_fields as (_ & _ & ->). exact take3_zero. Qed.

Lemma v_end_free : vd_free v_end = vd_free v.
Proof.
  apply (freed_flags i0 i1 i2); [reflexivity|exact Hnd|].
  eapply Forall_impl; [exact Hi|]. by intros ? [].
Qed.

Lemma v_end_ok : queue_ok v_end ∧ avail_idx v_end = used_ring_idx v_end.
Proof.
  split.
  - destruct Q. split; rewrite ?v_end_free; try done; cbn; rewrite ?length_insert, ?length_alter; try done.
    + unfold u16. apply Z.mod_pos_bound. lia.
    + congruence.
  - cbn. congruence.
Qed.

(** The device serves the request, and the interrupt finds it done. *)
Lemma served_intr `{BlkDevice} s :
  vdisk s = v_posted → held s = [] → length (procs s) = NPROC →
  virtio_disk_intr (serve s) = Ret () (acknowledged b (transfer b write n s <| vdisk := v_done |>)).
Proof.
  intros Ev Hh Hl. destruct (transfer_fields b write n s) as (Th & _ & Tp & _).
  rewrite (serve_pending s b write n i0 i1 i2) by (rewrite Ev; apply v_posted_pending).
  rewrite Ev. fold v_done. apply (virtio_disk_intr_eq _ b i0 (used_ring_idx v)).
  - cbn. by rewrite Th.
  - cbn. by rewrite Tp.
  - apply (q_seen v Q).
  - apply (q_idx v Q).
  - reflexivity.
  - rewrite <- (q_seen v Q). apply v_done_used.
  - apply v_done_info.
Qed.
End queue.

(** The interrupt wakes the process that sleeps on the buffer. *)
Lemma acknowledged_runnable p q b s v :
  cur s = None → procs s !! p = Some q → p_state q = SLEEPING → p_chan q = Some (chan_buf b) →
  p_state <$> procs (acknowledged b (s <| vdisk := v |>)) !! p = Some RUNNABLE.
Proof.
  intros Hc Hq Hs Hp. cbn. rewrite list_lookup_imap, Hq. cbn. unfold woken. rewrite Hc, Hs, Hp.
  by rewrite bool_decide_eq_false_2, !bool_decide_eq_true_2.
Qed.

(** The state in which the thread sleeps. *)
Lemma waiting_fields s p q b write n i0 i1 i2 (s1 := asleep (requested b write n i0 i1 i2 s) p (chan_buf b)) :
  procs s !! p = Some q →
  held s1 = [proc_lock p] ∧ length (procs s1) = length (procs s) ∧
  ∃ qs, procs s1 !! p = Some qs ∧ p_state qs = SLEEPING ∧ p_chan qs = Some (chan_buf b) ∧
    bcache s1 = alter (λ x, x <| b_disk := 1 |>) b (bcache s) ∧ disk s1 = disk s ∧
    dwrites s1 = dwrites s ∧ vdisk s1 = v_posted b write n i0 i1 i2 (vdisk s).
Proof.
  intros Hq. cbn. rewrite length_alter, list_lookup_alter_eq, Hq. split; [done|]. split; [done|].
  by eexists.
Qed.

(** The scheduler, between the two threads. *)
Lemma idle_fields s (s2 := s <| held := [] |> <| cur := None |>) :
  held s2 = [] ∧ cur s2 = None ∧ procs s2 = procs s ∧ bcache s2 = bcache s ∧ disk s2 = disk s ∧
  dwrites s2 = dwrites s ∧ vdisk s2 = vdisk s.
Proof. by destruct s. Qed.

(** The state in which it goes on. *)
Lemma resumed_fields p b u w (s' := dispatched p (acknowledged b (u <| vdisk := w |>))) :
  held s' = [proc_lock p] ∧ cur s' = Some p ∧ length (procs s') = length (procs u) ∧
  bcache s' = alter (λ x, x <| b_disk := 0 |>) b (bcache u) ∧ disk s' = disk u ∧ dwrites s' = dwrites u ∧
  vdisk s' = w <| vd_used_idx ::= λ x, u16 (x + 1) |>.
Proof. cbn. by rewrite length_alter, length_imap. Qed.

Lemma ended_fields s' si ps w (s4 := s' <| sie := si |> <| procs := ps |> <| held := [] |> <| vdisk := w |>) :
  held s4 = [] ∧ bcache s4 = bcache s' ∧ disk s4 = disk s' ∧ dwrites s4 = dwrites s' ∧ vdisk s4 = w.
Proof. by repeat split. Qed.

(** C9: virtio_disk_rw() with a device that keeps the virtio protocol does what the
    buffer cache counts on.  With a free buffer, an idle queue and at least three
    free descriptors, it posts one request and sleeps on the buffer with only its
    own process lock held.  When the device serves the request and raises its
    interrupt, virtio_disk_intr() makes the process runnable.  When the scheduler
    resumes it, it returns with no lock held, and the buffer cache, the disk and the
    history of disk writes are those of [disk_rw].  The queue is idle again, with
    the same free descriptors as before. *)
Theorem virtio_disk_rw_refines `{BlkDevice} s p q b x write :
  cur s = Some p → held s = [] → procs s !! p = Some q → length (procs s) = NPROC →
  bcache s !! b = Some x → b_disk x = 0 → 0 ≤ b_blockno x < 2 ^ 31 →
  queue_ok (vdisk s) → avail_idx (vdisk s) = used_ring_idx (vdisk s) →
  (3 ≤ nfree (vd_free (vdisk s)))%nat →
  ∃ s1 k s3 s4 t,
    virtio_disk_rw b write s = Swtch s1 k ∧ held s1 = [proc_lock p] ∧
    (λ q, (p_state q, p_chan q)) <$> procs s1 !! p = Some (SLEEPING, Some (chan_buf b)) ∧
    virtio_disk_intr (serve (s1 <| held := [] |> <| cur := None |>)) = Ret () s3 ∧
    p_state <$> procs s3 !! p = Some RUNNABLE ∧
    k (dispatched p s3) = Ret () s4 ∧ held s4 = [] ∧
    disk_rw b write s = Ret () t ∧
    bcache s4 = bcache t ∧ disk s4 = disk t ∧ dwrites s4 = dwrites t ∧
    queue_ok (vdisk s4) ∧ avail_idx (vdisk s4) = used_ring_idx (vdisk s4) ∧
    vd_free (vdisk s4) = vd_free (vdisk s).
Proof.
  intros Hc Hh Hq Hl Hx Hd Hb Q Ea Hn.
  destruct (virtio_disk_rw_start s p q b x write _ Hc Hh Hq Hx eq_refl Hb (q_flags _ Q) Hn)
    as (k & i0 & i1 & i2 & Es & Hnd & Hi & Hk).
  set (v := vdisk s) in *. set (n := b_blockno x) in *.
  destruct (waiting_fields s p q b write n i0 i1 i2 Hq) as (Wh & Wl & qs & Wq & Ws & Wc & Wb & Wd & Ww & Wv).
  set (s1 := asleep _ p (chan_buf b)) in *. clearbody s1.
  destruct (idle_fields s1) as (Ih & Ic & Ip & Ib & Id & Iw & Iv).
  remember (s1 <| held := [] |> <| cur := None |>) as s2 eqn:E2.
  rewrite <- Ib in Wb. rewrite <- Id in Wd. rewrite <- Iw in Ww. rewrite <- Iv in Wv. rewrite <- Ip in Wl, Wq.
  destruct (transfer_disk_rw b write x s s2 Hx Hd Wb Wd Ww) as (t & Et & Tb & Td & Tw & x' & Hx' & Hd').
  fold n in Tb, Td, Tw. destruct (transfer_fields b write n s2) as (Th & Tc & Tp & _).
  rewrite Ic in Tc.
  pose proof (served_intr b write n i0 i1 i2 v Q Ea Hnd Hi s2 Wv Ih ltac:(congruence)) as Ei.
  pose proof (acknowledged_runnable p qs b (transfer b write n s2) (v_done b write n i0 i1 i2 v) Tc
    ltac:(rewrite Tp; exact Wq) Ws Wc) as Er.
  destruct (resumed_fields p b (transfer b write n s2) (v_done b write n i0 i1 i2 v)) as (Dh & Dc & Dl & Db & Dd & Dw & Dv).
  fold (v_seen b write n i0 i1 i2 v) in Dv. set (s3 := acknowledged b _) in *. clearbody s3.
  destruct (Hk (dispatched p s3) x' Dh Dc) as (ps & Ek);
    [by rewrite Dl, Tp, Wl|by rewrite Db, Tb|exact Hd'| | |].
  - rewrite Dv. exact (v_seen_chained b write n i0 i1 i2 v Q Ea Hnd Hi).
  - rewrite Dv. exact (v_seen_taken b write n i0 i1 i2 v Q Hnd Hi).
  - destruct (v_end_ok b write n i0 i1 i2 v Q Ea Hnd Hi) as [Qe Ee].
    pose proof (v_end_free b write n i0 i1 i2 v Hnd Hi) as Ef.
    rewrite Dv in Ek. fold (v_end b write n i0 i1 i2 v) in Ek.
    destruct (ended_fields (dispatched p s3) (sie s) ps (v_end b write n i0 i1 i2 v)) as (Fh & Fb & Fd & Fw & Fv).
    eexists s1, k, s3, _, t.
    split; [exact Es|]. split; [exact Wh|]. split; [rewrite <- Ip, Wq; cbn; by rewrite Ws, Wc|].
    split; [rewrite <- E2; exact Ei|]. split; [exact Er|]. split; [exact Ek|]. split; [exact Fh|]. split; [exact Et|].
    split; [by rewrite Fb, Db|]. split; [by rewrite Fd, Dd|]. split; [by rewrite Fw, Dw|].
    rewrite Fv. by split.
Qed.

End rw.

(** ** An example *)

(** A device that follows the chain. *)
Definition soft_serve (s : kernel) : kernel :=
  let v := vdisk s in
  let i0 := Z.to_nat (default 0 (avail_ring v !! Z.to_nat (used_ring_idx v mod NUM))) in
  let r := default (mkReq 0 0 0) (vd_ops v !! i0) in
  match vd_addr (desc_at v (Z.to_nat (vd_next (desc_at v i0)))) with
  | AData b => transfer b (req_type r =? VIRTIO_BLK_T_OUT) (req_sector r / 2) s <| vdisk := completed i0 v |>
  | _ => s
  end.

#[local] Instance soft_device : BlkDevice.
Proof.
  refine {| serve := soft_serve |}. intros s b write n i0 i1 i2 (_ & Hr & D0 & D1 & _ & Ho).
  unfold soft_serve, desc_at. rewrite Hr. cbn [default from_option id]. rewrite Nat2Z.id, D0, Ho.
  cbn [default from_option id vd_next]. rewrite Nat2Z.id, D1. cbn [default from_option id vd_addr req_type req_sector].
  rewrite (Z.mul_comm 2), Z.div_mul by lia. by destruct write.
Defined.

#[local] Instance ex_patience : Patience := 2%nat.

(** The indices are about to wrap around, and two descriptors are in use. *)
Definition ex_queue : vdiskst :=
  mkVdisk (replicate NUM desc0) 65535 (replicate NUM 0) 65535 (replicate NUM 0)
    [0; 1; 0; 1; 1; 1; 1; 1] 65535 (replicate NUM (mkInfo None 0)) (replicate NUM (mkReq 0 0 0)).

Definition ex_disk_proc : proc := proc0 <| p_state := RUNNING |>.
Definition ex_disk_buf : buf := buf0 <| b_blockno := 7 |>.

Definition ex_disk : kernel :=
  kernel0 <| cur := Some 0%nat |>
    <| procs := <[0%nat := ex_disk_proc]> (replicate NPROC proc0) |>
    <| bcache := <[3%nat := ex_disk_buf]> (replicate 31 buf0) |>
    <| disk := {[7 := replicate 1024 9]} |> <| vdisk := ex_queue |>.

Lemma virtio_disk_rw_refines_witness :
  ∃ s1 k s3 s4, virtio_disk_rw 3 false ex_disk = Swtch s1 k ∧
    virtio_disk_intr (serve (s1 <| held := [] |> <| cur := None |>)) = Ret () s3 ∧
    k (dispatched 0 s3) = Ret () s4 ∧ b_data <$> bcache s4 !! 3%nat = Some (replicate 1024 9).
Proof.
  destruct (@virtio_disk_rw_refines ex_patience ltac:(unfold patience, ex_patience; lia) soft_device ex_disk 0
    ex_disk_proc 3 ex_disk_buf false)
    as (s1 & k & s3 & s4 & t & E1 & _ & _ & E3 & _ & E4 & _ & Et & Eb & _);
    [reflexivity|reflexivity|reflexivity|reflexivity|reflexivity|reflexivity|vm_compute; split; [discriminate|reflexivity]
    | |reflexivity|vm_compute; lia|].
  - split; try reflexivity; [split; [reflexivity|]|vm_compute; split; [discriminate|reflexivity]].
    repeat constructor; (by left) || by right.
  - exists s1, k, s3, s4. split; [exact E1|]. split; [exact E3|]. split; [exact E4|].
    rewrite Eb. injection Et as <-. vm_compute. reflexivity.
Defined.
