(* ===== verification/Log.v ===== *)
(** * The log (kernel/log.c)

    Transactions, the write-ahead log on disk and its recovery. *)

From Stdlib Require Import ZArith Lia.
From stdpp Require Import base numbers strings option list gmap.
From S2P Require Import Prelude Params Machine Cstring Sched Uart Sleeplock Bio.

Open Scope Z_scope.

Definition set_log (f : logst → logst) : K () := modify (λ s, s <| log ::= f |>).

(** ** The header block: struct logheader in a block's bytes *)

(** The little-endian 32-bit word at byte offset [off]. *)
Definition word_at (bs : list Z) (off : nat) : Z :=
  let b i := default 0 (bs !! (off + i)%nat) in
  b 0%nat + 2 ^ 8 * b 1%nat + 2 ^ 16 * b 2%nat + 2 ^ 24 * b 3%nat.

Definition word_bytes (v : Z) : list Z :=
  [v mod 2 ^ 8; v / 2 ^ 8 mod 2 ^ 8; v / 2 ^ 16 mod 2 ^ 8; v / 2 ^ 24 mod 2 ^ 8].

(** Store a 32-bit word at byte offset [off]. *)
Definition put_word (bs : list Z) (off : nat) (v : Z) : list Z := list_inserts off (word_bytes v) bs.

(** [lh->n] and [lh->block[i]] of the header block. *)
Definition head_n (bs : list Z) : Z := i32 (word_at bs 0).
Definition head_block (bs : list Z) (i : nat) : Z := i32 (word_at bs (4 + 4 * i)).

Section waiting.
Context `{Patience}.

Definition lh_nth (l : logst) (i : nat) : Z := default 0 (lh_block (log_lh l) !! i).

(** The loop bodies of install_trans() and write_log() for one log block. *)
Definition install_one (recovering : bool) (tail : nat) : K () :=
  l ← gets log;
  lbuf ← bread (log_dev l) (u32 (log_start l + tail + 1));
  dbuf ← bread (log_dev l) (u32 (lh_nth l tail));
  lb ← getb lbuf;
  setb dbuf (λ x, x <| b_data := b_data lb |>);;
  bwrite dbuf;;
  when (negb recovering) (bunpin dbuf);;
  brelse lbuf;;
  brelse dbuf.

Definition install_trans (recovering : bool) : K () :=
  l ← gets log;
  for_each (seq 0 (Z.to_nat (lh_n (log_lh l)))) (install_one recovering).

Definition read_head : K () :=
  l ← gets log;
  buf ← bread (log_dev l) (u32 (log_start l));
  x ← getb buf;
  set_log (λ l, l <| log_lh ::= λ h, h <| lh_n := head_n (b_data x) |> |>);;
  for_each (seq 0 (Z.to_nat (head_n (b_data x)))) (λ i,
    set_log (λ l, l <| log_lh ::= λ h, h <| lh_block ::= <[i := head_block (b_data x) i]> |> |>));;
  brelse buf.

Definition write_head : K () :=
  l ← gets log;
  buf ← bread (log_dev l) (u32 (log_start l));
  setb buf (λ x, x <| b_data ::= λ d, put_word d 0 (lh_n (log_lh l)) |>);;
  for_each (seq 0 (Z.to_nat (lh_n (log_lh l)))) (λ i,
    setb buf (λ x, x <| b_data ::= λ d, put_word d (4 + 4 * i) (lh_nth l i) |>));;
  bwrite buf;;
  brelse buf.

Definition recover_from_log : K () :=
  read_head;;
  install_trans true;;
  set_log (λ l, l <| log_lh ::= λ h, h <| lh_n := 0 |> |>);;
  write_head.

Definition initlog (dev : Z) : K () :=
  b ← gets sb;
  set_log (λ l, l <| log_start := i32 (sb_logstart b) |>);;
  set_log (λ l, l <| log_size := i32 (sb_nlog b) |>);;
  set_log (λ l, l <| log_dev := dev |>);;
  recover_from_log.

Definition begin_op : K () :=
  acquire log_lock;;
  loop patience (λ _ : (),
    l ← gets log;
    if negb (log_committing l =? 0) then sleep chan_log log_lock;; mret (inl ())
    else if LOGSIZE <? lh_n (log_lh l) + (log_outstanding l + 1) * MAXOPBLOCKS then
      sleep chan_log log_lock;; mret (inl ())
    else
      set_log (λ l, l <| log_outstanding ::= λ x, i32 (x + 1) |>);;
      release log_lock;;
      mret (inr ())) ().

Definition write_log_one (tail : nat) : K () :=
  l ← gets log;
  to ← bread (log_dev l) (u32 (log_start l + tail + 1));
  from ← bread (log_dev l) (u32 (lh_nth l tail));
  fb ← getb from;
  setb to (λ x, x <| b_data := b_data fb |>);;
  bwrite to;;
  brelse from;;
  brelse to.

Definition write_log : K () :=
  l ← gets log;
  for_each (seq 0 (Z.to_nat (lh_n (log_lh l)))) write_log_one.

Definition commit : K () :=
  l ← gets log;
  when (0 <? lh_n (log_lh l))
    (write_log;;
     write_head;;
     install_trans false;;
     set_log (λ l, l <| log_lh ::= λ h, h <| lh_n := 0 |> |>);;
     write_head).

Definition end_op : K () :=
  acquire log_lock;;
  set_log (λ l, l <| log_outstanding ::= λ x, i32 (x - 1) |>);;
  l ← gets log;
  if negb (log_committing l =? 0) then panic "log.committing"
  else
    do_commit ← (if log_outstanding l =? 0 then
                   set_log (λ l, l <| log_committing := 1 |>);; mret true
                 else wakeup chan_log;; mret false);
    release log_lock;;
    when do_commit
      (commit;;
       acquire log_lock;;
       set_log (λ l, l <| log_committing := 0 |>);;
       wakeup chan_log;;
       release log_lock).

(** The index where the search for an earlier entry of the block stops. *)
Definition log_slot (l : logst) (blockno : Z) : nat :=
  let n := Z.to_nat (lh_n (log_lh l)) in
  match list_find (λ i, u32 (lh_nth l i) = blockno) (seq 0 n) with
  | Some (i, _) => i
  | None => n
  end.

Definition log_write (b : nat) : K () :=
  acquire log_lock;;
  l ← gets log;
  if (LOGSIZE <=? lh_n (log_lh l)) || (log_size l - 1 <=? lh_n (log_lh l))
  then panic "too big a transaction"
  else if log_outstanding l <? 1 then panic "log_write outside of trans"
  else
    x ← getb b;
    let i := log_slot l (b_blockno x) in
    set_log (λ l, l <| log_lh ::= λ h, h <| lh_block ::= <[i := i32 (b_blockno x)]> |> |>);;
    when (i =? lh_n (log_lh l))
      (bpin b;;
       set_log (λ l, l <| log_lh ::= λ h, h <| lh_n ::= λ n, i32 (n + 1) |> |>));;
    release log_lock.

End waiting.
