(* ===== verification/LogFacts.v ===== *)
(** * Log theorems

    The write-ahead log is crash safe: commit() cut short after any number of
    block writes leaves a disk that recover_from_log() brings to the state
    before the transaction or to the state after it, and a recovery that is
    itself cut short can be started again. *)

From Stdlib Require Import ZArith Lia.
From stdpp Require Import base numbers strings option list gmap.
From S2P Require Import Prelude Params Machine Cstring Sched SchedFacts Uart Sleeplock Bio BioFacts Log.

Open Scope Z_scope.

(** ** The header block *)

Lemma byte_split v : 0 ≤ v < 2 ^ 32 →
  v mod 2 ^ 8 + 2 ^ 8 * (v / 2 ^ 8 mod 2 ^ 8) + 2 ^ 16 * (v / 2 ^ 16 mod 2 ^ 8) + 2 ^ 24 * (v / 2 ^ 24 mod 2 ^ 8) = v.
Proof. intros Hv. change (2 ^ 8) with 256. change (2 ^ 16) with 65536. change (2 ^ 24) with 16777216. Z.to_euclidean_division_equations. lia. Qed.

Lemma length_put_word bs off v : length (put_word bs off v) = length bs.
Proof. apply length_inserts. Qed.

Lemma put_word_lookup bs off v i :
  (off + 4 ≤ length bs)%nat → (i < 4)%nat → put_word bs off v !! (off + i)%nat = word_bytes v !! i.
Proof.
  intros Hl Hi. unfold put_word. rewrite list_lookup_inserts; [f_equal; lia|cbn; lia|lia].
Qed.

Lemma put_word_lookup_ne bs off v i :
  (i < off ∨ off + 4 ≤ i)%nat → put_word bs off v !! i = bs !! i.
Proof. intros Hi. unfold put_word. destruct Hi; [by rewrite list_lookup_inserts_lt|by rewrite list_lookup_inserts_ge by (cbn; lia)]. Qed.

Lemma word_at_put bs off v :
  (off + 4 ≤ length bs)%nat → 0 ≤ v < 2 ^ 32 → word_at (put_word bs off v) off = v.
Proof.
  intros Hl Hv. unfold word_at. rewrite !put_word_lookup by lia. cbn. rewrite <-(byte_split v Hv) at 5. done.
Qed.

Lemma word_at_put_ne bs off off' v :
  (off' + 4 ≤ off ∨ off + 4 ≤ off')%nat → word_at (put_word bs off v) off' = word_at bs off'.
Proof. intros H. unfold word_at. by rewrite !put_word_lookup_ne by lia. Qed.

(** The header block write_head() makes of [d]. *)
Definition enc_head (n : Z) (blk : nat → Z) (d : list Z) : list Z :=
  foldl (λ d i, put_word d (4 + 4 * i) (blk i)) (put_word d 0 n) (seq 0 (Z.to_nat n)).

Lemma put_blocks_spec blk (m : nat) d :
  (4 + 4 * m ≤ length d)%nat → (∀ i, (i < m)%nat → 0 ≤ blk i < 2 ^ 32) →
  let d' := foldl (λ d i, put_word d (4 + 4 * i) (blk i)) d (seq 0 m) in
  length d' = length d ∧ word_at d' 0 = word_at d 0 ∧
  ∀ i, (i < m)%nat → word_at d' (4 + 4 * i) = blk i.
Proof.
  intros Hl Hb. induction m as [|m IH]; [split; [done|split; [done|lia]]|]. rewrite seq_S, foldl_app. cbn [foldl Nat.add].
  destruct IH as (IH1 & IH2 & IH3); [lia|intros i Hi; apply Hb; lia|]. set (d' := foldl _ d _) in *.
  split; [by rewrite length_put_word|]. split; [by rewrite word_at_put_ne by lia|].
  intros i Hi. destruct (decide (i = m)) as [->|Hne].
  - apply word_at_put; [lia|]. apply Hb. lia.
  - rewrite word_at_put_ne by lia. apply IH3. lia.
Qed.

Lemma enc_head_spec n blk d :
  0 ≤ n ≤ LOGSIZE → length d = 1024%nat → (∀ i : nat, i < n → 0 ≤ blk i < 2 ^ 31) →
  length (enc_head n blk d) = 1024%nat ∧ head_n (enc_head n blk d) = n ∧
  ∀ i : nat, i < n → head_block (enc_head n blk d) i = blk i.
Proof.
  intros Hn Hl Hb. change LOGSIZE with 30 in Hn.
  destruct (put_blocks_spec blk (Z.to_nat n) (put_word d 0 n)) as (H1 & H2 & H3).
  { rewrite length_put_word. lia. }
  { intros i Hi. specialize (Hb i ltac:(lia)). lia. }
  fold (enc_head n blk d) in H1, H2, H3. rewrite length_put_word in H1. rewrite word_at_put in H2 by lia.
  split; [lia|]. split.
  - unfold head_n. rewrite H2. apply i32_small. lia.
  - intros i Hi. unfold head_block. rewrite H3 by lia. apply i32_small. specialize (Hb i Hi). lia.
Qed.

(** ** Reference counts *)

Lemma refs_add_lookup k n rc :
  refs_add k n rc !! n = (let c := default 0 (rc !! n) + k in if c =? 0 then None else Some c).
Proof. unfold refs_add. cbv zeta. destruct (_ =? 0); [by rewrite lookup_delete_eq|by rewrite lookup_insert_eq]. Qed.

Lemma refs_add_add j k n rc : refs_add j n (refs_add k n rc) = refs_add (k + j) n rc.
Proof.
  apply map_eq. intros m. destruct (decide (m = n)) as [->|Hm].
  - rewrite !(refs_add_lookup j), refs_add_eq, refs_add_lookup. by rewrite Z.add_assoc.
  - by rewrite !refs_add_ne.
Qed.

Lemma refs_add_comm j k n m rc : n ≠ m → refs_add j n (refs_add k m rc) = refs_add k m (refs_add j n rc).
Proof.
  intros Hne. apply map_eq. intros i.
  destruct (decide (i = n)) as [->|Hn]; [|destruct (decide (i = m)) as [->|Hm]].
  - rewrite (refs_add_ne k m n) by done. rewrite !refs_add_lookup. by rewrite refs_add_ne.
  - rewrite (refs_add_ne j n m) by done. rewrite !refs_add_lookup. by rewrite refs_add_ne.
  - by rewrite !refs_add_ne.
Qed.

Lemma refs_add_0 n rc : rc !! n ≠ Some 0 → refs_add 0 n rc = rc.
Proof.
  intros H. apply map_eq. intros m. destruct (decide (m = n)) as [->|Hm]; [|by rewrite refs_add_ne].
  rewrite refs_add_lookup. cbv zeta. rewrite Z.add_0_r. destruct (rc !! n) as [c|]; [|done]. cbn.
  destruct (Z.eqb_spec c 0); congruence.
Qed.

Lemma refs_add_size n rc : rc !! n = None → size (refs_add 1 n rc) = S (size rc).
Proof. intros E. unfold refs_add. rewrite E. cbn. by apply map_size_insert_None. Qed.

(** ** Sequences of block writes *)

(** The blocks, and the disk, after the writes. *)
Definition after (ws : list (Z * list Z)) (f : Z → list Z) : Z → list Z := foldl (λ f x, fupd f x.1 x.2) f ws.
Definition disk_after (ws : list (Z * list Z)) (d : gmap Z (list Z)) : gmap Z (list Z) := foldl (λ d x, <[x.1 := x.2]> d) d ws.

Lemma after_app ws ws' f : after (ws ++ ws') f = after ws' (after ws f).
Proof. apply foldl_app. Qed.

Lemma disk_after_app ws ws' d : disk_after (ws ++ ws') d = disk_after ws' (disk_after ws d).
Proof. apply foldl_app. Qed.

Lemma after_ext ws f g m : (∀ m, f m = g m) → after ws f m = after ws g m.
Proof.
  revert f g. induction ws as [|x ws IH]; intros f g E; [apply E|]. cbn. apply IH. intros k. unfold fupd. by case_decide.
Qed.

Lemma block_after ws d m : block_at (disk_after ws d) m = after ws (block_at d) m.
Proof.
  revert d. induction ws as [|[n x] ws IH]; intros d; [done|].
  change (block_at (disk_after ws (<[n := x]> d)) m = after ws (fupd (block_at d) n x) m). rewrite IH. apply after_ext.
  intros k. unfold fupd, block_at. case_decide as Hk; [subst; by rewrite lookup_insert_eq|by rewrite lookup_insert_ne].
Qed.

Lemma after_ne ws f m : m ∉ ws.*1 → after ws f m = f m.
Proof.
  revert f. induction ws as [|[n x] ws IH]; intros f; [done|]. cbn. intros [Hn Hm]%not_elem_of_cons.
  change (after ws (fupd f n x) m = f m). rewrite IH by done. by apply fupd_ne.
Qed.

Lemma after_in ws f m x : NoDup ws.*1 → (m, x) ∈ ws → after ws f m = x.
Proof.
  revert f. induction ws as [|[n y] ws IH]; intros f; [by intros _ ?%elem_of_nil|]. cbn.
  intros [Hn Hd]%NoDup_cons [[= -> ->]|Hm]%elem_of_cons.
  - change (after ws (fupd f n y) n = y). rewrite after_ne by done. apply fupd_eq.
  - by apply IH.
Qed.

Lemma after_snoc ws i x f m : ws !! i = Some x → after (take (S i) ws) f m = fupd (after (take i ws) f) x.1 x.2 m.
Proof. intros E. by rewrite (take_S_r _ _ _ E), after_app. Qed.

Lemma disk_after_snoc ws i x d : ws !! i = Some x → disk_after (take (S i) ws) d = <[x.1 := x.2]> (disk_after (take i ws) d).
Proof. intros E. by rewrite (take_S_r _ _ _ E), disk_after_app. Qed.

(** The blocks of the log, from its header at block [H] on: [LOGSIZE] blocks, as
    mkfs lays out the disk. *)
Definition in_log (H m : Z) : Prop := H ≤ m < H + LOGSIZE.
#[global] Instance in_log_dec H m : Decision (in_log H m).
Proof. unfold in_log. apply _. Defined.

Definition log_writes (H : Z) (src : nat → list Z) (n : nat) : list (Z * list Z) := (λ i, (H + Z.of_nat i + 1, src i)) <$> seq 0 n.
Definition home_writes (blk : nat → Z) (src : nat → list Z) (n : nat) : list (Z * list Z) := (λ i, (blk i, src i)) <$> seq 0 n.

Lemma log_writes_lookup H src n i : (i < n)%nat → log_writes H src n !! i = Some (H + Z.of_nat i + 1, src i).
Proof. intros Hi. unfold log_writes. by rewrite list_lookup_fmap, lookup_seq_lt. Qed.

Lemma home_writes_lookup blk src n i : (i < n)%nat → home_writes blk src n !! i = Some (blk i, src i).
Proof. intros Hi. unfold home_writes. by rewrite list_lookup_fmap, lookup_seq_lt. Qed.

Lemma log_writes_key H src n k m : m ∈ (take k (log_writes H src n)).*1 → H < m ≤ H + n.
Proof.
  intros (x & -> & Hx)%list_elem_of_fmap. apply list_elem_of_lookup in Hx as (i & Hi%lookup_take_Some).
  destruct Hi as [Hi _]. unfold log_writes in Hi. rewrite list_lookup_fmap in Hi.
  destruct (seq 0 n !! i) as [j|] eqn:E; [|done]. apply lookup_seq in E as [-> Hj]. injection Hi as <-. cbn. lia.
Qed.

Lemma log_writes_get H src n g i : (i < n)%nat → after (log_writes H src n) g (H + i + 1) = src i.
Proof.
  intros Hi. apply after_in.
  - unfold log_writes. rewrite <-list_fmap_compose. apply NoDup_fmap_2; [|apply NoDup_seq]. intros a b. cbn. lia.
  - apply list_elem_of_lookup. exists i. by apply log_writes_lookup.
Qed.

Lemma home_writes_key blk src n k m : m ∈ (take k (home_writes blk src n)).*1 → ∃ i : nat, m = blk i ∧ (i < n)%nat.
Proof.
  intros (x & -> & Hx)%list_elem_of_fmap. apply list_elem_of_lookup in Hx as (i & Hi%lookup_take_Some).
  destruct Hi as [Hi _]. unfold home_writes in Hi. rewrite list_lookup_fmap in Hi.
  destruct (seq 0 n !! i) as [j|] eqn:E; [|done]. apply lookup_seq in E as [-> Hj]. injection Hi as <-. cbn. by exists i.
Qed.

Lemma after_over ws f g m : m ∈ ws.*1 → after ws f m = after ws g m.
Proof.
  revert f g. induction ws as [|[n x] ws IH]; intros f g; [by intros ?%elem_of_nil|]. cbn. intros Hm.
  change (after ws (fupd f n x) m = after ws (fupd g n x) m).
  destruct (decide (m ∈ ws.*1)) as [Hin|Hout]; [by apply IH|].
  apply elem_of_cons in Hm as [->|]; [|done]. by rewrite !after_ne, !fupd_eq.
Qed.

(** Writes of the blocks of [v]. *)
Lemma after_consistent ws v g m : Forall (λ x, x.2 = v x.1) ws → m ∈ ws.*1 → after ws g m = v m.
Proof.
  revert g. induction ws as [|[n x] ws IH]; intros g; [by intros _ ?%elem_of_nil|]. cbn.
  intros [Hx Hw]%Forall_cons Hm. change (after ws (fupd g n x) m = v m). cbn in Hx.
  destruct (decide (m ∈ ws.*1)) as [Hin|Hout]; [by apply IH|].
  apply elem_of_cons in Hm as [->|]; [|done]. by rewrite after_ne, fupd_eq.
Qed.

(** Installing again after an interrupted installation. *)
Lemma after_again ws k f m : after ws (after (take k ws) f) m = after ws f m.
Proof.
  destruct (decide (m ∈ ws.*1)) as [Hin|Hout]; [by apply after_over|]. rewrite !after_ne; try done.
  intros Hin. apply Hout. rewrite <-(take_drop k ws), fmap_app. apply elem_of_app. by left.
Qed.

(** ** Recovery as a function of the disk *)

(** What recovery makes of the blocks [f], with the log at block [H]. *)
Definition installed (H : Z) (f : Z → list Z) : list (Z * list Z) :=
  home_writes (head_block (f H)) (λ i, f (H + i + 1)) (Z.to_nat (head_n (f H))).
Definition replay (H : Z) (f : Z → list Z) : Z → list Z := after (installed H f) f.

Record head_ok (H : Z) (f : Z → list Z) : Prop := {
  ho_start : 0 ≤ H;
  ho_end : H + LOGSIZE < 2 ^ 31;
  ho_len : length (f H) = 1024%nat;
  ho_n : 0 ≤ head_n (f H) < LOGSIZE;
  ho_home : ∀ i : nat, i < head_n (f H) → 0 ≤ head_block (f H) i < 2 ^ 31 ∧ ¬ in_log H (head_block (f H) i);
}.

(** Recovery takes the disk [f] to [new], outside the log. *)
Definition recovers (H : Z) (f new : Z → list Z) : Prop := head_ok H f ∧ ∀ m, ¬ in_log H m → replay H f m = new m.

Lemma log_start_in H : in_log H H.
Proof. unfold in_log, LOGSIZE, MAXOPBLOCKS. lia. Qed.

(** Only the header and the logged blocks matter. *)
Lemma installed_ext H f g :
  g H = f H → (∀ i : nat, i < head_n (f H) → g (H + i + 1) = f (H + i + 1)) → installed H g = installed H f.
Proof.
  intros EH Ei. unfold installed, home_writes. rewrite EH. apply list_fmap_ext.
  intros j i [-> Hi]%lookup_seq. f_equal. apply Ei. lia.
Qed.

Lemma head_ok_ext H f g : g H = f H → head_ok H f → head_ok H g.
Proof. intros E [H1 H2 H3 H4 H5]. split; rewrite ?E; try done. Qed.

Lemma installed_key H f k m : head_ok H f → m ∈ (take k (installed H f)).*1 → ¬ in_log H m.
Proof. intros Ho (i & -> & Hi)%home_writes_key. apply (ho_home _ _ Ho). lia. Qed.

(** An interrupted installation of a committed transaction. *)
Lemma recovers_install H f new k :
  recovers H f new → recovers H (after (take k (installed H f)) f) new.
Proof.
  intros [Ho Hnew]. pose proof (ho_n _ _ Ho) as Hn.
  assert (∀ m, in_log H m → after (take k (installed H f)) f m = f m) as Hlog.
  { intros m Hm. apply after_ne. intros Hk. by apply (installed_key _ _ _ _ Ho Hk). }
  split; [eapply head_ok_ext; [apply Hlog, log_start_in|done]|].
  intros m Hm. unfold replay. rewrite (installed_ext H f).
  - rewrite after_again. by apply Hnew.
  - apply Hlog, log_start_in.
  - intros i Hi. apply Hlog. unfold in_log. lia.
Qed.

(** A disk whose header is empty is what it recovers to. *)
Lemma recovers_empty H f :
  0 ≤ H → H + LOGSIZE < 2 ^ 31 → length (f H) = 1024%nat → head_n (f H) = 0 → recovers H f f.
Proof.
  intros H1 H2 H3 H4. split; [split; rewrite ?H4; try done; lia|]. intros m _. unfold replay, installed. by rewrite H4.
Qed.

Lemma recovers_done H f new m : recovers H f new → head_n (f H) = 0 → ¬ in_log H m → f m = new m.
Proof. intros [_ Hnew] H0 Hm. rewrite <-Hnew by done. unfold replay, installed. by rewrite H0. Qed.

Lemma recovers_ext H f new new' : (∀ m, ¬ in_log H m → new m = new' m) → recovers H f new → recovers H f new'.
Proof. intros E [Ho Hn]. split; [done|]. intros m Hm. rewrite Hn by done. by apply E. Qed.

Lemma recovers_ext_f H f g new : (∀ m, g m = f m) → recovers H f new → recovers H g new.
Proof.
  intros E [Ho Hn]. split; [eapply head_ok_ext; [apply E|done]|]. intros m Hm. rewrite <-Hn by done. unfold replay.
  rewrite (installed_ext H f g) by auto. by apply after_ext.
Qed.

Lemma recovers_cleared H f new hd :
  recovers H f new → length hd = 1024%nat → head_n hd = 0 →
  recovers H (fupd (after (installed H f) f) H hd) new.
Proof.
  intros [Ho Hnew] Hl H0. set (g := fupd _ H hd). assert (g H = hd) as Eg by apply fupd_eq.
  apply (recovers_ext H g g).
  - intros m Hm. unfold g. rewrite fupd_ne by (intros ->; apply Hm, log_start_in). by apply Hnew.
  - apply recovers_empty; [apply Ho|apply Ho|by rewrite Eg|by rewrite Eg].
Qed.

(** Recovery interrupted after [k] of its writes. *)
Lemma recovers_prefix H f new hd k :
  recovers H f new → length hd = 1024%nat → head_n hd = 0 →
  recovers H (after (take k (installed H f ++ [(H, hd)])) f) new.
Proof.
  intros Hr Hl H0. destruct (decide (k ≤ length (installed H f))%nat) as [Hk|Hk].
  - rewrite take_app_le by done. by apply recovers_install.
  - rewrite take_ge by (rewrite length_app; cbn; lia). rewrite after_app. by apply recovers_cleared.
Qed.

(** ** Committing as a function of the disk *)

Section commit.
Context (H : Z) (f v : Z → list Z) (blk : nat → Z) (n : nat) (hd hd0 : list Z).
Context (Hold : head_ok H f) (Hempty : head_n (f H) = 0).
Context (Hblk : ∀ i, (i < n)%nat → 0 ≤ blk i < 2 ^ 31 ∧ ¬ in_log H (blk i)) (Hn : (n < 30)%nat).
Context (Hclean : ∀ m, (∀ i, (i < n)%nat → blk i ≠ m) → v m = f m).
Context (Hhd : length hd = 1024%nat ∧ head_n hd = n ∧ ∀ i : nat, (i < n)%nat → head_block hd i = blk i).
Context (Hhd0 : length hd0 = 1024%nat ∧ head_n hd0 = 0).

Definition commit_writes : list (Z * list Z) :=
  log_writes H (λ i, v (blk i)) n ++ [(H, hd)] ++ home_writes blk (λ i, v (blk i)) n ++ [(H, hd0)].

Definition logged : Z → list Z := after (log_writes H (λ i, v (blk i)) n ++ [(H, hd)]) f.

Lemma log_keys k m : ¬ in_log H m → after (take k (log_writes H (λ i, v (blk i)) n)) f m = f m.
Proof. intros Hm. apply after_ne. intros Hk%log_writes_key. apply Hm. unfold in_log, LOGSIZE, MAXOPBLOCKS. lia. Qed.

Lemma logged_head : logged H = hd.
Proof. unfold logged. rewrite after_app. apply fupd_eq. Qed.

Lemma logged_block i : (i < n)%nat → logged (H + i + 1) = v (blk i).
Proof.
  intros Hi. unfold logged. rewrite after_app. cbn. rewrite fupd_ne by lia. by apply log_writes_get.
Qed.

Lemma logged_installed : installed H logged = home_writes blk (λ i, v (blk i)) n.
Proof.
  unfold installed, home_writes. rewrite logged_head. destruct Hhd as (_ & E & Eb). rewrite E, Nat2Z.id.
  apply list_fmap_ext. intros j i [-> Hi]%lookup_seq. cbn. by rewrite Eb, logged_block.
Qed.

(** The header write commits. *)
Lemma logged_recovers : recovers H logged v.
Proof.
  destruct Hhd as (E1 & E2 & E3). split.
  - split; rewrite ?logged_head; try apply Hold; [done|rewrite E2; unfold LOGSIZE, MAXOPBLOCKS; lia|].
    intros i Hi. rewrite E3 by lia. apply Hblk. lia.
  - intros m Hm. unfold replay. rewrite logged_installed.
    destruct (decide (Exists (λ i, blk i = m) (seq 0 n))) as [He|Hne].
    + apply Exists_exists in He as (i & Hi%elem_of_seq & <-).
      apply after_consistent.
      * apply Forall_forall. intros x (j & -> & _)%list_elem_of_fmap. done.
      * unfold home_writes. rewrite <-list_fmap_compose. apply list_elem_of_fmap. exists i. split; [done|]. apply elem_of_seq. lia.
    + apply not_Exists_Forall in Hne; [|apply _]. rewrite Forall_forall in Hne.
      assert (∀ i, (i < n)%nat → blk i ≠ m) as Hno by (intros i Hi; apply Hne, elem_of_seq; lia).
      rewrite after_ne. 2:{ rewrite <-(firstn_all (home_writes _ _ _)). intros (i & -> & Hi)%home_writes_key. by apply (Hno i). }
      unfold logged. rewrite after_app. cbn. rewrite fupd_ne by (intros ->; apply Hm, log_start_in).
      rewrite <-(firstn_all (log_writes _ _ _)), log_keys by done. by rewrite Hclean.
Qed.

Lemma commit_prefix k :
  recovers H (after (take k commit_writes) f) (if decide (k ≤ n)%nat then f else v).
Proof.
  assert (length (log_writes H (λ i, v (blk i)) n) = n) as Hlen by (unfold log_writes; by rewrite length_fmap, length_seq).
  unfold commit_writes. case_decide as Hk.
  - rewrite take_app_le by lia. set (g := after _ f).
    assert (g H = f H) as Eg by (apply after_ne; intros Hk'%log_writes_key; lia).
    apply (recovers_ext H g g); [intros m; apply log_keys|].
    apply recovers_empty; rewrite ?Eg; try apply Hold. done.
  - rewrite (app_assoc _ [_]). rewrite take_app_ge by (rewrite length_app; cbn; lia). rewrite after_app.
    fold logged. rewrite <-logged_installed. apply recovers_prefix; [apply logged_recovers|apply Hhd0|apply Hhd0].
Qed.
End commit.

(** ** One block copied *)

(** [s'] is [s] but for the processes woken, the cache and the disk. *)
Definition io_frame (s s' : kernel) : Prop :=
  ∃ ps, s' = s <| procs := ps |> <| bcache := bcache s' |> <| disk := disk s' |> <| dwrites := dwrites s' |>.

Lemma io_frame_refl s : io_frame s s.
Proof. exists (procs s). by destruct s. Qed.

Lemma io_frame_trans s1 s2 s3 : io_frame s1 s2 → io_frame s2 s3 → io_frame s1 s3.
Proof. intros [ps1 E1] [ps2 E2]. exists ps2. rewrite E2, E1. done. Qed.

Lemma io_frame_log s s' : io_frame s s' → log s' = log s.
Proof. intros [ps ->]. done. Qed.

Lemma thread_bcache s s' pr q : s' = s <| bcache := bcache s' |> → thread s pr q → thread s' pr q.
Proof. intros -> []. by split. Qed.

Section copy.
Context `{Patience} (pr : nat) (q : proc) (dev : Z) (Hpat : (0 < patience)%nat).

(** The state of the file system's thread. *)
Record io (w : view) (s : kernel) : Prop := { io_thread : thread s pr q; io_bio : bio q dev w s }.

Lemma bread_io n w s :
  io w s → n ∉ v_own w → (v_refs w !! n = None → (size (v_refs w) < NBUF)%nat) → default 0 (v_refs w !! n) + 1 < 2 ^ 32 →
  ∃ b s', bread dev n s = Ret b s' ∧ s' = s <| bcache := bcache s' |> ∧ io (w_take n w) s' ∧
    buf_of dev s' n b ∧ (∀ m c, m ∈ v_own w → buf_of dev s m c → buf_of dev s' m c).
Proof.
  intros [Ht Hb] H1 H2 H3. destruct (bread_bio s pr q dev w Ht Hb n Hpat H1 H2 H3) as (b & s' & E & Es & Hb' & Hof & Hk).
  exists b, s'. do 2 (split; [done|]). split; [|done]. split; [by eapply thread_bcache|done].
Qed.

Lemma setdata_io n b g w s :
  io w s → n ∈ v_own w → buf_of dev s n b →
  ∃ s', setb b (λ x, x <| b_data ::= g |>) s = Ret () s' ∧ s' = s <| bcache := bcache s' |> ∧
    io (w_set n (g (v_data w n)) w) s' ∧ (∀ m c, buf_of dev s m c → buf_of dev s' m c).
Proof.
  intros [Ht Hb] H1 H2. destruct (setdata_bio s q dev w Hb n b g H1 H2) as (s' & E & Es & Hb' & Hk).
  exists s'. do 2 (split; [done|]). split; [|done]. split; [by eapply thread_bcache|done].
Qed.

Lemma bwrite_io n b w s :
  io w s → n ∈ v_own w → buf_of dev s n b →
  ∃ s', bwrite b s = Ret () s' ∧ s' = s <| disk ::= <[n := v_data w n]> |> <| dwrites ::= λ l, l ++ [(n, v_data w n)] |> ∧
    io w s' ∧ (∀ m c, buf_of dev s m c → buf_of dev s' m c).
Proof.
  intros [Ht Hb] H1 H2. destruct (bwrite_bio s pr q dev w Ht Hb n b H1 H2) as (s' & E & Es & Hb' & Hk).
  exists s'. do 2 (split; [done|]). split; [|done]. split; [|done]. rewrite Es. destruct Ht. by split.
Qed.

Lemma bunpin_io n b w s :
  io w s → n ∈ v_own w → buf_of dev s n b → v_refs w !! n ≠ Some 1 →
  ∃ s', bunpin b s = Ret () s' ∧ s' = s <| bcache := bcache s' |> ∧ io (w_unpin n w) s' ∧
    (∀ m c, buf_of dev s m c → buf_of dev s' m c).
Proof.
  intros [Ht Hb] H1 H2 H3. destruct (bunpin_bio s pr q dev w Ht Hb n b H1 H2 H3) as (s' & E & Es & Hb' & Hk).
  exists s'. do 2 (split; [done|]). split; [|done]. split; [by eapply thread_bcache|done].
Qed.

Lemma brelse_io n b w s :
  io w s → n ∈ v_own w → buf_of dev s n b → (v_refs w !! n = Some 1 → v_data w n = block_at (disk s) n) →
  ∃ s' ps, brelse b s = Ret () s' ∧ s' = s <| procs := ps |> <| bcache := bcache s' |> ∧ io (w_drop n w) s' ∧
    (∀ m c, m ≠ n → buf_of dev s m c → buf_of dev s' m c).
Proof.
  intros [Ht Hb] H1 H2 H3. destruct (brelse_bio s pr q dev w Ht Hb n b H1 H2 H3) as (s' & ps & E & Es & Ht' & Hb' & Hk).
  exists s', ps. do 2 (split; [done|]). split; [|done]. by split.
Qed.

Lemma in_own n w : n ∈ v_own (w_take n w).
Proof. apply elem_of_union. left. by apply elem_of_singleton. Qed.

Lemma in_own_2 n m w : m ∈ v_own w → m ∈ v_own (w_take n w).
Proof. intros. apply elem_of_union. by right. Qed.

Lemma own_empty w n : v_own w = ∅ → n ∉ v_own w.
Proof. intros ->. apply not_elem_of_empty. Qed.

(** What two buffers taken and released leave behind. *)
Lemma copied_view src dst d w (k : Z) :
  v_own w = ∅ → src ≠ dst → (∀ n, v_refs w !! n ≠ Some 0) →
  mkView (fupd (v_data w) dst d)
    (refs_add (-1) dst (refs_add (-1) src (refs_add k dst (refs_add 1 dst (refs_add 1 src (v_refs w))))))
    ((({[dst]} ∪ ({[src]} ∪ v_own w)) ∖ {[src]}) ∖ {[dst]}) =
  mkView (fupd (v_data w) dst d) (refs_add k dst (v_refs w)) ∅.
Proof.
  intros Ho Hne H0. f_equal.
  - rewrite (refs_add_comm (-1) k src dst), (refs_add_comm (-1) 1 src dst), (refs_add_add (-1) 1 src) by done.
    rewrite (refs_add_0 src) by apply H0. rewrite !refs_add_add. f_equal. lia.
  - rewrite Ho. apply set_eq. intros n. rewrite !elem_of_difference, !elem_of_union, !elem_of_singleton, !elem_of_empty. tauto.
Qed.

Lemma logged_view src dst d w :
  v_own w = ∅ → src ≠ dst → (∀ n, v_refs w !! n ≠ Some 0) →
  mkView (fupd (v_data w) dst d)
    (refs_add (-1) dst (refs_add (-1) src (refs_add 1 src (refs_add 1 dst (v_refs w)))))
    ((({[src]} ∪ ({[dst]} ∪ v_own w)) ∖ {[src]}) ∖ {[dst]}) =
  mkView (fupd (v_data w) dst d) (v_refs w) ∅.
Proof.
  intros Ho Hne H0. f_equal.
  - rewrite (refs_add_add (-1) 1 src), (refs_add_0 src) by (by rewrite refs_add_ne).
    by rewrite refs_add_add, refs_add_0.
  - rewrite Ho. apply set_eq. intros n. rewrite !elem_of_difference, !elem_of_union, !elem_of_singleton, !elem_of_empty. tauto.
Qed.

Lemma refs_nonzero w s n : io w s → v_refs w !! n ≠ Some 0.
Proof. intros [_ Hb] E. apply (bio_pos _ _ _ _ Hb) in E. lia. Qed.

Lemma refs_bound w s n : io w s → 0 ≤ default 0 (v_refs w !! n) < 2 ^ 32.
Proof.
  intros [_ Hb]. destruct (v_refs w !! n) as [c|] eqn:E; [|done]. apply (bio_pos _ _ _ _ Hb) in E. cbn. lia.
Qed.

Lemma take_two src dst w s :
  io w s → v_own w = ∅ → src ≠ dst → v_refs w !! src = None →
  (v_refs w !! dst = None → (S (size (v_refs w)) < NBUF)%nat) → (size (v_refs w) < NBUF)%nat →
  default 0 (v_refs w !! dst) + 1 < 2 ^ 32 →
  ∃ b1 b2 s1 s2, bread dev src s = Ret b1 s1 ∧ bread dev dst s1 = Ret b2 s2 ∧ s2 = s <| bcache := bcache s2 |> ∧
    io (w_take dst (w_take src w)) s2 ∧ buf_of dev s2 src b1 ∧ buf_of dev s2 dst b2 ∧ log s1 = log s.
Proof.
  intros Hio Ho Hne Hsrc Hroom Hsz Hc.
  destruct (bread_io src w s Hio) as (b1 & s1 & E1 & Es1 & Hio1 & Hof1 & _);
    [by apply own_empty|by intros _|by rewrite Hsrc|].
  destruct (bread_io dst (w_take src w) s1 Hio1) as (b2 & s2 & E2 & Es2 & Hio2 & Hof2 & Hk2).
  - cbn. rewrite Ho, elem_of_union, elem_of_singleton, elem_of_empty. intuition congruence.
  - cbn. rewrite refs_add_ne, refs_add_size by done. done.
  - cbn. by rewrite refs_add_ne.
  - exists b1, b2, s1, s2. do 2 (split; [done|]). split; [rewrite Es2, Es1; done|]. split; [done|].
    split; [apply Hk2; [apply in_own|done]|]. split; [done|]. by rewrite Es1.
Qed.

(** Releasing both: the block [a], taken first and not written, or written. *)
Lemma drop_two a b ba bb w s :
  io w s → a ≠ b → a ∈ v_own w → b ∈ v_own w → buf_of dev s a ba → buf_of dev s b bb →
  (v_refs w !! a = Some 1 → v_data w a = block_at (disk s) a) →
  (v_refs w !! b = Some 1 → v_data w b = block_at (disk s) b) →
  ∃ s1 s', brelse ba s = Ret () s1 ∧ brelse bb s1 = Ret () s' ∧ io_frame s s' ∧ io (w_drop b (w_drop a w)) s' ∧
    disk s' = disk s ∧ dwrites s' = dwrites s.
Proof.
  intros Hio Hne Ha Hb Hba Hbb Hca Hcb.
  destruct (brelse_io a ba w s Hio Ha Hba Hca) as (s1 & ps1 & E1 & Es1 & Hio1 & Hk1).
  destruct (brelse_io b bb (w_drop a w) s1 Hio1) as (s2 & ps2 & E2 & Es2 & Hio2 & _).
  - cbn. apply elem_of_difference. split; [done|]. rewrite elem_of_singleton. congruence.
  - apply Hk1; [congruence|done].
  - cbn. rewrite refs_add_ne by congruence. rewrite Es1. exact Hcb.
  - exists s1, s2. do 2 (split; [done|]). split; [exists ps2; rewrite Es2, Es1; done|]. split; [done|]. by rewrite Es2, Es1.
Qed.

Lemma install_one_spec recovering (tail : nat) w s :
  let src := u32 (log_start (log s) + tail + 1) in
  let dst := u32 (lh_nth (log s) tail) in
  io w s → log_dev (log s) = dev → v_own w = ∅ → src ≠ dst → v_refs w !! src = None →
  (size (v_refs w) < NBUF)%nat → default 0 (v_refs w !! dst) + 1 < 2 ^ 32 →
  (if recovering : bool then v_refs w !! dst = None ∧ (S (size (v_refs w)) < NBUF)%nat else is_Some (v_refs w !! dst)) →
  ∃ s', install_one recovering tail s = Ret () s' ∧ io_frame s s' ∧
    io (mkView (fupd (v_data w) dst (v_data w src)) (refs_add (if recovering then 0 else -1) dst (v_refs w)) ∅) s' ∧
    disk s' = <[dst := v_data w src]> (disk s) ∧ dwrites s' = dwrites s ++ [(dst, v_data w src)].
Proof.
  intros src dst Hio Hdev Ho Hne Hsrc Hsz Hc Hcase.
  destruct (take_two src dst w s Hio Ho Hne Hsrc) as (b1 & b2 & s1 & s2 & E1 & E2 & Es2 & Hio2 & Hof1 & Hof2 & _).
  { intros Hn. destruct recovering; [apply Hcase|]. rewrite Hn in Hcase. by destruct Hcase. }
  { done. } { done. }
  set (w2 := w_take dst (w_take src w)) in *.
  destruct (owned_buf s2 q dev w2 (io_bio _ _ Hio2) src b1) as (_ & Ed & _); [apply in_own_2, in_own|done|].
  destruct (setdata_io dst b2 (λ _, v_data w src) w2 s2 Hio2 (in_own _ _) Hof2) as (s3 & E3 & Es3 & Hio3 & Hk3).
  set (w3 := w_set dst (v_data w src) w2) in *.
  destruct (bwrite_io dst b2 w3 s3 Hio3 (in_own _ _) (Hk3 _ _ Hof2)) as (s4 & E4 & Es4 & Hio4 & Hk4).
  assert (v_data w3 dst = v_data w src) as Ew3 by apply fupd_eq. rewrite Ew3 in Es4.
  set (k := if recovering then 0 else -1).
  set (w5 := mkView (v_data w3) (refs_add k dst (v_refs w3)) (v_own w3)).
  assert (∃ s5, when (negb recovering) (bunpin b2) s4 = Ret () s5 ∧ s5 = s4 <| bcache := bcache s5 |> ∧ io w5 s5 ∧
    (∀ m c, buf_of dev s4 m c → buf_of dev s5 m c)) as (s5 & E5 & Es5 & Hio5 & Hk5).
  { destruct recovering; cbn [negb when].
    - exists s4. split; [done|]. split; [by destruct s4|]. split; [|done]. unfold w5, k. rewrite refs_add_0; [done|].
      apply (refs_nonzero w3 s4 dst Hio4).
    - destruct (bunpin_io dst b2 w3 s4 Hio4 (in_own _ _)) as (s5 & E5 & Es5 & Hio5 & Hk5); [auto| |by exists s5].
      cbn. rewrite refs_add_lookup. destruct Hcase as [c Hcs]. rewrite refs_add_ne, Hcs by congruence. cbn.
      pose proof (bio_pos _ _ _ _ (io_bio _ _ Hio) _ _ Hcs). destruct (Z.eqb_spec (c + 1) 0); [lia|]. intros [=]. lia. }
  assert (disk s5 = <[dst := v_data w src]> (disk s) ∧ dwrites s5 = dwrites s ++ [(dst, v_data w src)]) as [Dd Dw]
    by (rewrite Es5, Es4, Es3, Es2; done).
  assert (v_data w src = block_at (disk s) src) as Hclean by (by apply (bio_clean q dev w s); [apply Hio|]).
  destruct (drop_two src dst b1 b2 w5 s5 Hio5 Hne) as (s6 & s7 & E6 & E7 & Hf & Hio7 & D7 & W7).
  { apply in_own_2, in_own. } { apply in_own. } { auto. } { auto. }
  { intros _. rewrite Dd. cbn. rewrite fupd_ne by done. unfold block_at. rewrite lookup_insert_ne by congruence. exact Hclean. }
  { intros _. rewrite Dd. change (v_data w5 dst) with (v_data w3 dst). rewrite Ew3. unfold block_at. by rewrite lookup_insert_eq. }
  exists s7. split; [|split; [|split; [|rewrite D7, W7; done]]].
  - unfold install_one. msimpl. rewrite Hdev. fold src dst. mrun E1. mrun E2. mrun getb_at. rewrite Ed.
    change (v_data w2 src) with (v_data w src). mrun E3. mrun E4.
    change (if negb recovering then bunpin b2 else λ s0, Ret () s0) with (when (negb recovering) (bunpin b2)).
    mrun E5. mrun E6. exact E7.
  - destruct Hf as [ps Es7]. exists ps. rewrite Es7, Es5, Es4, Es3, Es2. done.
  - rewrite <-(copied_view src dst (v_data w src) w k); [exact Hio7|done|done|intros n; by apply (refs_nonzero w s n)].
Qed.

(** write_log()'s step: the log block [dst] gets the pinned block [src]. *)
Lemma write_log_one_spec (tail : nat) w s :
  let dst := u32 (log_start (log s) + tail + 1) in
  let src := u32 (lh_nth (log s) tail) in
  io w s → log_dev (log s) = dev → v_own w = ∅ → dst ≠ src → v_refs w !! dst = None →
  (size (v_refs w) < NBUF)%nat → default 0 (v_refs w !! src) + 1 < 2 ^ 32 → is_Some (v_refs w !! src) →
  ∃ s', write_log_one tail s = Ret () s' ∧ io_frame s s' ∧
    io (mkView (fupd (v_data w) dst (v_data w src)) (v_refs w) ∅) s' ∧
    disk s' = <[dst := v_data w src]> (disk s) ∧ dwrites s' = dwrites s ++ [(dst, v_data w src)].
Proof.
  intros dst src Hio Hdev Ho Hne Hdst Hsz Hc [c Hcs].
  destruct (take_two dst src w s Hio Ho Hne Hdst) as (b1 & b2 & s1 & s2 & E1 & E2 & Es2 & Hio2 & Hof1 & Hof2 & _);
    [congruence|done|done|].
  set (w2 := w_take src (w_take dst w)) in *.
  destruct (owned_buf s2 q dev w2 (io_bio _ _ Hio2) src b2) as (_ & Ed & _); [apply in_own|done|].
  destruct (setdata_io dst b1 (λ _, v_data w src) w2 s2 Hio2 (in_own_2 _ _ _ (in_own _ _)) Hof1) as (s3 & E3 & Es3 & Hio3 & Hk3).
  set (w3 := w_set dst (v_data w src) w2) in *.
  destruct (bwrite_io dst b1 w3 s3 Hio3 (in_own_2 _ _ _ (in_own _ _)) (Hk3 _ _ Hof1)) as (s4 & E4 & Es4 & Hio4 & Hk4).
  assert (v_data w3 dst = v_data w src) as Ew3 by apply fupd_eq. rewrite Ew3 in Es4.
  destruct (drop_two src dst b2 b1 w3 s4 Hio4 ltac:(congruence)) as (s6 & s7 & E6 & E7 & Hf & Hio7 & D7 & W7).
  { apply in_own. } { apply in_own_2, in_own. } { auto. } { auto. }
  { cbn. rewrite refs_add_lookup, refs_add_ne, Hcs by congruence. cbn.
    pose proof (bio_pos _ _ _ _ (io_bio _ _ Hio) _ _ Hcs). destruct (Z.eqb_spec (c + 1) 0); [lia|]. intros [=]. lia. }
  { intros _. rewrite Ew3, Es4. unfold block_at. cbn. by rewrite lookup_insert_eq. }
  exists s7. split; [|split; [|split; [|rewrite D7, W7, Es4, Es3, Es2; done]]].
  - unfold write_log_one. msimpl. rewrite Hdev. fold src dst. mrun E1. mrun E2. mrun getb_at. rewrite Ed.
    change (v_data w2 src) with (v_data w src). mrun E3. mrun E4. mrun E6. exact E7.
  - destruct Hf as [ps Es7]. exists ps. rewrite Es7, Es4, Es3, Es2. done.
  - rewrite <-(logged_view src dst (v_data w src) w); [exact Hio7|done|congruence|intros n; by apply (refs_nonzero w s n)].
Qed.

(** ** The header *)

Lemma io_ext w w' s :
  (∀ n, v_data w' n = v_data w n) → v_refs w' = v_refs w → v_own w' = v_own w → io w s → io w' s.
Proof.
  intros E1 E2 E3 [Ht [H1 H2 H3 H4 H5 H6 H7]]. split; [done|]. split; try done.
  - intros i Hi Hd. eapply entry_ok_view; [apply E1|by rewrite E2|by rewrite E3|done|by apply H3].
  - intros n Hn. rewrite E1, E2. by apply H5.
  - by rewrite E2.
  - by rewrite E2, E3.
Qed.

Lemma io_log w s l : io w s → io w (s <| log := l |>).
Proof. intros [[] []]. split; by split. Qed.

(** The writes into the header's buffer. *)
Lemma set_blocks_io b n blk (m : nat) w s :
  io w s → n ∈ v_own w → buf_of dev s n b →
  ∃ s', for_each (seq 0 m) (λ i, setb b (λ x, x <| b_data ::= λ d, put_word d (4 + 4 * i) (blk i) |>)) s = Ret () s' ∧
    s' = s <| bcache := bcache s' |> ∧
    io (w_set n (foldl (λ d i, put_word d (4 + 4 * i) (blk i)) (v_data w n) (seq 0 m)) w) s' ∧
    (∀ k c, buf_of dev s k c → buf_of dev s' k c).
Proof.
  intros Hio Hn Hof. induction m as [|m (s1 & E1 & Es1 & Hio1 & Hk1)].
  { exists s. split; [done|]. split; [by destruct s|]. split; [|done]. eapply io_ext; [..|exact Hio]; try done.
    intros k. cbn. unfold fupd. by case_decide; subst. }
  rewrite seq_S, foldl_app. cbn [foldl Nat.add]. set (w1 := w_set n _ w) in Hio1.
  destruct (setdata_io n b (λ d, put_word d (4 + 4 * m) (blk m)) w1 s1 Hio1 Hn (Hk1 _ _ Hof)) as (s2 & E2 & Es2 & Hio2 & Hk2).
  exists s2. split; [rewrite (for_each_app _ _ _ _ _ E1); cbn [for_each]; msimpl; by mrun E2|].
  split; [rewrite Es2, Es1; done|]. split; [|auto]. eapply io_ext; [..|exact Hio2]; try done.
  intros k. cbn. rewrite fupd_eq. unfold fupd. by case_decide.
Qed.

Lemma write_head_spec w s :
  let H := u32 (log_start (log s)) in
  let hd := enc_head (lh_n (log_lh (log s))) (lh_nth (log s)) (v_data w H) in
  io w s → log_dev (log s) = dev → v_own w = ∅ → v_refs w !! H = None → (size (v_refs w) < NBUF)%nat →
  ∃ s', write_head s = Ret () s' ∧ io_frame s s' ∧ io (mkView (fupd (v_data w) H hd) (v_refs w) ∅) s' ∧
    disk s' = <[H := hd]> (disk s) ∧ dwrites s' = dwrites s ++ [(H, hd)].
Proof.
  intros H0 hd Hio Hdev Ho Hr Hsz.
  destruct (bread_io H0 w s Hio) as (b & s1 & E1 & Es1 & Hio1 & Hof1 & _); [by apply own_empty|by intros _|by rewrite Hr|].
  destruct (setdata_io H0 b (λ d, put_word d 0 (lh_n (log_lh (log s)))) _ s1 Hio1 (in_own _ _) Hof1) as (s2 & E2 & Es2 & Hio2 & Hk2).
  set (w2 := w_set H0 _ _) in Hio2.
  destruct (set_blocks_io b H0 (lh_nth (log s)) (Z.to_nat (lh_n (log_lh (log s)))) w2 s2 Hio2 (in_own _ _) (Hk2 _ _ Hof1))
    as (s3 & E3 & Es3 & Hio3 & Hk3).
  replace (v_data w2 H0) with (put_word (v_data w H0) 0 (lh_n (log_lh (log s)))) in Hio3 by (symmetry; apply fupd_eq).
  fold (enc_head (lh_n (log_lh (log s))) (lh_nth (log s)) (v_data w H0)) in Hio3. fold hd in Hio3.
  set (w3 := w_set H0 hd w2) in Hio3.
  destruct (bwrite_io H0 b w3 s3 Hio3 (in_own _ _) (Hk3 _ _ (Hk2 _ _ Hof1))) as (s4 & E4 & Es4 & Hio4 & Hk4).
  assert (v_data w3 H0 = hd) as Ew3 by apply fupd_eq. rewrite Ew3 in Es4.
  destruct (brelse_io H0 b w3 s4 Hio4 (in_own _ _)) as (s5 & ps & E5 & Es5 & Hio5 & _); [auto| |].
  { intros _. rewrite Ew3, Es4. unfold block_at. cbn. by rewrite lookup_insert_eq. }
  exists s5. split; [|split; [|split]].
  - unfold write_head. msimpl. rewrite Hdev. fold H0. mrun E1. mrun E2. mrun E3. mrun E4. exact E5.
  - exists ps. rewrite Es5, Es4, Es3, Es2, Es1. done.
  - eapply io_ext; [..|exact Hio5].
    + intros k. cbn. unfold fupd. by repeat case_decide.
    + cbn. rewrite refs_add_add, refs_add_0; [done|by rewrite Hr].
    + cbn. rewrite Ho. apply set_eq. intros n. rewrite !elem_of_difference, !elem_of_union, !elem_of_singleton, !elem_of_empty. tauto.
  - rewrite Es5, Es4, Es3, Es2, Es1. done.
Qed.

Definition read_blocks (f : nat → Z) (m : nat) (B : list Z) : list Z := foldl (λ B i, <[i := f i]> B) B (seq 0 m).

Lemma read_blocks_spec f m B :
  length (read_blocks f m B) = length B ∧
  ((m ≤ length B)%nat → ∀ i, (i < m)%nat → read_blocks f m B !! i = Some (f i)).
Proof.
  unfold read_blocks. induction m as [|m [IH1 IH2]]; [split; [done|lia]|].
  rewrite seq_S, foldl_app. cbn [foldl Nat.add]. split; [by rewrite length_insert|].
  intros Hm i Hi. destruct (decide (i = m)) as [->|Hne].
  - apply list_lookup_insert_eq. lia.
  - rewrite list_lookup_insert_ne by done. apply IH2; lia.
Qed.

Lemma read_blocks_S f m B : read_blocks f (S m) B = <[m := f m]> (read_blocks f m B).
Proof. unfold read_blocks. by rewrite seq_S, foldl_app. Qed.

Lemma set_log_blocks f m s :
  for_each (seq 0 m) (λ i, set_log (λ l, l <| log_lh ::= λ h, h <| lh_block ::= <[i := f i]> |> |>)) s =
    Ret () (s <| log ::= λ l, l <| log_lh ::= λ h, h <| lh_block ::= read_blocks f m |> |> |>).
Proof.
  induction m as [|m IH].
  { cbn. f_equal. destruct s as [? ? ? ? ? ? ? ? ? ? ? ? ? ? ? ? l]. cbn. by destruct l as [? ? ? ? ? []]. }
  rewrite seq_S, (for_each_app _ _ _ _ _ IH). cbn [for_each]. msimpl. unfold set_log, modify. cbn [bindO].
  f_equal. cbn -[read_blocks]. by rewrite read_blocks_S.
Qed.

Lemma read_head_spec w s :
  let H := u32 (log_start (log s)) in
  let n := head_n (v_data w H) in
  io w s → log_dev (log s) = dev → v_own w = ∅ → v_refs w !! H = None → (size (v_refs w) < NBUF)%nat →
  ∃ s' t, read_head s = Ret () s' ∧ io_frame s t ∧ io w s' ∧ disk s' = disk s ∧ dwrites s' = dwrites s ∧
    s' = t <| log := log s <| log_lh := mkLogheader n
                  (read_blocks (head_block (v_data w H)) (Z.to_nat n) (lh_block (log_lh (log s)))) |> |>.
Proof.
  intros H0 n Hio Hdev Ho Hr Hsz.
  destruct (bread_io H0 w s Hio) as (b & s1 & E1 & Es1 & Hio1 & Hof1 & _); [by apply own_empty|by intros _|by rewrite Hr|].
  destruct (owned_buf s1 q dev _ (io_bio _ _ Hio1) H0 b (in_own _ _) Hof1) as (_ & Ed & _). cbn in Ed.
  set (l' := log s <| log_lh := _ |>). set (s2 := s1 <| log := l' |>).
  assert (io (w_take H0 w) s2) as Hio2 by (by apply io_log).
  destruct (brelse_io H0 b _ s2 Hio2 (in_own _ _) Hof1) as (s3 & ps & E3 & Es3 & Hio3 & _).
  { intros _. cbn. rewrite Es1. cbn. by apply (bio_clean q dev w s); [apply Hio|]. }
  exists s3, (s <| procs := ps |> <| bcache := bcache s3 |>). split; [|split; [|split; [|split; [|split]]]].
  - unfold read_head. msimpl. rewrite Hdev. fold H0. mrun E1. mrun getb_at. rewrite Ed. fold n.
    unfold set_log at 1, modify. cbn [bindO]. mrun set_log_blocks.
    match goal with |- brelse b ?x = _ => replace x with s2 end; [exact E3|].
    unfold s2, l'. rewrite Es1. cbn. done.
  - exists ps. done.
  - eapply io_ext; [..|exact Hio3]; [done|..].
    + cbn. rewrite refs_add_add, refs_add_0; [done|by rewrite Hr].
    + cbn. rewrite Ho. apply set_eq. intros k. rewrite !elem_of_difference, !elem_of_union, !elem_of_singleton, !elem_of_empty. tauto.
  - rewrite Es3. unfold s2. rewrite Es1. done.
  - rewrite Es3. unfold s2. rewrite Es1. done.
  - rewrite Es3. unfold s2. rewrite Es1. done.
Qed.

(** ** The loops *)

(** The in-memory header [l] of a log that lies below the blocks it names. *)
Record log_layout (l : logst) : Prop := {
  ll_start : 0 ≤ log_start l;
  ll_end : log_start l + LOGSIZE < 2 ^ 31;
  ll_n : 0 ≤ lh_n (log_lh l) < LOGSIZE;
  ll_len : length (lh_block (log_lh l)) = Z.to_nat LOGSIZE;
  ll_home : ∀ i : nat, i < lh_n (log_lh l) → 0 ≤ lh_nth l i < 2 ^ 31 ∧ ¬ in_log (log_start l) (lh_nth l i);
}.

Lemma layout_src l (i : nat) : log_layout l → i < lh_n (log_lh l) → u32 (log_start l + i + 1) = log_start l + i + 1.
Proof. intros [H1 H2 H3 _ _] Hi. apply u32_small. lia. Qed.

Lemma layout_dst l (i : nat) : log_layout l → i < lh_n (log_lh l) → u32 (lh_nth l i) = lh_nth l i.
Proof. intros Hl Hi. apply u32_small. destruct (ll_home _ Hl i Hi). lia. Qed.

Lemma layout_ne l (i j : nat) : log_layout l → i < lh_n (log_lh l) → j < lh_n (log_lh l) → log_start l + i + 1 ≠ lh_nth l j.
Proof. intros Hl Hi Hj. destruct (ll_home _ Hl j Hj) as [_ Hn]. pose proof (ll_n _ Hl). unfold in_log in Hn. lia. Qed.

Lemma write_log_spec w s :
  let l := log s in
  let n := Z.to_nat (lh_n (log_lh l)) in
  let ws := log_writes (log_start l) (λ i, v_data w (lh_nth l i)) n in
  io w s → log_dev l = dev → v_own w = ∅ → log_layout l → (size (v_refs w) < NBUF)%nat →
  (∀ i : nat, i < lh_n (log_lh l) → v_refs w !! lh_nth l i = Some 1) →
  (∀ m, in_log (log_start l) m → v_refs w !! m = None) →
  ∃ s', write_log s = Ret () s' ∧ io_frame s s' ∧ io (mkView (after ws (v_data w)) (v_refs w) ∅) s' ∧
    disk s' = disk_after ws (disk s) ∧ dwrites s' = dwrites s ++ ws.
Proof.
  intros l n ws Hio Hdev Ho Hl Hsz Hpin Hfree. assert (length ws = n) as Hlen by (unfold ws, log_writes; by rewrite length_fmap, length_seq).
  destruct (for_each_ind (seq 0 n) write_log_one (λ i s', io_frame s s' ∧ io (mkView (after (take i ws) (v_data w)) (v_refs w) ∅) s' ∧
    disk s' = disk_after (take i ws) (disk s) ∧ dwrites s' = dwrites s ++ take i ws) s) as (s' & E & Hinv).
  - intros i x t Hx (Hf & Hiot & Hd & Hw). apply lookup_seq in Hx as [-> Hi]. cbn [Nat.add] in *.
    pose proof (io_frame_log _ _ Hf) as Elog. assert (i < lh_n (log_lh l)) as Hi' by lia.
    pose proof (log_writes_lookup (log_start l) (λ i, v_data w (lh_nth l i)) n i Hi) as Hwi. fold ws in Hwi.
    destruct (write_log_one_spec i _ t Hiot) as (t' & E' & Hf' & Hio' & Hd' & Hw'); rewrite ?Elog; fold l;
      rewrite ?(layout_src l i Hl Hi'), ?(layout_dst l i Hl Hi').
    + done. + done. + by apply layout_ne. + apply Hfree. pose proof (ll_n _ Hl). unfold in_log. lia.
    + done. + cbn. by rewrite (Hpin i Hi'). + cbn. rewrite (Hpin i Hi'). done.
    + rewrite Elog in *. fold l in Hio', Hd', Hw'. rewrite (layout_src l i Hl Hi'), (layout_dst l i Hl Hi') in *. cbn [v_data v_refs] in *.
      rewrite after_ne in Hio', Hd', Hw' by (intros Hk%log_writes_key; destruct (ll_home _ Hl i Hi') as [_ Hn]; pose proof (ll_n _ Hl); unfold in_log in Hn; lia).
      exists t'. split; [exact E'|]. split; [by eapply io_frame_trans|].
      rewrite (disk_after_snoc _ _ _ _ Hwi), (take_S_r _ _ _ Hwi), <-Hd, app_assoc, <-Hw. split; [|done].
      eapply io_ext; [..|exact Hio']; [|done|done]. intros m. cbn [v_data]. by rewrite <-(take_S_r _ _ _ Hwi), (after_snoc _ _ _ _ _ Hwi).
  - split; [apply io_frame_refl|]. split; [|split; [done|by rewrite take_0, app_nil_r]]. eapply io_ext; [..|exact Hio]; done.
  - rewrite length_seq, <-Hlen, firstn_all in Hinv. exists s'. split; [|done]. unfold write_log. msimpl. exact E.
Qed.

Lemma refs_add_del n rc : rc !! n = Some 1 → refs_add (-1) n rc = delete n rc.
Proof. intros E. unfold refs_add. by rewrite E. Qed.

(** The references left after [i] blocks are installed. *)
Definition refs_after (recovering : bool) (blk : nat → Z) (i : nat) (rc rc' : gmap Z Z) : Prop :=
  rc' ⊆ rc ∧ (∀ m, (∀ j, (j < i)%nat → blk j ≠ m) → rc' !! m = rc !! m) ∧
  (recovering = false → ∀ j, (j < i)%nat → rc' !! blk j = None).

Lemma refs_after_step recovering blk i rc rc' :
  (recovering = false → rc' !! blk i = Some 1) → (recovering = true → rc' !! blk i = None) →
  refs_after recovering blk i rc rc' →
  refs_after recovering blk (S i) rc (refs_add (if recovering then 0 else -1) (blk i) rc').
Proof.
  intros Hf Ht (H1 & H2 & H3). destruct recovering.
  - rewrite refs_add_0 by (by rewrite Ht). split; [done|]. split; [|done]. intros m Hm. apply H2. intros j Hj. apply Hm. lia.
  - rewrite refs_add_del by auto. split; [etrans; [apply delete_subseteq|done]|]. split.
    + intros m Hm. rewrite lookup_delete_ne by (apply Hm; lia). apply H2. intros j Hj. apply Hm. lia.
    + intros _ j Hj. destruct (decide (blk j = blk i)) as [->|Hne]; [apply lookup_delete_eq|].
      rewrite lookup_delete_ne by done. apply H3; [done|]. destruct (decide (j = i)) as [->|]; [done|lia].
Qed.

Lemma install_trans_spec recovering w s :
  let l := log s in
  let n := Z.to_nat (lh_n (log_lh l)) in
  let ws := home_writes (lh_nth l) (λ i, v_data w (log_start l + i + 1)) n in
  io w s → log_dev l = dev → v_own w = ∅ → log_layout l → (size (v_refs w) < NBUF)%nat →
  (recovering = true → v_refs w = ∅) →
  (recovering = false → (∀ i : nat, i < lh_n (log_lh l) → v_refs w !! lh_nth l i = Some 1) ∧
    ∀ i j, (i < n)%nat → (j < n)%nat → lh_nth l i = lh_nth l j → i = j) →
  (∀ m, in_log (log_start l) m → v_refs w !! m = None) →
  ∃ s' rc, install_trans recovering s = Ret () s' ∧ io_frame s s' ∧ io (mkView (after ws (v_data w)) rc ∅) s' ∧
    refs_after recovering (lh_nth l) n (v_refs w) rc ∧
    disk s' = disk_after ws (disk s) ∧ dwrites s' = dwrites s ++ ws.
Proof.
  intros l n ws Hio Hdev Ho Hl Hsz Hrec Hpin Hfree. assert (length ws = n) as Hlen by (unfold ws, home_writes; by rewrite length_fmap, length_seq).
  destruct (for_each_ind (seq 0 n) (install_one recovering) (λ i s', ∃ rc, io_frame s s' ∧ io (mkView (after (take i ws) (v_data w)) rc ∅) s' ∧
    refs_after recovering (lh_nth l) i (v_refs w) rc ∧
    disk s' = disk_after (take i ws) (disk s) ∧ dwrites s' = dwrites s ++ take i ws) s) as (s' & E & rc & Hinv).
  - intros i x t Hx (rc & Hf & Hiot & Hrc & Hd & Hw). apply lookup_seq in Hx as [-> Hi]. cbn [Nat.add] in *.
    pose proof (io_frame_log _ _ Hf) as Elog. assert (i < lh_n (log_lh l)) as Hi' by lia. pose proof (ll_n _ Hl) as Hn.
    pose proof (home_writes_lookup (lh_nth l) (λ i, v_data w (log_start l + i + 1)) n i Hi) as Hwi. fold ws in Hwi.
    pose proof Hrc as (Hsub & Hout & _). pose proof (map_subseteq_size _ _ Hsub) as Hsz'.
    assert (recovering = true → rc !! lh_nth l i = None) as Hnone.
    { intros Hr. eapply lookup_weaken_None; [|exact Hsub]. rewrite (Hrec Hr). apply lookup_empty. }
    assert (recovering = false → rc !! lh_nth l i = Some 1) as Hone.
    { intros Hr. destruct (Hpin Hr) as [Hp Hinj]. rewrite Hout; [by apply Hp|]. intros j Hj Ej. apply Hinj in Ej; lia. }
    destruct (install_one_spec recovering i _ t Hiot) as (t' & E' & Hf' & Hio' & Hd' & Hw'); rewrite ?Elog; fold l;
      rewrite ?(layout_src l i Hl Hi'), ?(layout_dst l i Hl Hi'); cbn [v_refs].
    + done. + done. + by apply layout_ne.
    + rewrite Hout; [apply Hfree; unfold in_log; lia|]. intros j Hj. symmetry. apply layout_ne; [done|lia|lia].
    + lia.
    + destruct recovering; [by rewrite Hnone|by rewrite Hone].
    + destruct recovering; [|rewrite Hone by done; by eexists]. split; [by apply Hnone|].
      rewrite Hrec in Hsz' by done. rewrite map_size_empty in Hsz'. unfold NBUF. lia.
    + rewrite Elog in *. fold l in Hio', Hd', Hw'. rewrite (layout_src l i Hl Hi'), (layout_dst l i Hl Hi') in *. cbn [v_data v_refs] in *.
      assert (after (take i ws) (v_data w) (log_start l + i + 1) = v_data w (log_start l + i + 1)) as Es.
      { apply after_ne. intros (j & Ej & Hj)%home_writes_key. apply (layout_ne l i j Hl Hi') in Ej; [done|lia]. }
      rewrite Es in Hio', Hd', Hw'.
      exists t'. split; [exact E'|]. eexists. split; [by eapply io_frame_trans|].
      rewrite (disk_after_snoc _ _ _ _ Hwi), (take_S_r _ _ _ Hwi), <-Hd, app_assoc, <-Hw. split; [|split; [|done]].
      * eapply io_ext; [..|exact Hio']; [|done|done]. intros m. cbn [v_data]. by rewrite <-(take_S_r _ _ _ Hwi), (after_snoc _ _ _ _ _ Hwi).
      * by apply refs_after_step.
  - exists (v_refs w). split; [apply io_frame_refl|]. split; [eapply io_ext; [..|exact Hio]; done|].
    split; [split; [done|split; [done|lia]]|]. split; [done|by rewrite take_0, app_nil_r].
  - rewrite length_seq, <-Hlen, firstn_all in Hinv. exists s', rc. split; [|rewrite Hlen in Hinv; done]. unfold install_trans. msimpl. exact E.
Qed.

(** ** recover_from_log *)

(** Clearing the in-memory header. *)
Definition clear_lh (l : logst) : logst := l <| log_lh ::= λ h, h <| lh_n := 0 |> |>.

Lemma io_data w s : io w s → v_refs w = ∅ → v_own w = ∅ → io (mkView (block_at (disk s)) ∅ ∅) s.
Proof.
  intros Hio Hr Ho. eapply io_ext; [..|exact Hio]; [|done|done]. intros n. cbn. symmetry.
  apply (bio_clean q dev w s n); [apply Hio|]. by rewrite Hr.
Qed.

(** The header clearing at the end of a recovery or a commit. *)
Lemma clear_head_spec w s :
  let H := u32 (log_start (log s)) in
  let hd := put_word (v_data w H) 0 0 in
  io w s → log_dev (log s) = dev → v_own w = ∅ → v_refs w = ∅ →
  ∃ s', (set_log clear_lh;; write_head) s = Ret () s' ∧ io (mkView (block_at (disk s')) ∅ ∅) s' ∧
    log s' = clear_lh (log s) ∧ disk s' = <[H := hd]> (disk s) ∧ dwrites s' = dwrites s ++ [(H, hd)].
Proof.
  intros H0 hd Hio Hdev Ho Hr.
  destruct (write_head_spec w (s <| log ::= clear_lh |>)) as (s' & E & Hf & Hio' & Hd & Hw).
  { by apply io_log. } { done. } { done. } { by rewrite Hr. } { rewrite Hr, map_size_empty. unfold NBUF. lia. }
  exists s'. split; [exact E|]. split; [by eapply io_data|]. split; [by rewrite (io_frame_log _ _ Hf)|]. done.
Qed.

Lemma lh_nth_read n f m B l i :
  (m ≤ length B)%nat → (i < m)%nat → lh_nth (l <| log_lh := mkLogheader n (read_blocks f m B) |>) i = f i.
Proof. intros Hm Hi. unfold lh_nth. cbn -[read_blocks]. by rewrite (proj2 (read_blocks_spec f m B) Hm i Hi). Qed.

Lemma recover_spec s :
  let st := log_start (log s) in
  let f := block_at (disk s) in
  let ws := installed st f ++ [(st, put_word (f st) 0 0)] in
  io (mkView f ∅ ∅) s → log_dev (log s) = dev → length (lh_block (log_lh (log s))) = Z.to_nat LOGSIZE → head_ok st f →
  ∃ s', recover_from_log s = Ret () s' ∧ disk s' = disk_after ws (disk s) ∧ dwrites s' = dwrites s ++ ws ∧
    io (mkView (block_at (disk s')) ∅ ∅) s' ∧ lh_n (log_lh (log s')) = 0.
Proof.
  intros st f ws Hio Hdev Hlen Hok. pose proof Hok as [Hst Hend _ Hn Hhome].
  assert (u32 st = st) as Est by (apply u32_small; unfold LOGSIZE, MAXOPBLOCKS in *; lia).
  destruct (read_head_spec _ s Hio Hdev) as (s1 & t & E1 & Hf1 & Hio1 & Hd1 & Hw1 & Es1);
    [done|apply lookup_empty|cbn; rewrite map_size_empty; unfold NBUF; lia|]. fold st in Es1. rewrite Est in Es1. cbn [v_data] in Es1.
  set (n := head_n (f st)) in *. set (l1 := log s <| log_lh := _ |>) in Es1.
  assert (log s1 = l1) as El1 by (by rewrite Es1).
  assert (∀ i : nat, i < n → lh_nth l1 i = head_block (f st) i) as Hnth.
  { intros i Hi. unfold l1. apply lh_nth_read; [rewrite Hlen; unfold LOGSIZE, MAXOPBLOCKS in *; lia|lia]. }
  assert (log_layout l1) as Hl1.
  { split; try done.
    - cbn -[read_blocks]. by rewrite (proj1 (read_blocks_spec _ _ _)).
    - intros i Hi. rewrite Hnth by done. by apply Hhome. }
  destruct (install_trans_spec true _ s1 Hio1) as (s2 & rc & E2 & Hf2 & Hio2 & Hrc & Hd2 & Hw2);
    rewrite ?El1; [done|done|done|cbn; rewrite map_size_empty; unfold NBUF; lia|done|done|by intros m _|].
  assert (rc = ∅) as ->.
  { apply map_empty. intros i. eapply lookup_weaken_None; [|apply Hrc]. apply lookup_empty. }
  rewrite El1 in Hio2, Hd2, Hw2.
  assert (home_writes (lh_nth l1) (λ i, v_data (mkView f ∅ ∅) (log_start l1 + i + 1)) (Z.to_nat (lh_n (log_lh l1))) = installed st f) as Ews.
  { unfold installed, home_writes. apply list_fmap_ext. intros j i [-> Hi]%lookup_seq. f_equal. apply Hnth. cbn in Hi. lia. }
  rewrite Ews in Hio2, Hd2, Hw2.
  destruct (clear_head_spec _ s2 Hio2) as (s3 & E3 & Hio3 & El3 & Hd3 & Hw3);
    rewrite ?(io_frame_log _ _ Hf2), ?El1; [done|done|done|].
  rewrite (io_frame_log _ _ Hf2), El1 in Hd3, Hw3. change (log_start l1) with st in Hd3, Hw3. rewrite Est in Hd3, Hw3.
  assert (after (installed st f) f st = f st) as Ef.
  { apply after_ne. rewrite <-(firstn_all (installed st f)). intros Hk. apply (installed_key _ _ _ _ Hok Hk), log_start_in. }
  cbn [v_data] in Hd3, Hw3. rewrite Ef in Hd3, Hw3.
  exists s3. split; [|split; [|split; [|split; [done|]]]].
  - unfold recover_from_log. msimpl. mrun E1. mrun E2. revert E3. msimpl. intros E3. exact E3.
  - unfold ws. rewrite Hd3, Hd2, Hd1, disk_after_app. done.
  - unfold ws. rewrite Hw3, Hw2, Hw1, app_assoc. done.
  - by rewrite El3.
Qed.

(** ** commit *)

(** A transaction ready to commit: exactly the blocks of the header are pinned,
    once each, the log on disk is empty, and a buffer is left for the log. *)
Record tx_ready (w : view) (s : kernel) : Prop := {
  tx_io : io w s;
  tx_dev : log_dev (log s) = dev;
  tx_own : v_own w = ∅;
  tx_layout : log_layout (log s);
  tx_room : (size (v_refs w) < NBUF)%nat;
  tx_pin : ∀ i : nat, i < lh_n (log_lh (log s)) → v_refs w !! lh_nth (log s) i = Some 1;
  tx_only : ∀ m, (∀ i : nat, i < lh_n (log_lh (log s)) → lh_nth (log s) i ≠ m) → v_refs w !! m = None;
  tx_inj : ∀ i j : nat, i < lh_n (log_lh (log s)) → j < lh_n (log_lh (log s)) →
    lh_nth (log s) i = lh_nth (log s) j → i = j;
  tx_head : length (block_at (disk s) (log_start (log s))) = 1024%nat;
  tx_empty : head_n (block_at (disk s) (log_start (log s))) = 0;
}.

(** The block writes of the commit. *)
Definition tx_writes (w : view) (s : kernel) : list (Z * list Z) :=
  let l := log s in
  let hd := enc_head (lh_n (log_lh l)) (lh_nth l) (block_at (disk s) (log_start l)) in
  commit_writes (log_start l) (v_data w) (lh_nth l) (Z.to_nat (lh_n (log_lh l))) hd (put_word hd 0 0).

Lemma tx_free w s m : tx_ready w s → in_log (log_start (log s)) m → v_refs w !! m = None.
Proof.
  intros Htx Hm. apply (tx_only _ _ Htx). intros i Hi E. subst. by apply (ll_home _ (tx_layout _ _ Htx) i Hi).
Qed.

Lemma tx_clean w s m :
  tx_ready w s → (∀ i : nat, i < lh_n (log_lh (log s)) → lh_nth (log s) i ≠ m) → v_data w m = block_at (disk s) m.
Proof. intros Htx Hm. apply (bio_clean q dev w s m); [apply Htx|]. by apply (tx_only _ _ Htx). Qed.

Lemma commit_spec w s :
  tx_ready w s → 0 < lh_n (log_lh (log s)) →
  ∃ s', commit s = Ret () s' ∧ disk s' = disk_after (tx_writes w s) (disk s) ∧ dwrites s' = dwrites s ++ tx_writes w s ∧
    io (mkView (block_at (disk s')) ∅ ∅) s' ∧ log s' = clear_lh (log s).
Proof.
  intros Htx Hpos. pose proof Htx as [Hio Hdev Ho Hl Hroom Hpin Honly Hinj Hlen Hemp].
  pose proof Hl as [Hst Hend Hn _ Hhome]. set (l := log s) in *. set (st := log_start l) in *. set (n := lh_n (log_lh l)) in *.
  set (f := block_at (disk s)) in *.
  assert (u32 st = st) as Est by (apply u32_small; unfold LOGSIZE, MAXOPBLOCKS in *; lia).
  assert (v_data w st = f st) as Evst.
  { apply (tx_clean w s _ Htx). intros i Hi E. destruct (Hhome i Hi) as [_ Hno]. apply Hno. change (lh_nth l i) with (lh_nth (log s) i). rewrite E. apply log_start_in. }
  destruct (write_log_spec w s Hio Hdev Ho Hl Hroom Hpin ltac:(intros m; by apply tx_free)) as (s1 & E1 & Hf1 & Hio1 & Hd1 & Hw1).
  fold l st n in Hio1, Hd1, Hw1. set (ws1 := log_writes st _ _) in *. pose proof (io_frame_log _ _ Hf1) as El1. fold l in El1.
  assert (∀ g, after ws1 g st = g st) as Ews1.
  { intros g. apply after_ne. rewrite <-(firstn_all ws1). intros Hk%log_writes_key. lia. }
  destruct (write_head_spec _ s1 Hio1) as (s2 & E2 & Hf2 & Hio2 & Hd2 & Hw2); rewrite ?El1; [done|done| |done|].
  { fold st. rewrite Est. apply (tx_free w s); [done|]. apply log_start_in. }
  rewrite El1 in Hio2, Hd2, Hw2. fold st n in Hio2, Hd2, Hw2. rewrite Est in Hio2, Hd2, Hw2. cbn [v_data v_refs] in Hio2, Hd2, Hw2.
  rewrite Ews1, Evst in Hio2, Hd2, Hw2. set (hd := enc_head n (lh_nth l) (f st)) in *.
  pose proof (io_frame_log _ _ Hf2) as El2. rewrite El1 in El2.
  destruct (install_trans_spec false _ s2 Hio2) as (s3 & rc & E3 & Hf3 & Hio3 & Hrc & Hd3 & Hw3); rewrite ?El2; cbn [v_refs].
  { done. } { done. } { done. } { done. } { done. }
  { intros _. split; [done|]. intros i j Hi Hj. apply Hinj; fold l n in Hi, Hj |- *; lia. }
  { intros m. by apply tx_free. }
  rewrite El2 in Hio3, Hrc, Hd3, Hw3. fold n st in Hio3, Hrc, Hd3, Hw3. cbn [v_data v_refs] in Hio3, Hrc, Hd3, Hw3.
  assert (rc = ∅) as ->.
  { apply map_empty. intros m. destruct (decide (Exists (λ i, lh_nth l i = m) (seq 0 (Z.to_nat n)))) as [He|Hne].
    - apply Exists_exists in He as (i & Hi%elem_of_seq & <-). apply Hrc; [done|lia].
    - apply not_Exists_Forall in Hne; [|apply _]. rewrite Forall_forall in Hne.
      eapply lookup_weaken_None; [|apply Hrc]. apply Honly. intros i Hi. apply Hne, elem_of_seq. lia. }
  assert (home_writes (lh_nth l) (λ i, fupd (after ws1 (v_data w)) st hd (st + i + 1)) (Z.to_nat n) =
    home_writes (lh_nth l) (λ i, v_data w (lh_nth l i)) (Z.to_nat n)) as Ews3.
  { unfold home_writes. apply list_fmap_ext. intros j i [-> Hi]%lookup_seq. f_equal. rewrite fupd_ne by lia. by apply log_writes_get. }
  rewrite Ews3 in Hio3, Hd3, Hw3. set (ws3 := home_writes _ _ _) in *.
  assert (∀ g, after ws3 g st = g st) as Ews.
  { intros g. apply after_ne. rewrite <-(firstn_all ws3). intros (i & Ei & Hi)%home_writes_key.
    destruct (Hhome i ltac:(lia)) as [_ Hno]. apply Hno. rewrite <-Ei. apply log_start_in. }
  pose proof (io_frame_log _ _ Hf3) as El3. rewrite El2 in El3.
  destruct (clear_head_spec _ s3 Hio3) as (s4 & E4 & Hio4 & El4 & Hd4 & Hw4); rewrite ?El3; [done|done|done|].
  rewrite El3 in Hd4, Hw4, El4. fold st in Hd4, Hw4. rewrite Est in Hd4, Hw4. cbn [v_data] in Hd4, Hw4.
  rewrite Ews, fupd_eq in Hd4, Hw4.
  exists s4. split; [|split; [|split; [|split; [done|done]]]].
  - unfold commit. msimpl. fold l n. mif_true by lia. mrun E1. mrun E2. mrun E3. revert E4. msimpl. intros E4. exact E4.
  - unfold tx_writes, commit_writes. fold l n st f hd ws1 ws3. rewrite !disk_after_app. cbn [disk_after foldl].
    rewrite Hd4, Hd3, Hd2, Hd1. done.
  - unfold tx_writes, commit_writes. fold l n st f hd ws1 ws3. rewrite Hw4, Hw3, Hw2, Hw1, <-!app_assoc. done.
Qed.
End copy.

(** ** log_write *)

(** The blocks of the transaction. *)
Definition log_blocks (l : logst) : list Z := take (Z.to_nat (lh_n (log_lh l))) (lh_block (log_lh l)).

Lemma log_blocks_lookup l (i : nat) :
  log_layout l → i < lh_n (log_lh l) → log_blocks l !! i = Some (lh_nth l i).
Proof.
  intros [_ _ Hn Hlen _] Hi. unfold log_blocks, lh_nth. rewrite lookup_take_lt by lia.
  destruct (lookup_lt_is_Some_2 (lh_block (log_lh l)) i) as [x ->]; [|done]. rewrite Hlen. lia.
Qed.

Lemma log_blocks_length l : log_layout l → Z.of_nat (length (log_blocks l)) = lh_n (log_lh l).
Proof. intros [_ _ Hn Hlen _]. unfold log_blocks. rewrite length_take, Hlen. lia. Qed.

Lemma log_slot_spec l n :
  log_layout l → 0 ≤ n < 2 ^ 31 →
  (∃ i, log_slot l n = i ∧ i < lh_n (log_lh l) ∧ log_blocks l !! i = Some n ∧ lh_block (log_lh l) !! i = Some n) ∨
  ((n ∉ log_blocks l) ∧ log_slot l n = Z.to_nat (lh_n (log_lh l))).
Proof.
  intros Hl Hn. pose proof (ll_n _ Hl) as Hr. unfold log_slot. destruct (list_find _ _) as [[i j]|] eqn:E.
  - left. apply list_find_Some in E as (Hi & Hu & _). apply lookup_seq in Hi as [-> Hi]. cbn in Hu |- *.
    assert (i < lh_n (log_lh l)) as Hi' by lia. destruct (ll_home _ Hl i Hi') as [Hb _].
    rewrite u32_small in Hu by lia. exists i. split; [done|]. split; [done|].
    pose proof (log_blocks_lookup l i Hl Hi') as E. rewrite Hu in E. split; [done|].
    unfold log_blocks in E. by apply lookup_take_Some in E as [? _].
  - right. split; [|done]. apply list_find_None in E. rewrite Forall_forall in E. intros (i & Hi)%list_elem_of_lookup.
    assert (i < lh_n (log_lh l)) as Hi' by (apply lookup_lt_Some in Hi; pose proof (log_blocks_length l Hl); lia).
    rewrite log_blocks_lookup in Hi by done. injection Hi as Hi. apply (E i); [apply elem_of_seq; lia|].
    rewrite Hi. apply u32_small. lia.
Qed.

Definition append_block (l : logst) (n : Z) : logst :=
  l <| log_lh := mkLogheader (i32 (lh_n (log_lh l) + 1)) (<[Z.to_nat (lh_n (log_lh l)) := n]> (lh_block (log_lh l))) |>.

Lemma append_block_spec l n :
  log_layout l → 0 ≤ n < 2 ^ 31 → lh_n (log_lh l) < LOGSIZE - 1 → ¬ in_log (log_start l) n →
  log_layout (append_block l n) ∧ log_blocks (append_block l n) = log_blocks l ++ [n] ∧
  log_start (append_block l n) = log_start l.
Proof.
  intros Hl Hn Hlt Hout. pose proof Hl as [H1 H2 H3 H4 H5]. set (k := Z.to_nat (lh_n (log_lh l))).
  assert (i32 (lh_n (log_lh l) + 1) = k + 1) as En by (unfold LOGSIZE, MAXOPBLOCKS in *; rewrite i32_small; lia).
  assert (k < length (lh_block (log_lh l)))%nat as Hk by lia.
  split; [split|split]; cbn; try done.
  - rewrite En. lia.
  - by rewrite length_insert.
  - rewrite En. intros i Hi. unfold lh_nth. cbn. fold k. destruct (decide (i = k)) as [->|Hne].
    + rewrite list_lookup_insert_eq by done. done.
    + rewrite list_lookup_insert_ne by done. apply H5. lia.
  - unfold log_blocks. cbn. rewrite En. fold k. replace (Z.to_nat (k + 1)) with (S k) by lia.
    rewrite (take_S_r _ _ n) by (by apply list_lookup_insert_eq). by rewrite take_insert_ge.
Qed.

Lemma bpin_held b s :
  bcache_lock ∉ held s → (b < length (bcache s))%nat → bpin b s = Ret () (put_buf b (take_ref (buf_at s b)) s).
Proof.
  intros Hh Hb. unfold bpin. msimpl. mrun acquire_free by done. mrun setb_put by done.
  rewrite (release_head _ (held s)) by done. f_equal.
Qed.

(** ** The theorems *)

(** A kernel that has just booted from the disk [d], with the log at [st]. *)
Record booted `{Patience} (pr : nat) (q : proc) (dev st : Z) (d : gmap Z (list Z)) (t : kernel) : Prop := {
  bt_io : io pr q dev (mkView (block_at d) ∅ ∅) t;
  bt_disk : disk t = d;
  bt_start : log_start (log t) = st;
  bt_dev : log_dev (log t) = dev;
  bt_len : length (lh_block (log_lh (log t))) = Z.to_nat LOGSIZE;
}.

Lemma put_word_head d : length d = 1024%nat → length (put_word d 0 0) = 1024%nat ∧ head_n (put_word d 0 0) = 0.
Proof.
  intros Hl. rewrite length_put_word. split; [done|]. unfold head_n. rewrite word_at_put by lia. done.
Qed.

(** Recovery of a disk that recovers to [new]. *)
Lemma booted_recovers `{Patience} pr q dev st d new t :
  (0 < patience)%nat → booted pr q dev st d t → recovers st (block_at d) new →
  ∃ t' ws, recover_from_log t = Ret () t' ∧ dwrites t' = dwrites t ++ ws ∧ disk t' = disk_after ws d ∧
    (∀ m, ¬ in_log st m → block_at (disk t') m = new m) ∧ head_n (block_at (disk t') st) = 0 ∧
    ∀ k, recovers st (block_at (disk_after (take k ws) d)) new.
Proof.
  intros Hpat [Hio Hd Hst Hdev Hlen] Hr. pose proof Hr as [Hok Hnew].
  destruct (put_word_head (block_at d st) (ho_len _ _ Hok)) as [Hl0 Hn0].
  destruct (recover_spec pr q dev Hpat t) as (t' & E & Ed & Ew & _); rewrite ?Hd, ?Hst; try done.
  rewrite Hd, Hst in Ed, Ew. eexists t', _. split; [exact E|]. split; [exact Ew|]. split; [exact Ed|]. split; [|split].
  - intros m Hm. rewrite Ed, block_after, after_app. cbn. rewrite fupd_ne by (intros ->; apply Hm, log_start_in). by apply Hnew.
  - rewrite Ed, block_after, after_app. cbn. by rewrite fupd_eq.
  - intros k. eapply recovers_ext_f; [intros m; apply block_after|]. by apply recovers_prefix.
Qed.

(** commit() and every crash in the middle of it. *)
Lemma commit_crash_spec `{Patience} pr q dev w s :
  (0 < patience)%nat → tx_ready pr q dev w s → 0 < lh_n (log_lh (log s)) →
  ∃ s' ws, commit s = Ret () s' ∧ dwrites s' = dwrites s ++ ws ∧ disk s' = disk_after ws (disk s) ∧
    log s' = clear_lh (log s) ∧ io pr q dev (mkView (block_at (disk s')) ∅ ∅) s' ∧
    (∀ m, ¬ in_log (log_start (log s)) m → block_at (disk s') m = v_data w m) ∧
    ∀ k pr' q' t, booted pr' q' dev (log_start (log s)) (disk_after (take k ws) (disk s)) t →
      ∃ t', recover_from_log t = Ret () t' ∧
        ∀ m, ¬ in_log (log_start (log s)) m →
          block_at (disk t') m =
            if decide (k ≤ lh_n (log_lh (log s))) then block_at (disk s) m else v_data w m.
Proof.
  intros Hpat Htx Hpos. pose proof Htx as [_ _ _ Hl _ _ _ _ Hlen Hemp]. pose proof Hl as [Hst Hend Hn _ Hhome].
  destruct (enc_head_spec (lh_n (log_lh (log s))) (lh_nth (log s)) (block_at (disk s) (log_start (log s))) ltac:(lia) Hlen) as (H1 & H2 & H3).
  { intros i Hi. by apply Hhome. }
  assert (∀ k, recovers (log_start (log s)) (block_at (disk_after (take k (tx_writes w s)) (disk s)))
    (if decide (k ≤ Z.to_nat (lh_n (log_lh (log s))))%nat then block_at (disk s) else v_data w)) as Hpre.
  { intros k. eapply recovers_ext_f; [intros m; apply block_after|]. apply commit_prefix; try done.
    - split; rewrite ?Hemp; try done; lia.
    - intros i Hi. apply Hhome. lia.
    - unfold LOGSIZE, MAXOPBLOCKS in Hn. lia.
    - intros m Hm. apply (tx_clean pr q dev w s m Htx). intros i Hi. apply Hm. lia.
    - split; [done|]. split; [lia|]. intros i Hi. apply H3. lia.
    - by apply put_word_head. }
  destruct (commit_spec pr q dev Hpat w s Htx Hpos) as (s' & E & Ed & Ew & Hio' & El).
  exists s', (tx_writes w s). do 5 (split; [done|]). split.
  - intros m Hm. specialize (Hpre (length (tx_writes w s))). rewrite firstn_all, <-Ed, decide_False in Hpre.
    + apply (recovers_done _ _ _ m Hpre); [|done]. rewrite Ed, block_after. unfold tx_writes, commit_writes.
      rewrite !after_app. cbn. rewrite fupd_eq. by apply put_word_head.
    + unfold tx_writes, commit_writes, log_writes. rewrite !length_app, length_fmap, length_seq. cbn. lia.
  - intros k pr' q' t Hb. destruct (booted_recovers pr' q' dev _ _ _ t Hpat Hb (Hpre k)) as (t' & _ & E' & _ & _ & Hnew & _).
    exists t'. split; [exact E'|]. intros m Hm. rewrite Hnew by done. repeat case_decide; lia || done.
Qed.

(** C1: transactions are atomic across crashes.  commit() of a transaction writes
    a sequence of blocks and ends with the disk in the transaction's final
    state; and if the machine stops after any number [k] of these writes, then
    recover_from_log() of the next boot leaves every block outside the log
    either as before the transaction (when the header was not yet written) or
    as the transaction made it, for all blocks alike. *)
Theorem commit_crash_safe `{Patience} pr q dev w s :
  (0 < patience)%nat → tx_ready pr q dev w s → 0 < lh_n (log_lh (log s)) →
  ∃ s' ws, commit s = Ret () s' ∧ dwrites s' = dwrites s ++ ws ∧ disk s' = disk_after ws (disk s) ∧
    log s' = clear_lh (log s) ∧ io pr q dev (mkView (block_at (disk s')) ∅ ∅) s' ∧
    (∀ m, ¬ in_log (log_start (log s)) m → block_at (disk s') m = v_data w m) ∧
    ∀ k pr' q' t, booted pr' q' dev (log_start (log s)) (disk_after (take k ws) (disk s)) t →
      ∃ t', recover_from_log t = Ret () t' ∧
        ∀ m, ¬ in_log (log_start (log s)) m →
          block_at (disk t') m =
            if decide (k ≤ lh_n (log_lh (log s))) then block_at (disk s) m else v_data w m.
Proof. apply commit_crash_spec. Qed.

(** C22: recovery.  recover_from_log() copies the logged blocks of a committed
    transaction to their places, changes nothing else outside the log and
    empties the log; and if it is itself interrupted after any number [k] of
    its writes, the recovery of the next boot ends with the same blocks. *)
Theorem recover_correct `{Patience} pr q dev st d t :
  (0 < patience)%nat → booted pr q dev st d t → head_ok st (block_at d) →
  ∃ t' ws, recover_from_log t = Ret () t' ∧ dwrites t' = dwrites t ++ ws ∧ disk t' = disk_after ws d ∧
    head_n (block_at (disk t') st) = 0 ∧
    (∀ m, ¬ in_log st m → block_at (disk t') m = replay st (block_at d) m) ∧
    ∀ k pr' q' u, booted pr' q' dev st (disk_after (take k ws) d) u →
      ∃ u', recover_from_log u = Ret () u' ∧
        ∀ m, ¬ in_log st m → block_at (disk u') m = block_at (disk t') m.
Proof.
  intros Hpat Hb Hok.
  destruct (booted_recovers pr q dev st d (replay st (block_at d)) t Hpat Hb) as (t' & ws & E & Ew & Ed & Hnew & H0 & Hpre); [by split|].
  exists t', ws. do 5 (split; [done|]). intros k pr' q' u Hu.
  destruct (booted_recovers pr' q' dev st _ _ u Hpat Hu (Hpre k)) as (u' & _ & E' & _ & _ & Hnew' & _).
  exists u'. split; [done|]. intros m Hm. by rewrite Hnew', Hnew.
Qed.

(** log_write() by cases. *)
Lemma log_write_spec s pr q b n :
  thread s pr q → log_layout (log s) → log_size (log s) ≤ LOGSIZE →
  (b < length (bcache s))%nat → b_blockno (buf_at s b) = n →
  0 ≤ n < 2 ^ 31 → ¬ in_log (log_start (log s)) n →
  let l := log s in
  let full := (LOGSIZE <=? lh_n (log_lh l)) || (log_size l - 1 <=? lh_n (log_lh l)) in
  (full = true → log_write b s = Panic "too big a transaction" (s <| held := [log_lock] |>)) ∧
  (full = false → log_outstanding l < 1 →
     log_write b s = Panic "log_write outside of trans" (s <| held := [log_lock] |>)) ∧
  (full = false → 1 ≤ log_outstanding l → n ∈ log_blocks l → log_write b s = Ret () s) ∧
  (full = false → 1 ≤ log_outstanding l → n ∉ log_blocks l →
     ∃ l', log_write b s = Ret () (put_buf b (take_ref (buf_at s b)) s <| log := l' |>) ∧
       log_layout l' ∧ log_blocks l' = log_blocks l ++ [n] ∧ log_start l' = log_start l ∧ l' = append_block l n).
Proof.
  intros Ht Hl Hsz Hb Hbn Hn Hout l full. unfold log_write. msimpl. mrun (acquire_none s pr q) by done.
  change (log (s <| held := _ |>)) with l. fold full.
  split; [intros ->; done|]. split; [intros -> Ho; msimpl; by mif_true by lia|].
  assert (full = false → lh_n (log_lh l) < LOGSIZE - 1) as Hnf.
  { unfold full. rewrite orb_false_iff, !Z.leb_gt. unfold l in *. lia. }
  split; intros Hf Ho Hin; rewrite Hf; msimpl; mif_false by lia; mrun getb_at;
    change (buf_at (s <| held := _ |>) b) with (buf_at s b); rewrite Hbn;
    (destruct (log_slot_spec l n Hl Hn) as [(i & Ei & Hi & Hbi & Hli)|[Hno Ei]]).
  - rewrite Ei. unfold set_log, modify. cbn [bindO]. mif_false by lia. rewrite (release_head _ []) by done. f_equal.
    rewrite i32_small by lia. transitivity (s <| held := [] |>); [|apply held_none, Ht].
    unfold l in Hli. clear -Hli. destruct s as [? ? ? ? ? ? ? ? ? ? ? ? ? ? ? ? lg]. destruct lg as [? ? ? ? ? [? B]]. cbn in *.
    by rewrite list_insert_id.
  - done.
  - exfalso. apply Hin. apply list_elem_of_lookup. by exists i.
  - rewrite Ei. unfold set_log at 1, modify at 1. cbn [bindO]. mif_true by (apply Z.eqb_eq, Z2Nat.id, Hl).
    mrun bpin_held; [|cbn; rewrite list_elem_of_singleton; congruence|done].
    unfold set_log, modify. cbn [bindO]. rewrite (release_head _ []) by done. exists (append_block l n).
    split; [|destruct (append_block_spec l n Hl Hn (Hnf Hf) Hout) as (? & ? & ?); by split_and!]. f_equal. rewrite i32_small by lia.
    transitivity (put_buf b (take_ref (buf_at s b)) (s <| held := [] |>) <| log := append_block l n |>); [reflexivity|].
    by rewrite held_none by apply Ht.
Qed.

(** log_write() of a buffer.  It panics when the header is full or no
    operation is active; a block that is already in the transaction changes
    nothing (absorption); another block is appended to the transaction and its
    buffer pinned, and the header stays well-formed. *)
Theorem log_write_correct s pr q b n :
  thread s pr q → log_layout (log s) → log_size (log s) ≤ LOGSIZE →
  (b < length (bcache s))%nat → b_blockno (buf_at s b) = n →
  0 ≤ n < 2 ^ 31 → ¬ in_log (log_start (log s)) n →
  let l := log s in
  let full := (LOGSIZE <=? lh_n (log_lh l)) || (log_size l - 1 <=? lh_n (log_lh l)) in
  (full = true → log_write b s = Panic "too big a transaction" (s <| held := [log_lock] |>)) ∧
  (full = false → log_outstanding l < 1 →
     log_write b s = Panic "log_write outside of trans" (s <| held := [log_lock] |>)) ∧
  (full = false → 1 ≤ log_outstanding l → n ∈ log_blocks l → log_write b s = Ret () s) ∧
  (full = false → 1 ≤ log_outstanding l → n ∉ log_blocks l →
     ∃ l', log_write b s = Ret () (put_buf b (take_ref (buf_at s b)) s <| log := l' |>) ∧
       log_layout l' ∧ log_blocks l' = log_blocks l ++ [n] ∧ log_start l' = log_start l).
Proof.
  intros Ht Hl Hsz Hb Hbn Hn Hout l full.
  destruct (log_write_spec s pr q b n Ht Hl Hsz Hb Hbn Hn Hout) as (H1 & H2 & H3 & H4). split_and!; try done.
  intros Hf Ho Hin. destruct (H4 Hf Ho Hin) as (l' & E & ? & ? & ? & _). by exists l'.
Qed.

(** begin_op() admits an operation for which MAXOPBLOCKS more blocks fit. *)
Lemma begin_op_admits `{Patience} s pr q i :
  (0 < patience)%nat → thread s pr q → log_committing (log s) = 0 → log_outstanding (log s) = i →
  0 ≤ i < 2 ^ 31 - 1 → lh_n (log_lh (log s)) + (i + 1) * MAXOPBLOCKS ≤ LOGSIZE →
  begin_op s = Ret () (s <| log ::= λ l, l <| log_outstanding := i + 1 |> |>).
Proof.
  intros Hpat Ht Hc Ho Hi Hfit. unfold begin_op. msimpl. mrun (acquire_none s pr q) by done.
  destruct patience as [|n]; [lia|]. apply loop_exit. unfold gets. cbn [bindO].
  msimpl. mif_false by (cbn; by rewrite Hc). mif_false by (cbn; apply Z.ltb_ge; lia).
  unfold set_log, modify. cbn [bindO]. rewrite (release_head _ []) by done. cbn [bindO]. unfold mret, M_ret. f_equal.
  unfold set at 3. cbn. rewrite Ho, i32_small by lia. destruct Ht as [_ _ _ Hh]. destruct s. cbn in Hh. by subst.
Qed.

(** Buffer [b] is for a block that may be logged. *)
Definition loggable (s : kernel) (b : nat) : Prop :=
  (b < length (bcache s))%nat ∧ 0 ≤ b_blockno (buf_at s b) < 2 ^ 31 ∧
  ¬ in_log (log_start (log s)) (b_blockno (buf_at s b)).

#[export] Instance loggable_dec s b : Decision (loggable s b).
Proof. unfold loggable. apply _. Defined.

(** As many different blocks can be logged as the header has room for. *)
Lemma log_write_many s pr q bs :
  thread s pr q → log_layout (log s) → log_size (log s) = LOGSIZE → 1 ≤ log_outstanding (log s) →
  Forall (loggable s) bs → NoDup (log_blocks (log s) ++ ((λ b, b_blockno (buf_at s b)) <$> bs)) →
  lh_n (log_lh (log s)) + length bs < LOGSIZE →
  ∃ s', for_each bs log_write s = Ret () s' ∧ thread s' pr q ∧ log_layout (log s') ∧
    log_size (log s') = LOGSIZE ∧ log_start (log s') = log_start (log s) ∧
    lh_n (log_lh (log s')) = lh_n (log_lh (log s)) + length bs ∧
    length (bcache s') = length (bcache s) ∧
    ∀ b, b_blockno (buf_at s' b) = b_blockno (buf_at s b).
Proof.
  revert s. induction bs as [|b bs IH]; intros s Ht Hl Hsz Ho HF Hnd Hroom.
  { exists s. split_and!; try done. cbn. lia. }
  apply Forall_cons in HF as [(Hb & Hn & Hout) HF]. cbn [length fmap list_fmap] in *.
  destruct (log_write_spec s pr q b _ Ht Hl ltac:(lia) Hb eq_refl Hn Hout) as (_ & _ & _ & Hnew).
  apply NoDup_app in Hnd as (Hnd1 & Hdisj & Hnd2).
  destruct Hnew as (l' & E & Hl' & Hbl & Hst & El).
  { apply orb_false_iff. split; apply Z.leb_gt; lia. } { done. }
  { intros Hin. apply (Hdisj _ Hin). left. }
  assert (lh_n (log_lh l') = lh_n (log_lh (log s)) + 1) as En.
  { rewrite El. cbn. apply i32_small. destruct Hl. unfold LOGSIZE, MAXOPBLOCKS in *. lia. }
  set (s1 := put_buf b (take_ref (buf_at s b)) s <| log := l' |>) in *.
  assert (∀ c, b_blockno (buf_at s1 c) = b_blockno (buf_at s c)) as Hbk.
  { intros c. unfold s1, buf_at, put_buf. cbn. destruct (decide (c = b)) as [->|Hc].
    - by rewrite list_lookup_insert_eq.
    - by rewrite list_lookup_insert_ne. }
  assert (length (bcache s1) = length (bcache s)) as Hlen by apply length_insert.
  destruct (IH s1) as (s' & E' & Ht' & Hlay & Hsz' & Hst' & Hn' & Hlen' & Hbk').
  - by destruct Ht.
  - done.
  - change (log s1) with l'. by rewrite El.
  - change (log s1) with l'. by rewrite El.
  - eapply Forall_impl; [exact HF|]. intros c (? & ? & ?). unfold loggable. rewrite Hlen, Hbk.
    change (log s1) with l'. by rewrite Hst.
  - change (log s1) with l'. rewrite Hbl, <-(assoc_L (++)). cbn.
    rewrite (list_fmap_ext _ (λ b, b_blockno (buf_at s b))) by (intros; apply Hbk).
    apply NoDup_app. done.
  - change (log s1) with l'. rewrite En. lia.
  - change (log s1) with l' in *. exists s'. cbn [for_each]. rewrite (bind_ret _ _ _ _ _ E).
    rewrite Hst', Hst, Hn', En, Hlen', Hlen. split_and!; try done; [lia|]. intros c. by rewrite Hbk', Hbk.
Qed.

(** C39: the reservation of begin_op() admits one block more than the log holds.
    In every state with an empty log of LOGSIZE blocks, the size mkfs gives it,
    begin_op() admits three operations at once, each with a right to MAXOPBLOCKS
    blocks.  Whichever different blocks they write, log_write() takes all but
    the last of their 3 * MAXOPBLOCKS and panics on the last one, because the
    log loses a block to its header. *)
Theorem log_reservation_overflow `{Patience} s pr q bs b :
  (0 < patience)%nat → thread s pr q → log_layout (log s) → log_size (log s) = LOGSIZE →
  lh_n (log_lh (log s)) = 0 → log_outstanding (log s) = 0 → log_committing (log s) = 0 →
  Forall (loggable s) (bs ++ [b]) → NoDup ((λ b, b_blockno (buf_at s b)) <$> (bs ++ [b])) →
  Z.of_nat (length (bs ++ [b])) = 3 * MAXOPBLOCKS →
  ∃ s1 s2, (begin_op;; begin_op;; begin_op) s = Ret () s1 ∧
    for_each bs log_write s1 = Ret () s2 ∧
    log_write b s2 = Panic "too big a transaction" (s2 <| held := [log_lock] |>).
Proof.
  intros Hpat Ht Hl Hsz Hn Ho Hc HF Hnd Hlen. rewrite length_app in Hlen. cbn in Hlen.
  set (s1 := s <| log ::= λ l, l <| log_outstanding := 3 |> |>). exists s1.
  apply Forall_app in HF as [HF [Hb _]%Forall_cons].
  destruct (log_write_many s1 pr q bs) as (s2 & E & Ht2 & Hl2 & Hsz2 & Hst2 & Hn2 & Hlen2 & Hbk2).
  - by destruct Ht.
  - by destruct Hl.
  - done.
  - done.
  - exact HF.
  - unfold log_blocks. change (lh_n _) with (lh_n (log_lh (log s))). rewrite Hn. cbn [app take].
    rewrite fmap_app in Hnd. by apply NoDup_app in Hnd as [? _].
  - change (lh_n _) with (lh_n (log_lh (log s))). unfold LOGSIZE, MAXOPBLOCKS in *. lia.
  - exists s2. split; [|split; [exact E|]].
    + rewrite (bind_ret _ _ _ _ _ (begin_op_admits s pr q 0 Hpat Ht Hc Ho ltac:(lia) ltac:(by rewrite Hn))).
      erewrite bind_ret; [|apply (begin_op_admits _ pr q 1); [done|by destruct Ht|done|done|lia|cbn; by rewrite Hn]].
      rewrite (begin_op_admits _ pr q 2); [reflexivity|done|by destruct Ht|done|done|lia|cbn; by rewrite Hn].
    + destruct Hb as (Hb1 & Hb2 & Hb3).
      apply (log_write_spec s2 pr q b (b_blockno (buf_at s b)) Ht2 Hl2 ltac:(lia)); rewrite ?Hlen2, ?Hbk2, ?Hst2; try done.
      apply orb_true_iff. right. apply Z.leb_le. rewrite Hsz2, Hn2.
      change (lh_n (log_lh (log s1))) with (lh_n (log_lh (log s))). unfold LOGSIZE, MAXOPBLOCKS in *. lia.
Qed.

(** ** Witnesses *)

#[local] Instance ex_patience : Patience := 1%nat.

(** The device 1 with a log at block 2, and block 40 changed and pinned. *)
Definition ex_lh : logheader := mkLogheader 1 (40 :: replicate 29 0).
Definition ex_log : kernel := ex_fs <| log := mkLog 2 30 0 1 1 ex_lh |>.
Definition ex_data : list Z := replicate 1024 7.
Definition ex_dirty : buf :=
  boot_buf 0 <| b_dev := 1 |> <| b_blockno := 40 |> <| b_valid := 1 |> <| b_refcnt := 1 |> <| b_data := ex_data |>.
Definition ex_tx : kernel := put_buf 0 ex_dirty ex_log.
Definition ex_view : view := mkView (fupd (block_at ∅) 40 ex_data) {[40 := 1]} ∅.

Lemma ex_tx_bio : bio ex_fs_proc 1 ex_view ex_tx.
Proof.
  pose proof (boot_bio ex_fs_proc 1 ex_log ltac:(done) eq_refl) as Hb.
  apply (bio_step _ _ _ _ Hb _ _ 0%nat ex_dirty); [unfold NBUF; lia| |done|..].
  - apply (cache_put_same _ _ _ _ Hb); [unfold NBUF; lia|done|done].
  - split; [done|done|done|]. rewrite decide_False by apply not_elem_of_empty. done.
  - right. split; [done|]. intros i Hi [Hd _]. revert Hd. unfold buf_at. change (bcache ex_log) with boot_bufs.
    unfold boot_bufs. rewrite list_lookup_fmap, lookup_seq_lt by lia. cbn. unfold boot_buf.
    by rewrite decide_False by (unfold bhead; lia).
  - intros m Hm. change (b_blockno ex_dirty) with 40 in Hm. cbn. rewrite fupd_ne, lookup_singleton_ne by congruence. done.
  - intros c. change (b_blockno ex_dirty) with 40. cbn. rewrite lookup_singleton_eq. intros [= <-]. lia.
  - intros Hin. by apply not_elem_of_empty in Hin.
Qed.

Lemma ex_tx_ready : tx_ready 0 ex_fs_proc 1 ex_view ex_tx.
Proof.
  split; try done.
  - split; [by split|apply ex_tx_bio].
  - split; [done|done|done|done|]. intros [|i] Hi; [|cbn in Hi; lia]. split; [done|]. unfold in_log, LOGSIZE, MAXOPBLOCKS. cbn. lia.
  - cbn. rewrite map_size_singleton. unfold NBUF. lia.
  - intros [|i] Hi; [|cbn in Hi; lia]. cbn. apply lookup_singleton_eq.
  - intros m Hm. cbn. apply lookup_singleton_ne. apply (Hm 0%nat). done.
  - intros [|i] [|j] Hi Hj; cbn in Hi, Hj; lia || done.
Qed.

Lemma commit_crash_safe_witness :
  ∃ s', commit ex_tx = Ret () s' ∧ block_at (disk s') 40 = ex_data ∧ lh_n (log_lh (log s')) = 0.
Proof.
  destruct (commit_crash_safe 0%nat ex_fs_proc 1 ex_view ex_tx) as (s' & ws & E & _ & _ & El & _ & Hm & _);
    [unfold patience, ex_patience; lia|apply ex_tx_ready|done|].
  exists s'. split; [exact E|]. split; [rewrite Hm; [reflexivity|unfold in_log, LOGSIZE, MAXOPBLOCKS; cbn; lia]|]. rewrite El. reflexivity.
Defined.

(** A disk with a committed transaction for block 40. *)
Definition ex_committed : gmap Z (list Z) := {[2 := enc_head 1 (λ _, 40) zero_block; 3 := ex_data]}.
Definition ex_boot : kernel := ex_log <| disk := ex_committed |>.

Lemma ex_booted : booted 0 ex_fs_proc 1 2 ex_committed ex_boot.
Proof. split; try done. split; [by split|]. by apply (boot_bio _ _ ex_boot). Qed.

Lemma ex_head_ok : head_ok 2 (block_at ex_committed).
Proof.
  split; [done|done|vm_compute; reflexivity|vm_compute; split; [discriminate|reflexivity]|].
  - assert (head_n (block_at ex_committed 2) = 1) as -> by (vm_compute; reflexivity).
    intros [|i] Hi; [|lia]. assert (head_block (block_at ex_committed 2) 0 = 40) as -> by (vm_compute; reflexivity).
    unfold in_log, LOGSIZE, MAXOPBLOCKS. cbn. lia.
Qed.

Lemma recover_correct_witness :
  ∃ t', recover_from_log ex_boot = Ret () t' ∧ block_at (disk t') 40 = ex_data.
Proof.
  destruct (recover_correct 0%nat ex_fs_proc 1 2 ex_committed ex_boot) as (t' & ws & E & _ & _ & _ & Hm & _);
    [unfold patience, ex_patience; lia|apply ex_booted|apply ex_head_ok|].
  exists t'. split; [exact E|]. rewrite Hm by (unfold in_log, LOGSIZE, MAXOPBLOCKS; cbn; lia). vm_compute. reflexivity.
Defined.

(** One operation is active; buffer 1 is for block 41. *)
Definition ex_op : kernel :=
  put_buf 1 (boot_buf 1 <| b_dev := 1 |> <| b_blockno := 41 |> <| b_valid := 1 |> <| b_refcnt := 1 |>)
    (ex_tx <| log := mkLog 2 30 1 0 1 ex_lh |>).

Lemma log_write_correct_witness :
  ∃ s', log_write 1 ex_op = Ret () s' ∧ log_blocks (log s') = [40; 41].
Proof.
  destruct (log_write_correct ex_op 0%nat ex_fs_proc 1 41) as (_ & _ & _ & H);
    [by split| |done|vm_compute; lia|done|done|unfold in_log, LOGSIZE, MAXOPBLOCKS; cbn; lia|].
  { destruct (tx_layout _ _ _ _ _ ex_tx_ready) as [H1 H2 H3 H4 H5]. by split. }
  destruct H as (l' & E & _ & Hb & _); [done|done| |].
  - change (log_blocks (log ex_op)) with [40]. rewrite list_elem_of_singleton. done.
  - eexists. split; [exact E|]. exact Hb.
Defined.

(** Buffer [i] is for block [100 + i]; the log has the [LOGSIZE] blocks that mkfs
    gives it. *)
Definition ex_three : kernel :=
  ex_fs <| log := mkLog 2 LOGSIZE 0 0 1 (mkLogheader 0 (replicate 30 0)) |>
        <| bcache ::= imap (λ i x, x <| b_dev := 1 |> <| b_blockno := 100 + Z.of_nat i |> <| b_valid := 1 |> <| b_refcnt := 1 |>) |>.

Lemma log_reservation_overflow_witness :
  ∃ s1 s2, (begin_op;; begin_op;; begin_op) ex_three = Ret () s1 ∧
    for_each (seq 0 29) log_write s1 = Ret () s2 ∧
    log_write 29 s2 = Panic "too big a transaction" (s2 <| held := [log_lock] |>).
Proof.
  apply (log_reservation_overflow ex_three 0%nat ex_fs_proc (seq 0 29) 29%nat);
    [unfold patience, ex_patience; lia|by split| |reflexivity|reflexivity|reflexivity|reflexivity| | |reflexivity].
  - split; [done|done|by vm_compute|reflexivity|]. intros i Hi. cbn in Hi. lia.
  - apply (bool_decide_unpack _). vm_compute. done.
  - apply (bool_decide_unpack _). vm_compute. done.
Defined.
