(* ===== verification/Fs.v ===== *)
(** * The file system (kernel/fs.c)

    Blocks, inodes, file contents, directories and path names, on top of the
    log.  On-disk structures are read from and written to the bytes of a
    block at their C offsets. *)

From Stdlib Require Import ZArith Lia.
From stdpp Require Import base numbers strings option list gmap.
From S2P Require Import Prelude Params Machine Cstring Kalloc Vm Sched Uart Console Sleeplock Bio Log.

Open Scope Z_scope.

(** ** fs.h, stat.h *)

Definition ROOTINO : Z := 1.
Definition FSMAGIC : Z := 0x10203040.
Definition NDIRECT : nat := 12.
Definition NINDIRECT : nat := 256.
Definition MAXFILE : Z := NDIRECT + NINDIRECT.
Definition DIRSIZ : nat := 14.
Definition T_DIR : Z := 1.
Definition T_FILE : Z := 2.
Definition T_DEVICE : Z := 3.

(** [sizeof(struct dinode)] is 64, [sizeof(struct dirent)] 16. *)
Definition DINODE_SIZE : nat := 64.
Definition DIRENT_SIZE : Z := 16.
Definition IPB : Z := BSIZE / DINODE_SIZE.
Definition IBLOCK (i : Z) (b : superblock) : Z := u32 (i / IPB + sb_inodestart b).
Definition BPB : Z := BSIZE * 8.
Definition BBLOCK (b : Z) (x : superblock) : Z := u32 (b / BPB + sb_bmapstart x).

(** A little-endian 16-bit word of a byte array. *)
Definition half_at (bs : list Z) (off : nat) : Z :=
  default 0 (bs !! off) + 2 ^ 8 * default 0 (bs !! S off).
Definition half_bytes (v : Z) : list Z := [v mod 2 ^ 8; v / 2 ^ 8 mod 2 ^ 8].
Definition put_half (bs : list Z) (off : nat) (v : Z) : list Z := list_inserts off (half_bytes v) bs.

Record dirent := mkDirent { d_inum : Z; d_name : list Z }.

Definition dirent_of (bs : list Z) : dirent := mkDirent (half_at bs 0) (drop 2 bs).
Definition dirent_bytes (d : dirent) : list Z := half_bytes (d_inum d) ++ d_name d.

(** ** Access to the inode table *)

Definition geti (ip : nat) : K inode := gets (λ s, default inode0 (itable s !! ip)).
Definition seti (ip : nat) (f : inode → inode) : K () := modify (λ s, s <| itable ::= alter f ip |>).

Definition addr_at (x : inode) (i : nat) : Z := default 0 (i_addrs x !! i).

(** The disk inode at byte [off] of a block: its fields into an inode, and an
    inode's fields into the block. *)
Definition dinode_get (d : list Z) (off : nat) (x : inode) : inode :=
  x <| i_type := i16 (half_at d off) |>
    <| i_major := i16 (half_at d (off + 2)) |>
    <| i_minor := i16 (half_at d (off + 4)) |>
    <| i_nlink := i16 (half_at d (off + 6)) |>
    <| i_size := word_at d (off + 8) |>
    <| i_addrs := (λ i, word_at d (off + 12 + 4 * i)) <$> seq 0 13 |>.

Definition dinode_put (d : list Z) (off : nat) (x : inode) : list Z :=
  let d := put_half d off (u16 (i_type x)) in
  let d := put_half d (off + 2) (u16 (i_major x)) in
  let d := put_half d (off + 4) (u16 (i_minor x)) in
  let d := put_half d (off + 6) (u16 (i_nlink x)) in
  let d := put_word d (off + 8) (i_size x) in
  list_inserts (off + 12) (mjoin (word_bytes <$> i_addrs x)) d.

Definition dinode_off (inum : Z) : nat := Z.to_nat (inum mod IPB) * DINODE_SIZE.

Section fs.
Context `{Linker} `{Patience}.

(** ** The superblock *)

Definition readsb (dev : Z) : K () :=
  bp ← bread dev 1;
  x ← getb bp;
  let w i := word_at (b_data x) (4 * i) in
  modify (λ s, s <| sb := mkSuperblock (w 0%nat) (w 1%nat) (w 2%nat) (w 3%nat) (w 4%nat)
                            (w 5%nat) (w 6%nat) (w 7%nat) |>);;
  brelse bp.

Definition fsinit (dev : Z) : K () :=
  readsb dev;;
  b ← gets sb;
  if negb (sb_magic b =? FSMAGIC) then panic "invalid file system"
  else initlog dev.

(** ** Blocks *)

Definition bzero (dev bno : Z) : K () :=
  bp ← bread dev (u32 bno);
  setb bp (λ x, x <| b_data := zero_block |>);;
  log_write bp;;
  brelse bp.

(** [bp->data[bi/8] & (1 << (bi % 8))] is not zero. *)
Definition bit_used (d : list Z) (bi : Z) : bool :=
  negb (Z.land (default 0 (d !! Z.to_nat (bi / 8))) (Z.shiftl 1 (bi mod 8)) =? 0).

Definition bit_mark (d : list Z) (bi : Z) : list Z :=
  alter (λ x, Z.lor x (Z.shiftl 1 (bi mod 8))) (Z.to_nat (bi / 8)) d.

Definition bit_clear (d : list Z) (bi : Z) : list Z :=
  alter (λ x, u8 (Z.land x (Z.lnot (Z.shiftl 1 (bi mod 8))))) (Z.to_nat (bi / 8)) d.

(** The inner loop of balloc() on one bitmap block whose first bit is block
    [b]: the first clear bit below BPB and below the file system's size. *)
Definition find_clear (d : list Z) (b size : Z) : option Z :=
  snd <$> list_find (λ bi, bit_used d bi = false) (seqZ 0 (Z.min BPB (size - b))).

(** One round of the outer loop: [Some r] returns block [r], [None] is its end. *)
Definition balloc_step (dev b : Z) : K (Z + option Z) :=
  x ← gets sb;
  if negb (u32 b <? sb_size x) then mret (inr None)
  else
    bp ← bread dev (BBLOCK b x);
    d ← getb bp;
    match find_clear (b_data d) b (sb_size x) with
    | Some bi =>
        setb bp (λ y, y <| b_data ::= λ d, bit_mark d bi |>);;
        log_write bp;;
        brelse bp;;
        bzero dev (b + bi);;
        mret (inr (Some (b + bi)))
    | None =>
        brelse bp;;
        mret (inl (i32 (b + BPB)))
    end.

Definition balloc (dev : Z) : K Z :=
  x ← gets sb;
  r ← loop (S (S (Z.to_nat (sb_size x / BPB)))) (balloc_step dev) 0;
  match r with
  | Some b => mret b
  | None => printf (ln "balloc: out of blocks") [];; mret 0
  end.

Definition bfree (dev b : Z) : K () :=
  x ← gets sb;
  bp ← bread dev (BBLOCK b x);
  let bi := b mod BPB in
  d ← getb bp;
  if negb (bit_used (b_data d) bi) then panic "freeing free block"
  else
    setb bp (λ y, y <| b_data ::= λ d, bit_clear d bi |>);;
    log_write bp;;
    brelse bp.

(** ** Inodes *)

Definition iinit : K () := for_each (seq 0 NINODE) (λ i, initsleeplock (inode_sleeplock i)).

(** The loop of iget(): the entry that holds the inode, or the first free one. *)
Definition iget_step (dev inum : Z) (empty : option nat) (ip : nat) : K (option nat + nat) :=
  x ← geti ip;
  if (0 <? i_ref x) && (i_dev x =? dev) && (i_inum x =? inum) then
    seti ip (λ x, x <| i_ref ::= λ r, i32 (r + 1) |>);;
    release itable_lock;;
    mret (inr ip)
  else mret (inl (match empty with
                  | None => if i_ref x =? 0 then Some ip else None
                  | Some _ => empty
                  end)).

Definition iget (dev inum : Z) : K nat :=
  acquire itable_lock;;
  r ← for_scan (seq 0 NINODE) (iget_step dev inum) None;
  match r with
  | inr ip => mret ip
  | inl None => panic "iget: no inodes"
  | inl (Some ip) =>
      seti ip (λ x, x <| i_dev := dev |> <| i_inum := inum |> <| i_ref := 1 |> <| i_valid := 0 |>);;
      release itable_lock;;
      mret ip
  end.

Definition ialloc_step (dev type inum : Z) : K (option nat) :=
  x ← gets sb;
  bp ← bread dev (IBLOCK inum x);
  d ← getb bp;
  if half_at (b_data d) (dinode_off inum) =? 0 then
    setb bp (λ y, y <| b_data ::= λ d,
      put_half (list_inserts (dinode_off inum) (replicate DINODE_SIZE 0) d) (dinode_off inum) (u16 type) |>);;
    log_write bp;;
    brelse bp;;
    ip ← iget dev inum;
    mret (Some ip)
  else
    brelse bp;;
    mret None.

Definition ialloc (dev type : Z) : K (option nat) :=
  x ← gets sb;
  r ← for_ret (seqZ 1 (sb_ninodes x - 1)) (ialloc_step dev type);
  match r with
  | Some ip => mret (Some ip)
  | None => printf (ln "ialloc: no inodes") [];; mret None
  end.

Definition iupdate (ip : nat) : K () :=
  x ← geti ip;
  b ← gets sb;
  bp ← bread (i_dev x) (IBLOCK (i_inum x) b);
  setb bp (λ y, y <| b_data ::= λ d, dinode_put d (dinode_off (i_inum x)) x |>);;
  log_write bp;;
  brelse bp.

Definition idup (ip : nat) : K nat :=
  acquire itable_lock;;
  seti ip (λ x, x <| i_ref ::= λ r, i32 (r + 1) |>);;
  release itable_lock;;
  mret ip.

Definition ilock (ip : option nat) : K () :=
  match ip with
  | None => panic "ilock"
  | Some ip =>
      x ← geti ip;
      if i_ref x <? 1 then panic "ilock"
      else
        acquiresleep (inode_sleeplock ip);;
        x ← geti ip;
        when (i_valid x =? 0)
          (b ← gets sb;
           bp ← bread (i_dev x) (IBLOCK (i_inum x) b);
           d ← getb bp;
           seti ip (dinode_get (b_data d) (dinode_off (i_inum x)));;
           brelse bp;;
           seti ip (λ x, x <| i_valid := 1 |>);;
           x ← geti ip;
           if i_type x =? 0 then panic "ilock: no type" else mret ())
  end.

Definition iunlock (ip : option nat) : K () :=
  match ip with
  | None => panic "iunlock"
  | Some ip =>
      h ← holdingsleep (inode_sleeplock ip);
      if negb h then panic "iunlock"
      else
        x ← geti ip;
        if i_ref x <? 1 then panic "iunlock" else releasesleep (inode_sleeplock ip)
  end.

Definition itrunc (ip : nat) : K () :=
  for_each (seq 0 NDIRECT) (λ i,
    x ← geti ip;
    when (negb (addr_at x i =? 0))
      (bfree (i_dev x) (addr_at x i);;
       seti ip (λ x, x <| i_addrs ::= <[i := 0]> |>)));;
  x ← geti ip;
  when (negb (addr_at x NDIRECT =? 0))
    (bp ← bread (i_dev x) (addr_at x NDIRECT);
     for_each (seq 0 NINDIRECT) (λ j,
       d ← getb bp;
       when (negb (word_at (b_data d) (4 * j) =? 0)) (bfree (i_dev x) (word_at (b_data d) (4 * j))));;
     brelse bp;;
     bfree (i_dev x) (addr_at x NDIRECT);;
     seti ip (λ x, x <| i_addrs ::= <[NDIRECT := 0]> |>));;
  seti ip (λ x, x <| i_size := 0 |>);;
  iupdate ip.

Definition iput (ip : nat) : K () :=
  acquire itable_lock;;
  x ← geti ip;
  when ((i_ref x =? 1) && negb (i_valid x =? 0) && (i_nlink x =? 0))
    (acquiresleep (inode_sleeplock ip);;
     release itable_lock;;
     itrunc ip;;
     seti ip (λ x, x <| i_type := 0 |>);;
     iupdate ip;;
     seti ip (λ x, x <| i_valid := 0 |>);;
     releasesleep (inode_sleeplock ip);;
     acquire itable_lock);;
  seti ip (λ x, x <| i_ref ::= λ r, i32 (r - 1) |>);;
  release itable_lock.

Definition iunlockput (ip : nat) : K () := iunlock (Some ip);; iput ip.

(** ** File contents *)

Definition bmap (ip : nat) (bn : Z) : K Z :=
  x ← geti ip;
  if bn <? NDIRECT then
    if addr_at x (Z.to_nat bn) =? 0 then
      addr ← balloc (i_dev x);
      if addr =? 0 then mret 0
      else seti ip (λ x, x <| i_addrs ::= <[Z.to_nat bn := addr]> |>);; mret addr
    else mret (addr_at x (Z.to_nat bn))
  else
    let bn := bn - NDIRECT in
    if bn <? NINDIRECT then
      addr ← (if addr_at x NDIRECT =? 0 then
                addr ← balloc (i_dev x);
                when (negb (addr =? 0)) (seti ip (λ x, x <| i_addrs ::= <[NDIRECT := addr]> |>));;
                mret addr
              else mret (addr_at x NDIRECT));
      if addr =? 0 then mret 0
      else
        bp ← bread (i_dev x) addr;
        d ← getb bp;
        addr ← (if word_at (b_data d) (4 * Z.to_nat bn) =? 0 then
                  addr ← balloc (i_dev x);
                  when (negb (addr =? 0))
                    (setb bp (λ y, y <| b_data ::= λ d, put_word d (4 * Z.to_nat bn) addr |>);;
                     log_write bp);;
                  mret addr
                else mret (word_at (b_data d) (4 * Z.to_nat bn)));
        brelse bp;;
        mret addr
    else panic "bmap: out of range".

Record stat := mkStat { st_dev : Z; st_ino : Z; st_type : Z; st_nlink : Z; st_size : Z }.

Definition stati (ip : nat) : K stat :=
  x ← geti ip;
  mret (mkStat (i32 (i_dev x)) (i_inum x) (i_type x) (i_nlink x) (i_size x)).

(** [m] bytes of a block from offset [off]. *)
Definition block_slice (d : list Z) (off m : Z) : list Z := take (Z.to_nat m) (drop (Z.to_nat off) d).

(** One round of readi()'s loop on [tot], [off] and [dst], with the bytes copied
    so far; it ends with the return value. *)
Definition readi_body (ip : nat) (n : Z) (st : Z * Z * kdst * list Z) :
    K (Z * Z * kdst * list Z + Z * list Z) :=
  let '(tot, off, dst, acc) := st in
  if negb (tot <? n) then mret (inr (i32 tot, acc))
  else
    addr ← bmap ip (off / BSIZE);
    if addr =? 0 then mret (inr (i32 tot, acc))
    else
      x ← geti ip;
      bp ← bread (i_dev x) addr;
      let m := Z.min (n - tot) (BSIZE - off mod BSIZE) in
      d ← getb bp;
      let bs := block_slice (b_data d) (off mod BSIZE) m in
      rc ← either_copyout dst bs;
      brelse bp;;
      if rc =? -1 then mret (inr (-1, acc))
      else mret (inl (tot + m, off + m, dst_add dst m, acc ++ bs)).

(** A round covers a whole block except the first and the last. *)
Definition readi (ip : nat) (dst : kdst) (off n : Z) : K (Z * list Z) :=
  x ← geti ip;
  if (i_size x <? off) || (u32 (off + n) <? off) then mret (0, [])
  else
    let n := if i_size x <? u32 (off + n) then i_size x - off else n in
    loop (Z.to_nat (n / BSIZE) + 3) (readi_body ip n) (0, off, dst, []).

(** One round of writei()'s loop on [tot], [off] and [src]; it ends with the
    final [tot] and [off]. *)
Definition writei_body (ip : nat) (n : Z) (st : Z * Z * ksrc) : K (Z * Z * ksrc + Z * Z) :=
  let '(tot, off, src) := st in
  if negb (tot <? n) then mret (inr (tot, off))
  else
    addr ← bmap ip (off / BSIZE);
    if addr =? 0 then mret (inr (tot, off))
    else
      x ← geti ip;
      bp ← bread (i_dev x) addr;
      let m := Z.min (n - tot) (BSIZE - off mod BSIZE) in
      '(rc, bs) ← either_copyin src m;
      setb bp (λ y, y <| b_data ::= list_inserts (Z.to_nat (off mod BSIZE)) bs |>);;
      if rc =? -1 then
        brelse bp;;
        mret (inr (tot, off))
      else
        log_write bp;;
        brelse bp;;
        mret (inl (tot + m, off + m, src_add src m)).

Definition writei (ip : nat) (src : ksrc) (off n : Z) : K Z :=
  x ← geti ip;
  if (i_size x <? off) || (u32 (off + n) <? off) then mret (-1)
  else if MAXFILE * BSIZE <? u32 (off + n) then mret (-1)
  else
    '(tot, off) ← loop (Z.to_nat (n / BSIZE) + 3) (writei_body ip n) (0, off, src);
    x ← geti ip;
    when (i_size x <? off) (seti ip (λ x, x <| i_size := off |>));;
    iupdate ip;;
    mret (i32 tot).

(** ** Directories *)

(** Names are arrays of DIRSIZ bytes or NUL-terminated. *)
Definition namecmp (s t : list Z) : option Z := strncmp s t DIRSIZ.

(** One entry; the search ends with the inode's table entry and the offset. *)
Definition dirlookup_body (dp : nat) (name : list Z) (off : Z) : K (Z + option (nat * Z)) :=
  x ← geti dp;
  if negb (off <? i_size x) then mret (inr None)
  else
    '(r, bs) ← readi dp DVar off DIRENT_SIZE;
    if negb (r =? DIRENT_SIZE) then panic "dirlookup read"
    else
      let de := dirent_of bs in
      if d_inum de =? 0 then mret (inl (off + DIRENT_SIZE))
      else if bool_decide (namecmp name (d_name de) = Some 0) then
        ip ← iget (i_dev x) (d_inum de);
        mret (inr (Some (ip, off)))
      else mret (inl (off + DIRENT_SIZE)).

Definition dirlookup (dp : nat) (name : list Z) : K (option (nat * Z)) :=
  x ← geti dp;
  if negb (i_type x =? T_DIR) then panic "dirlookup not DIR"
  else loop (S (S (Z.to_nat (i_size x / DIRENT_SIZE)))) (dirlookup_body dp name) 0.

Definition dirlink_body (dp : nat) (off : Z) : K (Z + Z) :=
  x ← geti dp;
  if negb (off <? i_size x) then mret (inr off)
  else
    '(r, bs) ← readi dp DVar off DIRENT_SIZE;
    if negb (r =? DIRENT_SIZE) then panic "dirlink read"
    else if d_inum (dirent_of bs) =? 0 then mret (inr off)
    else mret (inl (off + DIRENT_SIZE)).

(** strncpy() writes all DIRSIZ bytes of [de.name]. *)
Definition dirlink (dp : nat) (name : list Z) (inum : Z) : K Z :=
  r ← dirlookup dp name;
  match r with
  | Some (ip, _) => iput ip;; mret (-1)
  | None =>
      x ← geti dp;
      off ← loop (S (S (Z.to_nat (i_size x / DIRENT_SIZE)))) (dirlink_body dp) 0;
      let de := mkDirent (u16 inum)
                  (default (replicate DIRSIZ 0) (strncpy (replicate DIRSIZ 0) name DIRSIZ)) in
      r ← writei dp (SVar (dirent_bytes de)) off DIRENT_SIZE;
      if negb (r =? DIRENT_SIZE) then mret (-1) else mret 0
  end.

(** ** Paths *)

(** A path is its bytes without the final NUL. *)
Fixpoint skip_slashes (path : list Z) : list Z :=
  match path with
  | c :: path' => if c =? 47 then skip_slashes path' else path
  | [] => []
  end.

Fixpoint path_elem (path : list Z) : list Z :=
  match path with
  | c :: path => if c =? 47 then [] else c :: path_elem path
  | [] => []
  end.

(** The rest of the path and the new contents of [name]; [None] is 0. *)
Definition skipelem (path name : list Z) : option (list Z * list Z) :=
  let path := skip_slashes path in
  match path with
  | [] => None
  | _ =>
      let s := path_elem path in
      let len := length s in
      let name := if (DIRSIZ <=? len)%nat then list_inserts 0 (take DIRSIZ s) name
                  else list_inserts 0 (s ++ [0]) name in
      Some (skip_slashes (drop len path), name)
  end.

Definition namex_body (nameiparent : bool) (st : nat * list Z * list Z) :
    K (nat * list Z * list Z + option nat * list Z) :=
  let '(ip, path, name) := st in
  match skipelem path name with
  | None =>
      if nameiparent then iput ip;; mret (inr (None, name)) else mret (inr (Some ip, name))
  | Some (path, name) =>
      ilock (Some ip);;
      x ← geti ip;
      if negb (i_type x =? T_DIR) then iunlockput ip;; mret (inr (None, name))
      else if nameiparent && bool_decide (path = []) then
        iunlock (Some ip);; mret (inr (Some ip, name))
      else
        r ← dirlookup ip name;
        match r with
        | None => iunlockput ip;; mret (inr (None, name))
        | Some (next, _) => iunlockput ip;; mret (inl (next, path, name))
        end
  end.

(** Every round consumes an element, so the path's length bounds them. *)
Definition namex (path : list Z) (nameiparent : bool) (name : list Z) : K (option nat * list Z) :=
  ip ← (if bool_decide (head path = Some 47) then iget ROOTDEV ROOTINO
        else
          p ← curproc;
          q ← getp p;
          match p_cwd q with Some ip => idup ip | None => null_deref end);
  loop (S (length path)) (namex_body nameiparent) (ip, path, name).

Definition namei (path : list Z) : K (option nat) :=
  '(ip, _) ← namex path false (replicate DIRSIZ 0);
  mret ip.

Definition nameiparent (path name : list Z) : K (option nat * list Z) := namex path true name.

End fs.
