(* ===== verification/FsFacts.v ===== *)
(** * File system theorems

    The on-disk inode, path names, and reading a file through the block map
    and the buffer cache. *)

From Stdlib Require Import ZArith Lia.
From stdpp Require Import base numbers strings option list gmap.
From S2P Require Import Prelude Params Machine Cstring Kalloc Vm VmPt VmUser VmCow VmFork VmExample Sched SchedFacts Uart Console Sleeplock Bio BioFacts Log LogFacts Fs.

Open Scope Z_scope.

(** ** Words in a block *)

Lemma put_half_lookup bs off v i :
  (off + 2 ≤ length bs)%nat → (i < 2)%nat → put_half bs off v !! (off + i)%nat = half_bytes v !! i.
Proof.
  intros Hl Hi. unfold put_half. rewrite list_lookup_inserts; [f_equal; lia|cbn; lia|lia].
Qed.

Lemma put_half_lookup_ne bs off v i :
  (i < off ∨ off + 2 ≤ i)%nat → put_half bs off v !! i = bs !! i.
Proof. intros Hi. unfold put_half. destruct Hi; [by rewrite list_lookup_inserts_lt|by rewrite list_lookup_inserts_ge by (cbn; lia)]. Qed.

Lemma length_put_half bs off v : length (put_half bs off v) = length bs.
Proof. apply length_inserts. Qed.

Lemma half_at_put bs off v :
  (off + 2 ≤ length bs)%nat → 0 ≤ v < 2 ^ 16 → half_at (put_half bs off v) off = v.
Proof.
  intros Hl Hv. pose proof (put_half_lookup bs off v 0 Hl ltac:(lia)) as E0. pose proof (put_half_lookup bs off v 1 Hl ltac:(lia)) as E1.
  rewrite Nat.add_0_r in E0. rewrite Nat.add_1_r in E1. unfold half_at. rewrite E0, E1. cbn.
  change (2 ^ 8) with 256 in *. Z.to_euclidean_division_equations. lia.
Qed.

(** Reading outside what was written. *)
Lemma half_at_ext bs bs' off : (∀ i, (off ≤ i < off + 2)%nat → bs' !! i = bs !! i) → half_at bs' off = half_at bs off.
Proof. intros H. unfold half_at. by rewrite !H by lia. Qed.

Lemma word_at_ext bs bs' off : (∀ i, (off ≤ i < off + 4)%nat → bs' !! i = bs !! i) → word_at bs' off = word_at bs off.
Proof. intros H. unfold word_at. by rewrite !H by lia. Qed.

Lemma words_lookup (l : list Z) i j x :
  l !! i = Some x → (j < 4)%nat → mjoin (word_bytes <$> l) !! (4 * i + j)%nat = word_bytes x !! j.
Proof.
  intros Hi Hj. revert i Hi. induction l as [|y l IH]; intros i Hi; [done|]. rewrite fmap_cons.
  change (mjoin (word_bytes y :: ?l)) with (word_bytes y ++ mjoin l).
  destruct i as [|i].
  - injection Hi as ->. rewrite lookup_app_l by (cbn; lia). done.
  - rewrite lookup_app_r by (cbn; lia). change (length (word_bytes y)) with 4%nat.
    replace (4 * S i + j - 4)%nat with (4 * i + j)%nat by lia. by apply IH.
Qed.

Lemma length_words (l : list Z) : length (mjoin (word_bytes <$> l)) = (4 * length l)%nat.
Proof. induction l as [|y l IH]; [done|]. rewrite fmap_cons.
  change (mjoin (word_bytes y :: ?l)) with (word_bytes y ++ mjoin l). rewrite length_app, IH. cbn. lia. Qed.

Lemma word_of_bytes bs off x : 0 ≤ x < 2 ^ 32 → (∀ j, (j < 4)%nat → bs !! (off + j)%nat = word_bytes x !! j) → word_at bs off = x.
Proof. intros Hx H. unfold word_at. rewrite !H by lia. cbn. rewrite <-(byte_split x Hx) at 5. done. Qed.

(** ** The inode on disk *)

(** The fields fit their C types. *)
Record dinode_ok (x : inode) : Prop := {
  do_type : - 2 ^ 15 ≤ i_type x < 2 ^ 15;
  do_major : - 2 ^ 15 ≤ i_major x < 2 ^ 15;
  do_minor : - 2 ^ 15 ≤ i_minor x < 2 ^ 15;
  do_nlink : - 2 ^ 15 ≤ i_nlink x < 2 ^ 15;
  do_size : 0 ≤ i_size x < 2 ^ 32;
  do_len : length (i_addrs x) = 13%nat;
  do_addrs : Forall (λ a, 0 ≤ a < 2 ^ 32) (i_addrs x);
}.

Lemma i16_u16 v : - 2 ^ 15 ≤ v < 2 ^ 15 → i16 (u16 v) = v.
Proof.
  intros Hv. unfold i16. replace (u16 (u16 v)) with (u16 v) by (unfold u16; by rewrite Z.mod_mod).
  unfold u16. change (2 ^ 16) with 65536. change (2 ^ 15) with 32768 in *.
  destruct (Z.ltb_spec (v mod 65536) 32768); Z.to_euclidean_division_equations; lia.
Qed.

Lemma length_dinode_put d off x : length (dinode_put d off x) = length d.
Proof. unfold dinode_put. by rewrite length_inserts, length_put_word, !length_put_half. Qed.

Lemma dinode_put_out d off x i :
  length (i_addrs x) = 13%nat → (i < off ∨ off + 64 ≤ i)%nat → dinode_put d off x !! i = d !! i.
Proof.
  intros Hl Hi. unfold dinode_put.
  assert (list_inserts (off + 12) (mjoin (word_bytes <$> i_addrs x)) = λ d, list_inserts (off + 12) (mjoin (word_bytes <$> i_addrs x)) d) by done.
  destruct Hi as [Hi|Hi]; [rewrite list_lookup_inserts_lt by lia|rewrite list_lookup_inserts_ge by (rewrite length_words; lia)];
    rewrite put_word_lookup_ne, !put_half_lookup_ne by lia; done.
Qed.

Lemma dinode_put_head d off x i :
  (off ≤ i < off + 12)%nat →
  dinode_put d off x !! i =
    put_word (put_half (put_half (put_half (put_half d off (u16 (i_type x))) (off + 2) (u16 (i_major x)))
      (off + 4) (u16 (i_minor x))) (off + 6) (u16 (i_nlink x))) (off + 8) (i_size x) !! i.
Proof. intros Hi. unfold dinode_put. by rewrite list_lookup_inserts_lt by lia. Qed.

Lemma addrs_ext (f : nat → Z) l : (∀ i x, l !! i = Some x → f i = x) → f <$> seq 0 (length l) = l.
Proof.
  intros H. apply list_eq. intros i. rewrite list_lookup_fmap. destruct (l !! i) as [x|] eqn:E.
  - rewrite lookup_seq_lt by (by eapply lookup_lt_Some). cbn. f_equal. by apply H.
  - rewrite lookup_seq_ge; [done|]. by apply lookup_ge_None.
Qed.

Lemma half_at_put_half_ne bs off off' v : (off' + 2 ≤ off ∨ off + 2 ≤ off')%nat → half_at (put_half bs off v) off' = half_at bs off'.
Proof. intros H. apply half_at_ext. intros i Hi. apply put_half_lookup_ne. lia. Qed.

Lemma half_at_put_word_ne bs off off' v : (off' + 2 ≤ off ∨ off + 4 ≤ off')%nat → half_at (put_word bs off v) off' = half_at bs off'.
Proof. intros H. apply half_at_ext. intros i Hi. apply put_word_lookup_ne. lia. Qed.

Lemma dinode_halves d off x :
  (off + 64 ≤ length d)%nat →
  half_at (dinode_put d off x) off = u16 (i_type x) ∧ half_at (dinode_put d off x) (off + 2) = u16 (i_major x) ∧
  half_at (dinode_put d off x) (off + 4) = u16 (i_minor x) ∧ half_at (dinode_put d off x) (off + 6) = u16 (i_nlink x).
Proof.
  intros Hl. assert (∀ v, 0 ≤ u16 v < 2 ^ 16) as Hu by apply u16_range.
  repeat split; (etransitivity; [apply half_at_ext; intros i Hi; apply dinode_put_head; lia|]);
    rewrite half_at_put_word_ne by lia; repeat (rewrite half_at_put_half_ne by lia);
    apply half_at_put; rewrite ?length_put_half; auto with lia.
Qed.

Lemma dinode_words d off x :
  (off + 64 ≤ length d)%nat → dinode_ok x →
  word_at (dinode_put d off x) (off + 8) = i_size x ∧
  (λ i, word_at (dinode_put d off x) (off + 12 + 4 * i)) <$> seq 0 13 = i_addrs x.
Proof.
  intros Hl [_ _ _ _ H5 H6 H7]. split.
  - etransitivity; [apply word_at_ext; intros i Hi; apply dinode_put_head; lia|].
    apply word_at_put; [rewrite !length_put_half; lia|done].
  - rewrite <-H6. apply addrs_ext. intros i a Ha. pose proof (lookup_lt_Some _ _ _ Ha) as Hi.
    apply word_of_bytes; [by eapply (Forall_lookup_1 _ _ _ _ H7)|]. intros j Hj. unfold dinode_put.
    rewrite list_lookup_inserts; rewrite ?length_words, ?length_put_word, ?length_put_half; [|lia|lia].
    rewrite <-(words_lookup (i_addrs x) i j a Ha Hj). f_equal. lia.
Qed.

Lemma dinode_get_put d off x y :
  (off + 64 ≤ length d)%nat → dinode_ok x →
  dinode_get (dinode_put d off x) off y =
    y <| i_type := i_type x |> <| i_major := i_major x |> <| i_minor := i_minor x |> <| i_nlink := i_nlink x |>
      <| i_size := i_size x |> <| i_addrs := i_addrs x |>.
Proof.
  intros Hl Hok.
  destruct (dinode_halves d off x Hl) as (E1 & E2 & E3 & E4). destruct (dinode_words d off x Hl Hok) as [E5 E6].
  unfold dinode_get. rewrite E1, E2, E3, E4, E5, E6, !i16_u16 by apply Hok. done.
Qed.

Lemma dinode_get_ext d d' off y :
  (∀ i, (off ≤ i < off + 64)%nat → d' !! i = d !! i) → dinode_get d' off y = dinode_get d off y.
Proof.
  intros H. unfold dinode_get. rewrite !(half_at_ext d d'), (word_at_ext d d') by (intros; apply H; lia).
  assert ((λ i, word_at d' (off + 12 + 4 * i)) <$> seq 0 13 = (λ i, word_at d (off + 12 + 4 * i)) <$> seq 0 13) as ->; [|done].
  apply list_fmap_ext. intros i j Hj. apply lookup_seq in Hj as [-> Hi]. apply word_at_ext. intros k Hk. apply H. lia.
Qed.

(** iupdate()'s store and ilock()'s load of the disk inode are inverse, and
    the store touches none of the other inodes of the block. *)
Theorem dinode_roundtrip d off x y :
  (off + 64 ≤ length d)%nat → dinode_ok x →
  dinode_get (dinode_put d off x) off y =
    y <| i_type := i_type x |> <| i_major := i_major x |> <| i_minor := i_minor x |> <| i_nlink := i_nlink x |>
      <| i_size := i_size x |> <| i_addrs := i_addrs x |> ∧
  length (dinode_put d off x) = length d ∧
  ∀ i, (i < off ∨ off + 64 ≤ i)%nat → dinode_put d off x !! i = d !! i.
Proof.
  intros Hl Hok. split; [by apply dinode_get_put|]. split; [apply length_dinode_put|]. intros i. apply dinode_put_out, Hok.
Qed.

(** ** Bits of the free bitmap *)

Lemma bit_used_testbit d b : 0 ≤ b → bit_used d b = Z.testbit (default 0 (d !! Z.to_nat (b / 8))) (b mod 8).
Proof.
  intros Hb. unfold bit_used. set (x := default 0 _). set (k := b mod 8). assert (0 ≤ k) as Hk by (apply Z.mod_pos_bound; done).
  rewrite Z.shiftl_1_l. destruct (Z.testbit x k) eqn:E.
  - apply negb_true_iff, Z.eqb_neq. intros H0. apply (f_equal (λ y, Z.testbit y k)) in H0.
    rewrite Z.land_spec, E, Z.pow2_bits_true, Z.bits_0 in H0 by done. done.
  - apply negb_false_iff, Z.eqb_eq. apply Z.bits_inj'. intros j Hj. rewrite Z.land_spec, Z.bits_0.
    destruct (decide (j = k)) as [->|Hne]; [by rewrite E|]. by rewrite Z.pow2_bits_false, andb_false_r by lia.
Qed.

Lemma bit_used_mark d a b :
  0 ≤ a < 8 * length d → 0 ≤ b → bit_used (bit_mark d a) b = bit_used d b || (b =? a).
Proof.
  intros Ha Hb. rewrite !bit_used_testbit by done. unfold bit_mark. set (i := Z.to_nat (a / 8)).
  destruct (decide (Z.to_nat (b / 8) = i)) as [E|E].
  - rewrite E, list_lookup_alter_eq. destruct (lookup_lt_is_Some_2 d i) as [x Hx].
    { unfold i. Z.to_euclidean_division_equations. lia. }
    rewrite Hx. cbn [fmap option_fmap option_map default id from_option]. rewrite Z.lor_spec, Z.shiftl_1_l, Z.pow2_bits_eqb by (apply Z.mod_pos_bound; done).
    f_equal. apply eq_bool_prop_intro. rewrite !Is_true_true, !Z.eqb_eq. unfold i in E. Z.to_euclidean_division_equations. lia.
  - rewrite list_lookup_alter_ne by done. rewrite (proj2 (Z.eqb_neq b a)), orb_false_r; [done|]. intros ->. done.
Qed.

Lemma bit_used_clear d a b :
  0 ≤ a < 8 * length d → 0 ≤ b → bit_used (bit_clear d a) b = bit_used d b && negb (b =? a).
Proof.
  intros Ha Hb. rewrite !bit_used_testbit by done. unfold bit_clear. set (i := Z.to_nat (a / 8)).
  destruct (decide (Z.to_nat (b / 8) = i)) as [E|E].
  - rewrite E, list_lookup_alter_eq. destruct (lookup_lt_is_Some_2 d i) as [x Hx].
    { unfold i. Z.to_euclidean_division_equations. lia. }
    pose proof (Z.mod_pos_bound b 8 ltac:(done)). pose proof (Z.mod_pos_bound a 8 ltac:(done)).
    rewrite Hx. cbn [fmap option_fmap option_map default id from_option]. unfold u8.
    rewrite Z.mod_pow2_bits_low, Z.land_spec, Z.lnot_spec, Z.shiftl_1_l, Z.pow2_bits_eqb by lia.
    do 2 f_equal. apply eq_bool_prop_intro. rewrite !Is_true_true, !Z.eqb_eq. unfold i in E. Z.to_euclidean_division_equations. lia.
  - rewrite list_lookup_alter_ne by done. rewrite (proj2 (Z.eqb_neq b a)), andb_true_r; [done|]. intros ->. done.
Qed.

(** ** Path names *)

(** The elements of a path: what lies between slashes, empty pieces left out. *)
Fixpoint split_path (path : list Z) : list (list Z) :=
  match path with
  | [] => [[]]
  | c :: path =>
      if c =? 47 then [] :: split_path path
      else match split_path path with e :: es => (c :: e) :: es | [] => [[c]] end
  end.
Definition path_elems (path : list Z) : list (list Z) := filter (λ e, e ≠ []) (split_path path).

(** [name] after an element is copied into it. *)
Definition name_of (e name : list Z) : list Z :=
  if (DIRSIZ <=? length e)%nat then take DIRSIZ e else e ++ [0] ++ drop (S (length e)) name.

Lemma path_elems_slash path : path_elems (47 :: path) = path_elems path.
Proof. done. Qed.

Lemma path_elems_skip path : path_elems (skip_slashes path) = path_elems path.
Proof.
  induction path as [|c path IH]; [done|]. cbn [skip_slashes]. destruct (Z.eqb_spec c 47) as [->|]; [|done]. by rewrite IH.
Qed.

Lemma split_path_elem path :
  split_path path = path_elem path :: (match drop (length (path_elem path)) path with [] => [] | _ :: rest => split_path rest end).
Proof.
  induction path as [|c path IH]; [done|]. cbn. destruct (c =? 47); [done|]. rewrite IH. done.
Qed.

Lemma drop_elem path : drop (length (path_elem path)) path = [] ∨ ∃ rest, drop (length (path_elem path)) path = 47 :: rest.
Proof.
  induction path as [|c path IH]; [by left|]. cbn. destruct (Z.eqb_spec c 47) as [->|]; [right; by eexists|]. done.
Qed.

Lemma skip_slashes_head path : head (skip_slashes path) ≠ Some 47.
Proof. induction path as [|c path IH]; [done|]. cbn. destruct (Z.eqb_spec c 47); [done|]. cbn. congruence. Qed.

Lemma skip_slashes_nil path : skip_slashes path = [] ↔ path_elems path = [].
Proof.
  rewrite <-path_elems_skip. pose proof (skip_slashes_head path) as Hh. destruct (skip_slashes path) as [|c l]; [done|].
  split; [done|]. unfold path_elems. rewrite split_path_elem. cbn. destruct (Z.eqb_spec c 47) as [->|]; [done|].
  by rewrite decide_True by done.
Qed.

Lemma skip_slashes_length path : (length (skip_slashes path) ≤ length path)%nat.
Proof. induction path as [|c path IH]; [done|]. cbn. destruct (c =? 47); cbn; lia. Qed.

Lemma inserts_0 (k l : list Z) : (length k ≤ length l)%nat → list_inserts 0 k l = k ++ drop (length k) l.
Proof.
  intros Hl. apply list_eq. intros i. destruct (decide (i < length k)%nat) as [Hi|Hi].
  - rewrite list_lookup_inserts, lookup_app_l by lia. by rewrite Nat.sub_0_r.
  - rewrite list_lookup_inserts_ge, lookup_app_r, lookup_drop by lia. f_equal. lia.
Qed.

(** skipelem() takes the first element off a path.  It returns 0 exactly when
    no element is left; otherwise the rest of the path has the other elements,
    is empty exactly when there is none, starts with no slash and is shorter,
    and [name] holds the element, cut to DIRSIZ bytes or NUL-terminated. *)
Theorem skipelem_correct path name :
  length name = DIRSIZ →
  match path_elems path with
  | [] => skipelem path name = None
  | e :: es =>
      ∃ rest, skipelem path name = Some (rest, name_of e name) ∧ path_elems rest = es ∧
        (rest = [] ↔ es = []) ∧ head rest ≠ Some 47 ∧ (length rest < length path)%nat
  end.
Proof.
  intros Hn. pose proof (skip_slashes_nil path) as Hnil. pose proof (skip_slashes_head path) as Hh.
  pose proof (skip_slashes_length path) as Hlen. rewrite <-path_elems_skip in Hnil |- *.
  unfold skipelem. set (p := skip_slashes path) in *.
  destruct p as [|c l] eqn:Ep; [done|]. assert (c ≠ 47) as Hc by (cbn in Hh; congruence).
  set (e := path_elem (c :: l)). assert (e ≠ []) as He by (unfold e; cbn; by rewrite (proj2 (Z.eqb_neq _ _) Hc)).
  assert (path_elems (c :: l) = e :: path_elems (skip_slashes (drop (length e) (c :: l)))) as El.
  { unfold path_elems at 1. rewrite split_path_elem. fold e. rewrite filter_cons_True by done. f_equal.
    rewrite path_elems_skip. destruct (drop_elem (c :: l)) as [Ed|[r Ed]]; fold e in Ed; rewrite Ed; done. }
  clearbody e. rewrite El. exists (skip_slashes (drop (length e) (c :: l))). split; [|split; [done|split; [|split; [apply skip_slashes_head|]]]].
  - do 2 f_equal. unfold name_of. destruct (DIRSIZ <=? length e)%nat eqn:Hd.
    + apply Nat.leb_le in Hd. rewrite inserts_0 by (rewrite length_take; lia). rewrite length_take, drop_ge, app_nil_r; [done|lia].
    + apply Nat.leb_gt in Hd. rewrite inserts_0, <-app_assoc by (rewrite length_app; cbn; lia). rewrite length_app.
      do 2 f_equal. cbn. do 2 f_equal. lia.
  - rewrite skip_slashes_nil, path_elems_skip. done.
  - pose proof (skip_slashes_length (drop (length e) (c :: l))). rewrite length_drop in *.
    assert (0 < length e)%nat by (destruct e; cbn; [done|lia]). cbn in *. lia.
Qed.

(** ** Reading a file *)

(** The disk block of block [bn] of a file, through the indirect block from
    [NDIRECT] on, and [m] bytes of the file from offset [a]. *)
Definition file_addr (v : Z → list Z) (x : inode) (bn : Z) : Z :=
  if bn <? NDIRECT then addr_at x (Z.to_nat bn) else word_at (v (addr_at x NDIRECT)) (4 * Z.to_nat (bn - NDIRECT)).

Definition file_bytes (v : Z → list Z) (x : inode) (a m : Z) : list Z :=
  (λ k, default 0 (v (file_addr v x ((a + k) / BSIZE)) !! Z.to_nat ((a + k) mod BSIZE))) <$> seqZ 0 m.

(** Block [bn] of the file is allocated, and its disk block has BSIZE bytes. *)
Record mapped (v : Z → list Z) (x : inode) (bn : Z) : Prop := {
  mp_range : 0 ≤ bn < MAXFILE;
  mp_addr : file_addr v x bn ≠ 0;
  mp_ind : NDIRECT ≤ bn → addr_at x NDIRECT ≠ 0;
  mp_len : length (v (file_addr v x bn)) = Z.to_nat BSIZE;
}.

Lemma length_file_bytes v x a m : 0 ≤ m → Z.of_nat (length (file_bytes v x a m)) = m.
Proof. intros Hm. unfold file_bytes. rewrite length_fmap, length_seqZ. lia. Qed.

Lemma file_bytes_app v x a n m :
  0 ≤ n → 0 ≤ m → file_bytes v x a (n + m) = file_bytes v x a n ++ file_bytes v x (a + n) m.
Proof.
  intros Hn Hm. unfold file_bytes. rewrite (seqZ_app 0 n m), fmap_app by lia. f_equal.
  rewrite (Z.add_comm 0 n), <-(fmap_add_seqZ n 0 m), <-list_fmap_compose. apply list_fmap_ext. intros _ i _. cbn.
  by rewrite Z.add_assoc.
Qed.

(** The bytes of one block. *)
Lemma file_bytes_block v x a m :
  0 ≤ a → 0 ≤ m → a mod BSIZE + m ≤ BSIZE → mapped v x (a / BSIZE) →
  block_slice (v (file_addr v x (a / BSIZE))) (a mod BSIZE) m = file_bytes v x a m.
Proof.
  intros Ha Hm Hle Hmp. pose proof (Z.mod_pos_bound a BSIZE ltac:(done)) as Hr.
  apply list_eq. intros i. unfold block_slice, file_bytes. rewrite list_lookup_fmap.
  destruct (decide (i < m)) as [Hi|Hi].
  - rewrite lookup_take_lt, lookup_drop, lookup_seqZ_lt by lia. cbn [fmap option_fmap option_map].
    assert ((a + (0 + i)) / BSIZE = a / BSIZE ∧ (a + (0 + i)) mod BSIZE = a mod BSIZE + i) as [-> ->].
    { unfold BSIZE in *. Z.to_euclidean_division_equations. lia. }
    replace (Z.to_nat (a mod BSIZE + i)) with (Z.to_nat (a mod BSIZE) + i)%nat by lia.
    destruct (lookup_lt_is_Some_2 (v (file_addr v x (a / BSIZE))) (Z.to_nat (a mod BSIZE) + i)%nat) as [y Hy].
    { rewrite (mp_len _ _ _ Hmp). lia. }
    rewrite Hy. done.
  - rewrite lookup_seqZ_ge by lia. apply lookup_take_ge. lia.
Qed.

Section reading.
Context `{Linker} `{Patience} (pr : nat) (q : proc) (dev : Z) (w : view) (x : inode).
Context (Hpat : (0 < patience)%nat) (Hown : v_own w = ∅) (Hroom : (size (v_refs w) < NBUF)%nat).
Context (Hrefs : ∀ n, default 0 (v_refs w !! n) + 1 < 2 ^ 32) (Hdev : i_dev x = dev).

Lemma io_frame_itable s s' : io_frame s s' → itable s' = itable s.
Proof. intros [ps ->]. done. Qed.

(** A block read and released. *)
Lemma peek n s :
  io pr q dev w s →
  ∃ b s1 s2, bread dev n s = Ret b s1 ∧ b_data (buf_at s1 b) = v_data w n ∧ itable s1 = itable s ∧
    brelse b s1 = Ret () s2 ∧ io pr q dev w s2 ∧ io_frame s s2 ∧ disk s2 = disk s ∧ dwrites s2 = dwrites s.
Proof.
  intros Hio. destruct (bread_io pr q dev Hpat n w s Hio) as (b & s1 & E1 & Es1 & Hio1 & Hof & _); [by apply own_empty|done|apply Hrefs|].
  destruct (owned_buf s1 q dev _ (io_bio _ _ _ _ _ Hio1) n b (in_own n w) Hof) as (_ & Ed & _).
  destruct (brelse_io pr q dev n b _ s1 Hio1 (in_own n w) Hof) as (s2 & ps & E2 & Es2 & Hio2 & _).
  { intros H1. cbn in H1 |- *. rewrite Es1. cbn. apply (bio_clean q dev w s); [apply Hio|].
    rewrite refs_add_lookup in H1. destruct (v_refs w !! n) as [c|] eqn:Ec; [|done]. cbn in H1.
    pose proof (bio_pos _ _ _ _ (io_bio _ _ _ _ _ Hio) _ _ Ec). destruct (c + 1 =? 0); [done|]. injection H1. lia. }
  exists b, s1, s2. split; [done|]. split; [done|]. split; [by rewrite Es1|]. split; [done|]. split.
  - eapply io_ext; [..|exact Hio2]; [done|..].
    + cbn. rewrite refs_add_add, refs_add_0; [done|]. by eapply refs_nonzero.
    + cbn. rewrite Hown. apply set_eq. intros m. rewrite !elem_of_difference, !elem_of_union, !elem_of_singleton, !elem_of_empty. tauto.
  - split; [exists ps; rewrite Es2, Es1; done|]. by rewrite Es2, Es1.
Qed.

Lemma geti_eq ip s : itable s !! ip = Some x → geti ip s = Ret x s.
Proof. intros E. unfold geti, gets. by rewrite E. Qed.

Lemma bmap_mapped ip bn s :
  io pr q dev w s → itable s !! ip = Some x → mapped (v_data w) x bn →
  ∃ s', bmap ip bn s = Ret (file_addr (v_data w) x bn) s' ∧ io pr q dev w s' ∧ io_frame s s' ∧
    disk s' = disk s ∧ dwrites s' = dwrites s.
Proof.
  intros Hio Hip [Hr Ha Hi _]. unfold bmap, file_addr in *. msimpl. mrun geti_eq by done.
  destruct (Z.ltb_spec bn NDIRECT) as [Hd|Hd].
  - rewrite (proj2 (Z.eqb_neq _ _) Ha). exists s. split; [done|]. split; [done|]. split; [apply io_frame_refl|done].
  - mif_true by (unfold MAXFILE in Hr; lia). rewrite (proj2 (Z.eqb_neq _ _) (Hi Hd)). msimpl. rewrite (proj2 (Z.eqb_neq _ _) (Hi Hd)), Hdev.
    destruct (peek (addr_at x NDIRECT) s Hio) as (b & s1 & s2 & E1 & Ed & _ & E2 & Hio2 & Hf & Hdk & Hdw).
    mrun E1. mrun getb_at. rewrite Ed, (proj2 (Z.eqb_neq _ _) Ha). msimpl. mrun E2. by exists s2.
Qed.

Lemma readi_round ip n off tot acc s :
  io pr q dev w s → itable s !! ip = Some x → mapped (v_data w) x ((off + tot) / BSIZE) →
  0 ≤ off → 0 ≤ tot < n → off + n < 2 ^ 31 →
  let m := Z.min (n - tot) (BSIZE - (off + tot) mod BSIZE) in
  ∃ s', readi_body ip n (tot, off + tot, DVar, acc) s =
      Ret (inl (tot + m, off + (tot + m), DVar, acc ++ file_bytes (v_data w) x (off + tot) m)) s' ∧
    io pr q dev w s' ∧ io_frame s s' ∧ disk s' = disk s ∧ dwrites s' = dwrites s ∧ 0 < m ≤ n - tot ∧
    (tot + m = n ∨ (off + (tot + m)) / BSIZE = (off + tot) / BSIZE + 1).
Proof.
  intros Hio Hip Hmp Hoff Htot Hn m. pose proof (Z.mod_pos_bound (off + tot) BSIZE ltac:(done)) as Hr.
  destruct (bmap_mapped ip _ s Hio Hip Hmp) as (s1 & E1 & Hio1 & Hf1 & Hd1 & Hw1).
  destruct (peek (file_addr (v_data w) x ((off + tot) / BSIZE)) s1 Hio1) as (b & s2 & s3 & E2 & Ed & Ei & E3 & Hio3 & Hf3 & Hd3 & Hw3).
  exists s3. split; [|split; [done|split; [by eapply io_frame_trans|]]].
  - unfold readi_body. mif_false by (apply negb_false_iff; lia). mrun E1. rewrite (proj2 (Z.eqb_neq _ _) (mp_addr _ _ _ Hmp)). msimpl.
    mrun (geti_eq ip s1) by (by rewrite (io_frame_itable _ _ Hf1)). rewrite Hdev. mrun E2. mrun getb_at. rewrite Ed. fold m.
    cbn [either_copyout]. unfold mret at 1, M_ret. cbn [bindO]. mrun E3. cbn [Z.eqb].
    rewrite file_bytes_block by (done || lia). by rewrite Z.add_assoc.
  - rewrite Hd3, Hd1, Hw3, Hw1. split; [done|]. split; [done|]. unfold m. split; [lia|].
    destruct (Z.min_spec (n - tot) (BSIZE - (off + tot) mod BSIZE)) as [[_ ->]|[Hge ->]]; [left; lia|right].
    unfold BSIZE in *. Z.to_euclidean_division_equations. lia.
Qed.

Lemma readi_loop ip n off (fuel : nat) : ∀ tot acc s,
  io pr q dev w s → itable s !! ip = Some x →
  (∀ bn, off / BSIZE ≤ bn → bn * BSIZE < off + n → mapped (v_data w) x bn) →
  0 ≤ off → 0 ≤ tot ≤ n → off + n < 2 ^ 31 →
  (tot < n → (off + n - 1) / BSIZE - (off + tot) / BSIZE + 1 < fuel) → (0 < fuel)%nat →
  ∃ s', loop fuel (readi_body ip n) (tot, off + tot, DVar, acc) s =
      Ret (n, acc ++ file_bytes (v_data w) x (off + tot) (n - tot)) s' ∧
    io pr q dev w s' ∧ io_frame s s' ∧ disk s' = disk s ∧ dwrites s' = dwrites s.
Proof.
  induction fuel as [|fuel IH]; intros tot acc s Hio Hip Hmap Hoff Htot Hn Hfuel Hf0; [lia|].
  destruct (decide (tot = n)) as [->|Hne].
  { exists s. rewrite Z.sub_diag. rewrite (loop_exit _ _ _ _ (n, acc) s).
    - split; [by rewrite app_nil_r|]. split; [done|]. split; [apply io_frame_refl|done].
    - unfold readi_body. mif_true by (apply negb_true_iff; lia). by rewrite i32_small by lia. }
  assert (mapped (v_data w) x ((off + tot) / BSIZE)) as Hmp.
  { apply Hmap; unfold BSIZE; Z.to_euclidean_division_equations; lia. }
  destruct (readi_round ip n off tot acc s Hio Hip Hmp Hoff ltac:(lia) Hn) as (s1 & E1 & Hio1 & Hf1 & Hd1 & Hw1 & Hm & Hnext).
  set (m := Z.min _ _) in *. specialize (Hfuel ltac:(lia)).
  destruct (IH (tot + m) (acc ++ file_bytes (v_data w) x (off + tot) m) s1) as (s2 & E2 & Hio2 & Hf2 & Hd2 & Hw2); try done; try lia.
  { by rewrite (io_frame_itable _ _ Hf1). }
  { pose proof (Z.div_le_mono (off + tot) (off + n - 1) BSIZE ltac:(done) ltac:(lia)). lia. }
  exists s2. rewrite (loop_next _ _ _ _ _ _ E1), E2. split; [|split; [done|split; [by eapply io_frame_trans|by rewrite Hd2, Hw2]]].
  f_equal. f_equal. rewrite <-app_assoc. f_equal. replace (n - tot) with (m + (n - (tot + m))) by lia.
  rewrite file_bytes_app by lia. by rewrite Z.add_assoc.
Qed.
End reading.

(** The whole call, with what it leaves alone. *)
Lemma readi_spec `{Linker} `{Patience} pr q dev w x ip off n s :
  io pr q dev w s → (0 < patience)%nat → v_own w = ∅ → (size (v_refs w) < NBUF)%nat →
  (∀ m, default 0 (v_refs w !! m) + 1 < 2 ^ 32) →
  itable s !! ip = Some x → i_dev x = dev → 0 ≤ off → 0 ≤ n → off + n < 2 ^ 31 → 0 ≤ i_size x →
  (∀ bn, 0 ≤ bn → bn * BSIZE < i_size x → mapped (v_data w) x bn) →
  let m := if i_size x <? off then 0 else Z.min n (i_size x - off) in
  ∃ s', readi ip DVar off n s = Ret (m, file_bytes (v_data w) x off m) s' ∧
    io pr q dev w s' ∧ io_frame s s' ∧ disk s' = disk s ∧ dwrites s' = dwrites s.
Proof.
  intros Hio Hpat Hown Hroom Hrefs Hip Hdev Hoff Hn Hov Hsz Hmap m. unfold readi. msimpl. mrun (geti_eq x) by done.
  rewrite !u32_small by lia. rewrite (proj2 (Z.ltb_ge (off + n) off)), orb_false_r by lia. unfold m.
  destruct (Z.ltb_spec (i_size x) off) as [Hlt|Hge]; [exists s; split_and!; [done|done|apply io_frame_refl|done|done]|].
  replace (if i_size x <? off + n then i_size x - off else n) with (Z.min n (i_size x - off)) by (destruct (Z.ltb_spec (i_size x) (off + n)); lia).
  set (k := Z.min n (i_size x - off)).
  destruct (readi_loop pr q dev w x Hpat Hown Hroom Hrefs Hdev ip k off (Z.to_nat (k / BSIZE) + 3) 0 [] s) as (s' & E & Hio' & Hf & Hd & Hw);
    try done; try lia.
  - intros bn H1 H2. apply Hmap; [|lia]. transitivity (off / BSIZE); [apply Z.div_pos; [lia|done]|done].
  - intros Hk. rewrite Z.add_0_r. pose proof (Z.div_pos k BSIZE ltac:(lia) ltac:(done)).
    unfold BSIZE in *. Z.to_euclidean_division_equations. lia.
  - exists s'. rewrite Z.add_0_r, Z.sub_0_r in E. done.
Qed.

(** C14: readi() of a file whose blocks are allocated returns the file's bytes
    from the offset on, across direct and indirect blocks, clipped to the
    file's size, or nothing from an offset past the end; it neither changes
    any block nor writes to the disk, and its loop ends. *)
Theorem readi_correct `{Linker} `{Patience} pr q dev w x ip off n s :
  io pr q dev w s → (0 < patience)%nat → v_own w = ∅ → (size (v_refs w) < NBUF)%nat →
  (∀ m, default 0 (v_refs w !! m) + 1 < 2 ^ 32) →
  itable s !! ip = Some x → i_dev x = dev → 0 ≤ off → 0 ≤ n → off + n < 2 ^ 31 → 0 ≤ i_size x →
  (∀ bn, 0 ≤ bn → bn * BSIZE < i_size x → mapped (v_data w) x bn) →
  let m := if i_size x <? off then 0 else Z.min n (i_size x - off) in
  ∃ s', readi ip DVar off n s = Ret (m, file_bytes (v_data w) x off m) s' ∧
    io pr q dev w s' ∧ disk s' = disk s ∧ dwrites s' = dwrites s.
Proof.
  intros Hio Hpat Hown Hroom Hrefs Hip Hdev Hoff Hn Hov Hsz Hmap m.
  destruct (readi_spec pr q dev w x ip off n s Hio Hpat Hown Hroom Hrefs Hip Hdev Hoff Hn Hov Hsz Hmap) as (s' & E & Hio' & _ & Hd & Hw).
  by exists s'.
Qed.

(** ** Witnesses *)

#[local] Instance ex_patience : Patience := 1%nat.

(** A file of 1100 bytes in blocks 50 and 51 of device 1, and its disk. *)
Definition ex_inode : inode :=
  mkInode 1 3 1 (mkSleeplock 0 0) 1 T_FILE 0 0 1 1100 (50 :: 51 :: replicate 11 0).
Definition ex_file_disk : gmap Z (list Z) := {[50 := replicate 1024 65; 51 := replicate 1024 66]}.
Definition ex_files : kernel := ex_fs <| disk := ex_file_disk |> <| itable := <[0%nat := ex_inode]> (replicate NINODE inode0) |>.

Lemma ex_inode_ok : dinode_ok ex_inode.
Proof. split; try done. repeat constructor; done. Qed.

Lemma dinode_roundtrip_witness :
  dinode_get (dinode_put zero_block 192 ex_inode) 192 inode0 =
    inode0 <| i_type := T_FILE |> <| i_major := 0 |> <| i_minor := 0 |> <| i_nlink := 1 |> <| i_size := 1100 |>
           <| i_addrs := 50 :: 51 :: replicate 11 0 |>.
Proof. apply (dinode_roundtrip zero_block 192 ex_inode inode0); [vm_compute; lia|apply ex_inode_ok]. Defined.

Lemma skipelem_correct_witness :
  ∃ rest, skipelem (str "//usr/bin") (replicate DIRSIZ 0) = Some (rest, name_of (str "usr") (replicate DIRSIZ 0)) ∧
    path_elems rest = [str "bin"].
Proof.
  destruct (skipelem_correct (str "//usr/bin") (replicate DIRSIZ 0) eq_refl) as (rest & E & Ee & _).
  exists rest. split; [exact E|exact Ee].
Defined.

Lemma readi_correct_witness :
  ∃ s', @readi ex_linker 1%nat 0 DVar 1023 200 ex_files = Ret (77, 65 :: replicate 76 66) s'.
Proof.
  destruct (@readi_correct ex_linker 1%nat 0%nat ex_fs_proc 1 (mkView (block_at ex_file_disk) ∅ ∅) ex_inode 0 1023 200 ex_files)
    as (s' & E & _).
  - split; [by split|]. apply (boot_bio _ _ ex_files); [discriminate|reflexivity].
  - unfold patience. lia.
  - reflexivity.
  - cbn. rewrite map_size_empty. unfold NBUF. lia.
  - intros m. reflexivity.
  - reflexivity.
  - reflexivity.
  - lia.
  - lia.
  - lia.
  - vm_compute. discriminate.
  - intros bn H0 H1. change (i_size ex_inode) with 1100 in H1. unfold BSIZE in H1.
    assert (bn = 0 ∨ bn = 1) as [-> | ->] by lia; (split; [|vm_compute; discriminate|vm_compute; done|vm_compute; reflexivity]).
    + vm_compute. split; [discriminate|reflexivity].
    + vm_compute. split; [discriminate|reflexivity].
  - exists s'. rewrite E. vm_compute. reflexivity.
Defined.
