(* ===== verification/FsDir.v ===== *)
(** * Directories and the inode table

    iget() on the table of in-memory inodes, and dirlookup(): a search through
    the entries of a directory, read with readi() from the blocks of its file,
    that ends with iget(). *)

From Stdlib Require Import ZArith Lia.
From stdpp Require Import base numbers strings option list gmap.
From S2P Require Import Prelude Params Machine Cstring Kalloc Sched SchedFacts Uart Sleeplock Bio BioFacts Log LogFacts Fs FsFacts VmExample.

Open Scope Z_scope.

(** ** iget()

    The entry that holds the inode gets one more reference; otherwise the first
    free entry is taken for it, to be read in by ilock(). *)

Definition cached (dev inum : Z) (x : inode) : Prop := 0 < i_ref x ∧ i_dev x = dev ∧ i_inum x = inum.

#[export] Instance cached_dec dev inum x : Decision (cached dev inum x).
Proof. unfold cached. apply _. Defined.

Definition iget_table (t : list inode) (dev inum : Z) : option (nat * list inode) :=
  match list_find (cached dev inum) t with
  | Some (ip, _) => Some (ip, alter (λ x, x <| i_ref ::= λ r, i32 (r + 1) |>) ip t)
  | None =>
      match list_find (λ x, i_ref x = 0) t with
      | Some (ip, _) =>
          Some (ip, alter (λ x, x <| i_dev := dev |> <| i_inum := inum |> <| i_ref := 1 |> <| i_valid := 0 |>) ip t)
      | None => None
      end
  end.

Lemma cached_bool dev inum x :
  (0 <? i_ref x) && (i_dev x =? dev) && (i_inum x =? inum) = bool_decide (cached dev inum x).
Proof.
  unfold cached. destruct (Z.ltb_spec 0 (i_ref x)), (Z.eqb_spec (i_dev x) dev), (Z.eqb_spec (i_inum x) inum); cbn; symmetry;
    (apply bool_decide_eq_true || apply bool_decide_eq_false); naive_solver lia.
Qed.

Lemma iget_scan dev inum s : ∀ m k empty,
  (k + m = length (itable s))%nat → held s = [itable_lock] →
  for_scan (seq k m) (iget_step dev inum) empty s =
  match list_find (cached dev inum) (drop k (itable s)) with
  | Some (j, _) =>
      Ret (inr (k + j)%nat) (s <| itable := alter (λ x, x <| i_ref ::= λ r, i32 (r + 1) |>) (k + j)%nat (itable s) |> <| held := [] |>)
  | None =>
      Ret (inl (match empty with
                | Some _ => empty
                | None => (λ p, k + p.1)%nat <$> list_find (λ x, i_ref x = 0) (drop k (itable s))
                end)) s
  end.
Proof.
  induction m as [|m IH]; intros k empty Hk Hh.
  - rewrite drop_ge by lia. cbn. by destruct empty.
  - destruct (lookup_lt_is_Some_2 (itable s) k) as [x Hx]; [lia|]. cbn [seq for_scan]. msimpl.
    unfold iget_step at 1. unfold geti at 1. msimpl. rewrite Hx. cbn [default id from_option]. rewrite cached_bool.
    rewrite (drop_S _ _ _ Hx). cbn [list_find]. destruct (decide (cached dev inum x)) as [Hc|Hc].
    + rewrite bool_decide_true by done. rewrite Nat.add_0_r. unfold seti, modify. msimpl.
      rewrite (release_head _ []) by done. reflexivity.
    + rewrite bool_decide_false by done. msimpl. rewrite IH by (done || lia).
      destruct (list_find (cached dev inum) (drop (S k) (itable s))) as [[j y]|] eqn:Ef; cbn [fmap option_fmap option_map].
      * cbn [prod_map fst snd]. by replace (S k + j)%nat with (k + S j)%nat by lia.
      * f_equal. f_equal. destruct empty as [e|]; [done|]. destruct (Z.eqb_spec (i_ref x) 0) as [E0|E0].
        -- rewrite decide_True by done. cbn. by rewrite Nat.add_0_r.
        -- rewrite decide_False by done. rewrite <-option_fmap_compose. apply option_fmap_ext. intros [j y]. cbn. lia.
Qed.

Lemma itable_held s t h : held s = [] → s <| held := h |> <| itable := t |> <| held := [] |> = s <| itable := t |>.
Proof. intros E. destruct s. cbn in *. by rewrite E. Qed.

Lemma iget_eq pr q dev inum s :
  thread s pr q → length (itable s) = NINODE →
  match iget_table (itable s) dev inum with
  | Some (ip, t) => iget dev inum s = Ret ip (s <| itable := t |>)
  | None => ∃ s', iget dev inum s = Panic "iget: no inodes" s'
  end.
Proof.
  intros Ht Hl. unfold iget, iget_table. msimpl. mrun (acquire_none s pr q) by done.
  rewrite iget_scan by (done || cbn; lia). cbn [itable set]. rewrite drop_0.
  destruct (list_find (cached dev inum) (itable s)) as [[j x]|].
  - cbn [bindO Nat.add]. exact (f_equal (Ret j) (itable_held _ _ _ (th_held _ _ _ Ht))).
  - cbn [bindO]. destruct (list_find _ (itable s)) as [[j x]|]; cbn [fmap option_fmap option_map fst Nat.add].
    + unfold seti, modify. msimpl. cbn [bindO]. rewrite (release_head _ []) by done. cbn [bindO].
      exact (f_equal (Ret j) (itable_held _ _ _ (th_held _ _ _ Ht))).
    + eexists. reflexivity.
Qed.

(** ** dirlookup() *)

(** The entries of a directory's bytes, and the first one in use with a name. *)
Definition dir_entries (bs : list Z) : list dirent :=
  (λ k, dirent_of (take 16 (drop (16 * k) bs))) <$> seq 0 (length bs / 16).
Definition same_name (a b : list Z) : Prop := take DIRSIZ (cstr a) = take DIRSIZ (cstr b).
Definition named (name : list Z) (de : dirent) : Prop := d_inum de ≠ 0 ∧ same_name name (d_name de).

#[export] Instance same_name_dec a b : Decision (same_name a b).
Proof. unfold same_name. apply _. Defined.
#[export] Instance named_dec name de : Decision (named name de).
Proof. unfold named. apply _. Defined.

(** A name is an array of DIRSIZ bytes or ends in NUL. *)
Definition is_name (name : list Z) : Prop := 0 ∈ name ∨ (DIRSIZ ≤ length name)%nat.

Lemma namecmp_same a b : is_name a → is_name b → bool_decide (namecmp a b = Some 0) = bool_decide (same_name a b).
Proof.
  intros Ha Hb. unfold namecmp. destruct (strncmp_defined a b DIRSIZ Ha Hb) as [d E]. pose proof (strncmp_zero _ _ _ _ E) as Hz.
  rewrite E. apply bool_decide_ext. unfold same_name. rewrite <-Hz. split; [by intros [=]|by intros ->].
Qed.

Section entries.
Context (v : Z → list Z) (x : inode) (n : nat) (Hsize : i_size x = 16 * n).

Local Notation bytes := (file_bytes v x 0 (i_size x)).

Lemma length_bytes : length bytes = (16 * n)%nat.
Proof using Hsize. pose proof (length_file_bytes v x 0 (i_size x)). lia. Qed.

Lemma entry_bytes (k : nat) : (k < n)%nat → file_bytes v x (16 * k) 16 = take 16 (drop (16 * k) bytes).
Proof using Hsize.
  intros Hk. pose proof length_bytes as Hl. rewrite Hsize in Hl |- *.
  replace (16 * Z.of_nat n) with (16 * k + (16 + (16 * n - 16 * k - 16))) in * by lia.
  rewrite file_bytes_app, file_bytes_app, Z.add_0_l by lia.
  pose proof (length_file_bytes v x 0 (16 * k) ltac:(lia)) as L1.
  pose proof (length_file_bytes v x (16 * k) 16 ltac:(lia)) as L2.
  rewrite drop_app_length' by lia. by rewrite take_app_length' by lia.
Qed.

Lemma entries_lookup k : dir_entries bytes !! k = if decide (k < n)%nat then Some (dirent_of (file_bytes v x (16 * k) 16)) else None.
Proof using Hsize.
  unfold dir_entries. rewrite length_bytes, list_lookup_fmap. replace (16 * n / 16)%nat with n by (rewrite Nat.mul_comm, Nat.div_mul; lia).
  case_decide as Hk.
  - rewrite lookup_seq_lt by done. cbn [fmap option_fmap option_map Nat.add]. by rewrite entry_bytes.
  - by rewrite lookup_seq_ge by lia.
Qed.

End entries.

Section dirlookup.
Context `{Linker} `{Patience} (pr : nat) (q : proc) (dev : Z) (w : view) (x : inode) (dp : nat) (name : list Z).
Context (Hpat : (0 < patience)%nat) (Hown : v_own w = ∅) (Hroom : (size (v_refs w) < NBUF)%nat).
Context (Hrefs : ∀ n, default 0 (v_refs w !! n) + 1 < 2 ^ 32) (Hdev : i_dev x = dev) (Hname : is_name name).
Context (n : nat) (Hsize : i_size x = 16 * n) (Hmax : 16 * n < 2 ^ 30).
Context (Hmap : ∀ bn, 0 ≤ bn → bn * BSIZE < i_size x → mapped (v_data w) x bn).

(** One entry read. *)
Lemma dirlookup_round k s :
  io pr q dev w s → itable s !! dp = Some x → (k < n)%nat →
  ∃ s1, io pr q dev w s1 ∧ io_frame s s1 ∧ disk s1 = disk s ∧ dwrites s1 = dwrites s ∧
    let de := dirent_of (file_bytes (v_data w) x (16 * k) 16) in
    dirlookup_body dp name (16 * k) s =
      if decide (named name de) then (ip ← iget dev (d_inum de); mret (inr (Some (ip, 16 * Z.of_nat k)))) s1
      else Ret (inl (16 * S k)) s1.
Proof using All.
  intros Hio Hdp Hk.
  destruct (readi_spec pr q dev w x dp (16 * k) 16 s Hio Hpat Hown Hroom Hrefs Hdp Hdev) as (s1 & E1 & Hio1 & Hf1 & Hd1 & Hw1); try lia; [done|].
  rewrite (proj2 (Z.ltb_ge (i_size x) (16 * k))), Z.min_l in E1 by lia.
  exists s1. do 4 (split; [done|]). intros de. unfold dirlookup_body. msimpl. rewrite (geti_eq x) by done. msimpl.
  mif_false by (apply negb_false_iff; lia). change DIRENT_SIZE with 16. rewrite E1. msimpl. cbn [Z.eqb negb]. fold de.
  pose proof (length_file_bytes (v_data w) x (16 * k) 16 ltac:(lia)) as Hlb.
  assert (is_name (d_name de)) as Hde by (right; unfold de; cbn [d_name dirent_of]; rewrite length_drop; unfold DIRSIZ; lia).
  replace (16 * Z.of_nat k + 16) with (16 * Z.of_nat (S k)) by lia. rewrite namecmp_same by done. unfold named.
  destruct (Z.eqb_spec (d_inum de) 0) as [E0|E0]; [by rewrite decide_False by tauto|].
  destruct (decide (same_name name (d_name de))) as [Hs|Hs].
  - rewrite bool_decide_true, decide_True, Hdev by done. done.
  - rewrite bool_decide_false, decide_False by tauto. done.
Qed.

Lemma dirlookup_loop (fuel : nat) : ∀ k s,
  io pr q dev w s → itable s !! dp = Some x → length (itable s) = NINODE → (k ≤ n)%nat → (n - k < fuel)%nat →
  ∃ s1, io pr q dev w s1 ∧ io_frame s s1 ∧ disk s1 = disk s ∧ dwrites s1 = dwrites s ∧
    loop fuel (dirlookup_body dp name) (16 * k) s =
      match list_find (named name) (drop k (dir_entries (file_bytes (v_data w) x 0 (i_size x)))) with
      | Some (j, de) => (ip ← iget dev (d_inum de); mret (Some (ip, 16 * Z.of_nat (k + j)))) s1
      | None => Ret None s1
      end.
Proof using All.
  induction fuel as [|fuel IH]; intros k s Hio Hdp Hlen Hk Hfu; [lia|].
  pose proof (entries_lookup (v_data w) x n Hsize k) as Hent. set (es := dir_entries _) in *.
  destruct (decide (k < n)%nat) as [Hlt|Hge].
  - destruct (dirlookup_round k s Hio Hdp Hlt) as (s1 & Hio1 & Hf1 & Hd1 & Hw1 & E1). cbn zeta in E1.
    rewrite (drop_S _ _ _ Hent). cbn [list_find]. set (de := dirent_of _) in *. destruct (decide (named name de)) as [Hn|Hn].
    + exists s1. do 4 (split; [done|]). cbn [loop]. msimpl. rewrite E1. msimpl. rewrite Nat.add_0_r.
      pose proof (iget_eq pr q dev (d_inum de) s1 (io_thread _ _ _ _ _ Hio1)) as Hg.
      rewrite (io_frame_itable _ _ Hf1) in Hg. specialize (Hg Hlen).
      destruct (iget_table _ _ _) as [[ip t]|]; [by rewrite Hg|]. destruct Hg as [s' ->]. done.
    + rewrite (loop_next _ _ _ _ _ _ E1).
      destruct (IH (S k) s1 Hio1) as (s2 & Hio2 & Hf2 & Hd2 & Hw2 & E2); [by rewrite (io_frame_itable _ _ Hf1)..|lia|lia|].
      exists s2. split; [done|]. split; [by eapply io_frame_trans|]. rewrite Hd2, Hw2. do 2 (split; [done|]). rewrite E2.
      destruct (list_find (named name) (drop (S k) es)) as [[j y]|]; [|done]. cbn. by replace (S (k + j)) with (k + S j)%nat by lia.
  - exists s. do 2 (split; [done || apply io_frame_refl|]). do 2 (split; [done|]). rewrite drop_ge.
    + apply loop_exit. unfold dirlookup_body. msimpl. rewrite (geti_eq x) by done. msimpl. mif_true by (apply negb_true_iff; lia). done.
    + apply lookup_ge_None in Hent. lia.
Qed.
End dirlookup.

Lemma list_alter_insert {A} (g : A → A) (l : list A) j y : l !! j = Some y → alter g j l = <[j := g y]> l.
Proof.
  intros Hj. apply list_eq. intros m. destruct (decide (m = j)) as [->|Hm].
  - rewrite list_lookup_alter_eq, list_lookup_insert_eq, Hj by (by eapply lookup_lt_Some). done.
  - by rewrite list_lookup_alter_ne, list_lookup_insert_ne.
Qed.

Lemma io_itable pr q dev w s t : io pr q dev w s → io pr q dev w (s <| itable := t |>).
Proof. intros [[] []]. split; by split. Qed.

Lemma dirlookup_spec `{Linker} `{Patience} pr q dev w x dp name (n : nat) s :
  io pr q dev w s → (0 < patience)%nat → v_own w = ∅ → (size (v_refs w) < NBUF)%nat →
  (∀ m, default 0 (v_refs w !! m) + 1 < 2 ^ 32) →
  itable s !! dp = Some x → length (itable s) = NINODE → i_dev x = dev → i_type x = T_DIR → is_name name →
  i_size x = 16 * n → 16 * n < 2 ^ 30 → (∀ bn, 0 ≤ bn → bn * BSIZE < i_size x → mapped (v_data w) x bn) →
  ∃ s1, io pr q dev w s1 ∧ io_frame s s1 ∧ disk s1 = disk s ∧
    match list_find (named name) (dir_entries (file_bytes (v_data w) x 0 (i_size x))) with
    | None => dirlookup dp name s = Ret None s1
    | Some (k, de) =>
        match iget_table (itable s) dev (d_inum de) with
        | Some (ip, t) => dirlookup dp name s = Ret (Some (ip, 16 * Z.of_nat k)) (s1 <| itable := t |>)
        | None => ∃ s', dirlookup dp name s = Panic "iget: no inodes" s'
        end
    end.
Proof.
  intros Hio Hpat Hown Hroom Hrefs Hdp Hlen Hdev Hty Hname Hsz Hmax Hmap.
  destruct (dirlookup_loop pr q dev w x dp name Hpat Hown Hroom Hrefs Hdev Hname n Hsz Hmax Hmap
    (S (S (Z.to_nat (i_size x / DIRENT_SIZE)))) 0 s Hio Hdp Hlen) as (s1 & Hio1 & Hf1 & Hd1 & _ & E1); [lia| |].
  { rewrite Hsz. change DIRENT_SIZE with 16. rewrite Z.mul_comm, Z.div_mul by done. lia. }
  rewrite drop_0 in E1. pose proof (io_frame_itable _ _ Hf1) as Ei.
  assert (dirlookup dp name s = loop (S (S (Z.to_nat (i_size x / DIRENT_SIZE)))) (dirlookup_body dp name) (16 * 0%nat) s) as ->.
  { unfold dirlookup. msimpl. rewrite (geti_eq x) by done. cbn [bindO]. by rewrite Hty. }
  exists s1. do 3 (split; [done|]). rewrite E1. destruct (list_find _ _) as [[k de]|]; [|done].
  pose proof (iget_eq pr q dev (d_inum de) s1 (io_thread _ _ _ _ _ Hio1)) as Hg. rewrite Ei in Hg. specialize (Hg Hlen).
  destruct (iget_table (itable s) dev (d_inum de)) as [[ip t]|].
  - msimpl. by rewrite Hg.
  - destruct Hg as [s' Hg]. exists s'. msimpl. by rewrite Hg.
Qed.

(** C17: dirlookup() of a directory whose blocks are allocated finds the first
    entry in use with that name, as strings of at most DIRSIZ characters, and
    returns a reference to its inode from iget() with the entry's offset, or 0
    if no entry has the name; the disk, the blocks and, but for the inode's
    entry, the inode table stay as they are; its loop ends. *)
Theorem dirlookup_correct `{Linker} `{Patience} pr q dev w x dp name (n : nat) s :
  io pr q dev w s → (0 < patience)%nat → v_own w = ∅ → (size (v_refs w) < NBUF)%nat →
  (∀ m, default 0 (v_refs w !! m) + 1 < 2 ^ 32) →
  itable s !! dp = Some x → length (itable s) = NINODE → i_dev x = dev → i_type x = T_DIR → is_name name →
  i_size x = 16 * n → 16 * n < 2 ^ 30 → (∀ bn, 0 ≤ bn → bn * BSIZE < i_size x → mapped (v_data w) x bn) →
  match list_find (named name) (dir_entries (file_bytes (v_data w) x 0 (i_size x))) with
  | None => ∃ s', dirlookup dp name s = Ret None s' ∧ io pr q dev w s' ∧ itable s' = itable s ∧ disk s' = disk s
  | Some (k, de) =>
      match iget_table (itable s) dev (d_inum de) with
      | Some (ip, t) =>
          ∃ s', dirlookup dp name s = Ret (Some (ip, 16 * Z.of_nat k)) s' ∧ io pr q dev w s' ∧ itable s' = t ∧ disk s' = disk s
      | None => ∃ s', dirlookup dp name s = Panic "iget: no inodes" s'
      end
  end.
Proof.
  intros Hio Hpat Hown Hroom Hrefs Hdp Hlen Hdev Hty Hname Hsz Hmax Hmap.
  destruct (dirlookup_spec pr q dev w x dp name n s Hio Hpat Hown Hroom Hrefs Hdp Hlen Hdev Hty Hname Hsz Hmax Hmap) as (s1 & Hio1 & Hf1 & Hd1 & E).
  destruct (list_find _ _) as [[k de]|]; [|exists s1; split_and!; try done; by apply io_frame_itable].
  destruct (iget_table (itable s) dev (d_inum de)) as [[ip t]|]; [|done].
  exists (s1 <| itable := t |>). split_and!; try done. by apply io_itable.
Qed.

(** ** ilock() *)

Section ilock.
Context `{Linker} `{Patience} (pr : nat) (q : proc) (dev : Z) (w : view).
Context (Hpat : (0 < patience)%nat) (Hown : v_own w = ∅) (Hroom : (size (v_refs w) < NBUF)%nat).
Context (Hrefs : ∀ n, default 0 (v_refs w !! n) + 1 < 2 ^ 32).

(** A block read and released, with a change of the inode table in between. *)
Lemma peek_itable n s (g : list Z → list inode → list inode) :
  io pr q dev w s →
  ∃ b s1 s2, bread dev n s = Ret b s1 ∧ b_data (buf_at s1 b) = v_data w n ∧ itable s1 = itable s ∧
    brelse b (s1 <| itable ::= g (v_data w n) |>) = Ret () s2 ∧ io pr q dev w s2 ∧
    itable s2 = g (v_data w n) (itable s) ∧ disk s2 = disk s.
Proof using Hpat Hown Hroom Hrefs.
  intros Hio. destruct (bread_io pr q dev Hpat n w s Hio) as (b & s1 & E1 & Es1 & Hio1 & Hof & _); [by apply own_empty|done|apply Hrefs|].
  destruct (owned_buf s1 q dev _ (io_bio _ _ _ _ _ Hio1) n b (in_own n w) Hof) as (_ & Ed & _).
  destruct (brelse_io pr q dev n b _ _ (io_itable _ _ _ _ _ (g (v_data w n) (itable s1)) Hio1) (in_own n w) Hof) as (s2 & ps & E2 & Es2 & Hio2 & _).
  { intros H1. cbn in H1 |- *. rewrite Es1. cbn. apply (bio_clean q dev w s); [apply Hio|].
    rewrite refs_add_lookup in H1. destruct (v_refs w !! n) as [c|] eqn:Ec; [|done]. cbn in H1.
    pose proof (bio_pos _ _ _ _ (io_bio _ _ _ _ _ Hio) _ _ Ec). destruct (c + 1 =? 0); [done|]. injection H1. lia. }
  exists b, s1, s2. split; [done|]. split; [done|]. split; [by rewrite Es1|]. split; [done|]. split.
  - eapply io_ext; [..|exact Hio2]; [done|..].
    + cbn. rewrite refs_add_add, refs_add_0; [done|]. by eapply refs_nonzero.
    + cbn. rewrite Hown. apply set_eq. intros m. rewrite !elem_of_difference, !elem_of_union, !elem_of_singleton, !elem_of_empty. tauto.
  - by rewrite Es2, Es1.
Qed.

(** The inode as the disk has it. *)
Definition loaded (b : superblock) (x : inode) : inode :=
  dinode_get (v_data w (IBLOCK (i_inum x) b)) (dinode_off (i_inum x)) x.

Lemma ilock_load ip x s :
  io pr q dev w s → itable s !! ip = Some x → 1 ≤ i_ref x → sl_locked (i_lock x) = 0 → i_valid x = 0 → i_dev x = dev →
  i_type (loaded (sb s) x) ≠ 0 →
  ∃ s', ilock (Some ip) s = Ret () s' ∧ io pr q dev w s' ∧ disk s' = disk s ∧
    itable s' = <[ip := loaded (sb s) x <| i_lock := mine q |> <| i_valid := 1 |>]> (itable s).
Proof using Hpat Hown Hroom Hrefs.
  intros Hio Hip Href Hlk Hval Hdev Hty. pose proof (io_thread _ _ _ _ _ Hio) as Ht.
  set (s1 := s <| itable ::= alter (λ x, x <| i_lock := mine q |>) ip |>).
  assert (io pr q dev w s1) as Hio1 by (by apply io_itable). set (x1 := x <| i_lock := mine q |>).
  assert (itable s1 !! ip = Some x1) as Hip1 by (cbn; by rewrite list_lookup_alter_eq, Hip).
  set (n := IBLOCK (i_inum x) (sb s)).
  destruct (peek_itable n s1 (λ d, alter (dinode_get d (dinode_off (i_inum x))) ip) Hio1) as (b & s2 & s3 & E2 & Ed & Ei & E3 & Hio3 & Eit & Hd).
  assert (itable s3 !! ip = Some (loaded (sb s) x <| i_lock := mine q |>)) as Hip3 by (rewrite Eit, list_lookup_alter_eq, Hip1; done).
  exists (s3 <| itable ::= alter (λ x, x <| i_valid := 1 |>) ip |>).
  split; [|split; [by apply io_itable|split; [exact Hd|]]].
  - unfold ilock. msimpl. rewrite (geti_eq x) by done. cbn [bindO]. mif_false.
    rewrite (acquiresleep_free s pr q (inode_sleeplock ip)); [|done|done|by cbn; rewrite Hip]. cbn [bindO set_sl].
    fold s1. rewrite (geti_eq x1) by done. cbn [bindO]. change (i_valid x1) with (i_valid x). rewrite Hval. cbn [Z.eqb bindO].
    change (sb s1) with (sb s). change (i_inum x1) with (i_inum x). change (i_dev x1) with (i_dev x). rewrite Hdev. fold n.
    rewrite E2. cbn [bindO]. rewrite getb_at. cbn [bindO]. rewrite Ed. unfold seti, modify. cbn [bindO].
    match goal with |- context [brelse b ?t] => change t with (s2 <| itable ::= alter (dinode_get (v_data w n) (dinode_off (i_inum x))) ip |>) end.
    rewrite E3. cbn [bindO]. set (s4 := s3 <| itable ::= _ |>).
    rewrite (geti_eq (loaded (sb s) x <| i_lock := mine q |> <| i_valid := 1 |>)); [|by cbn; rewrite list_lookup_alter_eq, Hip3].
    cbn [bindO]. change (i_type (loaded (sb s) x <| i_lock := mine q |> <| i_valid := 1 |>)) with (i_type (loaded (sb s) x)).
    by rewrite (proj2 (Z.eqb_neq _ _) Hty).
  - cbn [itable set]. rewrite Eit. cbn [itable set s1]. apply list_eq. intros j. destruct (decide (j = ip)) as [->|Hj].
    + rewrite list_lookup_insert_eq by (by eapply lookup_lt_Some). rewrite !list_lookup_alter_eq, Hip. done.
    + by rewrite list_lookup_insert_ne, !list_lookup_alter_ne.
Qed.
End ilock.

(** ** A witness: the third entry of a directory in block 50 *)

Definition ex_dir_block : list Z :=
  resize 1024 0 (half_bytes 1 ++ resize 14 0 (Uart.str ".") ++ half_bytes 1 ++ resize 14 0 (Uart.str "..") ++
                 half_bytes 2 ++ resize 14 0 (Uart.str "README")).
Definition ex_dir_inode : inode := mkInode 1 1 1 (mkSleeplock 0 0) 1 T_DIR 0 0 1 48 (50 :: replicate 12 0).
Definition ex_dir_disk : gmap Z (list Z) := {[50 := ex_dir_block]}.
Definition ex_dir : kernel := ex_fs <| disk := ex_dir_disk |> <| itable := <[0%nat := ex_dir_inode]> (replicate NINODE inode0) |>.

Lemma dirlookup_correct_witness :
  ∃ s', @dirlookup ex_linker 1%nat 0 (Uart.str "README" ++ [0]) ex_dir = Ret (Some (1%nat, 32)) s' ∧
    i_inum <$> itable s' !! 1%nat = Some 2.
Proof.
  assert (mapped (block_at ex_dir_disk) ex_dir_inode 0) as Hm.
  { split; [vm_compute; split; [discriminate|reflexivity]|vm_compute; discriminate|vm_compute; intros E; destruct E; reflexivity|vm_compute; reflexivity]. }
  assert (list_find (named (Uart.str "README" ++ [0])) (dir_entries (file_bytes (block_at ex_dir_disk) ex_dir_inode 0 48)) =
    Some (2%nat, mkDirent 2 (resize 14 0 (Uart.str "README")))) as Hfind by (vm_compute; reflexivity).
  assert (iget_table (itable ex_dir) 1 2 = Some (1%nat, alter (λ x, x <| i_dev := 1 |> <| i_inum := 2 |> <| i_ref := 1 |> <| i_valid := 0 |>) 1%nat (itable ex_dir))) as Hget
    by (vm_compute; reflexivity).
  pose proof (@dirlookup_correct ex_linker 1%nat 0%nat ex_fs_proc 1 (mkView (block_at ex_dir_disk) ∅ ∅) ex_dir_inode 0
    (Uart.str "README" ++ [0]) 3 ex_dir) as Hthm.
  cbn [v_data] in Hthm. change (i_size ex_dir_inode) with 48 in Hthm. rewrite Hfind in Hthm. cbn [d_inum] in Hthm. rewrite Hget in Hthm.
  destruct Hthm as (s' & E & _ & Et & _).
  - split; [by split|]. apply (boot_bio _ _ ex_dir); [discriminate|reflexivity].
  - unfold patience. lia.
  - reflexivity.
  - cbn. rewrite map_size_empty. unfold NBUF. lia.
  - intros m. reflexivity.
  - reflexivity.
  - reflexivity.
  - reflexivity.
  - reflexivity.
  - left. apply elem_of_app. right. by left.
  - reflexivity.
  - reflexivity.
  - intros bn H0 H1. unfold BSIZE in H1. assert (bn = 0) as -> by lia. exact Hm.
  - exists s'. split; [exact E|]. rewrite Et. vm_compute. reflexivity.
Defined.
