(* ===== verification/FsWrite.v ===== *)
(** * Writing to files inside a transaction

    Every change of the file system is bread(), a store into the buffer,
    log_write() and brelse().  [tx] is a transaction under way in the client's
    view of the buffer cache: exactly the blocks of the log header are pinned,
    so that a changed block cannot leave the cache before it is committed.
    writei() on allocated blocks is a sequence of such changes; FsGrow.v has
    the writes that allocate blocks and the crashes between them. *)

From Stdlib Require Import ZArith Lia.
From stdpp Require Import base numbers strings option list gmap.
From S2P Require Import Prelude Params Machine Cstring Kalloc Sched SchedFacts Uart Console Sleeplock Bio BioFacts Log LogFacts Fs FsFacts FsDir VmExample.

Open Scope Z_scope.

(** ** Pinning a buffer *)

Definition w_pin (n : Z) (w : view) : view := mkView (v_data w) (refs_add 1 n (v_refs w)) (v_own w).

Section pin.
Context `{Patience} (s : kernel) (pr : nat) (q : proc) (dev : Z) (w : view).
Context (Hbio : bio q dev w s).

Lemma pin_bio n b :
  n ∈ v_own w → buf_of dev s n b → default 0 (v_refs w !! n) + 1 < 2 ^ 32 →
  bio q dev (w_pin n w) (put_buf b (take_ref (buf_at s b)) s) ∧
  ∀ m c, buf_of dev s m c → buf_of dev (put_buf b (take_ref (buf_at s b)) s) m c.
Proof using Hbio.
  intros Hn Hof H1. pose proof Hof as [Hb [Hd Hbn]]. destruct (owned_buf s q dev w Hbio n b Hn Hof) as (E1 & E2 & E3 & E4).
  set (x := take_ref (buf_at s b)). pose proof (cache_put_same s q dev w Hbio b x Hb eq_refl eq_refl) as Hput.
  pose proof (own_ref s q dev w Hbio n Hn) as Hc.
  assert (b_refcnt x = default 0 (v_refs w !! n) + 1) as Er by (unfold x, take_ref; cbn; rewrite E1, u32_small by lia; lia).
  assert (b_blockno x = n) as Ebn by done. split.
  - apply (bio_step q dev w s Hbio _ _ b x Hb Hput); rewrite ?Ebn; [done|..].
    + split; rewrite ?Ebn; cbn [w_pin v_data v_refs v_own].
      * by rewrite refs_add_eq.
      * change (b_valid x) with (b_valid (buf_at s b)). by rewrite (proj2 (Z.eqb_neq _ _) E4).
      * lia.
      * by rewrite decide_True by done.
    + by left.
    + intros m Hm. cbn. by rewrite refs_add_ne.
    + intros c. apply refs_add_pos. lia.
    + intros _. cbn. unfold refs_add. rewrite (proj2 (Z.eqb_neq _ _)) by lia. rewrite lookup_insert_eq. done.
  - intros m c. by apply (buf_of_put_same s q dev w Hbio _ n b x).
Qed.
End pin.

(** ** A transaction *)

Section tx.
Context `{Patience} (pr : nat) (q : proc) (dev : Z).

Record tx (w : view) (s : kernel) : Prop := {
  t_io : io pr q dev w s;
  t_dev : log_dev (log s) = dev;
  t_own : v_own w = ∅;
  t_layout : log_layout (log s);
  t_refs : ∀ m, v_refs w !! m = if decide (m ∈ log_blocks (log s)) then Some 1 else None;
  t_nodup : NoDup (log_blocks (log s));
  t_out : 1 ≤ log_outstanding (log s);
  t_size : log_size (log s) ≤ LOGSIZE;
  t_head : length (block_at (disk s) (log_start (log s))) = 1024%nat;
  t_empty : head_n (block_at (disk s) (log_start (log s))) = 0;
}.

(** The pinned blocks are those of the header. *)
Lemma tx_pinned w s : tx w s → Z.of_nat (size (v_refs w)) = lh_n (log_lh (log s)).
Proof.
  intros Ht. rewrite <-(log_blocks_length _ (t_layout _ _ Ht)), <-size_dom.
  replace (dom (v_refs w)) with (list_to_set (log_blocks (log s)) : gset Z).
  - by rewrite size_list_to_set by apply Ht.
  - apply set_eq. intros m. rewrite elem_of_list_to_set, elem_of_dom, (t_refs _ _ Ht m). case_decide; [done|].
    split; [done|by intros []].
Qed.

Lemma tx_bufs w s : tx w s → (size (v_refs w) < NBUF)%nat.
Proof.
  intros Ht. pose proof (tx_pinned w s Ht). pose proof (ll_n _ (t_layout _ _ Ht)). unfold LOGSIZE, MAXOPBLOCKS, NBUF in *. lia.
Qed.

Lemma tx_count w s m : tx w s → default 0 (v_refs w !! m) + 1 < 2 ^ 32 ∧ default 0 (v_refs w !! m) ≤ 1.
Proof. intros Ht. rewrite (t_refs _ _ Ht). case_decide; cbn; lia. Qed.

(** It can be committed, which takes every change to the disk or none. *)
Lemma tx_commits w s : tx w s → tx_ready pr q dev w s.
Proof.
  intros Ht. pose proof (tx_bufs _ _ Ht). pose proof Ht as [H1 H2 H3 H4 H5 H6 _ _ H7 H8]. split; try done.
  - intros i Hi. rewrite H5, decide_True; [done|]. apply list_elem_of_lookup. exists i. by apply log_blocks_lookup.
  - intros m Hm. rewrite H5, decide_False; [done|]. intros (i & Hi)%list_elem_of_lookup.
    assert (i < lh_n (log_lh (log s))) as Hlt by (apply lookup_lt_Some in Hi; pose proof (log_blocks_length _ H4); lia).
    rewrite log_blocks_lookup in Hi by done. apply (Hm i Hlt). congruence.
  - intros i j Hi Hj E. eapply (NoDup_lookup (log_blocks (log s))); [done|by apply log_blocks_lookup|]. rewrite E. by apply log_blocks_lookup.
Qed.

(** Reading leaves it alone. *)
Lemma tx_frame w s s' : tx w s → io pr q dev w s' → io_frame s s' → disk s' = disk s → tx w s'.
Proof. intros [] Hio Hf Hd. pose proof (io_frame_log _ _ Hf) as El. split; rewrite ?El, ?Hd; done. Qed.

(** ** Holding buffers *)

(** The references to the buffer of [m] when the blocks [l] are pinned and the
    blocks [O] held. *)
Definition held_refs (O : gset Z) (l : list Z) (m : Z) : option Z :=
  if decide (m ∈ l) then Some (if decide (m ∈ O) then 2 else 1)
  else if decide (m ∈ O) then Some 1 else None.

(** A transaction in which the thread holds the buffers of the blocks [O]. *)
Record txo (O : gset Z) (w : view) (s : kernel) : Prop := {
  o_io : io pr q dev w s;
  o_dev : log_dev (log s) = dev;
  o_own : v_own w = O;
  o_layout : log_layout (log s);
  o_refs : ∀ m, v_refs w !! m = held_refs O (log_blocks (log s)) m;
  o_nodup : NoDup (log_blocks (log s));
  o_out : 1 ≤ log_outstanding (log s);
  o_size : log_size (log s) ≤ LOGSIZE;
  o_head : length (block_at (disk s) (log_start (log s))) = 1024%nat;
  o_empty : head_n (block_at (disk s) (log_start (log s))) = 0;
}.

Lemma tx_txo w s : tx w s ↔ txo ∅ w s.
Proof.
  assert (∀ l m, held_refs ∅ l m = if decide (m ∈ l) then Some 1 else None) as E
    by (intros l m; unfold held_refs; by rewrite (decide_False (P := m ∈ (∅ : gset Z))) by set_solver).
  split; intros []; split; try done; intros m; first [by rewrite E | by rewrite <-E].
Qed.

Lemma held_take O l n (R : gmap Z Z) m :
  (∀ m, R !! m = held_refs O l m) → n ∉ O → refs_add 1 n R !! m = held_refs ({[n]} ∪ O) l m.
Proof.
  intros HR Hn. destruct (decide (m = n)) as [->|Hm].
  - unfold refs_add. rewrite HR. unfold held_refs. rewrite !(decide_False (P := n ∈ O)), !(decide_True (P := n ∈ {[n]} ∪ O)) by set_solver.
    case_decide; apply lookup_insert_eq.
  - rewrite refs_add_ne, HR by done. unfold held_refs.
    by rewrite !(decide_ext (m ∈ {[n]} ∪ O) (m ∈ O)) by set_solver.
Qed.

Lemma held_drop O l n (R : gmap Z Z) m :
  (∀ m, R !! m = held_refs O l m) → n ∈ O → refs_add (-1) n R !! m = held_refs (O ∖ {[n]}) l m.
Proof.
  intros HR Hn. destruct (decide (m = n)) as [->|Hm].
  - unfold refs_add. rewrite HR. unfold held_refs. rewrite !(decide_True (P := n ∈ O)), !(decide_False (P := n ∈ O ∖ {[n]})) by set_solver.
    case_decide; [apply lookup_insert_eq|apply lookup_delete_eq].
  - rewrite refs_add_ne, HR by done. unfold held_refs.
    by rewrite !(decide_ext (m ∈ O ∖ {[n]}) (m ∈ O)) by set_solver.
Qed.

Lemma held_logged O l n m : n ∈ O → n ∉ l → held_refs (O ∖ {[n]}) (l ++ [n]) m = held_refs O l m.
Proof.
  intros Hn Hl. unfold held_refs. destruct (decide (m = n)) as [->|Hm].
  - rewrite (decide_True (P := n ∈ l ++ [n])), (decide_False (P := n ∈ O ∖ {[n]})), (decide_False (P := n ∈ l)), decide_True by set_solver. done.
  - by rewrite (decide_ext (m ∈ l ++ [n]) (m ∈ l)), !(decide_ext (m ∈ O ∖ {[n]}) (m ∈ O)) by set_solver.
Qed.

(** The pinned and held blocks fit into the cache. *)
Lemma txo_bufs O w s :
  txo O w s → lh_n (log_lh (log s)) + size O < NBUF → (size (v_refs w) < NBUF)%nat.
Proof.
  intros Ht Hlt. rewrite <-(log_blocks_length _ (o_layout _ _ _ Ht)) in Hlt. rewrite <-size_dom.
  assert (dom (v_refs w) ⊆ list_to_set (log_blocks (log s)) ∪ O) as Hsub.
  { intros m [c Hc]%elem_of_dom. rewrite (o_refs _ _ _ Ht) in Hc. unfold held_refs in Hc.
    rewrite elem_of_union, elem_of_list_to_set. repeat case_decide; try done; tauto. }
  apply subseteq_size in Hsub.
  pose proof (size_union_alt (list_to_set (log_blocks (log s)) : gset Z) O) as Hu.
  assert (size (list_to_set (log_blocks (log s)) : gset Z) = length (log_blocks (log s))) as Hl by (by rewrite size_list_to_set by apply Ht).
  assert (size (O ∖ list_to_set (log_blocks (log s))) ≤ size O)%nat as Hd by (apply subseteq_size; set_solver). lia.
Qed.

Lemma txo_clean O w s n : txo O w s → n ∉ O → n ∉ log_blocks (log s) → v_data w n = block_at (disk s) n.
Proof.
  intros Ht Hn Hl. apply (bio_clean q dev w s n); [apply (o_io _ _ _ Ht)|]. rewrite (o_refs _ _ _ Ht). unfold held_refs.
  by rewrite !decide_False.
Qed.

(** What a change leaves alone. *)
Definition same_rest (s s' : kernel) : Prop :=
  itable s' = itable s ∧ Machine.sb s' = Machine.sb s ∧ disk s' = disk s ∧ dwrites s' = dwrites s ∧
  log_size (log s') = log_size (log s) ∧ log_start (log s') = log_start (log s).

Lemma same_rest_refl s : same_rest s s.
Proof. done. Qed.

Lemma same_rest_trans s1 s2 s3 : same_rest s1 s2 → same_rest s2 s3 → same_rest s1 s3.
Proof. intros (? & ? & ? & ? & ? & ?) (? & ? & ? & ? & ? & ?). unfold same_rest. split_and!; congruence. Qed.

(** The buffers of the held blocks [O] are where they were. *)
Definition bufs_kept (O : gset Z) (s s' : kernel) : Prop := ∀ m c, m ∈ O → buf_of dev s m c → buf_of dev s' m c.

Lemma bufs_kept_trans O s1 s2 s3 : bufs_kept O s1 s2 → bufs_kept O s2 s3 → bufs_kept O s1 s3.
Proof. unfold bufs_kept. eauto. Qed.

(** brelse() of a block that was not changed. *)
Lemma tx_drop O n w s b :
  txo O w s → n ∈ O → buf_of dev s n b → (n ∉ log_blocks (log s) → v_data w n = block_at (disk s) n) →
  ∃ s', brelse b s = Ret () s' ∧ txo (O ∖ {[n]}) (w_drop n w) s' ∧ same_rest s s' ∧ log s' = log s ∧
    bufs_kept (O ∖ {[n]}) s s'.
Proof.
  intros Ht Hn Hof Hcl. pose proof Ht as [Hio Hdv Hown Hlay Hrefs Hnd Ho Hsz Hhd Hem].
  destruct (brelse_io pr q dev n b w s Hio) as (s' & ps & E & Es & Hio' & Hk); [by rewrite Hown|done| |].
  { rewrite Hrefs. unfold held_refs. intros H1. apply Hcl. intros Hin. by rewrite decide_True, decide_True in H1. }
  assert (log s' = log s ∧ disk s' = disk s) as [El Edk] by (by rewrite Es).
  exists s'. split_and!; try done.
  - split; rewrite ?El, ?Edk; try done; [cbn; by rewrite Hown|]. intros m. cbn. by apply held_drop.
  - unfold same_rest. rewrite El, Edk. by rewrite Es.
  - intros m c Hm. apply Hk. set_solver.
Qed.

(** The log after a change of block [n]. *)
Definition logged_in (n : Z) (l : logst) : logst := if decide (n ∈ log_blocks l) then l else append_block l n.

Lemma logged_in_spec n l :
  log_layout l → 0 ≤ n < 2 ^ 31 → ¬ in_log (log_start l) n → lh_n (log_lh l) < LOGSIZE - 1 → NoDup (log_blocks l) →
  log_layout (logged_in n l) ∧ NoDup (log_blocks (logged_in n l)) ∧
  log_blocks (logged_in n l) = (if decide (n ∈ log_blocks l) then log_blocks l else log_blocks l ++ [n]) ∧
  log_dev (logged_in n l) = log_dev l ∧ log_outstanding (logged_in n l) = log_outstanding l ∧
  log_size (logged_in n l) = log_size l ∧ log_start (logged_in n l) = log_start l.
Proof.
  intros Hl Hn Hout Hroom Hnd. unfold logged_in. case_decide as Hin; [done|].
  destruct (append_block_spec l n Hl Hn Hroom Hout) as (? & Eb & ?). split_and!; try done. rewrite Eb.
  apply NoDup_app. split; [done|]. split; [|apply NoDup_singleton]. intros m Hm ->%list_elem_of_singleton. done.
Qed.

(** log_write() of a held block. *)
Lemma tx_log O n w s b :
  txo O w s → n ∈ O → buf_of dev s n b → 0 ≤ n < 2 ^ 31 → ¬ in_log (log_start (log s)) n →
  lh_n (log_lh (log s)) < log_size (log s) - 1 →
  ∃ w3 s3, log_write b s = Ret () s3 ∧ io pr q dev w3 s3 ∧ bufs_kept O s s3 ∧ log s3 = logged_in n (log s) ∧
    v_own w3 = O ∧ v_data w3 = v_data w ∧ v_refs w3 !! n = Some 2 ∧
    (∀ m, v_refs w3 !! m = if decide (n ∈ log_blocks (log s)) then v_refs w !! m else refs_add 1 n (v_refs w) !! m) ∧
    s3 = s <| bcache := bcache s3 |> <| log := log s3 |>.
Proof.
  intros Ht Hn Hof Hr Hout Hroom. pose proof Ht as [Hio Hdv Hown Hlay Hrefs Hnd Ho Hsz Hhd Hem].
  destruct (io_bio _ _ _ _ _ Hio) as [[L HL] _ _ _ _ _ _]. pose proof Hof as [Hb [_ Hbn]].
  destruct (log_write_spec s pr q b n (io_thread _ _ _ _ _ Hio) Hlay Hsz) as (_ & _ & Hin & Hnew); try done.
  { rewrite (lru_len _ _ HL). lia. }
  rewrite (proj2 (orb_false_iff _ _)) in Hin, Hnew by (rewrite !Z.leb_gt; lia).
  pose proof (Hrefs n) as Hrn. unfold held_refs in Hrn. rewrite !(decide_True (P := n ∈ O)) in Hrn by done.
  unfold logged_in. destruct (decide (n ∈ log_blocks (log s))) as [Hi|Hi].
  - exists w, s. split_and!; try done; [by apply Hin|by intros m c|by destruct s].
  - destruct (Hnew eq_refl Ho Hi) as (l' & E3 & _ & _ & _ & ->).
    destruct (pin_bio s q dev w (io_bio _ _ _ _ _ Hio) n b) as [Hb3 Hk3]; [by rewrite Hown|done|rewrite Hrn; cbn; lia|].
    eexists (w_pin n w), _. split_and!; [exact E3|..]; try done.
    + apply io_log. split; [|done]. by eapply thread_bcache; [|apply Hio].
    + intros m c _. apply Hk3.
    + cbn. unfold refs_add. rewrite Hrn. apply lookup_insert_eq.
Qed.

(** A store into a held buffer, log_write() and brelse(). *)
Lemma tx_store O n g w s b :
  txo O w s → n ∈ O → buf_of dev s n b → 0 ≤ n < 2 ^ 31 → ¬ in_log (log_start (log s)) n →
  lh_n (log_lh (log s)) < log_size (log s) - 1 →
  ∃ w' s2 s3 s4, setb b (λ x, x <| b_data ::= g |>) s = Ret () s2 ∧ log_write b s2 = Ret () s3 ∧ brelse b s3 = Ret () s4 ∧
    txo (O ∖ {[n]}) w' s4 ∧ v_data w' = fupd (v_data w) n (g (v_data w n)) ∧ same_rest s s4 ∧ bufs_kept (O ∖ {[n]}) s s4 ∧
    log_blocks (log s4) = (if decide (n ∈ log_blocks (log s)) then log_blocks (log s) else log_blocks (log s) ++ [n]).
Proof.
  intros Ht Hn Hof Hr Hout Hroom. pose proof Ht as [Hio Hdv Hown Hlay Hrefs Hnd Ho Hsz Hhd Hem].
  destruct (setdata_io pr q dev n b g w s Hio) as (s2 & E2 & Es2 & Hio2 & Hk2); [by rewrite Hown|done|].
  assert (log s2 = log s ∧ disk s2 = disk s) as [El2 Ed2] by (by rewrite Es2).
  assert (txo O (w_set n (g (v_data w n)) w) s2) as Ht2 by (split; rewrite ?El2, ?Ed2; done).
  destruct (tx_log O n _ s2 b Ht2 Hn (Hk2 _ _ Hof) Hr) as (w3 & s3 & E3 & Hio3 & Hk3 & El3 & Ho3 & Hv3 & Hr3 & Hrf3 & Es3); [by rewrite El2..|].
  rewrite El2 in El3, Hrf3. cbn [w_set v_refs v_data] in *.
  destruct (brelse_io pr q dev n b w3 s3 Hio3) as (s4 & ps & E4 & Es4 & Hio4 & Hk4); [by rewrite Ho3|by apply Hk3, Hk2|intros E; by rewrite E in Hr3|].
  destruct (logged_in_spec n (log s)) as (F1 & F2 & F3 & F4 & F5 & F6 & F7); try done; [lia|].
  assert (log s4 = logged_in n (log s) ∧ disk s4 = disk s) as [El4 Ed4] by (rewrite Es4; cbn; split; [done|by rewrite Es3; cbn; rewrite Ed2]).
  exists (w_drop n w3), s2, s3, s4. split_and!; try done.
  - split; rewrite ?El4, ?Ed4, ?F4, ?F5, ?F6, ?F7, ?F3; try done; [cbn; by rewrite Ho3| |by rewrite <-F3].
    intros m. cbn. destruct (decide (n ∈ log_blocks (log s))) as [Hi|Hi].
    + apply held_drop; [|done]. intros m'. by rewrite Hrf3.
    + rewrite held_logged by done. rewrite <-Hrefs. destruct (decide (m = n)) as [->|Hm].
      * transitivity (Some 1); [unfold refs_add; rewrite Hr3; apply lookup_insert_eq|].
        rewrite Hrefs. unfold held_refs. by rewrite decide_False, !decide_True.
      * rewrite refs_add_ne, Hrf3, refs_add_ne by done. done.
  - unfold same_rest. rewrite El4, F6, F7, Ed4. rewrite Es4. cbn. rewrite Es3. cbn. by rewrite Es2.
  - intros m c Hm Hc. apply Hk4; [set_solver|]. apply Hk3, Hk2, Hc. set_solver.
  - by rewrite El4.
Qed.

(** The header has at most one block more. *)
Lemma held_count O w s w' s' n :
  txo O w s → txo O w' s' →
  log_blocks (log s') = (if decide (n ∈ log_blocks (log s)) then log_blocks (log s) else log_blocks (log s) ++ [n]) →
  lh_n (log_lh (log s')) ≤ lh_n (log_lh (log s)) + 1.
Proof.
  intros Ht Ht' E. rewrite <-(log_blocks_length _ (o_layout _ _ _ Ht)), <-(log_blocks_length _ (o_layout _ _ _ Ht')), E.
  case_decide; [lia|]. rewrite length_app. cbn. lia.
Qed.

Context (Hpat : (0 < patience)%nat).

(** bread(). *)
Lemma tx_take O n w s :
  txo O w s → n ∉ O → lh_n (log_lh (log s)) + size O < NBUF →
  ∃ b s1, bread dev n s = Ret b s1 ∧ s1 = s <| bcache := bcache s1 |> ∧ b_data (buf_at s1 b) = v_data w n ∧
    txo ({[n]} ∪ O) (w_take n w) s1 ∧ buf_of dev s1 n b ∧ bufs_kept O s s1.
Proof.
  intros Ht Hn Hroom. pose proof Ht as [Hio Hdv Hown Hlay Hrefs Hnd Ho Hsz Hhd Hem].
  destruct (bread_io pr q dev Hpat n w s Hio) as (b & s1 & E1 & Es1 & Hio1 & Hof1 & Hk1).
  { by rewrite Hown. } { intros _. by eapply txo_bufs. }
  { rewrite Hrefs. unfold held_refs. repeat case_decide; cbn; lia. }
  destruct (owned_buf s1 q dev _ (io_bio _ _ _ _ _ Hio1) n b (in_own n w) Hof1) as (_ & Ed & _).
  assert (log s1 = log s ∧ disk s1 = disk s) as [El Edk] by (by rewrite Es1).
  exists b, s1. split_and!; try done; [|by rewrite <-Hown].
  split; rewrite ?El, ?Edk; try done; [cbn; by rewrite Hown|]. intros m. cbn. by apply held_take.
Qed.

(** bread(), a store, log_write(), brelse(), with other buffers held. *)
Lemma update_held O n g w s :
  txo O w s → n ∉ O → 0 ≤ n < 2 ^ 31 → ¬ in_log (log_start (log s)) n → lh_n (log_lh (log s)) < log_size (log s) - 1 →
  lh_n (log_lh (log s)) + size O < NBUF →
  ∃ w' b s1 s2 s3 s4, bread dev n s = Ret b s1 ∧ b_data (buf_at s1 b) = v_data w n ∧ itable s1 = itable s ∧
    setb b (λ x, x <| b_data ::= g |>) s1 = Ret () s2 ∧ log_write b s2 = Ret () s3 ∧ brelse b s3 = Ret () s4 ∧
    txo O w' s4 ∧ v_data w' = fupd (v_data w) n (g (v_data w n)) ∧ same_rest s s4 ∧ bufs_kept O s s4 ∧
    log_blocks (log s4) = (if decide (n ∈ log_blocks (log s)) then log_blocks (log s) else log_blocks (log s) ++ [n]).
Proof.
  intros Ht Hn Hr Hout Hroom Hb. destruct (tx_take O n w s Ht Hn Hb) as (b & s1 & E1 & Es1 & Ed & Ht1 & Hof & Hk1).
  assert (log s1 = log s) as El by (by rewrite Es1).
  destruct (tx_store ({[n]} ∪ O) n g (w_take n w) s1 b Ht1 ltac:(set_solver) Hof Hr) as (w' & s2 & s3 & s4 & E2 & E3 & E4 & Ht4 & Hv & Hsr & Hk4 & Hbl);
    [by rewrite El..|].
  assert (({[n]} ∪ O) ∖ {[n]} = O) as EO by set_solver. rewrite EO in Ht4, Hk4. rewrite El in Hbl.
  exists w', b, s1, s2, s3, s4. split_and!; try done; [by rewrite Es1| |by eapply bufs_kept_trans].
  eapply same_rest_trans; [|exact Hsr]. unfold same_rest. by rewrite Es1.
Qed.

Lemma update_block n g w s :
  tx w s → 0 ≤ n < 2 ^ 31 → ¬ in_log (log_start (log s)) n → lh_n (log_lh (log s)) < log_size (log s) - 1 →
  ∃ w' b s1 s2 s3 s4, bread dev n s = Ret b s1 ∧ b_data (buf_at s1 b) = v_data w n ∧ itable s1 = itable s ∧
    setb b (λ x, x <| b_data ::= g |>) s1 = Ret () s2 ∧ log_write b s2 = Ret () s3 ∧ brelse b s3 = Ret () s4 ∧
    tx w' s4 ∧ v_data w' = fupd (v_data w) n (g (v_data w n)) ∧ same_rest s s4 ∧
    log_blocks (log s4) = (if decide (n ∈ log_blocks (log s)) then log_blocks (log s) else log_blocks (log s) ++ [n]).
Proof.
  intros Ht Hr Hout Hroom. pose proof (t_size _ _ Ht) as Hsz.
  destruct (update_held ∅ n g w s (proj1 (tx_txo w s) Ht)) as (w' & b & s1 & s2 & s3 & s4 & ? & ? & ? & ? & ? & ? & Ht4 & ? & ? & _ & ?); try done.
  { rewrite size_empty. unfold LOGSIZE, MAXOPBLOCKS, NBUF in *. lia. }
  exists w', b, s1, s2, s3, s4. split_and!; try done. by apply tx_txo.
Qed.
End tx.

(** ** Writing a file *)

(** Where the first [nb] blocks of a file may live: allocated, apart from each
    other, from the indirect block, from the inode's block [ib] and from the
    log. *)
Record file_layout (v : Z → list Z) (x : inode) (nb ib start : Z) : Prop := {
  fl_mapped : ∀ bn, 0 ≤ bn < nb → mapped v x bn;
  fl_inj : ∀ bn bn', 0 ≤ bn < nb → 0 ≤ bn' < nb → file_addr v x bn = file_addr v x bn' → bn = bn';
  fl_ind : ∀ bn, 0 ≤ bn < nb → file_addr v x bn ≠ addr_at x NDIRECT;
  fl_inode : ∀ bn, 0 ≤ bn < nb → file_addr v x bn ≠ ib;
  fl_inode_ind : addr_at x NDIRECT ≠ ib;
  fl_ind_log : NDIRECT < nb → ¬ in_log start (addr_at x NDIRECT);
  fl_log : ∀ bn, 0 ≤ bn < nb → 0 ≤ file_addr v x bn < 2 ^ 31 ∧ ¬ in_log start (file_addr v x bn);
}.

(** Blocks [v'] are [v] with [tot] bytes of [bytes] stored in the file from
    offset [off] on. *)
Record wrote (v : Z → list Z) (x : inode) (nb off : Z) (bytes : list Z) (tot : Z) (v' : Z → list Z) : Prop := {
  wr_in : ∀ bn (i : nat), 0 ≤ bn < nb → i < BSIZE →
    v' (file_addr v x bn) !! i =
      if decide (off ≤ bn * BSIZE + i < off + tot) then bytes !! Z.to_nat (bn * BSIZE + i - off) else v (file_addr v x bn) !! i;
  wr_out : ∀ m, (∀ bn, 0 ≤ bn < nb → m ≠ file_addr v x bn) → v' m = v m;
  wr_len : ∀ m, length (v' m) = length (v m);
}.

Lemma file_bytes_lookup v x n (k : nat) :
  k < n → file_bytes v x 0 n !! k = Some (default 0 (v (file_addr v x (k / BSIZE)) !! Z.to_nat (k mod BSIZE))).
Proof. intros Hk. unfold file_bytes. rewrite list_lookup_fmap, lookup_seqZ_lt by lia. cbn. by rewrite ?Z.add_0_l. Qed.

Section wrote.
Context (v : Z → list Z) (x : inode) (nb ib start off : Z) (bytes : list Z).
Context (Hfl : file_layout v x nb ib start) (Hoff : 0 ≤ off).

Lemma wrote_0 : wrote v x nb off bytes 0 v.
Proof. split; [|done|done]. intros bn i _ _. rewrite decide_False by lia. done. Qed.

Lemma wrote_addr tot v' bn : wrote v x nb off bytes tot v' → 0 ≤ bn < nb → file_addr v' x bn = file_addr v x bn.
Proof using Hfl.
  intros Hw Hbn. unfold file_addr. destruct (bn <? NDIRECT) eqn:E; [done|]. rewrite (wr_out _ _ _ _ _ _ _ Hw); [done|].
  intros b Hb Eb. by apply (fl_ind _ _ _ _ _ Hfl b).
Qed.

Lemma wrote_mapped tot v' bn : wrote v x nb off bytes tot v' → 0 ≤ bn < nb → mapped v' x bn.
Proof using Hfl.
  intros Hw Hbn. destruct (fl_mapped _ _ _ _ _ Hfl bn Hbn). pose proof (wrote_addr _ _ _ Hw Hbn).
  split; [done|congruence|done|]. rewrite H, (wr_len _ _ _ _ _ _ _ Hw). done.
Qed.

(** One more piece within a block. *)
Lemma wrote_step tot m v' :
  let bn := (off + tot) / BSIZE in
  wrote v x nb off bytes tot v' → 0 ≤ tot → 0 ≤ m → (off + tot) mod BSIZE + m ≤ BSIZE → 0 ≤ bn < nb → tot + m ≤ length bytes →
  wrote v x nb off bytes (tot + m)
    (fupd v' (file_addr v x bn)
       (list_inserts (Z.to_nat ((off + tot) mod BSIZE)) (take (Z.to_nat m) (drop (Z.to_nat tot) bytes)) (v' (file_addr v x bn)))).
Proof using Hfl Hoff.
  intros bn Hw Htot Hm Hle Hbn Hlen. pose proof (Z.mod_pos_bound (off + tot) BSIZE ltac:(done)) as Hr.
  assert (off + tot = bn * BSIZE + (off + tot) mod BSIZE) as Eb by (unfold bn, BSIZE; Z.to_euclidean_division_equations; lia).
  set (r := (off + tot) mod BSIZE) in *. clearbody bn r.
  assert (length (v' (file_addr v x bn)) = Z.to_nat BSIZE) as Hl by (rewrite (wr_len _ _ _ _ _ _ _ Hw); by apply (fl_mapped _ _ _ _ _ Hfl)).
  assert (Z.of_nat (length (take (Z.to_nat m) (drop (Z.to_nat tot) bytes))) = m) as Hk by (rewrite length_take, length_drop; lia).
  split.
  - intros b i Hb Hi. pose proof (wr_in _ _ _ _ _ _ _ Hw b i Hb Hi) as E. destruct (decide (b = bn)) as [->|Hne].
    + rewrite fupd_eq. destruct (decide (r ≤ i < r + m)) as [Hin|Hout].
      * rewrite list_lookup_inserts by lia. rewrite decide_True by lia. rewrite lookup_take_lt, lookup_drop by lia. f_equal. lia.
      * destruct (decide (i < r)); [rewrite list_lookup_inserts_lt by lia|rewrite list_lookup_inserts_ge by lia]; rewrite E;
          (destruct (decide (off ≤ bn * BSIZE + i < off + tot)); [rewrite decide_True by lia|rewrite decide_False by lia]; done).
    + rewrite fupd_ne by (intros Ea; apply Hne; by eapply (fl_inj _ _ _ _ _ Hfl)). rewrite E.
      destruct (decide (b < bn)); (destruct (decide (off ≤ b * BSIZE + i < off + tot)); [rewrite decide_True by lia|rewrite decide_False by nia]; done).
  - intros a Ha. rewrite fupd_ne by (by apply Ha). by apply Hw.
  - intros a. unfold fupd. case_decide; [subst; rewrite length_inserts|]; apply Hw.
Qed.

(** The file read back: the old bytes, with the new ones in their place. *)
Lemma wrote_bytes v' x' sz :
  wrote v x nb off bytes (length bytes) v' → i_addrs x' = i_addrs x → off ≤ sz →
  Z.max sz (off + length bytes) ≤ nb * BSIZE →
  file_bytes v' x' 0 (Z.max sz (off + length bytes)) =
    take (Z.to_nat off) (file_bytes v x 0 sz) ++ bytes ++ drop (Z.to_nat off + length bytes) (file_bytes v x 0 sz).
Proof using Hfl Hoff.
  intros Hw Ex Hsz Hnb. set (n := Z.of_nat (length bytes)) in *.
  assert (Z.of_nat (length (file_bytes v x 0 sz)) = sz) as Hlen by (apply length_file_bytes; lia).
  assert (∀ bn, file_addr v' x' bn = file_addr v' x bn) as Ea by (intros bn; unfold file_addr, addr_at; by rewrite Ex).
  apply list_eq. intros k. destruct (decide (k < Z.max sz (off + n))) as [Hk|Hk].
  - rewrite (file_bytes_lookup v') by lia. rewrite Ea.
    assert (0 ≤ k / BSIZE < nb) as Hbn by (unfold BSIZE in *; Z.to_euclidean_division_equations; lia).
    pose proof (Z.mod_pos_bound k BSIZE ltac:(done)). pose proof (Z.div_mod k BSIZE ltac:(done)) as Ek.
    rewrite (wrote_addr _ _ _ Hw Hbn), (wr_in _ _ _ _ _ _ _ Hw) by lia.
    replace (k / BSIZE * BSIZE + Z.to_nat (k mod BSIZE)) with (Z.of_nat k) by lia.
    destruct (decide (off ≤ k < off + n)) as [Hi|Ho].
    + rewrite lookup_app_r, lookup_app_l by (rewrite length_take; lia). rewrite length_take.
      replace (k - Z.to_nat off `min` length (file_bytes v x 0 sz))%nat with (Z.to_nat (k - off)) by lia.
      destruct (lookup_lt_is_Some_2 bytes (Z.to_nat (k - off))) as [c Hc]; [lia|]. by rewrite Hc.
    + rewrite <-file_bytes_lookup with (n := sz) by lia. destruct (decide (k < off)).
      * by rewrite lookup_app_l, lookup_take_lt by (rewrite ?length_take; lia).
      * rewrite lookup_app_r, lookup_app_r by (rewrite ?length_take; lia). rewrite lookup_drop, length_take. f_equal. lia.
  - rewrite !lookup_ge_None_2; [done|rewrite !length_app, length_take, length_drop; lia|].
    pose proof (length_file_bytes v' x' 0 (Z.max sz (off + n)) ltac:(lia)). lia.
Qed.
End wrote.

Section writing.
Context `{Patience} (pr : nat) (q : proc) (dev : Z) (Hpat : (0 < patience)%nat).
Context (v : Z → list Z) (x : inode) (ip : nat) (nb ib start off : Z) (bytes : list Z).
Context (Hfl : file_layout v x nb ib start) (Hdev : i_dev x = dev) (Hoff : 0 ≤ off) (Hnb : off + length bytes ≤ nb * BSIZE).

Lemma frame_rest s s' : io_frame s s' → disk s' = disk s → dwrites s' = dwrites s → same_rest s s'.
Proof. intros Hf Hd Hw. pose proof (io_frame_log _ _ Hf) as El. destruct Hf as [ps Ef]. unfold same_rest. rewrite El, Hd, Hw, Ef. done. Qed.

Lemma logged_count w s w' s' n :
  tx pr q dev w s → tx pr q dev w' s' →
  log_blocks (log s') = (if decide (n ∈ log_blocks (log s)) then log_blocks (log s) else log_blocks (log s) ++ [n]) →
  lh_n (log_lh (log s')) ≤ lh_n (log_lh (log s)) + 1.
Proof using Type.
  clear Hpat Hoff Hnb. intros Ht%tx_txo Ht'%tx_txo. by apply (held_count pr q dev ∅ w s w').
Qed.

Lemma writei_round tot w s :
  tx pr q dev w s → log_start (log s) = start → lh_n (log_lh (log s)) < log_size (log s) - 1 → itable s !! ip = Some x →
  wrote v x nb off bytes tot (v_data w) → 0 ≤ tot < length bytes →
  let m := Z.min (length bytes - tot) (BSIZE - (off + tot) mod BSIZE) in
  ∃ w' s', writei_body ip (length bytes) (tot, off + tot, SVar (drop (Z.to_nat tot) bytes)) s =
      Ret (inl (tot + m, off + (tot + m), SVar (drop (Z.to_nat (tot + m)) bytes))) s' ∧
    tx pr q dev w' s' ∧ same_rest s s' ∧ wrote v x nb off bytes (tot + m) (v_data w') ∧
    lh_n (log_lh (log s')) ≤ lh_n (log_lh (log s)) + 1 ∧ 0 < m ≤ length bytes - tot ∧
    (tot + m = length bytes ∨ (off + (tot + m)) / BSIZE = (off + tot) / BSIZE + 1).
Proof using Hpat Hfl Hdev Hoff Hnb.
  intros Ht Hst Hroom Hip Hw Htot m. pose proof (Z.mod_pos_bound (off + tot) BSIZE ltac:(done)) as Hr.
  assert (0 ≤ (off + tot) / BSIZE < nb) as Hbn by (unfold BSIZE in *; Z.to_euclidean_division_equations; lia).
  set (bn := (off + tot) / BSIZE) in *. pose proof (wrote_addr v x nb ib start off bytes Hfl tot _ bn Hw Hbn) as Ea.
  pose proof (wrote_mapped v x nb ib start off bytes Hfl tot _ bn Hw Hbn) as Hmp.
  destruct (bmap_mapped pr q dev w x Hpat (t_own _ _ _ _ _ Ht) ltac:(by eapply tx_bufs)
    ltac:(intros k; by eapply tx_count) Hdev
    ip bn s (t_io _ _ _ _ _ Ht) Hip Hmp) as (s1 & E1 & Hio1 & Hf1 & Hd1 & Hw1).
  assert (tx pr q dev w s1) as Ht1 by (by eapply tx_frame). pose proof (frame_rest _ _ Hf1 Hd1 Hw1) as Hsr1.
  pose proof (io_frame_log _ _ Hf1) as El1. destruct (fl_log _ _ _ _ _ Hfl bn Hbn) as [Hrange Hnl].
  destruct (update_block pr q dev Hpat (file_addr v x bn)
    (list_inserts (Z.to_nat ((off + tot) mod BSIZE)) (take (Z.to_nat m) (drop (Z.to_nat tot) bytes))) w s1 Ht1 Hrange)
    as (w5 & b & s2 & s3 & s4 & s5 & E2 & _ & Ei & E3 & E4 & E5 & Ht5 & Hv5 & Hsr5 & Hbl); [by rewrite El1, Hst|by rewrite El1|].
  exists w5, s5. split; [|split; [exact Ht5|split; [by eapply same_rest_trans|split; [|split]]]].
  - unfold writei_body. mif_false by (apply negb_false_iff; lia). fold bn. mrun E1.
    rewrite (proj2 (Z.eqb_neq _ _) (mp_addr _ _ _ Hmp)). msimpl. mrun (geti_eq x ip s1) by (by rewrite (io_frame_itable _ _ Hf1)).
    rewrite Hdev, Ea. mrun E2. fold m. cbn [either_copyin]. unfold mret at 1, M_ret. cbn [bindO]. mrun E3. cbn [Z.eqb].
    mrun E4. mrun E5. cbn [src_add]. rewrite drop_drop, Z.add_assoc. unfold mret, M_ret. do 5 f_equal. unfold m. lia.
  - rewrite Hv5. apply (wrote_step v x nb ib start off bytes Hfl Hoff); try done; lia.
  - rewrite <-El1. by eapply logged_count.
  - unfold m. split; [lia|].
    destruct (Z.min_spec (length bytes - tot) (BSIZE - (off + tot) mod BSIZE)) as [[_ ->]|[Hge ->]]; [left; lia|right].
    unfold bn, BSIZE in *. Z.to_euclidean_division_equations. lia.
Qed.

Lemma writei_loop (fuel : nat) : ∀ tot w s,
  tx pr q dev w s → log_start (log s) = start → itable s !! ip = Some x →
  wrote v x nb off bytes tot (v_data w) → 0 ≤ tot ≤ length bytes →
  (tot < length bytes → (off + length bytes - 1) / BSIZE - (off + tot) / BSIZE + 1 < fuel ∧
    lh_n (log_lh (log s)) + (off + length bytes - 1) / BSIZE - (off + tot) / BSIZE + 1 < log_size (log s)) → (0 < fuel)%nat →
  ∃ w' s', loop fuel (writei_body ip (length bytes)) (tot, off + tot, SVar (drop (Z.to_nat tot) bytes)) s =
      Ret (Z.of_nat (length bytes), off + length bytes) s' ∧
    tx pr q dev w' s' ∧ same_rest s s' ∧ wrote v x nb off bytes (length bytes) (v_data w') ∧
    lh_n (log_lh (log s')) ≤ lh_n (log_lh (log s)) +
      (if tot <? length bytes then (off + length bytes - 1) / BSIZE - (off + tot) / BSIZE + 1 else 0).
Proof using Hpat Hfl Hdev Hoff Hnb.
  induction fuel as [|fuel IH]; intros tot w s Ht Hst Hip Hw Htot Hfuel Hf0; [lia|].
  destruct (decide (tot = length bytes)) as [->|Hne].
  { exists w, s. rewrite (loop_exit _ _ _ _ (Z.of_nat (length bytes), off + length bytes) s).
    - rewrite Z.ltb_irrefl. split_and!; try done. lia.
    - unfold writei_body. mif_true by (apply negb_true_iff; lia). done. }
  specialize (Hfuel ltac:(lia)). destruct Hfuel as [Hfuel Hroom].
  pose proof (Z.div_le_mono (off + tot) (off + length bytes - 1) BSIZE ltac:(done) ltac:(lia)) as Hmono.
  destruct (writei_round tot w s Ht Hst ltac:(lia) Hip Hw ltac:(lia)) as (w1 & s1 & E1 & Ht1 & Hsr & Hw1 & Hlh & Hm & Hnext).
  pose proof Hsr as (Hit & _ & _ & _ & Hls & Hlst).
  set (m := Z.min _ _) in *. destruct (IH (tot + m) w1 s1 Ht1) as (w2 & s2 & E2 & Ht2 & Hsr2 & Hw2 & Hlh2); try done; try lia; try congruence.
  exists w2, s2. rewrite (loop_next _ _ _ _ _ _ E1), E2. split_and!; try done; [by eapply same_rest_trans|].
  rewrite (proj2 (Z.ltb_lt tot _)) by lia. destruct (Z.ltb_spec (tot + m) (length bytes)); lia.
Qed.

Lemma tx_itable w s f : tx pr q dev w s → tx pr q dev w (s <| itable ::= f |>).
Proof. intros []. split; try done. by apply io_itable. Qed.

(** iupdate() inside a transaction. *)
Lemma iupdate_tx y w s :
  tx pr q dev w s → itable s !! ip = Some y → i_dev y = dev → IBLOCK (i_inum y) (Machine.sb s) = ib → 0 ≤ ib < 2 ^ 31 →
  ¬ in_log (log_start (log s)) ib → lh_n (log_lh (log s)) < log_size (log s) - 1 →
  ∃ w' s', iupdate ip s = Ret () s' ∧ tx pr q dev w' s' ∧ same_rest s s' ∧ 0 < lh_n (log_lh (log s')) ∧
    v_data w' = fupd (v_data w) ib (dinode_put (v_data w ib) (dinode_off (i_inum y)) y).
Proof using Hpat.
  clear Hfl Hoff Hnb. intros Ht Hy Hd Hib Hr Hnl Hroom.
  destruct (update_block pr q dev Hpat ib (λ d, dinode_put d (dinode_off (i_inum y)) y) w s Ht Hr Hnl Hroom)
    as (w5 & b & s2 & s3 & s4 & s5 & E2 & _ & Ei & E3 & E4 & E5 & Ht5 & Hv5 & Hsr5 & Hbl).
  exists w5, s5. split; [|split; [exact Ht5|split; [done|split; [|done]]]].
  - unfold iupdate. msimpl. mrun (geti_eq y ip s) by done. msimpl. rewrite Hd, Hib. mrun E2. mrun E3. mrun E4. exact E5.
  - rewrite <-(log_blocks_length _ (t_layout _ _ _ _ _ Ht5)), Hbl. destruct (decide _) as [Hi|_].
    + destruct (log_blocks (log s)); [by apply not_elem_of_nil in Hi|]. cbn. lia.
    + rewrite length_app. cbn. lia.
Qed.

(** The inode's block is none of the file's. *)
Lemma file_bytes_inode tot v' y n d :
  wrote v x nb off bytes tot v' → i_addrs y = i_addrs x → n ≤ nb * BSIZE → file_bytes (fupd v' ib d) y 0 n = file_bytes v' y 0 n.
Proof using Hfl.
  clear Hpat Hoff Hnb. intros Hw Ey Hn. apply list_fmap_ext. intros k a (-> & Hk)%lookup_seqZ.
  assert (0 ≤ (0 + (0 + k)) / BSIZE < nb) as Hbn by (unfold BSIZE in *; Z.to_euclidean_division_equations; lia).
  set (bn := _ / BSIZE) in *. assert (file_addr (fupd v' ib d) y bn = file_addr v' y bn) as Ea.
  { unfold file_addr, addr_at. rewrite Ey. destruct (bn <? NDIRECT); [done|]. rewrite fupd_ne; [done|]. apply (fl_inode_ind _ _ _ _ _ Hfl). }
  rewrite Ea, fupd_ne; [done|]. replace (file_addr v' y bn) with (file_addr v' x bn) by (unfold file_addr, addr_at; by rewrite Ey).
  rewrite (wrote_addr v x nb ib start off bytes Hfl tot v' bn Hw Hbn). by apply (fl_inode _ _ _ _ _ Hfl).
Qed.

(** The file can be written again. *)
Lemma layout_kept tot v' y d :
  wrote v x nb off bytes tot v' → i_addrs y = i_addrs x → file_layout (fupd v' ib d) y nb ib start.
Proof using Hfl.
  clear Hpat Hoff Hnb. intros Hw Ey. assert (addr_at y NDIRECT = addr_at x NDIRECT) as Ei by (unfold addr_at; by rewrite Ey).
  assert (∀ bn, 0 ≤ bn < nb → file_addr (fupd v' ib d) y bn = file_addr v x bn) as Ea.
  { intros bn Hbn. rewrite <-(wrote_addr v x nb ib start off bytes Hfl tot v' bn Hw Hbn). unfold file_addr, addr_at. rewrite Ey.
    destruct (bn <? NDIRECT); [done|]. rewrite fupd_ne; [done|]. apply Hfl. }
  split; rewrite ?Ei; try apply Hfl.
  - intros bn Hbn. destruct (fl_mapped _ _ _ _ _ Hfl bn Hbn) as [H1 H2 H3 H4]. split; rewrite ?(Ea bn Hbn), ?Ei; try done.
    rewrite fupd_ne by (by apply (fl_inode _ _ _ _ _ Hfl)). by rewrite (wr_len _ _ _ _ _ _ _ Hw).
  - intros bn b2 Hbn Hb2. rewrite (Ea bn Hbn), (Ea b2 Hb2). by apply Hfl.
  - intros bn Hbn. rewrite (Ea bn Hbn). by apply Hfl.
  - intros bn Hbn. rewrite (Ea bn Hbn). by apply Hfl.
  - intros bn Hbn. rewrite (Ea bn Hbn). by apply Hfl.
Qed.

Definition grown (y : inode) : inode := if i_size y <? off + length bytes then y <| i_size := off + length bytes |> else y.

Lemma grown_size : i_size (grown x) = Z.max (i_size x) (off + length bytes).
Proof using Type. clear Hpat Hoff Hnb. unfold grown. destruct (Z.ltb_spec (i_size x) (off + length bytes)); cbn; lia. Qed.
Lemma grown_rest : i_addrs (grown x) = i_addrs x ∧ i_dev (grown x) = i_dev x ∧ i_inum (grown x) = i_inum x.
Proof using Type. unfold grown. by destruct (_ <? _). Qed.

Lemma grow_inode s s1 :
  itable s1 = itable s → itable s !! ip = Some x →
  (if i_size x <? off + length bytes then seti ip (λ y, y <| i_size := off + length bytes |>) else λ s', Ret () s') s1 =
    Ret () (s1 <| itable := <[ip := grown x]> (itable s) |>).
Proof using Type.
  intros E Hip. unfold grown, seti, modify. destruct (_ <? _).
  - rewrite <-(list_alter_insert (λ y : inode, y <| i_size := off + length bytes |>) (itable s) ip x), <-E by done. done.
  - rewrite list_insert_id, <-E by done. by destruct s1.
Qed.

Lemma writei_spec w s :
  tx pr q dev w s → v_data w = v → log_start (log s) = start → itable s !! ip = Some x → dinode_ok x →
  IBLOCK (i_inum x) (Machine.sb s) = ib → 0 ≤ ib < 2 ^ 31 → ¬ in_log start ib → off ≤ i_size x → i_size x ≤ nb * BSIZE →
  lh_n (log_lh (log s)) + (off + length bytes - 1) / BSIZE - off / BSIZE + 2 < log_size (log s) →
  ∃ w' s' v1, writei ip (SVar bytes) off (length bytes) s = Ret (Z.of_nat (length bytes)) s' ∧ tx pr q dev w' s' ∧
    itable s' = <[ip := grown x]> (itable s) ∧ disk s' = disk s ∧ dwrites s' = dwrites s ∧ log_start (log s') = start ∧
    0 < lh_n (log_lh (log s')) ∧ wrote v x nb off bytes (length bytes) v1 ∧
    v_data w' = fupd v1 ib (dinode_put (v1 ib) (dinode_off (i_inum x)) (grown x)).
Proof using Hpat Hfl Hdev Hoff Hnb.
  intros Ht Hv Hst Hip Hok Hib Hibr Hibl Hsz Hnb' Hroom.
  assert (off + length bytes ≤ MAXFILE * BSIZE) as Hmax.
  { destruct (decide (nb ≤ 0)); [unfold MAXFILE, BSIZE in *; lia|].
    destruct (mp_range _ _ _ (fl_mapped _ _ _ _ _ Hfl (nb - 1) ltac:(lia))). unfold BSIZE in *. lia. }
  destruct (writei_loop (Z.to_nat (length bytes / BSIZE) + 3) 0 w s Ht Hst Hip) as (w1 & s1 & E1 & Ht1 & Hsr1 & Hw1 & Hlh); try lia.
  { rewrite Hv. apply wrote_0. }
  { intros Hn. rewrite Z.add_0_r. pose proof (Z.div_pos (length bytes) BSIZE ltac:(lia) ltac:(done)).
    split; [|lia]. unfold BSIZE in *. Z.to_euclidean_division_equations. lia. }
  change (drop (Z.to_nat 0) bytes) with bytes in E1. rewrite Z.add_0_r in E1, Hlh. destruct Hsr1 as (Hit1 & Hsb1 & Hd1 & Hdw1 & Hls1 & Hlst1).
  destruct (grown_rest) as (_ & Hgd & Hgi).
  destruct (iupdate_tx (grown x) w1 (s1 <| itable := <[ip := grown x]> (itable s) |>)) as (w2 & s2 & E2 & Ht2 & Hsr2 & Hpos & Hv2);
    rewrite ?Hgd, ?Hgi; try done.
  { by apply (tx_itable w1 s1 (λ _, _)). }
  { apply list_lookup_insert_eq. by eapply lookup_lt_Some. }
  { change (IBLOCK (i_inum x) (Machine.sb s1) = ib). by rewrite Hsb1. }
  { change (¬ in_log (log_start (log s1)) ib). by rewrite Hlst1, Hst. }
  { change (lh_n (log_lh (log s1)) < log_size (log s1) - 1). rewrite Hls1. destruct (0 <? Z.of_nat (length bytes)) eqn:E; [lia|].
    pose proof (Z.div_le_mono (off - 1) off BSIZE ltac:(done) ltac:(lia)). unfold BSIZE in *. Z.to_euclidean_division_equations. lia. }
  destruct Hsr2 as (Hit2 & _ & Hd2 & Hdw2 & _ & Hlst2). cbn in Hit2, Hd2, Hdw2, Hlst2. exists w2, s2, (v_data w1).
  split_and!; try done; try congruence.
  - unfold writei. msimpl. mrun (geti_eq x ip s) by done.
    assert (off + length bytes < 2 ^ 31) as Hlt by (eapply Z.le_lt_trans; [exact Hmax|reflexivity]). rewrite u32_small by lia. mif_false by (apply orb_false_iff; rewrite !Z.ltb_ge; lia).
    mif_false by lia. mrun E1. mrun (geti_eq x ip s1) by (by rewrite Hit1).
    mrun (grow_inode s s1) by done. mrun E2. unfold mret, M_ret. rewrite i32_small by lia. done.
Qed.
End writing.

(** ** The call as a whole *)

(** The inode's fields as the disk has them. *)
Definition with_dinode (x y : inode) : inode :=
  y <| i_type := i_type x |> <| i_major := i_major x |> <| i_minor := i_minor x |> <| i_nlink := i_nlink x |>
    <| i_size := i_size x |> <| i_addrs := i_addrs x |>.

(** A write of [bytes] at [off] into the open, locked inode of entry [ip],
    with the blocks allocated and room in the log for them and the inode. *)
Record writable (w : view) (s : kernel) (x : inode) (ip : nat) (nb off : Z) (bytes : list Z) : Prop := {
  wa_inode : itable s !! ip = Some x;
  wa_ok : dinode_ok x;
  wa_layout : file_layout (v_data w) x nb (IBLOCK (i_inum x) (Machine.sb s)) (log_start (log s));
  wa_range : 0 ≤ IBLOCK (i_inum x) (Machine.sb s) < 2 ^ 31;
  wa_log : ¬ in_log (log_start (log s)) (IBLOCK (i_inum x) (Machine.sb s));
  wa_block : length (v_data w (IBLOCK (i_inum x) (Machine.sb s))) = 1024%nat;
  wa_off : 0 ≤ off ≤ i_size x;
  wa_size : Z.max (i_size x) (off + length bytes) ≤ nb * BSIZE;
  wa_room : lh_n (log_lh (log s)) + (off + length bytes - 1) / BSIZE - off / BSIZE + 2 < log_size (log s);
}.

(** The file's bytes after the write. *)
Definition overwritten (old : list Z) (off : Z) (bytes : list Z) : list Z :=
  take (Z.to_nat off) old ++ bytes ++ drop (Z.to_nat off + length bytes) old.

Lemma dinode_off_bound i : (dinode_off i + 64 ≤ 1024)%nat.
Proof.
  unfold dinode_off, DINODE_SIZE. assert (0 ≤ i mod IPB < 16) by (apply Z.mod_pos_bound; done). lia.
Qed.

Lemma grown_ok off bytes x : dinode_ok x → 0 ≤ off → off + Z.of_nat (length bytes) < 2 ^ 32 → dinode_ok (grown off bytes x).
Proof. intros [] ? ?. unfold grown. destruct (_ <? _); split; cbn; try done. lia. Qed.

Lemma writei_file `{Patience} pr q dev w s x ip nb off bytes :
  let ib := IBLOCK (i_inum x) (Machine.sb s) in
  let x' := grown off bytes x in
  (0 < patience)%nat → tx pr q dev w s → i_dev x = dev → writable w s x ip nb off bytes →
  ∃ w' s', writei ip (SVar bytes) off (length bytes) s = Ret (Z.of_nat (length bytes)) s' ∧ tx pr q dev w' s' ∧
    itable s' = <[ip := x']> (itable s) ∧ disk s' = disk s ∧ dwrites s' = dwrites s ∧ log_start (log s') = log_start (log s) ∧
    0 < lh_n (log_lh (log s')) ∧
    file_bytes (v_data w') x' 0 (i_size x') = overwritten (file_bytes (v_data w) x 0 (i_size x)) off bytes ∧
    (∀ y, dinode_get (v_data w' ib) (dinode_off (i_inum x)) y = with_dinode x' y) ∧
    (∀ m, m ≠ ib → (∀ bn, 0 ≤ bn < nb → m ≠ file_addr (v_data w) x bn) → v_data w' m = v_data w m) ∧
    (∀ i, (i < dinode_off (i_inum x) ∨ dinode_off (i_inum x) + 64 ≤ i)%nat → v_data w' ib !! i = v_data w ib !! i) ∧
    file_layout (v_data w') x' nb ib (log_start (log s)).
Proof.
  intros ib x' Hpat Ht Hdev [Hip Hok Hfl Hr Hnl Hlen Hoff Hsz Hroom]. fold ib in Hfl, Hr, Hnl, Hlen.
  destruct (writei_spec pr q dev Hpat (v_data w) x ip nb ib (log_start (log s)) off bytes Hfl Hdev ltac:(lia) ltac:(lia) w s)
    as (w' & s' & v1 & E & Ht' & Hit & Hd & Hdw & Hls & Hpos & Hw & Ev); try done; try lia.
  assert (v1 ib = v_data w ib) as Eib.
  { apply (wr_out _ _ _ _ _ _ _ Hw). intros bn Hbn Eb. by apply (fl_inode _ _ _ _ _ Hfl bn Hbn). }
  destruct (grown_rest x off bytes) as (Ha & _ & _). pose proof (grown_size x off bytes) as Hgs.
  assert (off + length bytes < 2 ^ 32) as Hov.
  { destruct (decide (nb ≤ 0)); [unfold BSIZE in *; lia|].
    destruct (mp_range _ _ _ (fl_mapped _ _ _ _ _ Hfl (nb - 1) ltac:(lia))) as [_ Hm].
    assert (nb - 1 < 268) by (eapply Z.lt_le_trans; [exact Hm|done]). unfold BSIZE in *. lia. }
  exists w', s'. rewrite Ev. split_and!; try done.
  - fold x' in Hgs, Ha. rewrite Hgs. rewrite (file_bytes_inode (v_data w) x nb ib (log_start (log s)) off bytes Hfl (length bytes)) by (done || lia).
    apply (wrote_bytes (v_data w) x nb ib (log_start (log s)) off bytes Hfl); done || lia.
  - intros y. rewrite fupd_eq. apply dinode_get_put; [rewrite Eib, Hlen; apply dinode_off_bound|]. apply grown_ok; done || lia.
  - intros m Hm Hmb. rewrite fupd_ne by done. by apply (wr_out _ _ _ _ _ _ _ Hw).
  - intros i Hi. rewrite fupd_eq, Eib. apply dinode_put_out; [|done]. rewrite Ha. apply Hok.
  - by apply (layout_kept (v_data w) x nb ib (log_start (log s)) off bytes Hfl (length bytes)).
Qed.

(** ** What is on the disk *)

(** The contents of file [inum] on a disk. *)
Definition file_at (b : superblock) (v : Z → list Z) (inum : Z) : list Z :=
  let y := dinode_get (v (IBLOCK inum b)) (dinode_off inum) inode0 in file_bytes v y 0 (i_size y).

Lemma file_bytes_ext v v' x x' nb start n :
  (∀ bn, 0 ≤ bn < nb → ¬ in_log start (file_addr v x bn)) → (NDIRECT < nb → ¬ in_log start (addr_at x NDIRECT)) →
  i_addrs x' = i_addrs x → n ≤ nb * BSIZE →
  (∀ m, ¬ in_log start m → v' m = v m) → file_bytes v' x' 0 n = file_bytes v x 0 n.
Proof.
  intros Hdata Hind Ex Hn Hv. apply list_fmap_ext. intros k a (-> & Hk)%lookup_seqZ.
  assert (0 ≤ (0 + (0 + k)) / BSIZE < nb) as Hbn by (unfold BSIZE in *; Z.to_euclidean_division_equations; lia).
  set (bn := _ / BSIZE) in *. assert (file_addr v' x' bn = file_addr v x bn) as Ea.
  { unfold file_addr, addr_at. rewrite Ex. destruct (Z.ltb_spec bn NDIRECT); [done|]. f_equal. apply Hv, Hind. lia. }
  rewrite Ea, Hv; [done|]. by apply Hdata.
Qed.

(** What is read back from a disk that agrees with a view outside the log. *)
Lemma file_at_ext b v v' x nb start inum :
  (∀ bn, 0 ≤ bn < nb → ¬ in_log start (file_addr v x bn)) → (NDIRECT < nb → ¬ in_log start (addr_at x NDIRECT)) →
  ¬ in_log start (IBLOCK inum b) → i_size x ≤ nb * BSIZE → (∀ m, ¬ in_log start m → v' m = v m) →
  dinode_get (v (IBLOCK inum b)) (dinode_off inum) inode0 = with_dinode x inode0 →
  file_at b v' inum = file_bytes v x 0 (i_size x).
Proof. intros Hdata Hind Hib Hsz Hv Hx. unfold file_at. rewrite Hv, Hx by done. by apply (file_bytes_ext _ _ _ _ nb start). Qed.

(** ** An example *)

(** The file of FsFacts.v with its inode on the disk, in an empty transaction. *)
Definition ex_wsb : superblock := mkSuperblock FSMAGIC 1000 900 200 30 2 45 46.
Definition ex_wdisk : gmap Z (list Z) := <[45 := dinode_put zero_block (dinode_off 3) ex_inode]> ex_file_disk.
Definition ex_wlog : kernel :=
  ex_files <| disk := ex_wdisk |> <| Machine.sb := ex_wsb |> <| log := mkLog 2 30 1 0 1 (mkLogheader 0 (replicate 30 0)) |>.
