(* ===== verification/FsAlloc.v ===== *)
(** * Allocating and freeing disk blocks

    balloc() and bfree() inside a transaction, on the free bitmap as the set of
    the blocks in use.  balloc() takes the first free block, marks and clears
    it; bfree() gives a block back. *)

From Stdlib Require Import ZArith Lia.
From stdpp Require Import base numbers strings option list gmap.
From S2P Require Import Prelude Params Machine Cstring Kalloc Sched SchedFacts Uart Console Sleeplock Bio BioFacts Log LogFacts Fs FsFacts FsDir FsWrite VmExample.

Open Scope Z_scope.

(** ** The bitmap *)

Definition in_use (b : superblock) (v : Z → list Z) (n : Z) : bool := bit_used (v (BBLOCK n b)) (n mod BPB).

(** The bitmap's blocks are there, and neither they nor the log are free. *)
Record bitmap_ok (b : superblock) (v : Z → list Z) (start : Z) : Prop := {
  bm_size : 0 < sb_size b < 2 ^ 30;
  bm_start : 0 ≤ sb_bmapstart b < 2 ^ 30;
  bm_len : ∀ n, 0 ≤ n < sb_size b → length (v (BBLOCK n b)) = 1024%nat;
  bm_log : ∀ n, 0 ≤ n < sb_size b → ¬ in_log start (BBLOCK n b);
  bm_meta : ∀ n, 0 ≤ n < sb_size b → in_use b v n = false → ¬ in_log start n ∧ ∀ m, 0 ≤ m < sb_size b → n ≠ BBLOCK m b;
}.

Lemma BBLOCK_eq b v start n : bitmap_ok b v start → 0 ≤ n < sb_size b → BBLOCK n b = n / BPB + sb_bmapstart b ∧ 0 ≤ BBLOCK n b < 2 ^ 31.
Proof.
  intros [H1 H2 _ _ _] Hn. unfold BBLOCK. change BPB with 8192. rewrite u32_small by (Z.to_euclidean_division_equations; lia).
  split; [done|]. Z.to_euclidean_division_equations. lia.
Qed.

(** Blocks of the same bitmap block. *)
Lemma BBLOCK_same b v start n m :
  bitmap_ok b v start → 0 ≤ n < sb_size b → 0 ≤ m < sb_size b → (BBLOCK n b = BBLOCK m b ↔ n / BPB = m / BPB).
Proof. intros Hb Hn Hm. destruct (BBLOCK_eq b v start n Hb Hn) as [-> _]. destruct (BBLOCK_eq b v start m Hb Hm) as [-> _]. lia. Qed.

Lemma find_clear_spec d b size :
  match find_clear d b size with
  | Some bi => 0 ≤ bi < Z.min BPB (size - b) ∧ bit_used d bi = false ∧ ∀ j, 0 ≤ j < bi → bit_used d j = true
  | None => ∀ j, 0 ≤ j < Z.min BPB (size - b) → bit_used d j = true
  end.
Proof.
  unfold find_clear. destruct (list_find _ _) as [[i bi]|] eqn:E; cbn [fmap option_fmap option_map snd].
  - apply list_find_Some in E as (Hi & Hb & Hall). apply lookup_seqZ in Hi as [-> Hi]. split; [lia|]. split; [done|].
    intros j Hj. apply not_false_is_true. apply (Hall (Z.to_nat j)); [|lia]. apply lookup_seqZ. lia.
  - apply list_find_None in E. intros j Hj. apply not_false_is_true. rewrite Forall_forall in E. apply E. apply elem_of_seqZ. lia.
Qed.

(** The first free bit of the bitmap block of [n] is that of the first free
    block [r], or there is none when [r] is farther on. *)
Lemma find_clear_first b v start k r :
  bitmap_ok b v start → 0 ≤ k → k * BPB ≤ r < sb_size b → in_use b v r = false → (∀ n, 0 ≤ n < r → in_use b v n = true) →
  find_clear (v (BBLOCK (k * BPB) b)) (k * BPB) (sb_size b) = if r <? (k + 1) * BPB then Some (r - k * BPB) else None.
Proof.
  intros Hb Hk Hr Hfree Hfirst. assert (0 ≤ k * BPB) as Hk0 by (change BPB with 8192; lia).
  assert (0 < BPB) as HB by done. pose proof (find_clear_spec (v (BBLOCK (k * BPB) b)) (k * BPB) (sb_size b)) as Hfc.
  assert (∀ j, 0 ≤ j < Z.min BPB (sb_size b - k * BPB) → bit_used (v (BBLOCK (k * BPB) b)) j = in_use b v (k * BPB + j)) as Hbit.
  { intros j Hj. unfold in_use. replace (BBLOCK (k * BPB + j) b) with (BBLOCK (k * BPB) b).
    - f_equal. change BPB with 8192 in *. Z.to_euclidean_division_equations. lia.
    - apply (BBLOCK_same b v start); [done|lia|lia|]. change BPB with 8192 in *. Z.to_euclidean_division_equations. lia. }
  destruct (find_clear _ _ _) as [bi|], (Z.ltb_spec r ((k + 1) * BPB)) as [Hlt|Hge].
  - destruct Hfc as (H1 & H2 & H3). f_equal. rewrite Hbit in H2 by done.
    destruct (Z.lt_trichotomy bi (r - k * BPB)) as [H|[H|H]]; [|done|].
    + by rewrite Hfirst in H2 by lia.
    + specialize (H3 (r - k * BPB) ltac:(lia)). rewrite Hbit in H3 by lia. replace (k * BPB + (r - k * BPB)) with r in H3 by lia. congruence.
  - destruct Hfc as (H1 & H2 & _). rewrite Hbit, Hfirst in H2 by lia. done.
  - specialize (Hfc (r - k * BPB) ltac:(lia)). rewrite Hbit in Hfc by lia. replace (k * BPB + (r - k * BPB)) with r in Hfc by lia. congruence.
  - done.
Qed.

(** ** balloc() *)

Section balloc.
Context `{Patience} (pr : nat) (q : proc) (dev : Z) (Hpat : (0 < patience)%nat).

Lemma bzero_tx O r w s :
  txo pr q dev O w s → r ∉ O → 0 ≤ r < 2 ^ 31 → ¬ in_log (log_start (log s)) r →
  lh_n (log_lh (log s)) < log_size (log s) - 1 → lh_n (log_lh (log s)) + size O < NBUF →
  ∃ w' s', bzero dev r s = Ret () s' ∧ txo pr q dev O w' s' ∧ same_rest s s' ∧ bufs_kept dev O s s' ∧
    lh_n (log_lh (log s')) ≤ lh_n (log_lh (log s)) + 1 ∧ v_data w' = fupd (v_data w) r zero_block.
Proof using Hpat.
  intros Ht Ho Hr Hnl Hroom Hb.
  destruct (update_held pr q dev Hpat O r (λ _, zero_block) w s Ht Ho Hr Hnl Hroom Hb)
    as (w' & b & s1 & s2 & s3 & s4 & E1 & _ & _ & E2 & E3 & E4 & Ht4 & Hv & Hsr & Hk & Hbl).
  exists w', s4. split_and!; try done; [|by eapply (held_count pr q dev O)].
  unfold bzero. msimpl. rewrite u32_small by lia. mrun E1. mrun E2. mrun E3. exact E4.
Qed.

(** A bitmap block with no free bit. *)
Lemma balloc_skip O k r w s :
  let sb := Machine.sb s in
  txo pr q dev O w s → bitmap_ok sb (v_data w) (log_start (log s)) → (∀ n, 0 ≤ n < sb_size sb → BBLOCK n sb ∉ O) →
  0 ≤ k → (k + 1) * BPB ≤ r < sb_size sb → lh_n (log_lh (log s)) + size O < NBUF →
  in_use sb (v_data w) r = false → (∀ n, 0 ≤ n < r → in_use sb (v_data w) n = true) →
  ∃ w' s', balloc_step dev (k * BPB) s = Ret (inl ((k + 1) * BPB)) s' ∧ txo pr q dev O w' s' ∧ v_data w' = v_data w ∧
    same_rest s s' ∧ log s' = log s ∧ bufs_kept dev O s s'.
Proof using Hpat.
  intros sb Ht Hbm HO Hk Hr Hb Hfree Hfirst. pose proof (bm_size _ _ _ Hbm) as Hsz. assert (k * BPB + BPB = (k + 1) * BPB ∧ 0 ≤ k * BPB ∧ 0 < BPB) as (EB & HB0 & HB) by (change BPB with 8192; lia).
  specialize (HO (k * BPB) ltac:(lia)). set (bb := BBLOCK (k * BPB) sb) in *.
  destruct (tx_take pr q dev Hpat O bb w s Ht HO Hb) as (b & s1 & E1 & Es1 & Ed & Ht1 & Hof & Hk1).
  assert (log s1 = log s ∧ disk s1 = disk s) as [El1 Ed1] by (by rewrite Es1).
  destruct (tx_drop pr q dev ({[bb]} ∪ O) bb (w_take bb w) s1 b Ht1 ltac:(set_solver) Hof) as (s2 & E2 & Ht2 & Hsr2 & El2 & Hk2).
  { rewrite El1, Ed1. intros Hl. by apply (txo_clean pr q dev O w s bb). }
  assert (({[bb]} ∪ O) ∖ {[bb]} = O) as EO by set_solver. rewrite EO in Ht2, Hk2.
  eexists _, s2. split; [|split_and!; [exact Ht2|done| |congruence|by eapply bufs_kept_trans]].
  - unfold balloc_step. msimpl. fold sb. rewrite u32_small by lia. mif_false by (apply negb_false_iff; lia).
    fold bb. mrun E1. mrun getb_at. rewrite Ed. unfold bb. rewrite (find_clear_first sb (v_data w) (log_start (log s)) k r) by (done || lia).
    rewrite (proj2 (Z.ltb_ge _ _)) by lia. mrun E2. rewrite i32_small by lia. by rewrite EB.
  - eapply same_rest_trans; [|exact Hsr2]. unfold same_rest. by rewrite Es1.
Qed.

(** The first free block is in this one. *)
Lemma balloc_take O k r w s :
  let sb := Machine.sb s in
  txo pr q dev O w s → bitmap_ok sb (v_data w) (log_start (log s)) → (∀ n, 0 ≤ n < sb_size sb → BBLOCK n sb ∉ O) → r ∉ O →
  0 ≤ k → k * BPB ≤ r < (k + 1) * BPB → r < sb_size sb →
  lh_n (log_lh (log s)) + 2 < log_size (log s) → (size O ≤ 1)%nat →
  in_use sb (v_data w) r = false → (∀ n, 0 ≤ n < r → in_use sb (v_data w) n = true) →
  ∃ w' s', balloc_step dev (k * BPB) s = Ret (inr (Some r)) s' ∧ txo pr q dev O w' s' ∧ same_rest s s' ∧ bufs_kept dev O s s' ∧
    lh_n (log_lh (log s')) ≤ lh_n (log_lh (log s)) + 2 ∧
    v_data w' = fupd (fupd (v_data w) (BBLOCK r sb) (bit_mark (v_data w (BBLOCK r sb)) (r mod BPB))) r zero_block.
Proof using Hpat.
  intros sb Ht Hbm HO HrO Hk Hr Hrs Hroom HO1 Hfree Hfirst. pose proof (bm_size _ _ _ Hbm) as Hsz.
  assert (0 ≤ k * BPB) as HB0 by (change BPB with 8192; lia). destruct (bm_meta _ _ _ Hbm r ltac:(lia) Hfree) as [Hnl Hne].
  assert (BBLOCK (k * BPB) sb = BBLOCK r sb) as Eb.
  { apply (BBLOCK_same sb (v_data w) (log_start (log s))); [done|lia|lia|]. change BPB with 8192 in *. Z.to_euclidean_division_equations. lia. }
  assert (r - k * BPB = r mod BPB) as Em by (change BPB with 8192 in *; Z.to_euclidean_division_equations; lia).
  pose proof (o_size _ _ _ _ _ _ Ht) as Hls. assert (LOGSIZE = NBUF) as EL by done.
  destruct (BBLOCK_eq sb _ _ r Hbm ltac:(lia)) as [_ Hbr].
  destruct (update_held pr q dev Hpat O (BBLOCK r sb) (λ d, bit_mark d (r mod BPB)) w s Ht (HO r ltac:(lia)) Hbr (bm_log _ _ _ Hbm r ltac:(lia)) ltac:(lia) ltac:(lia))
    as (w4 & b & s1 & s2 & s3 & s4 & E1 & Ed & _ & E2 & E3 & E4 & Ht4 & Hv4 & Hsr4 & Hk4 & Hbl).
  pose proof (held_count pr q dev O _ _ _ _ _ Ht Ht4 Hbl) as Hcount. pose proof Hsr4 as (_ & _ & _ & _ & Hls4 & Hlst).
  destruct (bzero_tx O r _ s4 Ht4 HrO ltac:(lia)) as (w5 & s5 & E5 & Ht5 & Hsr5 & Hk5 & Hc5 & Hv5); [by rewrite Hlst|lia|lia|].
  exists w5, s5. split_and!; try done; [|by eapply same_rest_trans|by eapply bufs_kept_trans|lia|by rewrite Hv5, Hv4].
  unfold balloc_step. msimpl. fold sb. rewrite u32_small by lia. mif_false by (apply negb_false_iff; lia). rewrite Eb.
  mrun E1. mrun getb_at. rewrite Ed, <-Eb, (find_clear_first sb (v_data w) (log_start (log s)) k r) by (done || lia).
  rewrite (proj2 (Z.ltb_lt _ _)), Em by lia. mrun E2. mrun E3. mrun E4. replace (k * BPB + r mod BPB) with r by lia. mrun E5. done.
Qed.

Lemma balloc_loop O r (fuel : nat) : ∀ k w s,
  let sb := Machine.sb s in
  txo pr q dev O w s → bitmap_ok sb (v_data w) (log_start (log s)) → (∀ n, 0 ≤ n < sb_size sb → BBLOCK n sb ∉ O) → r ∉ O →
  0 ≤ k → k * BPB ≤ r < sb_size sb → lh_n (log_lh (log s)) + 2 < log_size (log s) → (size O ≤ 1)%nat →
  in_use sb (v_data w) r = false → (∀ n, 0 ≤ n < r → in_use sb (v_data w) n = true) → r / BPB - k < fuel →
  ∃ w' s', loop fuel (balloc_step dev) (k * BPB) s = Ret (Some r) s' ∧ txo pr q dev O w' s' ∧ same_rest s s' ∧ bufs_kept dev O s s' ∧
    lh_n (log_lh (log s')) ≤ lh_n (log_lh (log s)) + 2 ∧
    v_data w' = fupd (fupd (v_data w) (BBLOCK r sb) (bit_mark (v_data w (BBLOCK r sb)) (r mod BPB))) r zero_block.
Proof using Hpat.
  induction fuel as [|fuel IH]; intros k w s sb Ht Hbm HO HrO Hk Hr Hroom HO1 Hfree Hfirst Hfu.
  { change BPB with 8192 in *. Z.to_euclidean_division_equations. lia. }
  pose proof (o_size _ _ _ _ _ _ Ht) as Hls. assert (LOGSIZE = NBUF) as EL by done.
  destruct (decide (r < (k + 1) * BPB)) as [Hlt|Hge].
  - destruct (balloc_take O k r w s) as (w' & s' & E & Ht' & Hsr & Hv); try done; try (fold sb; lia).
    exists w', s'. split; [by apply loop_exit|done].
  - destruct (balloc_skip O k r w s) as (w1 & s1 & E & Ht1 & Ev1 & Hsr1 & El1 & Hk1); try done; try (fold sb; lia).
    pose proof Hsr1 as (_ & Es & _ & _ & _ & _).
    destruct (IH (k + 1) w1 s1) as (w' & s' & E' & Ht' & Hsr & Hk' & Hc & Hv); rewrite ?El1, ?Es, ?Ev1; try done; try (fold sb; lia).
    rewrite Es, Ev1 in Hv. rewrite El1 in Hc. exists w', s'. rewrite (loop_next _ _ _ _ _ _ E).
    split_and!; try done; [by eapply same_rest_trans|by eapply bufs_kept_trans].
Qed.
End balloc.

(** The bitmap after a block has been marked and cleared. *)
Lemma in_use_set b v start r n d :
  bitmap_ok b v start → 0 ≤ r < sb_size b → 0 ≤ n < sb_size b → (∀ m, 0 ≤ m < sb_size b → r ≠ BBLOCK m b) →
  in_use b (fupd (fupd v (BBLOCK r b) (bit_mark (v (BBLOCK r b)) (r mod BPB))) r d) n = in_use b v n || (n =? r).
Proof.
  intros Hb Hr Hn Hne. unfold in_use. rewrite fupd_ne by (intros E; symmetry in E; by apply (Hne n)).
  pose proof (BBLOCK_same b v start n r Hb Hn Hr) as Hsame. destruct (decide (BBLOCK n b = BBLOCK r b)) as [E|E].
  - rewrite E, fupd_eq. rewrite bit_used_mark.
    + f_equal. apply eq_bool_prop_intro. rewrite !Is_true_true, !Z.eqb_eq. apply Hsame in E. change BPB with 8192 in *. Z.to_euclidean_division_equations. lia.
    + rewrite (bm_len _ _ _ Hb r Hr). change BPB with 8192. pose proof (Z.mod_pos_bound r 8192 ltac:(done)). lia.
    + apply Z.mod_pos_bound. done.
  - rewrite fupd_ne by done. rewrite (proj2 (Z.eqb_neq n r)), orb_false_r; [done|]. intros ->. done.
Qed.

Lemma in_use_clear b v start r n :
  bitmap_ok b v start → 0 ≤ r < sb_size b → 0 ≤ n < sb_size b →
  in_use b (fupd v (BBLOCK r b) (bit_clear (v (BBLOCK r b)) (r mod BPB))) n = in_use b v n && negb (n =? r).
Proof.
  intros Hb Hr Hn. unfold in_use.
  pose proof (BBLOCK_same b v start n r Hb Hn Hr) as Hsame. destruct (decide (BBLOCK n b = BBLOCK r b)) as [E|E].
  - rewrite E, fupd_eq. rewrite bit_used_clear.
    + do 2 f_equal. apply eq_bool_prop_intro. rewrite !Is_true_true, !Z.eqb_eq. apply Hsame in E. change BPB with 8192 in *. Z.to_euclidean_division_equations. lia.
    + rewrite (bm_len _ _ _ Hb r Hr). change BPB with 8192. pose proof (Z.mod_pos_bound r 8192 ltac:(done)). lia.
    + apply Z.mod_pos_bound. done.
  - rewrite fupd_ne by done. rewrite (proj2 (Z.eqb_neq n r)), andb_true_r; [done|]. intros ->. done.
Qed.

Lemma bitmap_kept b v start r :
  bitmap_ok b v start → 0 ≤ r < sb_size b → in_use b v r = false →
  bitmap_ok b (fupd (fupd v (BBLOCK r b) (bit_mark (v (BBLOCK r b)) (r mod BPB))) r zero_block) start.
Proof.
  intros Hb Hr Hfree. destruct (bm_meta _ _ _ Hb r Hr Hfree) as [_ Hne]. split; try apply Hb.
  - intros n Hn. rewrite fupd_ne by (intros E; symmetry in E; by apply (Hne n)). unfold fupd. case_decide as E; [|by apply Hb].
    unfold bit_mark. rewrite length_alter. by apply Hb.
  - intros n Hn. rewrite (in_use_set b v start) by done. intros [Hf _]%orb_false_iff. by apply Hb.
Qed.

Section spec.
Context `{Patience} (pr : nat) (q : proc) (dev : Z) (Hpat : (0 < patience)%nat).

(** balloc() with the buffers of the blocks [O] held. *)
Lemma balloc_held O r w s :
  let sb := Machine.sb s in
  txo pr q dev O w s → bitmap_ok sb (v_data w) (log_start (log s)) → (∀ n, 0 ≤ n < sb_size sb → BBLOCK n sb ∉ O) → r ∉ O →
  0 ≤ r < sb_size sb → lh_n (log_lh (log s)) + 2 < log_size (log s) → (size O ≤ 1)%nat →
  in_use sb (v_data w) r = false → (∀ n, 0 ≤ n < r → in_use sb (v_data w) n = true) →
  ∃ w' s', balloc dev s = Ret r s' ∧ txo pr q dev O w' s' ∧ same_rest s s' ∧ bufs_kept dev O s s' ∧
    lh_n (log_lh (log s')) ≤ lh_n (log_lh (log s)) + 2 ∧
    v_data w' = fupd (fupd (v_data w) (BBLOCK r sb) (bit_mark (v_data w (BBLOCK r sb)) (r mod BPB))) r zero_block.
Proof using Hpat.
  intros sb Ht Hbm HO HrO Hr Hroom HO1 Hfree Hfirst.
  destruct (balloc_loop pr q dev Hpat O r (S (S (Z.to_nat (sb_size sb / BPB)))) 0 w s) as (w' & s' & E & Ht' & Hsr & Hv); try done.
  - pose proof (Z.div_le_mono r (sb_size sb) BPB ltac:(done) ltac:(lia)). pose proof (Z.div_pos r BPB ltac:(lia) ltac:(done)). lia.
  - exists w', s'. split; [|done]. unfold balloc. msimpl. fold sb. change (0 * BPB) with 0 in E. rewrite E. done.
Qed.

Lemma balloc_spec r w s :
  let sb := Machine.sb s in
  tx pr q dev w s → bitmap_ok sb (v_data w) (log_start (log s)) → 0 ≤ r < sb_size sb →
  lh_n (log_lh (log s)) + 2 < log_size (log s) →
  in_use sb (v_data w) r = false → (∀ n, 0 ≤ n < r → in_use sb (v_data w) n = true) →
  ∃ w' s', balloc dev s = Ret r s' ∧ tx pr q dev w' s' ∧ same_rest s s' ∧
    lh_n (log_lh (log s')) ≤ lh_n (log_lh (log s)) + 2 ∧
    v_data w' = fupd (fupd (v_data w) (BBLOCK r sb) (bit_mark (v_data w (BBLOCK r sb)) (r mod BPB))) r zero_block.
Proof using Hpat.
  intros sb Ht Hbm Hr Hroom Hfree Hfirst. apply tx_txo in Ht.
  destruct (balloc_held ∅ r w s Ht Hbm) as (w' & s' & E & Ht' & Hsr & _ & Hc & Hv); try done; try set_solver.
  apply tx_txo in Ht'. by exists w', s'.
Qed.

(** bfree() of a block in use, and of one that is free. *)
Lemma bfree_spec r w s :
  let sb := Machine.sb s in
  tx pr q dev w s → bitmap_ok sb (v_data w) (log_start (log s)) → 0 ≤ r < sb_size sb →
  lh_n (log_lh (log s)) + 1 < log_size (log s) →
  if in_use sb (v_data w) r then
    ∃ w' s', bfree dev r s = Ret () s' ∧ tx pr q dev w' s' ∧ same_rest s s' ∧
      lh_n (log_lh (log s')) ≤ lh_n (log_lh (log s)) + 1 ∧
      v_data w' = fupd (v_data w) (BBLOCK r sb) (bit_clear (v_data w (BBLOCK r sb)) (r mod BPB))
  else ∃ s', bfree dev r s = Panic "freeing free block" s'.
Proof using Hpat.
  intros sb Ht Hbm Hr Hroom. destruct (BBLOCK_eq sb _ _ r Hbm Hr) as [_ Hbr].
  destruct (update_block pr q dev Hpat (BBLOCK r sb) (λ d, bit_clear d (r mod BPB)) w s Ht Hbr (bm_log _ _ _ Hbm r Hr) ltac:(lia))
    as (w4 & b & s1 & s2 & s3 & s4 & E1 & Ed & _ & E2 & E3 & E4 & Ht4 & Hv4 & Hsr4 & Hbl).
  assert (bit_used (b_data (buf_at s1 b)) (r mod BPB) = in_use sb (v_data w) r) as Eu by (by rewrite Ed).
  destruct (in_use sb (v_data w) r).
  - exists w4, s4. split; [|split; [exact Ht4|split; [done|split; [by eapply logged_count|done]]]].
    unfold bfree. msimpl. fold sb. mrun E1. mrun getb_at. rewrite Eu. cbn [negb]. mrun E2. mrun E3. exact E4.
  - exists s1. unfold bfree. msimpl. fold sb. mrun E1. mrun getb_at. rewrite Eu. done.
Qed.
End spec.

Lemma bitmap_kept_clear b v start r :
  bitmap_ok b v start → 0 ≤ r < sb_size b → ¬ in_log start r → (∀ m, 0 ≤ m < sb_size b → r ≠ BBLOCK m b) →
  bitmap_ok b (fupd v (BBLOCK r b) (bit_clear (v (BBLOCK r b)) (r mod BPB))) start.
Proof.
  intros Hb Hr Hnl Hne. split; try apply Hb.
  - intros n Hn. unfold fupd. case_decide as E; [|by apply Hb]. unfold bit_clear. rewrite length_alter. by apply Hb.
  - intros n Hn. rewrite (in_use_clear b v start) by done. destruct (Z.eqb_spec n r) as [->|]; [done|]. rewrite andb_true_r. by apply Hb.
Qed.

(** C18: balloc() in a transaction, with [r] the first free block, returns [r],
    marks it in the bitmap and nothing else, and clears it; no other block
    changes but the bitmap's, and nothing goes to the disk before the commit.
    bfree() of it makes the set of free blocks what it was, and freeing it once
    more panics. *)
Theorem balloc_bfree `{Patience} pr q dev w s r :
  let sb := Machine.sb s in
  (0 < patience)%nat → tx pr q dev w s → bitmap_ok sb (v_data w) (log_start (log s)) → 0 ≤ r < sb_size sb →
  lh_n (log_lh (log s)) + 4 < log_size (log s) →
  in_use sb (v_data w) r = false → (∀ n, 0 ≤ n < r → in_use sb (v_data w) n = true) →
  ∃ w1 s1 w2 s2 s3, balloc dev s = Ret r s1 ∧ bfree dev r s1 = Ret () s2 ∧ bfree dev r s2 = Panic "freeing free block" s3 ∧
    tx_ready pr q dev w1 s1 ∧ disk s1 = disk s ∧ dwrites s1 = dwrites s ∧ v_data w1 r = zero_block ∧
    (∀ m, m ≠ r → m ≠ BBLOCK r sb → v_data w1 m = v_data w m) ∧
    (∀ n, 0 ≤ n < sb_size sb → in_use sb (v_data w1) n = in_use sb (v_data w) n || (n =? r)) ∧
    tx_ready pr q dev w2 s2 ∧ disk s2 = disk s ∧
    ∀ n, 0 ≤ n < sb_size sb → in_use sb (v_data w2) n = in_use sb (v_data w) n.
Proof.
  intros sb Hpat Ht Hbm Hr Hroom Hfree Hfirst. destruct (bm_meta _ _ _ Hbm r Hr Hfree) as [Hnl Hne].
  destruct (balloc_spec pr q dev Hpat r w s Ht Hbm Hr ltac:(lia) Hfree Hfirst) as (w1 & s1 & E1 & Ht1 & Hsr1 & Hc1 & Hv1). fold sb in Hv1.
  pose proof Hsr1 as (_ & Hsb1 & Hd1 & Hw1 & Hls1 & Hlst1). pose proof (bitmap_kept _ _ _ r Hbm Hr Hfree) as Hbm1. rewrite <-Hv1 in Hbm1.
  assert (∀ n, 0 ≤ n < sb_size sb → in_use sb (v_data w1) n = in_use sb (v_data w) n || (n =? r)) as Hu1.
  { intros n Hn. rewrite Hv1. by apply (in_use_set _ _ (log_start (log s))). }
  pose proof (bfree_spec pr q dev Hpat r w1 s1) as Hf. rewrite Hsb1, Hlst1, Hls1 in Hf. fold sb in Hf. specialize (Hf Ht1 Hbm1 Hr ltac:(lia)).
  rewrite (Hu1 r Hr), Z.eqb_refl, orb_true_r in Hf. destruct Hf as (w2 & s2 & E2 & Ht2 & Hsr2 & Hc2 & Hv2).
  pose proof Hsr2 as (_ & Hsb2 & Hd2 & _ & Hls2 & Hlst2). pose proof (bitmap_kept_clear _ _ _ r Hbm1 Hr Hnl Hne) as Hbm2. rewrite <-Hv2 in Hbm2.
  assert (∀ n, 0 ≤ n < sb_size sb → in_use sb (v_data w2) n = in_use sb (v_data w) n) as Hu2.
  { intros n Hn. rewrite Hv2, (in_use_clear _ _ (log_start (log s))), Hu1 by done. destruct (Z.eqb_spec n r) as [->|]; [by rewrite Hfree|].
    by rewrite orb_false_r, andb_true_r. }
  pose proof (bfree_spec pr q dev Hpat r w2 s2) as Hf. rewrite Hsb2, Hsb1, Hlst2, Hlst1, Hls2, Hls1 in Hf. fold sb in Hf.
  specialize (Hf Ht2 Hbm2 Hr ltac:(lia)). rewrite (Hu2 r Hr), Hfree in Hf. destruct Hf as [s3 E3].
  exists w1, s1, w2, s2, s3. split_and!; try done; [by eapply tx_commits|by rewrite Hv1, fupd_eq| |by eapply tx_commits|congruence].
  intros m Hmr Hmb. by rewrite Hv1, !fupd_ne.
Qed.

(** ** A witness: a bitmap of one block, with 47 blocks in use *)

#[local] Instance ex_patience : Patience := 1%nat.

Definition ex_bitmap : list Z := replicate 5 255 ++ [127] ++ replicate 1018 0.
Definition ex_adisk : gmap Z (list Z) := {[46 := ex_bitmap]}.
Definition ex_alog : kernel :=
  ex_fs <| disk := ex_adisk |> <| Machine.sb := ex_wsb |> <| log := mkLog 2 30 1 0 1 (mkLogheader 0 (replicate 30 0)) |>.
Definition ex_aview : view := mkView (block_at ex_adisk) ∅ ∅.

Lemma ex_BBLOCK n : 0 ≤ n < 1000 → BBLOCK n ex_wsb = 46.
Proof. intros Hn. unfold BBLOCK. change BPB with 8192. rewrite Z.div_small by lia. done. Qed.

Lemma ex_in_use n : 0 ≤ n < 47 → in_use ex_wsb (block_at ex_adisk) n = true.
Proof.
  intros Hn. assert (forallb (in_use ex_wsb (block_at ex_adisk)) (seqZ 0 47) = true) as Hall by (vm_compute; reflexivity).
  rewrite forallb_forall in Hall. apply Hall, list_elem_of_In, elem_of_seqZ. lia.
Qed.

Lemma ex_bitmap_ok : bitmap_ok ex_wsb (block_at ex_adisk) 2.
Proof.
  split; [done|done|..]; change (sb_size ex_wsb) with 1000.
  - intros n Hn. rewrite ex_BBLOCK by done. vm_compute. reflexivity.
  - intros n Hn. rewrite ex_BBLOCK by done. unfold in_log, LOGSIZE, MAXOPBLOCKS. lia.
  - intros n Hn Hf. assert (¬ n < 47) as Hge by (intros H; rewrite ex_in_use in Hf by lia; done).
    split; [unfold in_log, LOGSIZE, MAXOPBLOCKS; lia|]. intros m Hm. rewrite ex_BBLOCK by done. lia.
Qed.

Lemma balloc_bfree_witness :
  ∃ s1 s2, @balloc 1%nat 1 ex_alog = Ret 47 s1 ∧ @bfree 1%nat 1 47 s1 = Ret () s2.
Proof.
  destruct (@balloc_bfree 1%nat 0%nat ex_fs_proc 1 ex_aview ex_alog 47) as (w1 & s1 & w2 & s2 & s3 & E1 & E2 & _).
  - unfold patience. lia.
  - split; try done; [split; [by split|]; by apply (boot_bio _ _ ex_alog)|split; try done; intros i Hi; cbn in Hi; lia|constructor].
  - apply ex_bitmap_ok.
  - cbn. lia.
  - cbn. lia.
  - vm_compute. reflexivity.
  - apply ex_in_use.
  - exists s1, s2. split; [exact E1|exact E2].
Defined.
