(* ===== verification/FsGrow.v ===== *)
(** * Writing files that grow

    writei() inside a transaction, with the blocks it needs allocated by bmap()
    on the way: direct blocks, the indirect block and its entries.  A file's
    blocks are in use in the bitmap and apart from each other and from all other
    blocks; writei() keeps it so, and what it writes can be read back.  With
    commit() the write is atomic across crashes. *)

From Stdlib Require Import ZArith Lia.
From stdpp Require Import base numbers strings option list gmap.
From S2P Require Import Prelude Params Machine Cstring Kalloc Sched SchedFacts Uart Console Sleeplock Bio BioFacts Log LogFacts Fs FsFacts FsDir FsWrite FsAlloc VmExample.

Open Scope Z_scope.

(** ** The blocks of a file *)

(** Block [k] of a file, or the indirect block for [k = MAXFILE]; 0 when it is
    not allocated. *)
Definition blk (v : Z → list Z) (x : inode) (k : Z) : Z :=
  if k =? MAXFILE then addr_at x NDIRECT
  else if (NDIRECT <=? k) && (addr_at x NDIRECT =? 0) then 0 else file_addr v x k.

Lemma blk_direct v x k : 0 ≤ k < NDIRECT → blk v x k = addr_at x (Z.to_nat k).
Proof.
  intros Hk. assert (MAXFILE = 268 ∧ Z.of_nat NDIRECT = 12) as [EM EN] by done. unfold blk, file_addr.
  by rewrite (proj2 (Z.eqb_neq k MAXFILE)), (proj2 (Z.leb_gt NDIRECT k)), (proj2 (Z.ltb_lt k NDIRECT)) by lia.
Qed.

Lemma blk_ind v x : blk v x MAXFILE = addr_at x NDIRECT.
Proof. unfold blk. by rewrite Z.eqb_refl. Qed.

Lemma blk_entry v x k :
  NDIRECT ≤ k < MAXFILE →
  blk v x k = if addr_at x NDIRECT =? 0 then 0 else word_at (v (addr_at x NDIRECT)) (4 * Z.to_nat (k - NDIRECT)).
Proof.
  intros Hk. unfold blk, file_addr.
  by rewrite (proj2 (Z.eqb_neq k MAXFILE)), (proj2 (Z.leb_le NDIRECT k)), (proj2 (Z.ltb_ge k NDIRECT)) by lia.
Qed.

Lemma blk_cases k : 0 ≤ k ≤ MAXFILE → 0 ≤ k < NDIRECT ∨ NDIRECT ≤ k < MAXFILE ∨ k = MAXFILE.
Proof. assert (MAXFILE = 268 ∧ Z.of_nat NDIRECT = 12) as [EM EN] by done. lia. Qed.

(** The entries depend on the indirect block alone. *)
Lemma blk_ext v v' x x' k :
  0 ≤ k ≤ MAXFILE → i_addrs x' = i_addrs x → (addr_at x NDIRECT ≠ 0 → v' (addr_at x NDIRECT) = v (addr_at x NDIRECT)) →
  blk v' x' k = blk v x k.
Proof.
  intros Hk Ex Hv. assert (∀ i, addr_at x' i = addr_at x i) as Ea by (intros i; unfold addr_at; by rewrite Ex).
  destruct (blk_cases k Hk) as [H|[H| ->]].
  - by rewrite !blk_direct, Ea by done.
  - rewrite !blk_entry, Ea by done. destruct (Z.eqb_spec (addr_at x NDIRECT) 0); [done|]. by rewrite Hv.
  - by rewrite !blk_ind, Ea.
Qed.

Lemma blk_file_addr v x k : 0 ≤ k < MAXFILE → blk v x k ≠ 0 → file_addr v x k = blk v x k.
Proof.
  intros Hk Hne. unfold blk in *. rewrite (proj2 (Z.eqb_neq k MAXFILE)) in * by lia. by destruct (_ && _).
Qed.

Section layout.
Context (b : superblock) (start ib : Z).

(** A block that a file may have. *)
Record usable (v : Z → list Z) (a : Z) : Prop := {
  us_range : 0 < a < sb_size b;
  us_use : in_use b v a = true;
  us_log : ¬ in_log start a;
  us_ib : a ≠ ib;
  us_bm : ∀ m, 0 ≤ m < sb_size b → a ≠ BBLOCK m b;
  us_len : length (v a) = 1024%nat;
}.

(** The bitmap, the inode in block [ib] and its file. *)
Record lay (v : Z → list Z) (x : inode) : Prop := {
  la_bm : bitmap_ok b v start;
  la_zero : in_use b v 0 = true;
  la_ok : dinode_ok x;
  la_blk : ∀ k, 0 ≤ k ≤ MAXFILE → blk v x k ≠ 0 → usable v (blk v x k);
  la_inj : ∀ k k', 0 ≤ k ≤ MAXFILE → 0 ≤ k' ≤ MAXFILE → blk v x k ≠ 0 → blk v x k = blk v x k' → k = k';
  la_ib : 0 ≤ ib < sb_size b;
  la_ib_use : in_use b v ib = true;
  la_ib_log : ¬ in_log start ib;
  la_ib_bm : ∀ m, 0 ≤ m < sb_size b → ib ≠ BBLOCK m b;
  la_ib_len : length (v ib) = 1024%nat;
}.

Lemma lay_ind v x : lay v x → addr_at x NDIRECT ≠ 0 → usable v (addr_at x NDIRECT).
Proof. intros Hl. rewrite <-(blk_ind v). apply (la_blk _ _ Hl). done. Qed.

(** in_use() reads the bitmap alone. *)
Lemma in_use_ext v v' n : v' (BBLOCK n b) = v (BBLOCK n b) → in_use b v' n = in_use b v n.
Proof. intros E. unfold in_use. by rewrite E. Qed.

Lemma bitmap_ok_ext v v' :
  bitmap_ok b v start → (∀ n, 0 ≤ n < sb_size b → v' (BBLOCK n b) = v (BBLOCK n b)) → bitmap_ok b v' start.
Proof.
  intros Hb Hv. split; try apply Hb.
  - intros n Hn. rewrite Hv by done. by apply Hb.
  - intros n Hn. rewrite (in_use_ext v v') by (by apply Hv). by apply Hb.
Qed.

Lemma usable_ext v v' a :
  usable v a → (∀ n, 0 ≤ n < sb_size b → v' (BBLOCK n b) = v (BBLOCK n b)) → length (v' a) = length (v a) → usable v' a.
Proof.
  intros [H1 H2 H3 H4 H5 H6] Hv Hl. split; try done; [|congruence]. rewrite (in_use_ext v v'); [done|]. apply Hv. lia.
Qed.

(** *** Taking a free block *)

Definition mark (v : Z → list Z) (r : Z) : Z → list Z :=
  fupd (fupd v (BBLOCK r b) (bit_mark (v (BBLOCK r b)) (r mod BPB))) r zero_block.

Lemma mark_out v r m : m ≠ r → m ≠ BBLOCK r b → mark v r m = v m.
Proof. intros H1 H2. unfold mark. by rewrite !fupd_ne. Qed.

Section mark.
Context (v : Z → list Z) (x : inode) (r : Z).
Context (Hl : lay v x) (Hr : 0 ≤ r < sb_size b) (Hf : in_use b v r = false).

Lemma free_apart a : usable v a → a ≠ r ∧ a ≠ BBLOCK r b.
Proof using Hr Hf. intros Ha. split; [intros ->; by rewrite (us_use _ _ Ha) in Hf|]. by apply (us_bm _ _ Ha). Qed.

Lemma mark_in_use n : 0 ≤ n < sb_size b → in_use b (mark v r) n = in_use b v n || (n =? r).
Proof using Hl Hr Hf.
  intros Hn. apply (in_use_set b v start); [apply Hl|done|done|]. by apply (bm_meta _ _ _ (la_bm _ _ Hl) r Hr Hf).
Qed.

Lemma mark_blk k : 0 ≤ k ≤ MAXFILE → blk (mark v r) x k = blk v x k.
Proof using Hl Hr Hf.
  intros Hk. apply blk_ext; [done|done|]. intros Hi. apply mark_out; by apply free_apart, lay_ind.
Qed.

Lemma mark_usable a : usable v a → usable (mark v r) a.
Proof using Hl Hr Hf.
  intros Ha. destruct (free_apart a Ha) as [H1 H2]. pose proof Ha as [? ? ? ? ? ?]. split; try done.
  - rewrite mark_in_use by lia. by rewrite (us_use _ _ Ha).
  - by rewrite mark_out.
Qed.

Lemma mark_fresh : usable (mark v r) r ∧ mark v r r = zero_block ∧ ∀ k, 0 ≤ k ≤ MAXFILE → blk (mark v r) x k ≠ r.
Proof using Hl Hr Hf.
  destruct (bm_meta _ _ _ (la_bm _ _ Hl) r Hr Hf) as [H1 H2].
  assert (r ≠ 0) as H0 by (intros ->; by rewrite (la_zero _ _ Hl) in Hf).
  assert (mark v r r = zero_block) as Ez by apply fupd_eq. split; [|split; [done|]].
  - split; try done; [lia|..].
    + rewrite mark_in_use by done. by rewrite Z.eqb_refl, orb_true_r.
    + intros ->. by rewrite (la_ib_use _ _ Hl) in Hf.
    + by rewrite Ez.
  - intros k Hk. rewrite mark_blk by done. intros E. destruct (la_blk _ _ Hl k Hk) as [_ Hu _ _ _ _]; congruence.
Qed.

Lemma lay_mark : lay (mark v r) x.
Proof using Hl Hr Hf.
  assert (ib ≠ r ∧ ib ≠ BBLOCK r b) as [Hi1 Hi2].
  { split; [intros E; by rewrite <-E, (la_ib_use _ _ Hl) in Hf|]. by apply (la_ib_bm _ _ Hl). }
  pose proof (bm_size _ _ _ (la_bm _ _ Hl)) as Hsz. split; try (by destruct Hl).
  - apply bitmap_kept; [apply Hl|done|done].
  - rewrite mark_in_use by lia. by rewrite (la_zero _ _ Hl).
  - intros k Hk. rewrite mark_blk by done. intros Hne. by apply mark_usable, (la_blk _ _ Hl).
  - intros k k' Hk Hk'. rewrite !mark_blk by done. by apply (la_inj _ _ Hl).
  - rewrite mark_in_use by apply (la_ib _ _ Hl). by rewrite (la_ib_use _ _ Hl).
  - rewrite mark_out by done. apply Hl.
Qed.
End mark.

(** *** Giving a file a new block *)

Section assign.
Context (v v' : Z → list Z) (x x' : inode) (k0 r : Z).
Context (Hl : lay v x) (Hk0 : 0 ≤ k0 ≤ MAXFILE) (H0 : blk v x k0 = 0).
Context (Hr : usable v r) (Hnew : ∀ k, 0 ≤ k ≤ MAXFILE → blk v x k ≠ r) (Hok : dinode_ok x').
Context (Hblk : ∀ k, 0 ≤ k ≤ MAXFILE → blk v' x' k = if decide (k = k0) then r else blk v x k).
Context (Hv : ∀ m, v' m = v m ∨ (usable v m ∧ length (v' m) = length (v m))).

Lemma assign_bm n : 0 ≤ n < sb_size b → v' (BBLOCK n b) = v (BBLOCK n b).
Proof using Hv. intros Hn. destruct (Hv (BBLOCK n b)) as [?|[Hu _]]; [done|]. by destruct (us_bm _ _ Hu n Hn). Qed.

Lemma lay_assign : lay v' x'.
Proof using All.
  assert (∀ m, length (v' m) = length (v m)) as Hlen by (intros m; destruct (Hv m) as [->|[_ ?]]; done).
  pose proof (bm_size _ _ _ (la_bm _ _ Hl)) as Hsz. split; try done; try (by destruct Hl).
  - eapply bitmap_ok_ext; [apply Hl|apply assign_bm].
  - rewrite (in_use_ext v v'); [apply Hl|]. apply assign_bm. lia.
  - intros k Hk. rewrite Hblk by done. intros Hne. case_decide; (eapply usable_ext; [|apply assign_bm|done]); [done|].
    by apply (la_blk _ _ Hl).
  - intros k k' Hk Hk'. rewrite !Hblk by done. destruct (decide (k = k0)) as [->|], (decide (k' = k0)) as [->|]; try done.
    + intros _ E. by destruct (Hnew k').
    + intros _ E. by destruct (Hnew k).
    + by apply (la_inj _ _ Hl).
  - rewrite (in_use_ext v v'); [apply Hl|]. apply assign_bm, (la_ib _ _ Hl).
  - rewrite Hlen. apply Hl.
Qed.
End assign.

(** Entry [k] of the inode. *)
Definition set_addr (x : inode) (i : nat) (a : Z) : inode := x <| i_addrs ::= <[i := a]> |>.

Lemma set_addr_ok x i a : dinode_ok x → 0 ≤ a < 2 ^ 32 → dinode_ok (set_addr x i a).
Proof.
  intros [] Ha. split; try done; cbn; [by rewrite length_insert|]. by apply Forall_insert.
Qed.

Lemma addr_set x i a j : (i < length (i_addrs x))%nat → addr_at (set_addr x i a) j = if decide (j = i) then a else addr_at x j.
Proof.
  intros Hi. unfold addr_at, set_addr. cbn. case_decide as E.
  - subst. by rewrite list_lookup_insert_eq.
  - by rewrite list_lookup_insert_ne.
Qed.

Section assign_inode.
Context (v : Z → list Z) (x : inode) (r : Z) (Hl : lay v x) (Hr : usable v r).
Context (Hnew : ∀ k, 0 ≤ k ≤ MAXFILE → blk v x k ≠ r).

Lemma usable_word a : usable v a → 0 ≤ a < 2 ^ 32.
Proof using Hl. intros [? _ _ _ _ _]. pose proof (bm_size _ _ _ (la_bm _ _ Hl)). lia. Qed.

Lemma direct_blk i k :
  (i < NDIRECT)%nat → 0 ≤ k ≤ MAXFILE → blk v (set_addr x i r) k = if decide (k = Z.of_nat i) then r else blk v x k.
Proof using Hl.
  intros Hi Hk. assert (i < length (i_addrs x))%nat as Hlen by (rewrite (do_len _ (la_ok _ _ Hl)); unfold NDIRECT in *; lia).
  assert (addr_at (set_addr x i r) NDIRECT = addr_at x NDIRECT) as Ei by (rewrite addr_set by done; by rewrite decide_False by lia).
  destruct (blk_cases k Hk) as [H|[H| ->]].
  - rewrite !blk_direct, addr_set by done. destruct (decide (k = Z.of_nat i)) as [->|Hne].
    + by rewrite Nat2Z.id, decide_True.
    + by rewrite decide_False by lia.
  - rewrite !blk_entry, Ei by done. by rewrite decide_False by lia.
  - rewrite !blk_ind, Ei. rewrite decide_False; [done|]. assert (MAXFILE = 268) by done. unfold NDIRECT in Hi. lia.
Qed.

Lemma lay_direct i : (i < NDIRECT)%nat → addr_at x i = 0 → lay v (set_addr x i r).
Proof using Hl Hr Hnew.
  intros Hi H0. apply (lay_assign v v x _ (Z.of_nat i) r); try done.
  - assert (MAXFILE = 268) by done. unfold NDIRECT in Hi. lia.
  - by rewrite blk_direct, Nat2Z.id by lia.
  - by apply set_addr_ok, usable_word; [apply Hl|].
  - intros k Hk. by apply direct_blk.
  - by left.
Qed.

Lemma ind_blk k :
  addr_at x NDIRECT = 0 → v r = zero_block → 0 ≤ k ≤ MAXFILE →
  blk v (set_addr x NDIRECT r) k = if decide (k = MAXFILE) then r else blk v x k.
Proof using Hl Hr.
  intros H0 Hz Hk. assert (NDIRECT < length (i_addrs x))%nat as Hlen by (rewrite (do_len _ (la_ok _ _ Hl)); unfold NDIRECT; lia).
  assert (addr_at (set_addr x NDIRECT r) NDIRECT = r) as Ei by (rewrite addr_set by done; by rewrite decide_True).
  pose proof (us_range _ _ Hr) as Hr0. assert (MAXFILE = 268 ∧ Z.of_nat NDIRECT = 12) as [EM EN] by done.
  destruct (blk_cases k Hk) as [H|[H| ->]].
  - rewrite !blk_direct, addr_set by done. rewrite !decide_False by lia. done.
  - rewrite !blk_entry, Ei, H0, Hz, Z.eqb_refl by done. rewrite (proj2 (Z.eqb_neq r 0)), decide_False by lia.
    assert (Z.to_nat BSIZE = 1024%nat) as EB by done. unfold word_at, zero_block. rewrite !lookup_replicate_2 by lia. done.
  - by rewrite blk_ind, Ei, decide_True.
Qed.

Lemma lay_indirect : addr_at x NDIRECT = 0 → v r = zero_block → lay v (set_addr x NDIRECT r).
Proof using Hl Hr Hnew.
  intros H0 Hz. apply (lay_assign v v x _ MAXFILE r); try done.
  - by apply set_addr_ok, usable_word; [apply Hl|].
  - intros k Hk. by apply ind_blk.
  - by left.
Qed.

(** The indirect block with the entry of block [k0] set. *)
Definition set_entry_at (k0 : Z) : Z → list Z :=
  fupd v (addr_at x NDIRECT) (put_word (v (addr_at x NDIRECT)) (4 * Z.to_nat (k0 - NDIRECT)) r).

Lemma entry_blk k0 k :
  addr_at x NDIRECT ≠ 0 → NDIRECT ≤ k0 < MAXFILE → 0 ≤ k ≤ MAXFILE →
  blk (set_entry_at k0) x k = if decide (k = k0) then r else blk v x k.
Proof using Hl Hr.
  intros Hi Hk0 Hk. assert (MAXFILE = 268 ∧ Z.of_nat NDIRECT = 12) as [EM EN] by done.
  pose proof (us_len _ _ (lay_ind v x Hl Hi)) as Hlen.
  destruct (blk_cases k Hk) as [H|[H| ->]].
  - rewrite !blk_direct by done. by rewrite decide_False by lia.
  - rewrite !blk_entry by done. rewrite (proj2 (Z.eqb_neq _ _) Hi). unfold set_entry_at. rewrite fupd_eq.
    destruct (decide (k = k0)) as [->|Hne].
    + rewrite word_at_put; [done|lia|by apply usable_word].
    + apply word_at_put_ne. lia.
  - rewrite !blk_ind. by rewrite decide_False by lia.
Qed.

Lemma lay_entry k0 :
  addr_at x NDIRECT ≠ 0 → NDIRECT ≤ k0 < MAXFILE → blk v x k0 = 0 → lay (set_entry_at k0) x.
Proof using Hl Hr Hnew.
  intros Hi Hk0 H0. apply (lay_assign v _ x _ k0 r); try done; [lia|apply Hl|..].
  - intros k Hk. by apply entry_blk.
  - intros m. unfold set_entry_at, fupd. case_decide as E; [right|by left]. subst. split; [by apply lay_ind|apply length_put_word].
Qed.
End assign_inode.

(** *** Extending a file *)

(** The file [x'] in [v'] is [x] in [v] with blocks added that were free; no
    other block differs but the bitmap and the file's own. *)
Record ext (v : Z → list Z) (x : inode) (v' : Z → list Z) (x' : inode) : Prop := {
  ex_keep : ∀ k, 0 ≤ k ≤ MAXFILE → blk v x k ≠ 0 → blk v' x' k = blk v x k;
  ex_new : ∀ k, 0 ≤ k ≤ MAXFILE → blk v x k = 0 → blk v' x' k ≠ 0 → in_use b v (blk v' x' k) = false;
  ex_use : ∀ m, 0 ≤ m < sb_size b → in_use b v m = true → in_use b v' m = true;
  ex_only : ∀ m, 0 ≤ m < sb_size b → in_use b v' m = true → in_use b v m = true ∨ ∃ k, 0 ≤ k ≤ MAXFILE ∧ blk v' x' k ≠ 0 ∧ m = blk v' x' k;
  ex_out : ∀ m, (∀ n, 0 ≤ n < sb_size b → m ≠ BBLOCK n b) →
    (∀ k, 0 ≤ k ≤ MAXFILE → blk v' x' k ≠ 0 → m ≠ blk v' x' k) → v' m = v m;
  ex_rest : x' = x <| i_addrs := i_addrs x' |>;
}.

Lemma ext_refl v x : ext v x v x.
Proof. split; try done; try tauto. by destruct x. Qed.

Lemma ext_trans v x v1 x1 v2 x2 : lay v2 x2 → ext v x v1 x1 → ext v1 x1 v2 x2 → ext v x v2 x2.
Proof.
  intros Hl [A1 A2 A3 A4 A5 A6] [B1 B2 B3 B4 B5 B6].
  assert (∀ k, 0 ≤ k ≤ MAXFILE → blk v x k ≠ 0 → blk v1 x1 k ≠ 0) as Hne by (intros k Hk H; by rewrite A1).
  split.
  - intros k Hk H. rewrite B1, A1 by auto. done.
  - intros k Hk H H2. destruct (decide (blk v1 x1 k = 0)) as [E|E].
    + apply not_true_is_false. intros Hu. pose proof (us_range _ _ (la_blk _ _ Hl k Hk H2)) as Hr.
      assert (0 ≤ blk v2 x2 k < sb_size b) as Hr' by lia. pose proof (A3 _ Hr' Hu) as Hu1. by rewrite B2 in Hu1.
    + rewrite B1 by done. by apply A2.
  - auto.
  - intros m Hm Hu. destruct (B4 m Hm Hu) as [Hu1|?]; [|by right]. destruct (A4 m Hm Hu1) as [?|(k & Hk & E & ->)]; [by left|].
    right. exists k. by rewrite B1.
  - intros m Hm Hb. rewrite B5 by done. apply A5; [done|]. intros k Hk H. rewrite <-(B1 k Hk H). apply Hb; [done|]. by rewrite B1.
  - rewrite B6, A6. by destruct x.
Qed.

(** A block taken and given to the file as its block [k0]. *)
Lemma ext_assign v x v' x' k0 r :
  lay v x → 0 ≤ r < sb_size b → in_use b v r = false → 0 ≤ k0 ≤ MAXFILE → blk v x k0 = 0 →
  (∀ k, 0 ≤ k ≤ MAXFILE → blk v' x' k = if decide (k = k0) then r else blk v x k) →
  (∀ m, m ≠ addr_at x NDIRECT → v' m = mark v r m) → (addr_at x NDIRECT = 0 → v' 0 = mark v r 0) →
  x' = x <| i_addrs := i_addrs x' |> →
  ext v x v' x'.
Proof.
  intros Hl Hr Hf Hk0 H0 Hblk Hv Hv0 Hx. destruct (bm_meta _ _ _ (la_bm _ _ Hl) r Hr Hf) as [_ Hne].
  assert (∀ n, 0 ≤ n < sb_size b → v' (BBLOCK n b) = mark v r (BBLOCK n b)) as Hbm.
  { intros n Hn. destruct (decide (addr_at x NDIRECT = 0)) as [E|E].
    - destruct (decide (BBLOCK n b = 0)) as [E2|E2]; [rewrite E2; by apply Hv0|]. apply Hv. congruence.
    - apply Hv. intros E2. by destruct (us_bm _ _ (lay_ind v x Hl E) n Hn). }
  assert (∀ n, 0 ≤ n < sb_size b → in_use b v' n = in_use b v n || (n =? r)) as Hu.
  { intros n Hn. rewrite (in_use_ext (mark v r) v') by (by apply Hbm). by apply (mark_in_use v x r). }
  assert (r ≠ 0) as Hr0 by (intros ->; by rewrite (la_zero _ _ Hl) in Hf).
  split; try done.
  - intros k Hk H. rewrite Hblk by done. rewrite decide_False; [done|]. intros ->. done.
  - intros k Hk H. rewrite Hblk by done. case_decide; [done|]. done.
  - intros m Hm H. rewrite Hu by done. by rewrite H.
  - intros m Hm. rewrite Hu by done. destruct (Z.eqb_spec m r) as [->|]; [|rewrite orb_false_r; by left].
    intros _. right. exists k0. rewrite Hblk, decide_True by done. done.
  - intros m Hm Hb. assert (m ≠ r) as Hmr.
    { intros ->. apply (Hb k0); rewrite ?Hblk, ?decide_True by done; done. }
    rewrite <-(mark_out v r m Hmr (Hm r Hr)). destruct (decide (m = addr_at x NDIRECT)) as [->|]; [|by apply Hv].
    destruct (decide (addr_at x NDIRECT = 0)) as [E|E]; [rewrite E; by apply Hv0|].
    assert (blk v' x' MAXFILE = addr_at x NDIRECT) as E2; [|by destruct (Hb MAXFILE); rewrite ?E2].
    rewrite Hblk, blk_ind by done. apply decide_False. intros <-. by rewrite blk_ind in H0.
Qed.

(** Writing a data block of the file. *)
Section write.
Context (v : Z → list Z) (x : inode) (k0 : Z) (d : list Z).
Context (Hl : lay v x) (Hk0 : 0 ≤ k0 < MAXFILE) (H0 : blk v x k0 ≠ 0).

Lemma write_blk k : 0 ≤ k ≤ MAXFILE → blk (fupd v (blk v x k0) d) x k = blk v x k.
Proof using Hl Hk0 H0.
  intros Hk. apply blk_ext; [done|done|]. intros Hi. apply fupd_ne. rewrite <-(blk_ind v). intros E.
  assert (MAXFILE = k0); [|lia]. apply (la_inj _ _ Hl); try done. lia.
Qed.

Lemma write_bm n : 0 ≤ n < sb_size b → fupd v (blk v x k0) d (BBLOCK n b) = v (BBLOCK n b).
Proof using Hl Hk0 H0. intros Hn. apply fupd_ne. intros E. destruct (la_blk _ _ Hl k0 ltac:(lia) H0) as [_ _ _ _ Hb _]. by apply (Hb n). Qed.

Lemma lay_write : length d = 1024%nat → lay (fupd v (blk v x k0) d) x.
Proof using Hl Hk0 H0.
  intros Hd.
  assert (∀ m, usable v m → usable (fupd v (blk v x k0) d) m) as Hu.
  { intros m Hm. eapply usable_ext; [done|apply write_bm|]. unfold fupd. case_decide; [|done]. by rewrite (us_len _ _ Hm). }
  pose proof (bm_size _ _ _ (la_bm _ _ Hl)) as Hsz. pose proof (la_ib _ _ Hl) as Hib. split; try (by destruct Hl).
  - eapply bitmap_ok_ext; [apply (la_bm _ _ Hl)|apply write_bm].
  - rewrite (in_use_ext v); [apply (la_zero _ _ Hl)|]. apply write_bm. lia.
  - intros k Hk. rewrite write_blk by done. intros Hne. by apply Hu, (la_blk _ _ Hl).
  - intros k k' Hk Hk'. rewrite !write_blk by done. by apply (la_inj _ _ Hl).
  - rewrite (in_use_ext v); [apply (la_ib_use _ _ Hl)|]. by apply write_bm.
  - unfold fupd. case_decide; [done|]. apply (la_ib_len _ _ Hl).
Qed.

Lemma ext_write : ext v x (fupd v (blk v x k0) d) x.
Proof using Hl Hk0 H0.
  assert (∀ m, 0 ≤ m < sb_size b → in_use b (fupd v (blk v x k0) d) m = in_use b v m) as Hu
    by (intros m Hm; apply in_use_ext; by apply write_bm).
  split.
  - intros k Hk _. by apply write_blk.
  - intros k Hk. rewrite write_blk by done. done.
  - intros m Hm. by rewrite Hu.
  - intros m Hm. rewrite Hu by done. by left.
  - intros m Hm Hb. apply fupd_ne. specialize (Hb k0 ltac:(lia)). rewrite write_blk in Hb by lia. by apply Hb.
  - by destruct x.
Qed.
End write.

(** *** The free blocks *)

Definition nfree (v : Z → list Z) : Z := length (filter (λ n, in_use b v n = false) (seqZ 0 (sb_size b))).

Lemma filter_ext_in (P Q : Z → Prop) `{∀ n, Decision (P n), ∀ n, Decision (Q n)} (l : list Z) :
  (∀ n, n ∈ l → P n ↔ Q n) → filter P l = filter Q l.
Proof.
  induction l as [|n l IH]; intros HPQ; [done|]. pose proof (HPQ n ltac:(left)) as Hn. rewrite !filter_cons.
  rewrite IH by (intros m Hm; apply HPQ; by right). destruct (decide (P n)), (decide (Q n)); tauto.
Qed.

Lemma nfree_ext v v' : (∀ n, 0 ≤ n < sb_size b → in_use b v' n = in_use b v n) → nfree v' = nfree v.
Proof.
  intros Hv. unfold nfree. do 2 f_equal. apply filter_ext_in. intros n Hn%elem_of_seqZ. rewrite Hv by lia. done.
Qed.

Lemma nfree_first v :
  0 < nfree v → ∃ r, 0 ≤ r < sb_size b ∧ in_use b v r = false ∧ ∀ n, 0 ≤ n < r → in_use b v n = true.
Proof.
  intros Hn. destruct (list_find (λ n, in_use b v n = false) (seqZ 0 (sb_size b))) as [[i r]|] eqn:E.
  - apply list_find_Some in E as (Hi & Hf & Hb). apply lookup_seqZ in Hi as [-> Hi]. exists (0 + i). split; [lia|]. split; [done|].
    intros n Hlt. apply not_false_is_true. apply (Hb (Z.to_nat n)); [|lia]. apply lookup_seqZ. lia.
  - apply list_find_None in E. unfold nfree in Hn. rewrite (filter_ext_in _ (λ _, False)) in Hn.
    + assert (∀ l : list Z, filter (λ _, False) l = []) as Hnil by (intros l; by induction l). rewrite Hnil in Hn. done.
    + intros n Hin. rewrite Forall_forall in E. specialize (E n Hin). tauto.
Qed.

(** The free blocks less the one an indirect block needs. *)
Definition stock (v : Z → list Z) (x : inode) : Z := nfree v - (if addr_at x NDIRECT =? 0 then 1 else 0).

Lemma nfree_mark v x r : lay v x → 0 ≤ r < sb_size b → in_use b v r = false → nfree v = nfree (mark v r) + 1.
Proof.
  intros Hl Hr Hf. unfold nfree. assert (seqZ 0 (sb_size b) ≡ₚ r :: filter (λ n, n ≠ r) (seqZ 0 (sb_size b))) as Hp.
  { apply NoDup_Permutation; [apply NoDup_seqZ| |].
    - constructor; [rewrite list_elem_of_filter; tauto|]. apply NoDup_filter, NoDup_seqZ.
    - intros n. rewrite elem_of_cons, list_elem_of_filter, !elem_of_seqZ. destruct (decide (n = r)) as [->|]; [|tauto]. intuition lia. }
  rewrite Hp at 1. rewrite filter_cons_True by done. cbn [length]. rewrite list_filter_filter.
  rewrite (filter_ext_in _ (λ n, in_use b (mark v r) n = false)); [lia|].
  intros n Hn%elem_of_seqZ. rewrite (mark_in_use v x r) by (done || lia). rewrite orb_false_iff, Z.eqb_neq. tauto.
Qed.

(** What bmap() leaves alone, but for the inode. *)
Definition same_disk (s s' : kernel) : Prop :=
  Machine.sb s' = Machine.sb s ∧ disk s' = disk s ∧ dwrites s' = dwrites s ∧
  log_size (log s') = log_size (log s) ∧ log_start (log s') = log_start (log s).

Lemma same_disk_trans s1 s2 s3 : same_disk s1 s2 → same_disk s2 s3 → same_disk s1 s3.
Proof. intros (? & ? & ? & ? & ?) (? & ? & ? & ? & ?). unfold same_disk. split_and!; congruence. Qed.
Lemma rest_disk s s' : same_rest s s' → same_disk s s'.
Proof. intros (_ & ? & ? & ? & ? & ?). done. Qed.

(** The file with blocks added and the old ones as they were. *)
Record grew (v : Z → list Z) (x : inode) (v' : Z → list Z) (x' : inode) : Prop := {
  gr_lay : lay v' x';
  gr_ext : ext v x v' x';
  gr_data : ∀ k, 0 ≤ k < MAXFILE → blk v x k ≠ 0 → v' (blk v x k) = v (blk v x k);
}.

Lemma grew_refl v x : lay v x → grew v x v x.
Proof. intros Hl. split; [done|apply ext_refl|done]. Qed.

Lemma grew_trans v x v1 x1 v2 x2 : grew v x v1 x1 → grew v1 x1 v2 x2 → grew v x v2 x2.
Proof.
  intros [A1 A2 A3] [B1 B2 B3]. split; [done|by eapply ext_trans|]. intros k Hk Hne.
  pose proof (ex_keep _ _ _ _ A2 k ltac:(lia) Hne) as E. rewrite <-A3, <-E by done. apply B3; [done|congruence].
Qed.

(** A direct block. *)
Lemma grew_direct v x r i :
  lay v x → 0 ≤ r < sb_size b → in_use b v r = false → (i < NDIRECT)%nat → addr_at x i = 0 →
  grew v x (mark v r) (set_addr x i r) ∧ blk (mark v r) (set_addr x i r) i = r ∧ r ≠ 0.
Proof.
  intros Hl Hr Hf Hi H0. destruct (mark_fresh v x r Hl Hr Hf) as (Hu & Hz & Hnew). pose proof (lay_mark v x r Hl Hr Hf) as Hlm.
  assert (MAXFILE = 268 ∧ Z.of_nat NDIRECT = 12) as [EM EN] by done. split; [split|split].
  - by apply lay_direct.
  - apply (ext_assign v x _ _ i r); try done; [lia|by rewrite blk_direct, Nat2Z.id by lia|].
    intros k Hk. by rewrite (direct_blk _ _ r Hlm), (mark_blk v x r).
  - intros k Hk Hne. destruct (free_apart v r Hr Hf (blk v x k)) as [? ?]; [apply (la_blk _ _ Hl); [lia|done]|]. by apply mark_out.
  - rewrite (direct_blk _ _ r Hlm) by (done || lia). by rewrite decide_True.
  - pose proof (us_range _ _ Hu). lia.
Qed.

(** The indirect block. *)
Lemma grew_indirect v x r :
  lay v x → 0 ≤ r < sb_size b → in_use b v r = false → addr_at x NDIRECT = 0 →
  grew v x (mark v r) (set_addr x NDIRECT r) ∧ addr_at (set_addr x NDIRECT r) NDIRECT = r ∧ r ≠ 0 ∧
  ∀ k, 0 ≤ k < MAXFILE → blk (mark v r) (set_addr x NDIRECT r) k = blk v x k.
Proof.
  intros Hl Hr Hf H0. destruct (mark_fresh v x r Hl Hr Hf) as (Hu & Hz & Hnew). pose proof (lay_mark v x r Hl Hr Hf) as Hlm.
  split; [split|split_and!].
  - by apply lay_indirect.
  - apply (ext_assign v x _ _ MAXFILE r); try done. intros k Hk. by rewrite (ind_blk _ _ r Hlm Hu), (mark_blk v x r).
  - intros k Hk Hne. destruct (free_apart v r Hr Hf (blk v x k)) as [? ?]; [apply (la_blk _ _ Hl); [lia|done]|]. by apply mark_out.
  - rewrite addr_set, decide_True; [done..|]. rewrite (do_len _ (la_ok _ _ Hl)). unfold NDIRECT. lia.
  - pose proof (us_range _ _ Hu). lia.
  - intros k Hk. rewrite (ind_blk _ _ r Hlm Hu), (mark_blk v x r), decide_False by (done || lia). done.
Qed.

(** An entry of the indirect block. *)
Lemma grew_entry v x r k0 :
  lay v x → 0 ≤ r < sb_size b → in_use b v r = false → addr_at x NDIRECT ≠ 0 → NDIRECT ≤ k0 < MAXFILE → blk v x k0 = 0 →
  grew v x (set_entry_at (mark v r) x r k0) x ∧ blk (set_entry_at (mark v r) x r k0) x k0 = r ∧ r ≠ 0.
Proof.
  intros Hl Hr Hf Hi Hk0 H0. destruct (mark_fresh v x r Hl Hr Hf) as (Hu & Hz & Hnew). pose proof (lay_mark v x r Hl Hr Hf) as Hlm.
  assert (∀ m, m ≠ addr_at x NDIRECT → set_entry_at (mark v r) x r k0 m = mark v r m) as Hout by (intros m Hm; by apply fupd_ne).
  split; [split|split].
  - apply lay_entry; try done. rewrite (mark_blk v x r); [done..|lia].
  - apply (ext_assign v x _ _ k0 r); try done; [lia| |by destruct x]. intros k Hk. by rewrite (entry_blk _ _ r Hlm Hu), (mark_blk v x r).
  - intros k Hk Hne. destruct (free_apart v r Hr Hf (blk v x k)) as [? ?]; [apply (la_blk _ _ Hl); [lia|done]|].
    rewrite Hout; [by apply mark_out|]. rewrite <-(blk_ind v). intros E. assert (k = MAXFILE); [|lia]. by apply (la_inj _ _ Hl); [lia|..].
  - rewrite (entry_blk _ _ r Hlm Hu) by (done || lia). by rewrite decide_True.
  - pose proof (us_range _ _ Hu). lia.
Qed.

Lemma nfree_entry v x r k0 :
  lay v x → 0 ≤ r < sb_size b → in_use b v r = false → addr_at x NDIRECT ≠ 0 → nfree (set_entry_at (mark v r) x r k0) = nfree (mark v r).
Proof.
  intros Hl Hr Hf Hi. apply nfree_ext. intros n Hn. apply in_use_ext, fupd_ne. intros E.
  by destruct (us_bm _ _ (lay_ind v x Hl Hi) n Hn).
Qed.
(** ** bmap() with allocation *)

Section bmap.
Context `{Patience} (pr : nat) (q : proc) (dev : Z) (Hpat : (0 < patience)%nat).

Lemma balloc_lay O x w s :
  txo pr q dev O w s → Machine.sb s = b → log_start (log s) = start → lay (v_data w) x →
  (∀ m, m ∈ O → usable (v_data w) m) → (size O ≤ 1)%nat → lh_n (log_lh (log s)) + 2 < log_size (log s) → 0 < nfree (v_data w) →
  ∃ r w' s', balloc dev s = Ret r s' ∧ txo pr q dev O w' s' ∧ same_rest s s' ∧ bufs_kept dev O s s' ∧
    lh_n (log_lh (log s')) ≤ lh_n (log_lh (log s)) + 2 ∧ v_data w' = mark (v_data w) r ∧
    0 ≤ r < sb_size b ∧ in_use b (v_data w) r = false.
Proof using Hpat.
  intros Ht Hsb Hst Hl HO HO1 Hroom Hfree. destruct (nfree_first _ Hfree) as (r & Hr & Hf & Hfirst).
  destruct (balloc_held pr q dev Hpat O r w s) as (w' & s' & E & Ht' & Hsr & Hk & Hc & Hv); rewrite ?Hsb, ?Hst; try done.
  - apply Hl.
  - intros n Hn Hin. by destruct (us_bm _ _ (HO _ Hin) n Hn).
  - intros Hin. by rewrite (us_use _ _ (HO _ Hin)) in Hf.
  - rewrite Hsb in Hv. by exists r, w', s'.
Qed.

(** The end of bmap(): entry [k0] of the indirect block. *)
Definition bmap_entry (addr k0 : Z) : K Z :=
  bp ← bread dev addr;
  d ← getb bp;
  addr ← (if word_at (b_data d) (4 * Z.to_nat (k0 - NDIRECT)) =? 0 then
            addr ← balloc dev;
            when (negb (addr =? 0))
              (setb bp (λ y, y <| b_data ::= λ d, put_word d (4 * Z.to_nat (k0 - NDIRECT)) addr |>);;
               log_write bp);;
            mret addr
          else mret (word_at (b_data d) (4 * Z.to_nat (k0 - NDIRECT))));
  brelse bp;;
  mret addr.

(** A new block for an empty entry, with the indirect block's buffer held. *)
Lemma entry_fill bp k0 x w s :
  let a := addr_at x NDIRECT in
  txo pr q dev {[a]} w s → buf_of dev s a bp → Machine.sb s = b → log_start (log s) = start → lay (v_data w) x → a ≠ 0 →
  NDIRECT ≤ k0 < MAXFILE → lh_n (log_lh (log s)) + 3 < log_size (log s) → 0 < nfree (v_data w) → blk (v_data w) x k0 = 0 →
  ∃ r w' s1 s2 s3 s', balloc dev s = Ret r s1 ∧ r ≠ 0 ∧
    setb bp (λ y, y <| b_data ::= λ d, put_word d (4 * Z.to_nat (k0 - NDIRECT)) r |>) s1 = Ret () s2 ∧
    log_write bp s2 = Ret () s3 ∧ brelse bp s3 = Ret () s' ∧ tx pr q dev w' s' ∧ same_rest s s' ∧
    lh_n (log_lh (log s')) ≤ lh_n (log_lh (log s)) + 3 ∧ grew (v_data w) x (v_data w') x ∧ blk (v_data w') x k0 = r ∧
    nfree (v_data w) ≤ nfree (v_data w') + 1.
Proof using Hpat.
  intros a Ht Hof Hsb Hst Hl Hi Hk0 Hroom Hfree H0. pose proof (lay_ind _ _ Hl Hi) as Hua.
  destruct (balloc_lay {[a]} x w s Ht) as (r & w1 & s1 & E1 & Ht1 & Hsr1 & Hk1 & Hc1 & Hv1 & Hr & Hf); try done; try lia.
  { intros m ->%elem_of_singleton. done. } { by rewrite size_singleton. }
  destruct (grew_entry (v_data w) x r k0 Hl Hr Hf Hi Hk0 H0) as (Hg & Er & Hr0). pose proof Hsr1 as (_ & _ & _ & _ & Els1 & Est1).
  pose proof (us_range _ _ Hua). pose proof (bm_size _ _ _ (la_bm _ _ Hl)).
  destruct (tx_store pr q dev {[a]} a (λ d, put_word d (4 * Z.to_nat (k0 - NDIRECT)) r) w1 s1 bp Ht1)
    as (w4 & s2 & s3 & s4 & E2 & E3 & E4 & Ht4 & Hv4 & Hsr4 & _ & Hbl); fold a in H; try lia; [set_solver|by apply Hk1; [set_solver|]|rewrite Est1, Hst; apply Hua|].
  assert (({[a]} : gset Z) ∖ {[a]} = ∅) as EO by set_solver. rewrite EO in Ht4.
  assert (v_data w4 = set_entry_at (mark (v_data w) r) x r k0) as Ev by (rewrite Hv4, Hv1; done).
  exists r, w4, s1, s2, s3, s4. rewrite Ev, Er. split_and!; try done; [by apply tx_txo|by eapply same_rest_trans|..].
  - assert (lh_n (log_lh (log s4)) ≤ lh_n (log_lh (log s1)) + 1); [|lia].
    rewrite <-(log_blocks_length _ (o_layout _ _ _ _ _ _ Ht1)), <-(log_blocks_length _ (o_layout _ _ _ _ _ _ Ht4)), Hbl.
    case_decide; [lia|]. rewrite length_app. cbn. lia.
  - rewrite nfree_entry by done. rewrite (nfree_mark (v_data w) x r) by done. lia.
Qed.

Lemma bmap_entry_grow k0 x w s :
  tx pr q dev w s → Machine.sb s = b → log_start (log s) = start → lay (v_data w) x → addr_at x NDIRECT ≠ 0 →
  NDIRECT ≤ k0 < MAXFILE → lh_n (log_lh (log s)) + 3 < log_size (log s) → 0 < nfree (v_data w) → blk (v_data w) x k0 = 0 →
  ∃ w' s', bmap_entry (addr_at x NDIRECT) k0 s = Ret (blk (v_data w') x k0) s' ∧ tx pr q dev w' s' ∧ same_rest s s' ∧
    lh_n (log_lh (log s')) ≤ lh_n (log_lh (log s)) + 3 ∧ grew (v_data w) x (v_data w') x ∧ blk (v_data w') x k0 ≠ 0 ∧
    nfree (v_data w) ≤ nfree (v_data w') + 1.
Proof using Hpat.
  intros Ht%tx_txo Hsb Hst Hl Hi Hk0 Hroom Hfree H0. set (a := addr_at x NDIRECT) in *.
  pose proof (o_size _ _ _ _ _ _ Ht) as Hls. assert (LOGSIZE = NBUF) as EL by done.
  destruct (tx_take pr q dev Hpat ∅ a w s Ht) as (bp & s1 & E1 & Es1 & Ed & Ht1 & Hof & _); [set_solver|rewrite size_empty; lia|].
  rewrite union_empty_r_L in Ht1. assert (Machine.sb s1 = b ∧ log s1 = log s) as (Esb1 & El1) by (by rewrite Es1).
  assert (blk (v_data w) x k0 = word_at (v_data w a) (4 * Z.to_nat (k0 - NDIRECT))) as Eb
    by (rewrite blk_entry by done; fold a; by rewrite (proj2 (Z.eqb_neq _ _) Hi)).
  destruct (entry_fill bp k0 x (w_take a w) s1) as (r & w5 & s2 & s3 & s4 & s5 & E2 & Hr0 & E3 & E4 & E5 & Ht5 & Hsr & Hc & Hg & Er & Hn); rewrite ?El1; try done.
  rewrite El1 in Hc. exists w5, s5. rewrite Er. split_and!; try done.
  - unfold bmap_entry. msimpl. mrun E1. mrun getb_at. rewrite Ed, <-Eb, H0. cbn [Z.eqb]. mrun E2. rewrite (proj2 (Z.eqb_neq _ _) Hr0). cbn [negb].
    mrun E3. mrun E4. mrun E5. done.
  - eapply same_rest_trans; [|exact Hsr]. unfold same_rest. by rewrite Es1.
Qed.

Lemma seti_eq f ip x s : itable s !! ip = Some x → seti ip f s = Ret () (s <| itable := <[ip := f x]> (itable s) |>).
Proof. intros E. unfold seti, modify. by rewrite <-(list_alter_insert f (itable s) ip x). Qed.

(** bmap() past the direct blocks. *)
Lemma bmap_ind_eq ip bn x s :
  itable s !! ip = Some x → i_dev x = dev → NDIRECT ≤ bn < MAXFILE →
  bmap ip bn s =
    bindO ((if addr_at x NDIRECT =? 0 then
              addr ← balloc dev;
              when (negb (addr =? 0)) (seti ip (λ x, x <| i_addrs ::= <[NDIRECT := addr]> |>));;
              mret addr
            else mret (addr_at x NDIRECT)) s)
      (λ addr, if addr =? 0 then mret 0 else bmap_entry addr bn).
Proof.
  intros Hip Hdev Hbn. assert (MAXFILE = 268 ∧ Z.of_nat NDIRECT = 12 ∧ Z.of_nat NINDIRECT = 256) as (EM & EN & EI) by done.
  unfold bmap. msimpl. mrun (geti_eq x ip s) by done. rewrite (proj2 (Z.ltb_ge _ _)), (proj2 (Z.ltb_lt _ _)), Hdev by lia. done.
Qed.

Lemma tx_itable' w s f : tx pr q dev w s → tx pr q dev w (s <| itable := f |>).
Proof. apply (tx_itable pr q dev w s (λ _, f)). Qed.

Lemma stock_ind v x : addr_at x NDIRECT ≠ 0 → stock v x = nfree v.
Proof. intros Hi. unfold stock. rewrite (proj2 (Z.eqb_neq _ _) Hi). lia. Qed.

(** Whether block [bn] is to be allocated. *)
Definition lacks (v : Z → list Z) (x : inode) (bn : Z) : Z := if decide (blk v x bn = 0) then 1 else 0.

(** bmap() returns block [bn] of the file, which it has now; it takes a block
    of the stock when the file did not have it. *)
Definition bmapped (ip : nat) (bn : Z) (x : inode) (w : view) (s : kernel) : Prop :=
  ∃ w' s' x', bmap ip bn s = Ret (blk (v_data w') x' bn) s' ∧ tx pr q dev w' s' ∧ itable s' = <[ip := x']> (itable s) ∧
    same_disk s s' ∧ lh_n (log_lh (log s')) ≤ lh_n (log_lh (log s)) + 5 * lacks (v_data w) x bn ∧
    grew (v_data w) x (v_data w') x' ∧ blk (v_data w') x' bn ≠ 0 ∧
    stock (v_data w) x ≤ stock (v_data w') x' + lacks (v_data w) x bn.

Section cases.
Context (ip : nat) (bn : Z) (x : inode) (w : view) (s : kernel).
Context (Ht : tx pr q dev w s) (Hsb : Machine.sb s = b) (Hst : log_start (log s) = start).
Context (Hip : itable s !! ip = Some x) (Hdev : i_dev x = dev) (Hl : lay (v_data w) x).

Lemma bmap_present : 0 ≤ bn < MAXFILE → blk (v_data w) x bn ≠ 0 → bmapped ip bn x w s.
Proof using All.
  intros Hbn Hne. assert (mapped (v_data w) x bn) as Hm.
  { split; [done|by rewrite blk_file_addr| |rewrite blk_file_addr by done; apply (us_len _ _ (la_blk _ _ Hl bn ltac:(lia) Hne))].
    intros Hd E. rewrite blk_entry, E in Hne by lia. done. }
  destruct (bmap_mapped pr q dev w x Hpat (t_own _ _ _ _ _ Ht) ltac:(by eapply tx_bufs) ltac:(intros k; by eapply tx_count) Hdev
    ip bn s (t_io _ _ _ _ _ Ht) Hip Hm) as (s1 & E1 & Hio1 & Hf1 & Hd1 & Hw1).
  pose proof (frame_rest _ _ Hf1 Hd1 Hw1) as Hsr. pose proof (io_frame_log _ _ Hf1) as El1. unfold bmapped, lacks.
  exists w, s1, x. rewrite decide_False by done. split_and!; try done; [by rewrite E1, blk_file_addr|by eapply tx_frame| |by apply rest_disk| |by apply grew_refl|lia].
  - destruct Hsr as [-> _]. by rewrite list_insert_id.
  - rewrite El1. lia.
Qed.

Context (H0 : blk (v_data w) x bn = 0).
Context (Hroom : lh_n (log_lh (log s)) + 5 < log_size (log s)) (Hstock : 0 < stock (v_data w) x).

Lemma lacks_1 : lacks (v_data w) x bn = 1.
Proof using H0. unfold lacks. by rewrite decide_True. Qed.

Lemma alloc_some :
  ∃ r w1 s1, balloc dev s = Ret r s1 ∧ tx pr q dev w1 s1 ∧ same_rest s s1 ∧
    lh_n (log_lh (log s1)) ≤ lh_n (log_lh (log s)) + 2 ∧ v_data w1 = mark (v_data w) r ∧
    0 ≤ r < sb_size b ∧ in_use b (v_data w) r = false ∧ nfree (v_data w) = nfree (mark (v_data w) r) + 1.
Proof using All.
  destruct (balloc_lay ∅ x w s) as (r & w1 & s1 & E1 & Ht1 & Hsr & _ & Hc & Hv & Hr & Hf); try done; try lia.
  - by apply tx_txo.
  - set_solver.
  - unfold stock in Hstock. case_match; lia.
  - exists r, w1, s1. split_and!; try done; try lia; [by apply tx_txo|by eapply nfree_mark].
Qed.

Lemma bmap_direct : 0 ≤ bn < NDIRECT → bmapped ip bn x w s.
Proof using All.
  intros Hd. pose proof (blk_direct (v_data w) x bn Hd) as Eb. destruct alloc_some as (r & w1 & s1 & E1 & Ht1 & Hsr & Hc & Hv & Hr & Hf & Hn).
  destruct (grew_direct (v_data w) x r (Z.to_nat bn) Hl Hr Hf) as (Hg & Er & Hr0); [lia|congruence|]. rewrite Z2Nat.id in Er by lia.
  pose proof Hsr as (Hit & _). unfold bmapped. rewrite lacks_1.
  exists w1, (s1 <| itable := <[ip := set_addr x (Z.to_nat bn) r]> (itable s) |>), (set_addr x (Z.to_nat bn) r). rewrite Hv, Er.
  split_and!; try done; [|by apply tx_itable'|by apply rest_disk in Hsr|cbn; lia|].
  - unfold bmap. msimpl. mrun (geti_eq x ip s) by done. rewrite (proj2 (Z.ltb_lt _ _)), Hdev, <-Eb, H0 by lia. cbn [Z.eqb]. mrun E1.
    rewrite (proj2 (Z.eqb_neq _ _) Hr0). msimpl. mrun (seti_eq (λ x, x <| i_addrs ::= <[Z.to_nat bn := r]> |>) ip x s1) by (by rewrite Hit). by rewrite Hit.
  - unfold stock. rewrite Hn, addr_set, decide_False; [lia|lia|]. rewrite (do_len _ (la_ok _ _ Hl)). unfold NDIRECT in *. lia.
Qed.

Lemma bmap_indirect : NDIRECT ≤ bn < MAXFILE → bmapped ip bn x w s.
Proof using All.
  intros Hd. unfold bmapped. rewrite lacks_1, (bmap_ind_eq ip bn x s) by done. destruct (decide (addr_at x NDIRECT = 0)) as [Hi|Hi].
  - destruct alloc_some as (r & w1 & s1 & E1 & Ht1 & Hsr & Hc & Hv & Hr & Hf & Hn).
    destruct (grew_indirect (v_data w) x r Hl Hr Hf Hi) as (Hg & Er & Hr0 & Hb).
    set (x1 := set_addr x NDIRECT r) in *. set (s2 := s1 <| itable := <[ip := x1]> (itable s) |>).
    pose proof Hsr as (Hit & Hsb1 & _ & _ & Hls1 & Hst1). rewrite <-Hv in Hg. unfold stock in Hstock. rewrite Hi, Z.eqb_refl in Hstock.
    assert (addr_at x1 NDIRECT ≠ 0) as Hi1 by congruence.
    destruct (bmap_entry_grow bn x1 w1 s2) as (w' & s' & E & Ht' & Hsr' & Hc' & Hg' & Hne & Hn'); try done.
    { by apply tx_itable'. } { change (Machine.sb s1 = b). congruence. } { change (log_start (log s1) = start). congruence. }
    { apply Hg. } { change (lh_n (log_lh (log s1)) + 3 < log_size (log s1)). lia. } { rewrite Hv. lia. }
    { rewrite Hv. unfold x1. rewrite Hb; [done|]. unfold NDIRECT in Hd. lia. }
    exists w', s', x1. split_and!; try done.
    + rewrite Hi. cbn [Z.eqb]. msimpl. mrun E1. rewrite (proj2 (Z.eqb_neq _ _) Hr0). cbn [negb].
      mrun (seti_eq (λ x, x <| i_addrs ::= <[NDIRECT := r]> |>) ip x s1) by (by rewrite Hit). rewrite (proj2 (Z.eqb_neq _ _) Hr0), Hit. by rewrite Er in E.
    + destruct Hsr' as [-> _]. done.
    + apply rest_disk in Hsr, Hsr'. by eapply same_disk_trans.
    + change (log s2) with (log s1) in Hc'. lia.
    + by eapply grew_trans.
    + rewrite (stock_ind _ _ Hi1). unfold stock. rewrite Hi, Z.eqb_refl. rewrite Hv in Hn'. lia.
  - rewrite (proj2 (Z.eqb_neq _ _) Hi). msimpl. rewrite (proj2 (Z.eqb_neq _ _) Hi). rewrite (stock_ind _ _ Hi) in Hstock |- *.
    destruct (bmap_entry_grow bn x w s Ht Hsb Hst Hl Hi Hd ltac:(lia) Hstock H0) as (w' & s' & E & Ht' & Hsr & Hc & Hg & Hne & Hn).
    exists w', s', x. rewrite E, (stock_ind _ _ Hi). split_and!; try done; [destruct Hsr as [-> _]; by rewrite list_insert_id|by apply rest_disk|lia].
Qed.
End cases.

Lemma bmap_grow ip bn x w s :
  tx pr q dev w s → Machine.sb s = b → log_start (log s) = start → itable s !! ip = Some x → i_dev x = dev → lay (v_data w) x →
  0 ≤ bn < MAXFILE → (lacks (v_data w) x bn = 1 → lh_n (log_lh (log s)) + 5 < log_size (log s) ∧ 0 < stock (v_data w) x) →
  bmapped ip bn x w s.
Proof using Hpat.
  intros Ht Hsb Hst Hip Hdev Hl Hbn Hlack. destruct (decide (blk (v_data w) x bn = 0)) as [H0|H0]; [|by apply bmap_present].
  destruct Hlack as [Hroom Hstock]; [by apply lacks_1|].
  destruct (decide (bn < NDIRECT)); [apply bmap_direct|apply bmap_indirect]; done || lia.
Qed.
End bmap.

(** ** The bytes of the file *)

Lemma block_index p : 0 ≤ p < MAXFILE * BSIZE → 0 ≤ p / BSIZE < MAXFILE.
Proof. unfold BSIZE in *. intros Hp. assert (MAXFILE = 268) as EM by done. Z.to_euclidean_division_equations. lia. Qed.

Lemma ext_fields v x v' x' :
  ext v x v' x' → i_dev x' = i_dev x ∧ i_inum x' = i_inum x ∧ i_size x' = i_size x.
Proof. intros He. pose proof (ex_rest _ _ _ _ He) as E. by rewrite E. Qed.

Section filled.
Context (v0 : Z → list Z) (x0 : inode) (off : Z) (bytes : list Z).

(** [tot] bytes have been written from offset [off] on; the others below the
    size are those of [x0] in [v0]. *)
Record filled (tot : Z) (v : Z → list Z) (x : inode) : Prop := {
  fi_lay : lay v x;
  fi_ext : ext v0 x0 v x;
  fi_all : ∀ p, 0 ≤ p < Z.max (i_size x0) (off + tot) → blk v x (p / BSIZE) ≠ 0;
  fi_byte : ∀ p, 0 ≤ p < Z.max (i_size x0) (off + tot) →
    v (blk v x (p / BSIZE)) !! Z.to_nat (p mod BSIZE) =
      if decide (off ≤ p < off + tot) then bytes !! Z.to_nat (p - off)
      else v0 (blk v0 x0 (p / BSIZE)) !! Z.to_nat (p mod BSIZE);
}.

Context (Hoff : 0 ≤ off ≤ i_size x0) (Hsize : i_size x0 ≤ MAXFILE * BSIZE) (Hmax : off + length bytes ≤ MAXFILE * BSIZE).

Lemma filled_0 : lay v0 x0 → (∀ p, 0 ≤ p < i_size x0 → blk v0 x0 (p / BSIZE) ≠ 0) → filled 0 v0 x0.
Proof using Hoff.
  intros Hl Hall. split; [done|apply ext_refl|..].
  - intros p Hp. apply Hall. lia.
  - intros p Hp. rewrite decide_False by lia. done.
Qed.

Lemma filled_grew tot v x v' x' : 0 ≤ tot ≤ length bytes → filled tot v x → grew v x v' x' → filled tot v' x'.
Proof using Hoff Hsize Hmax.
  intros Htot [F1 F2 F3 F4] [G1 G2 G3].
  assert (∀ p, 0 ≤ p < Z.max (i_size x0) (off + tot) → blk v' x' (p / BSIZE) = blk v x (p / BSIZE)) as Hb.
  { intros p Hp. apply (ex_keep _ _ _ _ G2); [|by apply F3]. pose proof (block_index p ltac:(lia)). lia. }
  split; [done|by eapply ext_trans|..].
  - intros p Hp. rewrite Hb by done. by apply F3.
  - intros p Hp. rewrite Hb, G3, F4 by (done || by apply F3 || apply block_index; lia). done.
Qed.

(** A piece within one block. *)
Lemma filled_write tot m v x :
  let bn := (off + tot) / BSIZE in
  filled tot v x → 0 ≤ tot → 0 ≤ m → (off + tot) mod BSIZE + m ≤ BSIZE → tot + m ≤ length bytes → 0 ≤ bn < MAXFILE → blk v x bn ≠ 0 →
  filled (tot + m)
    (fupd v (blk v x bn)
       (list_inserts (Z.to_nat ((off + tot) mod BSIZE)) (take (Z.to_nat m) (drop (Z.to_nat tot) bytes)) (v (blk v x bn)))) x.
Proof using Hoff Hsize Hmax.
  intros bn [F1 F2 F3 F4] Htot Hm Hle Hlen Hbn Hne. pose proof (Z.mod_pos_bound (off + tot) BSIZE ltac:(done)) as Hr.
  assert (off + tot = bn * BSIZE + (off + tot) mod BSIZE) as Eb by (unfold bn, BSIZE; Z.to_euclidean_division_equations; lia).
  set (r := (off + tot) mod BSIZE) in *. clearbody bn r. pose proof (us_len _ _ (la_blk _ _ F1 bn ltac:(lia) Hne)) as Hl.
  assert (BSIZE = 1024) as EB by done.
  assert (Z.of_nat (length (take (Z.to_nat m) (drop (Z.to_nat tot) bytes))) = m) as Hk by (rewrite length_take, length_drop; lia).
  set (d := list_inserts _ _ _). assert (length d = 1024%nat) as Hd by (unfold d; by rewrite length_inserts).
  assert (∀ p, 0 ≤ p < Z.max (i_size x0) (off + (tot + m)) → p / BSIZE = bn ∨ 0 ≤ p < Z.max (i_size x0) (off + tot) ∧ p / BSIZE ≠ bn) as Hp.
  { intros p Hp. destruct (decide (p / BSIZE = bn)); [by left|right]. split; [|done]. rewrite EB in *. Z.to_euclidean_division_equations. lia. }
  assert (∀ p, 0 ≤ p < Z.max (i_size x0) (off + (tot + m)) → 0 ≤ p / BSIZE < MAXFILE) as Hi by (intros p ?; apply block_index; lia).
  split.
  - by apply lay_write.
  - eapply ext_trans; [by apply lay_write|done|by apply ext_write].
  - intros p H. rewrite write_blk by (done || (pose proof (Hi p H); lia)). destruct (Hp p H) as [->|[? _]]; [done|by apply F3].
  - intros p H. rewrite write_blk by (done || (pose proof (Hi p H); lia)). destruct (Hp p H) as [E|[H' E]].
    + pose proof (Z.div_mod p BSIZE ltac:(done)) as Ep. pose proof (Z.mod_pos_bound p BSIZE ltac:(done)) as Hmod. rewrite E in Ep.
      rewrite E, fupd_eq. unfold d. destruct (decide (off + tot ≤ p < off + (tot + m))) as [Hin|Hout].
      * rewrite list_lookup_inserts by lia. rewrite decide_True by lia. rewrite lookup_take_lt, lookup_drop by lia. f_equal. lia.
      * pose proof (F4 p ltac:(lia)) as F. rewrite E in F.
        destruct (decide (p < off + tot)); [rewrite list_lookup_inserts_lt by lia|rewrite list_lookup_inserts_ge by lia]; rewrite F;
          (destruct (decide (off ≤ p < off + tot)); [rewrite decide_True by lia|rewrite decide_False by lia]; done).
    + rewrite fupd_ne.
      * rewrite F4 by done. destruct (decide (off ≤ p < off + tot)); [rewrite decide_True by lia; done|]. rewrite decide_False; [done|].
        intros Hin. apply E. rewrite EB in *. Z.to_euclidean_division_equations. lia.
      * intros Eq. apply E. apply (la_inj _ _ F1); try done; [pose proof (Hi p H); lia|lia|by apply F3].
Qed.
End filled.

(** ** writei() *)

(** The blocks that [n] bytes from offset [off] on are in. *)
Definition rounds (off n : Z) : Z := if 0 <? n then (off + n - 1) / BSIZE - off / BSIZE + 1 else 0.

(** Blocks [a], ..., [a + n - 1] of the file that are to be allocated. *)
Definition missing (v : Z → list Z) (x : inode) (a n : Z) : Z := length (filter (λ k, blk v x k = 0) (seqZ a n)).

Lemma missing_step v x a n : 0 < n → missing v x a n = lacks v x a + missing v x (a + 1) (n - 1).
Proof.
  intros Hn. unfold missing, lacks. rewrite seqZ_cons, filter_cons by done. replace (Z.succ a) with (a + 1) by lia.
  replace (Z.pred n) with (n - 1) by lia. case_decide; cbn [length]; lia.
Qed.

Lemma missing_mono v x v' x' a n :
  (∀ k, a ≤ k < a + n → blk v x k ≠ 0 → blk v' x' k ≠ 0) → missing v' x' a n ≤ missing v x a n.
Proof.
  intros Hk. unfold missing. assert (∀ k, k ∈ seqZ a n → blk v x k ≠ 0 → blk v' x' k ≠ 0) as Hin by (intros k Hi%elem_of_seqZ; apply Hk; lia).
  clear Hk. induction (seqZ a n) as [|k l IH]; [done|]. rewrite !filter_cons. pose proof (Hin k ltac:(left)) as Hh.
  specialize (IH ltac:(intros j Hj; apply Hin; by right)). repeat case_decide; cbn [length]; lia || tauto.
Qed.

Section growing.
Context `{Patience} (pr : nat) (q : proc) (dev : Z) (Hpat : (0 < patience)%nat).
Context (v0 : Z → list Z) (x0 : inode) (ip : nat) (off : Z) (bytes : list Z).
Context (Hdev : i_dev x0 = dev).
Context (Hoff : 0 ≤ off ≤ i_size x0) (Hsize : i_size x0 ≤ MAXFILE * BSIZE) (Hmax : off + length bytes ≤ MAXFILE * BSIZE).

(** The state of the loop. *)
Record at_round (tot : Z) (w : view) (s : kernel) (x : inode) : Prop := {
  ar_tx : tx pr q dev w s;
  ar_sb : Machine.sb s = b;
  ar_start : log_start (log s) = start;
  ar_inode : itable s !! ip = Some x;
  ar_filled : filled v0 x0 off bytes tot (v_data w) x;
}.

Lemma grow_round tot w s x :
  let c := lacks (v_data w) x ((off + tot) / BSIZE) in
  at_round tot w s x → lh_n (log_lh (log s)) + 5 * c + 1 < log_size (log s) → (c = 1 → 0 < stock (v_data w) x) → 0 ≤ tot < length bytes →
  let m := Z.min (length bytes - tot) (BSIZE - (off + tot) mod BSIZE) in
  ∃ w' s' x', writei_body ip (length bytes) (tot, off + tot, SVar (drop (Z.to_nat tot) bytes)) s =
      Ret (inl (tot + m, off + (tot + m), SVar (drop (Z.to_nat (tot + m)) bytes))) s' ∧
    at_round (tot + m) w' s' x' ∧ same_disk s s' ∧ itable s' = <[ip := x']> (itable s) ∧
    stock (v_data w) x ≤ stock (v_data w') x' + c ∧ lh_n (log_lh (log s')) ≤ lh_n (log_lh (log s)) + 5 * c + 1 ∧
    ∀ k, 0 ≤ k ≤ MAXFILE → blk (v_data w) x k ≠ 0 → blk (v_data w') x' k ≠ 0.
Proof using Hpat Hdev Hoff Hsize Hmax.
  intros c [Ht Hsb Hst Hip Hfi] Hroom Hstock Htot m. pose proof (Z.mod_pos_bound (off + tot) BSIZE ltac:(done)) as Hr.
  pose proof (block_index (off + tot) ltac:(lia)) as Hbn. set (bn := (off + tot) / BSIZE) in *.
  destruct (ext_fields _ _ _ _ (fi_ext _ _ _ _ _ _ _ Hfi)) as (Ed & _).
  destruct (bmap_grow pr q dev Hpat ip bn x w s Ht Hsb Hst Hip ltac:(congruence) (fi_lay _ _ _ _ _ _ _ Hfi) Hbn ltac:(fold c; intros Ec; split; [lia|by apply Hstock]))
    as (w1 & s1 & x1 & E1 & Ht1 & Hit1 & Hsd1 & Hc1 & Hg1 & Hne & Hs1). pose proof Hsd1 as (Hsb1 & _ & _ & Hls1 & Hst1). fold c in Hc1, Hs1.
  assert (itable s1 !! ip = Some x1) as Hip1 by (rewrite Hit1; apply list_lookup_insert_eq; by eapply lookup_lt_Some).
  pose proof (filled_grew v0 x0 off bytes Hoff Hsize Hmax tot _ _ _ _ ltac:(lia) Hfi Hg1) as Hf1. pose proof (gr_lay _ _ _ _ Hg1) as Hl1.
  destruct (ext_fields _ _ _ _ (gr_ext _ _ _ _ Hg1)) as (Ed1 & _). set (a := blk (v_data w1) x1 bn) in *.
  pose proof (la_blk _ _ Hl1 bn ltac:(lia) Hne) as Hua. pose proof (us_range _ _ Hua) as Hra. pose proof (bm_size _ _ _ (la_bm _ _ Hl1)) as Hbs. fold a in Hra.
  destruct (update_block pr q dev Hpat a (list_inserts (Z.to_nat ((off + tot) mod BSIZE)) (take (Z.to_nat m) (drop (Z.to_nat tot) bytes))) w1 s1 Ht1)
    as (w5 & bp & s2 & s3 & s4 & s5 & E2 & _ & Ei & E3 & E4 & E5 & Ht5 & Hv5 & Hsr5 & Hbl); [lia|rewrite Hst1, Hst; apply Hua|lia|].
  pose proof Hsr5 as (Hit5 & Hsb5 & _ & _ & _ & Hst5).
  exists w5, s5, x1. split_and!.
  - unfold writei_body. mif_false by (apply negb_false_iff; lia). fold bn. mrun E1. fold a.
    rewrite (proj2 (Z.eqb_neq _ _) Hne). msimpl. mrun (geti_eq x1 ip s1) by done.
    rewrite Ed1, Ed, Hdev. mrun E2. fold m. cbn [either_copyin]. unfold mret at 1, M_ret. cbn [bindO]. mrun E3. cbn [Z.eqb].
    mrun E4. mrun E5. cbn [src_add]. rewrite drop_drop, Z.add_assoc. unfold mret, M_ret. do 5 f_equal. unfold m. lia.
  - split; try done; [congruence|congruence|by rewrite Hit5|]. rewrite Hv5. apply (filled_write v0 x0 off bytes); try done; unfold m; lia.
  - eapply same_disk_trans; [done|by apply rest_disk].
  - congruence.
  - assert (nfree (v_data w5) = nfree (v_data w1)) as En; [|unfold stock in *; lia].
    rewrite Hv5. apply nfree_ext. intros n Hn. apply in_use_ext, write_bm; done.
  - assert (lh_n (log_lh (log s5)) ≤ lh_n (log_lh (log s1)) + 1); [|lia]. by eapply logged_count.
  - intros k Hk Hk0. rewrite Hv5, (write_blk (v_data w1) x1 bn) by done. by rewrite (ex_keep _ _ _ _ (gr_ext _ _ _ _ Hg1)).
Qed.

(** The blocks still to be written, and those of them to be allocated. *)
Local Notation left_r tot := (rounds (off + tot) (length bytes - tot)).
Local Notation left_m v x tot := (missing v x ((off + tot) / BSIZE) (left_r tot)).

Lemma left_step tot v x v' x' :
  let m := Z.min (length bytes - tot) (BSIZE - (off + tot) mod BSIZE) in
  0 ≤ tot < length bytes → (∀ k, 0 ≤ k ≤ MAXFILE → blk v x k ≠ 0 → blk v' x' k ≠ 0) →
  left_r tot = 1 + left_r (tot + m) ∧ 0 ≤ left_r (tot + m) ∧ 0 < m ≤ length bytes - tot ∧
  0 ≤ left_m v' x' (tot + m) ∧ lacks v x ((off + tot) / BSIZE) + left_m v' x' (tot + m) ≤ left_m v x tot.
Proof using v0 Hoff Hmax.
  clear Hpat Hsize. intros m Htot Hk. pose proof (Z.mod_pos_bound (off + tot) BSIZE ltac:(done)) as Hr.
  assert (left_r tot = 1 + left_r (tot + m) ∧ 0 ≤ left_r (tot + m) ∧ 0 < m ≤ length bytes - tot ∧
    (0 < left_r (tot + m) → (off + (tot + m)) / BSIZE = (off + tot) / BSIZE + 1 ∧
      (off + tot) / BSIZE + left_r (tot + m) = (off + length bytes - 1) / BSIZE)) as (Er & Hr0 & Hm & Hn).
  { unfold rounds, m, BSIZE in *. rewrite (proj2 (Z.ltb_lt 0 (length bytes - tot))) by lia. case_match; Z.to_euclidean_division_equations; lia. }
  split_and!; try done; try lia; [unfold missing; lia|]. rewrite (missing_step v x) by lia. replace (left_r tot - 1) with (left_r (tot + m)) by lia.
  destruct (decide (0 < left_r (tot + m))) as [Hp|Hp].
  - destruct (Hn Hp) as [-> Hend]. apply Z.add_le_mono_l, missing_mono. intros k Hk'. apply Hk.
    pose proof (block_index (off + length bytes - 1) ltac:(lia)). pose proof (Z.div_pos (off + tot) BSIZE ltac:(lia) ltac:(done)). lia.
  - replace (left_r (tot + m)) with 0 by lia. done.
Qed.

Lemma grow_loop (fuel : nat) : ∀ tot w s x,
  at_round tot w s x → 0 ≤ tot ≤ length bytes → (0 < fuel)%nat → left_r tot < fuel →
  lh_n (log_lh (log s)) + left_r tot + 5 * left_m (v_data w) x tot < log_size (log s) →
  (0 < left_m (v_data w) x tot → left_m (v_data w) x tot ≤ stock (v_data w) x) →
  ∃ w' s' x', loop fuel (writei_body ip (length bytes)) (tot, off + tot, SVar (drop (Z.to_nat tot) bytes)) s =
      Ret (Z.of_nat (length bytes), off + length bytes) s' ∧
    at_round (length bytes) w' s' x' ∧ same_disk s s' ∧ itable s' = <[ip := x']> (itable s) ∧
    lh_n (log_lh (log s')) ≤ lh_n (log_lh (log s)) + left_r tot + 5 * left_m (v_data w) x tot.
Proof using Hpat Hdev Hoff Hsize Hmax.
  induction fuel as [|fuel IH]; intros tot w s x Hat Htot Hf0 Hfuel Hroom Hstock; [lia|].
  destruct (decide (tot = length bytes)) as [->|Hne].
  { exists w, s, x. rewrite (loop_exit _ _ _ _ (Z.of_nat (length bytes), off + length bytes) s).
    - rewrite Z.sub_diag in *. change (rounds _ 0) with 0 in *. split_and!; try done; [by rewrite list_insert_id by apply Hat|].
      change (missing _ _ _ 0) with 0. lia.
    - unfold writei_body. mif_true by (apply negb_true_iff; lia). done. }
  destruct (left_step tot (v_data w) x (v_data w) x ltac:(lia) ltac:(done)) as (Er & Hr0 & Hm & Hm0 & Hle).
  assert (0 ≤ lacks (v_data w) x ((off + tot) / BSIZE)) as Hl0 by (unfold lacks; case_decide; lia).
  destruct (grow_round tot w s x Hat ltac:(lia) ltac:(lia) ltac:(lia)) as (w1 & s1 & x1 & E1 & Hat1 & Hsd & Hit & Hs & Hc & Hkeep).
  destruct (left_step tot (v_data w) x (v_data w1) x1 ltac:(lia) Hkeep) as (_ & _ & _ & Hm1 & Hle1).
  set (m := Z.min (length bytes - tot) (BSIZE - (off + tot) mod BSIZE)) in *. pose proof Hsd as (_ & _ & _ & Hls & _).
  destruct (IH (tot + m) w1 s1 x1 Hat1) as (w2 & s2 & x2 & E2 & Hat2 & Hsd2 & Hit2 & Hc2); try lia.
  exists w2, s2, x2. rewrite (loop_next _ _ _ _ _ _ E1), E2. split_and!; try done; [by eapply same_disk_trans| |lia].
  by rewrite Hit2, Hit, list_insert_insert_eq.
Qed.

(** The inode's block is none of the file's. *)
Lemma lay_inode v x y d :
  lay v x → i_addrs y = i_addrs x → dinode_ok y → length d = 1024%nat →
  lay (fupd v ib d) y ∧ ∀ k, 0 ≤ k ≤ MAXFILE → blk (fupd v ib d) y k = blk v x k.
Proof using Type.
  clear Hpat Hoff Hsize Hmax. intros Hl Ey Hok Hd.
  assert (∀ n, 0 ≤ n < sb_size b → fupd v ib d (BBLOCK n b) = v (BBLOCK n b)) as Hbm
    by (intros n Hn; apply fupd_ne; intros E; by destruct (la_ib_bm _ _ Hl n Hn)).
  assert (∀ k, 0 ≤ k ≤ MAXFILE → blk (fupd v ib d) y k = blk v x k) as Hb.
  { intros k Hk. apply blk_ext; [done|done|]. intros Hi. apply fupd_ne, (us_ib _ _ (lay_ind v x Hl Hi)). }
  pose proof (bm_size _ _ _ (la_bm _ _ Hl)). pose proof (la_ib _ _ Hl). split; [|done]. split; try done; try (by destruct Hl).
  - eapply bitmap_ok_ext; [apply (la_bm _ _ Hl)|done].
  - rewrite (in_use_ext v); [apply (la_zero _ _ Hl)|]. apply Hbm. lia.
  - intros k Hk. rewrite Hb by done. intros Hne. pose proof (la_blk _ _ Hl k Hk Hne) as Hu.
    eapply usable_ext; [done|done|]. by rewrite fupd_ne by apply Hu.
  - intros k k' Hk Hk'. rewrite !Hb by done. by apply (la_inj _ _ Hl).
  - rewrite (in_use_ext v); [apply (la_ib_use _ _ Hl)|]. by apply Hbm.
  - by rewrite fupd_eq.
Qed.

(** The bytes of a file whose blocks are there. *)
Lemma filled_bytes v x y d :
  filled v0 x0 off bytes (length bytes) v x → i_addrs y = i_addrs x → dinode_ok y → length d = 1024%nat →
  (∀ p, 0 ≤ p < i_size x0 → blk v0 x0 (p / BSIZE) ≠ 0) →
  file_bytes (fupd v ib d) y 0 (Z.max (i_size x0) (off + length bytes)) =
    overwritten (file_bytes v0 x0 0 (i_size x0)) off bytes.
Proof using Hoff Hsize Hmax.
  clear Hpat. intros [F1 F2 F3 F4] Ey Hok Hd Hall. set (n := Z.of_nat (length bytes)) in *. set (sz := i_size x0) in *.
  destruct (lay_inode v x y d F1 Ey Hok Hd) as [Hly Hb]. unfold overwritten.
  assert (Z.of_nat (length (file_bytes v0 x0 0 sz)) = sz) as Hlen by (apply length_file_bytes; lia).
  apply list_eq. intros k. destruct (decide (k < Z.max sz (off + n))) as [Hk|Hk].
  - rewrite (file_bytes_lookup (fupd v ib d)) by lia. pose proof (block_index k ltac:(lia)) as Hi. specialize (F3 k ltac:(lia)). specialize (F4 k ltac:(lia)).
    assert (blk (fupd v ib d) y (k / BSIZE) ≠ 0) as Hne by (rewrite Hb by lia; done).
    rewrite blk_file_addr, Hb by (done || lia). rewrite fupd_ne by (apply (us_ib _ _ (la_blk _ _ F1 (k / BSIZE) ltac:(lia) F3))). rewrite F4.
    destruct (decide (off ≤ k < off + n)) as [Hin|Ho].
    + rewrite lookup_app_r, lookup_app_l by (rewrite length_take; lia). rewrite length_take.
      replace (k - Z.to_nat off `min` length (file_bytes v0 x0 0 sz))%nat with (Z.to_nat (k - off)) by lia.
      destruct (lookup_lt_is_Some_2 bytes (Z.to_nat (k - off))) as [c Hc]; [lia|]. by rewrite Hc.
    + specialize (Hall k ltac:(lia)). rewrite <-(blk_file_addr v0 x0) by (done || lia).
      rewrite <-file_bytes_lookup with (n := sz) by lia. destruct (decide (k < off)).
      * by rewrite lookup_app_l, lookup_take_lt by (rewrite ?length_take; lia).
      * rewrite lookup_app_r, lookup_app_r by (rewrite ?length_take; lia). rewrite lookup_drop, length_take. f_equal. lia.
  - rewrite !lookup_ge_None_2; [done|rewrite !length_app, length_take, length_drop; lia|].
    pose proof (length_file_bytes (fupd v ib d) y 0 (Z.max sz (off + n)) ltac:(lia)). lia.
Qed.

Lemma writei_grow w s :
  tx pr q dev w s → Machine.sb s = b → log_start (log s) = start → IBLOCK (i_inum x0) b = ib → itable s !! ip = Some x0 →
  v_data w = v0 → lay v0 x0 → (∀ p, 0 ≤ p < i_size x0 → blk v0 x0 (p / BSIZE) ≠ 0) →
  let c := missing v0 x0 (off / BSIZE) (rounds off (length bytes)) in
  lh_n (log_lh (log s)) + rounds off (length bytes) + 5 * c + 1 < log_size (log s) → (0 < c → c ≤ stock v0 x0) →
  ∃ w' s' x1 v1, let x' := grown off bytes x1 in
    writei ip (SVar bytes) off (length bytes) s = Ret (Z.of_nat (length bytes)) s' ∧ tx pr q dev w' s' ∧
    itable s' = <[ip := x']> (itable s) ∧ same_disk s s' ∧ 0 < lh_n (log_lh (log s')) ∧
    filled v0 x0 off bytes (length bytes) v1 x1 ∧
    v_data w' = fupd v1 ib (dinode_put (v1 ib) (dinode_off (i_inum x0)) x').
Proof using Hpat Hdev Hoff Hsize Hmax.
  intros Ht Hsb Hst Hib Hip Hv Hl Hall c Hroom Hstock. pose proof (lookup_lt_Some _ _ _ Hip) as Hlt.
  assert (MAXFILE * BSIZE = 274432) as EMB by done.
  assert (0 ≤ rounds off (length bytes) ≤ length bytes / BSIZE + 2) as Hrn.
  { unfold rounds, BSIZE. case_match; Z.to_euclidean_division_equations; lia. }
  destruct (grow_loop (Z.to_nat (length bytes / BSIZE) + 3) 0 w s x0) as (w1 & s1 & x1 & E1 & Hat & Hsd & Hit & Hc);
    rewrite ?Z.add_0_r, ?Z.sub_0_r, ?Hv; try lia; try done.
  { split; try done. rewrite Hv. by apply filled_0. }
  rewrite Z.add_0_r, ?Z.sub_0_r in *. change (drop (Z.to_nat 0) bytes) with bytes in E1. destruct Hat as [Ht1 Hsb1 Hst1 Hip1 Hf1].
  destruct (ext_fields _ _ _ _ (fi_ext _ _ _ _ _ _ _ Hf1)) as (Ed1 & En1 & Es1). pose proof Hsd as (_ & _ & _ & Hls1 & _).
  pose proof (fi_lay _ _ _ _ _ _ _ Hf1) as Hl1. pose proof (bm_size _ _ _ (la_bm _ _ Hl1)). pose proof (la_ib _ _ Hl1).
  destruct (grown_rest x1 off bytes) as (_ & Hgd & Hgi). set (x' := grown off bytes x1) in *.
  destruct (iupdate_tx pr q dev Hpat ip ib x' w1 (s1 <| itable := <[ip := x']> (itable s1) |>)) as (w2 & s2 & E2 & Ht2 & Hsr2 & Hpos & Hv2).
  { by apply tx_itable'. } { apply list_lookup_insert_eq. by eapply lookup_lt_Some. } { congruence. }
  { change (IBLOCK (i_inum x') (Machine.sb s1) = ib). congruence. } { lia. }
  { change (¬ in_log (log_start (log s1)) ib). rewrite Hst1. apply (la_ib_log _ _ Hl1). }
  { change (lh_n (log_lh (log s1)) < log_size (log s1) - 1). rewrite Hv in Hc. fold c in Hc. lia. }
  exists w2, s2, x1, (v_data w1). cbn zeta. fold x'. split_and!; try done.
  - unfold writei. msimpl. mrun (geti_eq x0 ip s) by done. rewrite u32_small by lia. mif_false by (apply orb_false_iff; rewrite !Z.ltb_ge; lia).
    mif_false by lia. mrun E1. mrun (geti_eq x1 ip s1) by done.
    mrun (grow_inode x1 ip off bytes s1 s1) by done. fold x'. mrun E2. unfold mret, M_ret. rewrite i32_small by lia. done.
  - destruct Hsr2 as (-> & _). cbn. by rewrite Hit, list_insert_insert_eq.
  - eapply same_disk_trans; [exact Hsd|]. apply rest_disk in Hsr2. done.
  - rewrite Hv2, Hgi, En1. done.
Qed.
End growing.
End layout.

(** ** The call as a whole *)

(** How many of the blocks that are written the file does not have. *)
Definition to_allocate (w : view) (x : inode) (off : Z) (bytes : list Z) : Z :=
  missing (v_data w) x (off / BSIZE) (rounds off (length bytes)).

(** A write of [bytes] at [off] into the open, locked inode of entry [ip]: its
    file has all blocks below its size, the disk has enough free ones for those
    that are missing, and the log has room for each block written, for what
    bmap() changes to allocate one (at most five blocks), and for the inode.
    filewrite() writes at most four blocks at once, so that the log of a new
    transaction has this room. *)
Record growable (w : view) (s : kernel) (x : inode) (ip : nat) (off : Z) (bytes : list Z) : Prop := {
  ga_inode : itable s !! ip = Some x;
  ga_lay : lay (Machine.sb s) (log_start (log s)) (IBLOCK (i_inum x) (Machine.sb s)) (v_data w) x;
  ga_full : ∀ p, 0 ≤ p < i_size x → blk (v_data w) x (p / BSIZE) ≠ 0;
  ga_off : 0 ≤ off ≤ i_size x;
  ga_size : i_size x ≤ MAXFILE * BSIZE;
  ga_max : off + length bytes ≤ MAXFILE * BSIZE;
  ga_free : 0 < to_allocate w x off bytes → to_allocate w x off bytes ≤ stock (Machine.sb s) (v_data w) x;
  ga_room : lh_n (log_lh (log s)) + rounds off (length bytes) + 5 * to_allocate w x off bytes + 1 < log_size (log s);
}.

(** The file [x] in [v] after the write, as [x'] in [v']. *)
Record file_written (b : superblock) (start : Z) (v : Z → list Z) (x : inode) (off : Z) (bytes : list Z) (v' : Z → list Z) (x' : inode) : Prop := {
  fw_inode : x' = grown off bytes x <| i_addrs := i_addrs x' |>;
  fw_bytes : file_bytes v' x' 0 (i_size x') = overwritten (file_bytes v x 0 (i_size x)) off bytes;
  fw_disk : ∀ y, dinode_get (v' (IBLOCK (i_inum x) b)) (dinode_off (i_inum x)) y = with_dinode x' y;
  fw_keep : ∀ k, 0 ≤ k ≤ MAXFILE → blk v x k ≠ 0 → blk v' x' k = blk v x k;
  fw_new : ∀ k, 0 ≤ k ≤ MAXFILE → blk v x k = 0 → blk v' x' k ≠ 0 → in_use b v (blk v' x' k) = false;
  fw_use : ∀ m, 0 ≤ m < sb_size b →
    in_use b v' m = true ↔ in_use b v m = true ∨ ∃ k, 0 ≤ k ≤ MAXFILE ∧ blk v' x' k ≠ 0 ∧ m = blk v' x' k;
  fw_out : ∀ m, m ≠ IBLOCK (i_inum x) b → (∀ n, 0 ≤ n < sb_size b → m ≠ BBLOCK n b) →
    (∀ k, 0 ≤ k ≤ MAXFILE → blk v' x' k ≠ 0 → m ≠ blk v' x' k) → v' m = v m;
  fw_others : ∀ i, (i < dinode_off (i_inum x) ∨ dinode_off (i_inum x) + 64 ≤ i)%nat →
    v' (IBLOCK (i_inum x) b) !! i = v (IBLOCK (i_inum x) b) !! i;
  fw_lay : lay b start (IBLOCK (i_inum x) b) v' x';
  fw_full : ∀ p, 0 ≤ p < i_size x' → blk v' x' (p / BSIZE) ≠ 0;
}.

Lemma filled_written b start v x off bytes v1 x1 :
  let ib := IBLOCK (i_inum x) b in
  let x' := grown off bytes x1 in
  lay b start ib v x → (∀ p, 0 ≤ p < i_size x → blk v x (p / BSIZE) ≠ 0) →
  0 ≤ off ≤ i_size x → i_size x ≤ MAXFILE * BSIZE → off + length bytes ≤ MAXFILE * BSIZE →
  filled b start ib v x off bytes (length bytes) v1 x1 →
  file_written b start v x off bytes (fupd v1 ib (dinode_put (v1 ib) (dinode_off (i_inum x)) x')) x'.
Proof.
  intros ib x' Hl Hall Hoff Hsize Hmax Hfi. assert (MAXFILE * BSIZE = 274432) as EMB by done.
  destruct Hfi as [F1 F2 F3 F4] eqn:EF. clear EF. destruct (ext_fields _ _ _ _ _ F2) as (_ & En & Es).
  assert (dinode_ok x') as Hok by (apply grown_ok; [apply F1|lia|lia]).
  destruct (grown_rest x1 off bytes) as (Ha & _ & _). fold x' in Ha. pose proof (grown_size x1 off bytes) as Hs. fold x' in Hs. rewrite Es in Hs.
  assert (v1 ib = v ib) as Eib.
  { apply (ex_out _ _ _ _ _ F2); [apply (la_ib_bm _ _ _ _ _ F1)|]. intros k Hk Hne E.
    by destruct (us_ib _ _ _ _ _ (la_blk _ _ _ _ _ F1 k Hk Hne)). }
  set (d := dinode_put (v1 ib) (dinode_off (i_inum x)) x').
  assert (length d = 1024%nat) as Hd by (unfold d; rewrite length_dinode_put, Eib; apply (la_ib_len _ _ _ _ _ Hl)).
  destruct (lay_inode b start ib v1 x1 x' d F1 Ha Hok Hd) as [Hl' Hb].
  assert (∀ m, 0 ≤ m < sb_size b → in_use b (fupd v1 ib d) m = in_use b v1 m) as Hu.
  { intros m Hm. apply in_use_ext, fupd_ne. intros E. by destruct (la_ib_bm _ _ _ _ _ F1 m Hm). }
  split.
  - unfold x', grown. rewrite (ex_rest _ _ _ _ _ F2). cbn. by destruct (_ <? _).
  - rewrite Hs. by apply (filled_bytes b start ib v x off bytes Hoff Hsize Hmax v1 x1).
  - intros y. rewrite fupd_eq. apply dinode_get_put; [rewrite Eib, (la_ib_len _ _ _ _ _ Hl); apply dinode_off_bound|done].
  - intros k Hk Hne. rewrite Hb by done. by apply (ex_keep _ _ _ _ _ F2).
  - intros k Hk H0. rewrite Hb by done. by apply (ex_new _ _ _ _ _ F2).
  - intros m Hm. rewrite Hu by done. split.
    + intros H. destruct (ex_only _ _ _ _ _ F2 m Hm H) as [?|(k & Hk & Hne & ->)]; [by left|right]. exists k. by rewrite Hb.
    + intros [H|(k & Hk & Hne & ->)]; [by apply (ex_use _ _ _ _ _ F2)|]. rewrite Hb in * by done. by apply (la_blk _ _ _ _ _ F1).
  - intros m Hm Hbm Hk. rewrite fupd_ne by done. apply (ex_out _ _ _ _ _ F2); [done|]. intros k Hk' Hne. rewrite <-(Hb k Hk').
    apply Hk; [done|]. by rewrite Hb.
  - intros i Hi. fold ib. rewrite fupd_eq. unfold d. rewrite Eib. apply dinode_put_out; [apply Hok|done].
  - done.
  - intros p Hp. rewrite Hs in Hp. pose proof (block_index p ltac:(lia)). rewrite Hb by lia. by apply F3.
Qed.

Lemma writei_growable `{Patience} pr q dev w s x ip off bytes :
  (0 < patience)%nat → tx pr q dev w s → i_dev x = dev → growable w s x ip off bytes →
  ∃ w' s' x', writei ip (SVar bytes) off (length bytes) s = Ret (Z.of_nat (length bytes)) s' ∧ tx pr q dev w' s' ∧
    itable s' = <[ip := x']> (itable s) ∧ same_disk s s' ∧ 0 < lh_n (log_lh (log s')) ∧
    file_written (Machine.sb s) (log_start (log s)) (v_data w) x off bytes (v_data w') x'.
Proof.
  intros Hpat Ht Hdev [Hip Hl Hall Hoff Hsize Hmax Hfree Hroom].
  destruct (writei_grow (Machine.sb s) (log_start (log s)) (IBLOCK (i_inum x) (Machine.sb s)) pr q dev Hpat (v_data w) x ip off bytes
    Hdev Hoff Hsize Hmax w s) as (w' & s' & x1 & v1 & E & Ht' & Hit & Hsd & Hpos & Hfi & Hv); try done.
  exists w', s', (grown off bytes x1). rewrite Hv. split_and!; try done. by apply filled_written.
Qed.

(** C15: writei() inside a transaction, from a kernel buffer, allocating the
    direct blocks, the indirect block and its entries that the file needs.  It
    returns the number of bytes; the file has the new bytes in place of the old
    ones from the offset on, and is longer when they go past its end; the
    in-core inode and its copy in the inode block agree; the file keeps the
    blocks it had, the ones it got were free, and the blocks in use are those
    from before and the file's; no other block but the bitmap's, and no other
    inode of the inode's block, changes; nothing is written to the disk before
    the commit; and the file and the bitmap are well formed again. *)
Theorem writei_correct `{Patience} pr q dev w s x ip off bytes :
  (0 < patience)%nat → tx pr q dev w s → i_dev x = dev → growable w s x ip off bytes →
  ∃ w' s' x', writei ip (SVar bytes) off (length bytes) s = Ret (Z.of_nat (length bytes)) s' ∧ tx_ready pr q dev w' s' ∧
    itable s' = <[ip := x']> (itable s) ∧ disk s' = disk s ∧ dwrites s' = dwrites s ∧
    i_size x' = Z.max (i_size x) (off + length bytes) ∧
    file_written (Machine.sb s) (log_start (log s)) (v_data w) x off bytes (v_data w') x'.
Proof.
  intros Hpat Ht Hdev Hga.
  destruct (writei_growable pr q dev w s x ip off bytes Hpat Ht Hdev Hga) as (w' & s' & x' & E & Ht' & Hit & (_ & Hd & Hdw & _) & _ & Hfw).
  exists w', s', x'. split_and!; try done; [by eapply tx_commits|]. rewrite (fw_inode _ _ _ _ _ _ _ _ Hfw). apply grown_size.
Qed.

(** ** Writes and crashes *)

(** What is read back from a disk that agrees with a view outside the log. *)
Lemma lay_file_at b start v x v' inum :
  lay b start (IBLOCK inum b) v x → i_size x ≤ MAXFILE * BSIZE → (∀ p, 0 ≤ p < i_size x → blk v x (p / BSIZE) ≠ 0) →
  (∀ m, ¬ in_log start m → v' m = v m) → dinode_get (v (IBLOCK inum b)) (dinode_off inum) inode0 = with_dinode x inode0 →
  file_at b v' inum = file_bytes v x 0 (i_size x).
Proof.
  intros Hl Hsz Hall Hv Hx. assert (MAXFILE = 268 ∧ Z.of_nat NDIRECT = 12) as [EM EN] by done.
  set (nb := (i_size x + (BSIZE - 1)) / BSIZE).
  assert (∀ bn, 0 ≤ bn < nb → bn < MAXFILE ∧ blk v x bn ≠ 0) as Hb.
  { intros bn Hbn. rewrite <-(Z.div_mul bn BSIZE ltac:(done)) at 2. split; [|apply Hall]; unfold nb, BSIZE in *; Z.to_euclidean_division_equations; lia. }
  apply (file_at_ext b v v' x nb start inum); try done.
  - intros bn Hbn. destruct (Hb bn Hbn) as [H1 H2]. rewrite blk_file_addr by (done || lia). apply (la_blk _ _ _ _ _ Hl); [lia|done].
  - intros Hn. destruct (Hb NDIRECT ltac:(lia)) as [_ H2]. rewrite blk_entry in H2 by lia.
    apply (us_log _ _ _ _ _ (lay_ind _ _ _ v x Hl ltac:(intros E; by rewrite E in H2))).
  - apply (la_ib_log _ _ _ _ _ Hl).
  - unfold nb, BSIZE. Z.to_euclidean_division_equations. lia.
Qed.

(** C2: a write is atomic across crashes.  In a new transaction, with the
    in-core inode as on the disk, writei(), which allocates the blocks the file
    needs, and then commit() write a sequence of blocks; when the machine stops
    after any number [k] of these writes, recover_from_log() of the next boot
    leaves a disk on which the file reads back either exactly as before the
    write or exactly as after it, and as after it when the commit got past the
    header; and the free bitmap is the one from before or the one from after
    along with it. *)
Theorem write_crash_atomic `{Patience} pr q dev w s x ip off bytes :
  let b := Machine.sb s in
  let old := file_bytes (v_data w) x 0 (i_size x) in
  (0 < patience)%nat → tx pr q dev w s → i_dev x = dev → growable w s x ip off bytes → lh_n (log_lh (log s)) = 0 →
  dinode_get (v_data w (IBLOCK (i_inum x) b)) (dinode_off (i_inum x)) inode0 = with_dinode x inode0 →
  file_at b (block_at (disk s)) (i_inum x) = old ∧
  ∃ s1 s2 ws, writei ip (SVar bytes) off (length bytes) s = Ret (Z.of_nat (length bytes)) s1 ∧ commit s1 = Ret () s2 ∧
    dwrites s2 = dwrites s ++ ws ∧
    file_at b (block_at (disk s2)) (i_inum x) = overwritten old off bytes ∧
    ∀ k pr' q' t, booted pr' q' dev (log_start (log s)) (disk_after (take k ws) (disk s)) t →
      ∃ t', recover_from_log t = Ret () t' ∧
        let before := decide (k ≤ lh_n (log_lh (log s1))) in
        file_at b (block_at (disk t')) (i_inum x) = (if before then old else overwritten old off bytes) ∧
        ∀ n, 0 ≤ n < sb_size b → in_use b (block_at (disk t')) n = in_use b (block_at (disk (if before then s else s2))) n.
Proof.
  intros b old Hpat Ht Hdev Hga Hn0 Hx. pose proof Hga as [_ Hl Hall Hoff Hsize Hmax _ _]. set (start := log_start (log s)) in *.
  destruct (writei_growable pr q dev w s x ip off bytes Hpat Ht Hdev Hga) as (w' & s1 & x' & E1 & Ht' & _ & (_ & Hd1 & Hdw1 & _ & Hls) & Hpos & Hfw).
  fold b start in Hl, Hfw, Hls.
  destruct (commit_crash_spec pr q dev w' s1 Hpat ltac:(by eapply tx_commits) Hpos) as (s2 & ws & E2 & Hw2 & _ & _ & _ & Hdisk & Hcrash).
  rewrite Hls, Hd1 in Hcrash. rewrite Hls in Hdisk. rewrite Hdw1 in Hw2.
  assert (∀ v', (∀ m, ¬ in_log start m → v' m = v_data w m) → file_at b v' (i_inum x) = old) as Hold
    by (intros v' Hv; by apply (lay_file_at b start)).
  assert (∀ v', (∀ m, ¬ in_log start m → v' m = v_data w' m) → file_at b v' (i_inum x) = overwritten old off bytes) as Hnew.
  { intros v' Hv. unfold old. rewrite <-(fw_bytes _ _ _ _ _ _ _ _ Hfw). apply (lay_file_at b start); [apply Hfw| |apply Hfw|done|apply Hfw].
    rewrite (fw_inode _ _ _ _ _ _ _ _ Hfw). cbn. pose proof (grown_size x off bytes). lia. }
  assert (∀ m, block_at (disk s) m = v_data w m) as Hclean.
  { intros m. symmetry. apply (tx_clean pr q dev w s); [by eapply tx_commits|]. lia. }
  assert (∀ n, 0 ≤ n < sb_size b → ¬ in_log start (BBLOCK n b)) as Hbm by (apply (bm_log _ _ _ (la_bm _ _ _ _ _ Hl))).
  split; [apply Hold; intros m _; apply Hclean|]. exists s1, s2, ws. split_and!; try done; [by apply Hnew|].
  intros k pr' q' t Hb. destruct (Hcrash k pr' q' t Hb) as (t' & E & Hm). exists t'. split; [done|]. cbn zeta. case_decide; split.
  - apply Hold. intros m Hnl. by rewrite Hm.
  - intros n Hn. apply in_use_ext. rewrite Hm, Hclean by (by apply Hbm). done.
  - apply Hnew. intros m Hnl. by rewrite Hm.
  - intros n Hn. apply in_use_ext. rewrite Hm, Hdisk by (by apply Hbm). done.
Qed.

(** ** Witnesses: a file of two blocks that gets a third *)

#[local] Instance ex_patience : Patience := 1%nat.

Definition ex_gdisk : gmap Z (list Z) := <[46 := replicate 6 255 ++ [15] ++ replicate 1017 0]> ex_wdisk.
Definition ex_glog : kernel := ex_wlog <| disk := ex_gdisk |>.
Definition ex_gview : view := mkView (block_at ex_gdisk) ∅ ∅.
Definition ex_gbytes : list Z := replicate 1000 67.

Lemma ex_gtx : tx 0 ex_fs_proc 1 ex_gview ex_glog.
Proof.
  split; try done.
  - split; [by split|]. by apply (boot_bio _ _ ex_glog).
  - split; try done. intros i Hi. cbn in Hi. lia.
  - constructor.
Qed.

Lemma ex_guse n : 0 ≤ n < 1000 → in_use ex_wsb (block_at ex_gdisk) n = (n <? 52).
Proof.
  intros Hn. assert (forallb (λ n, eqb (in_use ex_wsb (block_at ex_gdisk) n) (n <? 52)) (seqZ 0 1000) = true) as Hall by (vm_compute; reflexivity).
  rewrite forallb_forall in Hall. apply eqb_prop, Hall, list_elem_of_In, elem_of_seqZ. lia.
Qed.

Lemma ex_gblk k : 0 ≤ k ≤ MAXFILE → blk (block_at ex_gdisk) ex_inode k = if k <? 2 then 50 + k else 0.
Proof.
  intros Hk. assert (forallb (λ k, blk (block_at ex_gdisk) ex_inode k =? (if k <? 2 then 50 + k else 0)) (seqZ 0 269) = true) as Hall by (vm_compute; reflexivity).
  rewrite forallb_forall in Hall. apply Z.eqb_eq, Hall, list_elem_of_In, elem_of_seqZ. assert (MAXFILE = 268) by done. lia.
Qed.

Lemma ex_glay : lay ex_wsb 2 45 (block_at ex_gdisk) ex_inode.
Proof.
  assert (∀ a, ¬ in_log 2 a ↔ a < 2 ∨ 32 ≤ a) as Hlog by (intros a; unfold in_log, LOGSIZE, MAXOPBLOCKS; lia). split.
  - split; [done|done|..]; change (sb_size ex_wsb) with 1000.
    + intros n Hn. rewrite ex_BBLOCK by done. vm_compute. reflexivity.
    + intros n Hn. rewrite ex_BBLOCK by done. rewrite Hlog. lia.
    + intros n Hn. rewrite ex_guse by done. intros Hf%Z.ltb_ge. rewrite Hlog. split; [lia|]. intros m Hm. rewrite ex_BBLOCK by done. lia.
  - rewrite ex_guse by done. done.
  - apply ex_inode_ok.
  - intros k Hk. rewrite ex_gblk by done. destruct (Z.ltb_spec k 2); [|done]. intros _. assert (k = 0 ∨ k = 1) as [-> | ->] by lia.
    all: split; [done|rewrite ex_guse by done; done|rewrite Hlog; lia|done|intros m Hm; rewrite ex_BBLOCK by done; lia|vm_compute; reflexivity].
  - intros k k' Hk Hk'. rewrite !ex_gblk by done. destruct (Z.ltb_spec k 2), (Z.ltb_spec k' 2); lia.
  - done.
  - rewrite ex_guse by done. done.
  - rewrite Hlog. lia.
  - intros m Hm. rewrite ex_BBLOCK by done. lia.
  - vm_compute. reflexivity.
Qed.

Lemma ex_growable : growable ex_gview ex_glog ex_inode 0 1100 ex_gbytes.
Proof.
  split.
  - reflexivity.
  - apply ex_glay.
  - intros p Hp. change (i_size ex_inode) with 1100 in Hp. change (v_data ex_gview) with (block_at ex_gdisk). unfold BSIZE.
    assert (0 ≤ p / 1024 < 2) by (Z.to_euclidean_division_equations; lia). rewrite ex_gblk by (assert (MAXFILE = 268) by done; lia).
    rewrite (proj2 (Z.ltb_lt _ _)) by lia. lia.
  - cbn. lia.
  - done.
  - apply Z.leb_le. vm_compute. reflexivity.
  - intros _. apply Z.leb_le. vm_compute. reflexivity.
  - apply Z.ltb_lt. vm_compute. reflexivity.
Qed.

Lemma ex_grown : overwritten (file_bytes (block_at ex_gdisk) ex_inode 0 1100) 1100 ex_gbytes = replicate 1024 65 ++ replicate 76 66 ++ ex_gbytes.
Proof. vm_compute. reflexivity. Qed.

Lemma writei_correct_witness :
  ∃ w' s' x', @writei 1%nat 0 (SVar ex_gbytes) 1100 1000 ex_glog = Ret 1000 s' ∧ disk s' = ex_gdisk ∧ i_size x' = 2100 ∧
    file_bytes (v_data w') x' 0 (i_size x') = replicate 1024 65 ++ replicate 76 66 ++ ex_gbytes.
Proof.
  destruct (@writei_correct 1%nat 0%nat ex_fs_proc 1 ex_gview ex_glog ex_inode 0 1100 ex_gbytes)
    as (w' & s' & x' & E & _ & _ & Hd & _ & Hsz & Hfw); [unfold patience; lia|apply ex_gtx|reflexivity|apply ex_growable|].
  exists w', s', x'. split; [exact E|]. split; [exact Hd|]. split; [exact Hsz|]. rewrite <-ex_grown. apply Hfw.
Defined.

Lemma write_crash_atomic_witness :
  ∃ s1 s2, @writei 1%nat 0 (SVar ex_gbytes) 1100 1000 ex_glog = Ret 1000 s1 ∧ @commit 1%nat s1 = Ret () s2 ∧
    file_at ex_wsb (block_at (disk s2)) 3 = replicate 1024 65 ++ replicate 76 66 ++ ex_gbytes.
Proof.
  destruct (@write_crash_atomic 1%nat 0%nat ex_fs_proc 1 ex_gview ex_glog ex_inode 0 1100 ex_gbytes)
    as (_ & s1 & s2 & ws & E1 & E2 & _ & Hf & _);
    [unfold patience; lia|apply ex_gtx|reflexivity|apply ex_growable|reflexivity|vm_compute; reflexivity|].
  exists s1, s2. split; [exact E1|]. split; [exact E2|]. rewrite <-ex_grown. exact Hf.
Defined.
