(* ===== verification/FsLink.v ===== *)
(** * Linking a name into a directory

    dirlink() puts an entry into the first free slot of a directory, or at its
    end, with a search by dirlookup(), a scan by readi() and a write by
    writei().  Afterwards dirlookup() finds the name and every other name as
    before. *)

From Stdlib Require Import ZArith Lia.
From stdpp Require Import base numbers strings option list gmap.
From S2P Require Import Prelude Params Machine Cstring Kalloc Sched SchedFacts Uart Console Sleeplock Bio BioFacts Log LogFacts Fs FsFacts FsDir FsWrite VmExample.

Open Scope Z_scope.

(** ** Names and entries *)

Lemma strncpy_fill n : ∀ s t,
  length s = n → (0 ∈ t ∨ (n ≤ length t)%nat) →
  strncpy s t n = Some (take n (cstr t) ++ replicate (n - length (take n (cstr t))) 0).
Proof.
  induction n as [|n IH]; intros s t Hs Ht; [by destruct s|].
  destruct s as [|a s]; [done|]. injection Hs as Hs.
  destruct t as [|c t]; [destruct Ht as [Ht|Ht]; [by apply not_elem_of_nil in Ht|cbn in Ht; lia]|].
  cbn [strncpy cstr]. destruct (Z.eqb_spec c 0) as [->|Hc].
  - rewrite zero_fill_eq by lia. rewrite drop_ge, app_nil_r by lia. done.
  - rewrite IH; [done|done|]. destruct Ht as [Ht|Ht]; [left|right; cbn in Ht; lia]. by apply elem_of_cons in Ht as [E|Ht].
Qed.

(** The entry dirlink() writes. *)
Definition entry_name (name : list Z) : list Z :=
  take DIRSIZ (cstr name) ++ replicate (DIRSIZ - length (take DIRSIZ (cstr name))) 0.

Lemma length_entry_name name : length (entry_name name) = DIRSIZ.
Proof. unfold entry_name. rewrite length_app, length_replicate, length_take. lia. Qed.

Lemma entry_name_same name : same_name name (entry_name name).
Proof.
  unfold same_name, entry_name. set (p := take DIRSIZ (cstr name)).
  assert (Forall (λ c, c ≠ 0) p) as Hp by (apply Forall_take, cstr_no_nul).
  assert (length p ≤ DIRSIZ)%nat as Hl by (unfold p; rewrite length_take; lia).
  destruct (DIRSIZ - length p)%nat as [|m]; cbn [replicate].
  - rewrite app_nil_r, cstr_app_full by done. by rewrite take_ge.
  - rewrite cstr_app_nul by done. by rewrite take_ge.
Qed.

Lemma dirent_of_bytes d : 0 ≤ d_inum d < 2 ^ 16 → dirent_of (dirent_bytes d) = d.
Proof.
  intros Hd. destruct d as [i nm]. cbn in Hd. unfold dirent_of, dirent_bytes, half_at, half_bytes. cbn [d_inum d_name app lookup list_lookup default from_option id drop].
  f_equal. Z.to_euclidean_division_equations. lia.
Qed.

Lemma dir_entries_app (a b : list Z) j :
  length a = (16 * j)%nat → dir_entries (a ++ b) = dir_entries a ++ dir_entries b.
Proof.
  intros Ha. unfold dir_entries. rewrite length_app, Ha. replace (16 * j + length b)%nat with (length b + j * 16)%nat by lia.
  rewrite Nat.div_add by lia. rewrite (Nat.mul_comm 16 j), Nat.div_mul by lia. rewrite (Nat.add_comm _ j), seq_app, fmap_app. f_equal.
  - apply list_fmap_ext. intros i k [-> Hi]%lookup_seq. cbn. rewrite drop_app_le by lia. rewrite take_app_le; [done|]. rewrite length_drop. lia.
  - rewrite (Nat.add_comm 0 j), <-(fmap_add_seq j 0), <-list_fmap_compose. apply list_fmap_ext. intros i k _. cbn [compose].
    rewrite drop_app_ge by lia. do 3 f_equal. lia.
Qed.

(** One entry replaced, or one added at the end. *)
Lemma entries_overwritten (old : list Z) (k n : nat) de :
  length old = (16 * n)%nat → (k ≤ n)%nat → 0 ≤ d_inum de < 2 ^ 16 → length (d_name de) = DIRSIZ →
  dir_entries (overwritten old (16 * k) (dirent_bytes de)) =
    take k (dir_entries old) ++ [de] ++ drop (S k) (dir_entries old).
Proof.
  intros Hl Hk Hi Hn. assert (length (dirent_bytes de) = 16%nat) as Hb by (unfold dirent_bytes; rewrite length_app, Hn; done).
  assert (∀ j, (j ≤ n)%nat → length (take (16 * j) old) = (16 * j)%nat) as Ht by (intros j Hj; rewrite length_take; lia).
  assert (∀ j, (j ≤ n)%nat → dir_entries old = dir_entries (take (16 * j) old) ++ dir_entries (drop (16 * j) old)) as Hs.
  { intros j Hj. rewrite <-(dir_entries_app _ _ j) by (by apply Ht). by rewrite take_drop. }
  assert (∀ a j, length a = (16 * j)%nat → length (dir_entries a) = j) as Hle.
  { intros a j Ha. unfold dir_entries. rewrite length_fmap, length_seq, Ha, Nat.mul_comm, Nat.div_mul; lia. }
  unfold overwritten. rewrite Hb. replace (Z.to_nat (16 * k)) with (16 * k)%nat by lia.
  rewrite (dir_entries_app _ _ k), (dir_entries_app _ _ 1) by (done || by apply Ht). f_equal; [|f_equal].
  - rewrite (Hs k Hk), take_app_length'; [done|]. symmetry. apply Hle, Ht, Hk.
  - unfold dir_entries. rewrite Hb. cbn [Nat.div Nat.divmod fst seq fmap list_fmap]. rewrite drop_0, take_ge, dirent_of_bytes by (done || lia). done.
  - destruct (decide (k = n)) as [->|Hkn].
    + rewrite !drop_ge; [done|rewrite (Hle old n Hl); lia|lia].
    + replace (16 * k + 16)%nat with (16 * S k)%nat by lia. rewrite (Hs (S k)) by lia. rewrite drop_app_length'; [done|]. symmetry. apply Hle, Ht. lia.
Qed.

(** The first free slot. *)
Definition free_entry (de : dirent) : Prop := d_inum de = 0.
#[export] Instance free_entry_dec de : Decision (free_entry de).
Proof. unfold free_entry. apply _. Defined.
Definition slot (es : list dirent) : nat := match list_find free_entry es with Some (k, _) => k | None => length es end.

Lemma slot_le es : (slot es ≤ length es)%nat.
Proof. unfold slot. destruct (list_find _ es) as [[k y]|] eqn:E; [|done]. apply list_find_Some in E as (E & _ & _). apply lookup_lt_Some in E. lia. Qed.

(** What is searched for is found in the new slot; the rest is as it was. *)
Lemma find_linked es name de :
  list_find (named name) es = None → named name de →
  list_find (named name) (take (slot es) es ++ [de] ++ drop (S (slot es)) es) = Some (slot es, de).
Proof.
  intros Hnone Hde. pose proof (slot_le es). apply list_find_Some. split; [|split; [done|]].
  - rewrite lookup_app_r by (rewrite length_take; lia). rewrite length_take. replace (slot es - slot es `min` length es)%nat with 0%nat by lia. done.
  - intros j y Hj Hlt. rewrite lookup_app_l in Hj by (rewrite length_take; lia). rewrite lookup_take_lt in Hj by done.
    apply list_find_None in Hnone. by eapply (Forall_lookup_1 _ _ _ _ Hnone).
Qed.

Lemma find_other es name de :
  ¬ named name de →
  list_find (named name) (take (slot es) es ++ [de] ++ drop (S (slot es)) es) = list_find (named name) es.
Proof.
  intros Hde. pose proof (slot_le es). destruct (decide (slot es = length es)) as [E|E].
  - rewrite take_ge, drop_ge, app_nil_r by lia. clear -Hde.
    induction es as [|z es IH]; cbn [app list_find]; [by rewrite decide_False by done|]. case_decide; [done|]. cbn in IH. by rewrite IH.
  - unfold slot in *. destruct (list_find free_entry es) as [[k y]|] eqn:Ef; [|done]. apply list_find_Some in Ef as (Hk & Hy & _).
    assert (¬ named name y) as Hny by (intros [Hi _]; by apply Hi).
    rewrite <-(take_drop_middle es k y Hk) at 3. clear -Hde Hny. generalize (take k es) (drop (S k) es). intros a b.
    induction a as [|z a IH]; cbn [app list_find]; [by rewrite !decide_False by done|]. case_decide; [done|]. cbn in IH. by rewrite IH.
Qed.

Lemma slot_cons de es : slot (de :: es) = if decide (free_entry de) then 0%nat else S (slot es).
Proof. unfold slot. cbn [list_find]. case_decide; [done|]. by destruct (list_find free_entry es) as [[k y]|]. Qed.

(** ** The scan for a free entry *)

Section scan.
Context `{Linker} `{Patience} (pr : nat) (q : proc) (dev : Z) (w : view) (x : inode) (dp : nat).
Context (Hpat : (0 < patience)%nat) (Hown : v_own w = ∅) (Hroom : (size (v_refs w) < NBUF)%nat).
Context (Hrefs : ∀ n, default 0 (v_refs w !! n) + 1 < 2 ^ 32) (Hdev : i_dev x = dev).
Context (n : nat) (Hsize : i_size x = 16 * n) (Hmax : 16 * n < 2 ^ 30).
Context (Hmap : ∀ bn, 0 ≤ bn → bn * BSIZE < i_size x → mapped (v_data w) x bn).

Lemma dirlink_round k s :
  io pr q dev w s → itable s !! dp = Some x → (k < n)%nat →
  ∃ s1, io pr q dev w s1 ∧ io_frame s s1 ∧ disk s1 = disk s ∧ dwrites s1 = dwrites s ∧
    dirlink_body dp (16 * k) s =
      Ret (if decide (free_entry (dirent_of (file_bytes (v_data w) x (16 * k) 16))) then inr (16 * Z.of_nat k) else inl (16 * Z.of_nat (S k))) s1.
Proof using All.
  intros Hio Hdp Hk.
  destruct (readi_spec pr q dev w x dp (16 * k) 16 s Hio Hpat Hown Hroom Hrefs Hdp Hdev) as (s1 & E1 & Hio1 & Hf1 & Hd1 & Hw1); try lia; [done|].
  rewrite (proj2 (Z.ltb_ge (i_size x) (16 * k))), Z.min_l in E1 by lia.
  exists s1. do 4 (split; [done|]). unfold dirlink_body. msimpl. rewrite (geti_eq x) by done. msimpl.
  mif_false by (apply negb_false_iff; lia). change DIRENT_SIZE with 16. rewrite E1. msimpl. cbn [Z.eqb negb]. unfold free_entry.
  destruct (Z.eqb_spec (d_inum (dirent_of (file_bytes (v_data w) x (16 * k) 16))) 0) as [E0|E0]; [by rewrite decide_True by done|].
  rewrite decide_False by done. by replace (16 * Z.of_nat k + 16) with (16 * Z.of_nat (S k)) by lia.
Qed.

Lemma dirlink_scan (fuel : nat) : ∀ k s,
  io pr q dev w s → itable s !! dp = Some x → (k ≤ n)%nat → (n - k < fuel)%nat →
  ∃ s1, io pr q dev w s1 ∧ io_frame s s1 ∧ disk s1 = disk s ∧ dwrites s1 = dwrites s ∧
    loop fuel (dirlink_body dp) (16 * k) s =
      Ret (16 * Z.of_nat (k + slot (drop k (dir_entries (file_bytes (v_data w) x 0 (i_size x)))))) s1.
Proof using All.
  induction fuel as [|fuel IH]; intros k s Hio Hdp Hk Hfu; [lia|].
  pose proof (entries_lookup (v_data w) x n Hsize k) as Hent. set (es := dir_entries _) in *.
  destruct (decide (k < n)%nat) as [Hlt|Hge].
  - destruct (dirlink_round k s Hio Hdp Hlt) as (s1 & Hio1 & Hf1 & Hd1 & Hw1 & E1).
    rewrite (drop_S _ _ _ Hent), slot_cons. set (de := dirent_of _) in *. destruct (decide (free_entry de)) as [Hn|Hn].
    + exists s1. do 4 (split; [done|]). rewrite Nat.add_0_r. by apply loop_exit.
    + rewrite (loop_next _ _ _ _ _ _ E1).
      destruct (IH (S k) s1 Hio1) as (s2 & Hio2 & Hf2 & Hd2 & Hw2 & E2); [by rewrite (io_frame_itable _ _ Hf1)|lia|lia|].
      exists s2. split; [done|]. split; [by eapply io_frame_trans|]. rewrite Hd2, Hw2. do 2 (split; [done|]). rewrite E2.
      by replace (S k + slot (drop (S k) es))%nat with (k + S (slot (drop (S k) es)))%nat by lia.
  - exists s. do 2 (split; [done || apply io_frame_refl|]). do 2 (split; [done|]). rewrite drop_ge.
    + apply loop_exit. unfold dirlink_body. msimpl. rewrite (geti_eq x) by done. msimpl. mif_true by (apply negb_true_iff; lia).
      unfold slot. cbn [list_find length]. by rewrite Nat.add_0_r.
    + apply lookup_ge_None in Hent. lia.
Qed.
End scan.

(** ** dirlink() *)

(** A directory of [n] entries, open and locked, in a transaction with room
    for the directory's block and its inode's. *)
Record linkable (w : view) (s : kernel) (x : inode) (dp : nat) (n : nat) (nb dev : Z) : Prop := {
  lk_inode : itable s !! dp = Some x;
  lk_table : length (itable s) = NINODE;
  lk_dir : i_type x = T_DIR;
  lk_dev : i_dev x = dev;
  lk_size : i_size x = 16 * n;
  lk_ok : dinode_ok x;
  lk_layout : file_layout (v_data w) x nb (IBLOCK (i_inum x) (Machine.sb s)) (log_start (log s));
  lk_room : 16 * (Z.of_nat n + 1) ≤ nb * BSIZE;
  lk_range : 0 ≤ IBLOCK (i_inum x) (Machine.sb s) < 2 ^ 31;
  lk_log : ¬ in_log (log_start (log s)) (IBLOCK (i_inum x) (Machine.sb s));
  lk_block : length (v_data w (IBLOCK (i_inum x) (Machine.sb s))) = 1024%nat;
  lk_space : lh_n (log_lh (log s)) + 2 < log_size (log s);
}.

(** The entries with a new one in the first free slot. *)
Definition linked (es : list dirent) (de : dirent) : list dirent := take (slot es) es ++ [de] ++ drop (S (slot es)) es.
Definition entries (v : Z → list Z) (x : inode) : list dirent := dir_entries (file_bytes v x 0 (i_size x)).

Lemma linkable_writable w s s2 x dp n nb dev k bytes :
  linkable w s x dp n nb dev → io_frame s s2 → (k ≤ n)%nat → length bytes = 16%nat → writable w s2 x dp nb (16 * k) bytes.
Proof.
  intros [] Hf Hk Hb. pose proof (io_frame_log _ _ Hf) as El. pose proof (io_frame_itable _ _ Hf) as Ei.
  assert (Machine.sb s2 = Machine.sb s) as Es by (destruct Hf as [ps ->]; done).
  split; rewrite ?El, ?Ei, ?Es, ?Hb; try done; try lia.
  unfold BSIZE. Z.to_euclidean_division_equations. lia.
Qed.

Lemma layout_bound v x nb ib start : file_layout v x nb ib start → nb ≤ 268.
Proof.
  intros Hfl. destruct (decide (nb ≤ 0)); [lia|]. destruct (mp_range _ _ _ (fl_mapped _ _ _ _ _ Hfl (nb - 1) ltac:(lia))) as [_ Hm].
  change MAXFILE with 268 in Hm. lia.
Qed.

Lemma layout_mapped v x nb ib start bn : file_layout v x nb ib start → i_size x ≤ nb * BSIZE → 0 ≤ bn → bn * BSIZE < i_size x → mapped v x bn.
Proof. intros Hfl Hsz H0 H1. apply (fl_mapped _ _ _ _ _ Hfl). unfold BSIZE in *. lia. Qed.

Lemma length_entries v x (n : nat) : i_size x = 16 * n → length (entries v x) = n.
Proof.
  intros Hs. unfold entries, dir_entries. rewrite length_fmap, length_seq, (length_bytes v x n Hs), Nat.mul_comm, Nat.div_mul; lia.
Qed.

Lemma dirlink_spec `{Linker} `{Patience} pr q dev w s x dp n nb name inum :
  let es := entries (v_data w) x in
  let de := mkDirent inum (entry_name name) in
  let x' := grown (16 * slot es) (dirent_bytes de) x in
  (0 < patience)%nat → tx pr q dev w s → linkable w s x dp n nb dev → is_name name → 0 < inum < 2 ^ 16 →
  list_find (named name) es = None →
  ∃ w' s', dirlink dp name inum s = Ret 0 s' ∧ tx pr q dev w' s' ∧ disk s' = disk s ∧ itable s' = <[dp := x']> (itable s) ∧
    entries (v_data w') x' = linked es de ∧
    file_layout (v_data w') x' nb (IBLOCK (i_inum x) (Machine.sb s)) (log_start (log s)).
Proof.
  intros es de x' Hpat Ht Hlk Hname Hinum Hnone. pose proof Hlk as [Hdp Htab Hdir Hdev Hsz Hok Hfl Hroom _ _ _ _].
  pose proof (layout_bound _ _ _ _ _ Hfl) as Hnb. assert (16 * n < 2 ^ 30) as Hmax by (unfold BSIZE in *; lia).
  assert (∀ bn, 0 ≤ bn → bn * BSIZE < i_size x → mapped (v_data w) x bn) as Hmap by (intros bn; apply (layout_mapped _ _ nb _ _ _ Hfl); lia).
  assert (size (v_refs w) < NBUF)%nat as Hbufs by (by eapply tx_bufs).
  assert (∀ m, default 0 (v_refs w !! m) + 1 < 2 ^ 32) as Hrefs by (intros m; by eapply tx_count).
  pose proof (t_own _ _ _ _ _ Ht) as Hown.
  destruct (dirlookup_spec pr q dev w x dp name n s (t_io _ _ _ _ _ Ht) Hpat Hown Hbufs Hrefs Hdp Htab Hdev Hdir Hname Hsz Hmax Hmap)
    as (s1 & Hio1 & Hf1 & Hd1 & E1). fold (entries (v_data w) x) in E1. fold es in E1. rewrite Hnone in E1.
  destruct (dirlink_scan pr q dev w x dp Hpat Hown Hbufs Hrefs Hdev n Hsz Hmax Hmap (S (S (Z.to_nat (i_size x / DIRENT_SIZE)))) 0 s1 Hio1)
    as (s2 & Hio2 & Hf2 & Hd2 & _ & E2); [by rewrite (io_frame_itable _ _ Hf1)|lia|rewrite Hsz; change DIRENT_SIZE with 16; rewrite Z.mul_comm, Z.div_mul by done; lia|].
  rewrite drop_0 in E2. fold (entries (v_data w) x) in E2. fold es in E2. cbn [Nat.add] in E2.
  pose proof (slot_le es) as Hle. pose proof (length_entries (v_data w) x n Hsz : length es = n) as Hlen. rewrite Hlen in Hle.
  assert (io_frame s s2) as Hf by (by eapply io_frame_trans). assert (length (dirent_bytes de) = 16%nat) as Hb by (unfold dirent_bytes; rewrite length_app; cbn [d_name de]; by rewrite length_entry_name).
  pose proof (linkable_writable w s s2 x dp n nb dev (slot es) (dirent_bytes de) Hlk Hf Hle Hb) as Hwa.
  destruct (writei_file pr q dev w s2 x dp nb (16 * slot es) (dirent_bytes de) Hpat) as (w' & s3 & E3 & Ht3 & Hit & Hd3 & _ & _ & _ & Hbytes & _ & _ & _ & Hfl3);
    [eapply tx_frame; [done|done|done|congruence]|done|done|].
  exists w', s3. split_and!; [|done|congruence|by rewrite Hit, (io_frame_itable _ _ Hf)|..].
  - unfold dirlink. msimpl. rewrite E1. msimpl. rewrite (geti_eq x) by (by rewrite (io_frame_itable _ _ Hf1)). msimpl.
    change (16 * 0%nat) with 0 in E2. rewrite E2. msimpl. rewrite strncpy_fill by (done || by rewrite length_replicate). cbn [default from_option id].
    fold (entry_name name). rewrite u16_small by lia. fold de. rewrite Hb in E3. change DIRENT_SIZE with 16. change (Z.of_nat 16) with 16 in E3. rewrite E3. done.
  - unfold entries. fold x' in Hbytes |- *. rewrite Hbytes. apply (entries_overwritten _ _ n); [apply length_bytes; done|done|cbn; lia|apply length_entry_name].
  - pose proof (io_frame_log _ _ Hf) as El. assert (Machine.sb s2 = Machine.sb s) as Es by (destruct Hf as [ps ->]; done). by rewrite El, Es in Hfl3.
Qed.

(** C16: what dirlink() links dirlookup() finds.  Inside a transaction, in a
    directory without the name, dirlink() returns 0; the directory's entries
    are the old ones with the new entry in the first free slot, or at the end;
    nothing is written to the disk before the commit; dirlookup() of the name
    then returns the linked inode, with the entry's offset, and the search for
    any other name finds what it found before. *)
Theorem dirlink_lookup `{Linker} `{Patience} pr q dev w s x dp n nb name inum :
  let es := entries (v_data w) x in
  let de := mkDirent inum (entry_name name) in
  (0 < patience)%nat → tx pr q dev w s → linkable w s x dp n nb dev → is_name name → 0 < inum < 2 ^ 16 →
  list_find (named name) es = None →
  ∃ w' s' x', dirlink dp name inum s = Ret 0 s' ∧ tx_ready pr q dev w' s' ∧ disk s' = disk s ∧
    itable s' !! dp = Some x' ∧ entries (v_data w') x' = linked es de ∧
    (∀ name', ¬ same_name name' (entry_name name) →
      list_find (named name') (entries (v_data w') x') = list_find (named name') es) ∧
    match iget_table (itable s') dev inum with
    | Some (ip, t) => ∃ s'', dirlookup dp name s' = Ret (Some (ip, 16 * Z.of_nat (slot es))) s'' ∧ itable s'' = t
    | None => ∃ s'', dirlookup dp name s' = Panic "iget: no inodes" s''
    end.
Proof.
  intros es de Hpat Ht Hlk Hname Hinum Hnone.
  destruct (dirlink_spec pr q dev w s x dp n nb name inum Hpat Ht Hlk Hname Hinum Hnone) as (w' & s' & E & Ht' & Hd & Hit & Hen & Hfl').
  fold es de in Hit, Hen, Hfl'. set (x' := grown _ _ x) in *. pose proof Hlk as [Hdp Htab Hdir Hdev Hsz _ Hfl Hroom _ _ _ _].
  pose proof (slot_le es) as Hle. pose proof (length_entries (v_data w) x n Hsz : length es = n) as Hlen. rewrite Hlen in Hle.
  pose proof (layout_bound _ _ _ _ _ Hfl) as Hnb. assert (named name de) as Hde by (split; [cbn; lia|apply entry_name_same]).
  assert (length (dirent_bytes de) = 16%nat) as Hb by (unfold dirent_bytes; rewrite length_app; cbn [d_name de]; by rewrite length_entry_name).
  set (n' := (n `max` S (slot es))%nat). assert (i_size x' = 16 * n') as Hsz' by (unfold x'; rewrite grown_size, Hb; lia).
  assert (i_type x' = T_DIR ∧ i_dev x' = dev) as [Hdir' Hdev'] by (unfold x', grown; by destruct (_ <? _)).
  assert (itable s' !! dp = Some x') as Hdp' by (rewrite Hit; apply list_lookup_insert_eq; by eapply lookup_lt_Some).
  destruct (dirlookup_spec pr q dev w' x' dp name n' s') as (s1 & _ & _ & _ & E1); try done.
  - by eapply t_io.
  - by eapply t_own.
  - by eapply tx_bufs.
  - intros m. by eapply tx_count.
  - by rewrite Hit, length_insert.
  - unfold BSIZE in *. lia.
  - intros bn. apply (layout_mapped _ _ nb _ _ _ Hfl'). lia.
  - exists w', s', x'. split_and!; try done; [by eapply tx_commits| |].
    + intros name' Hne. rewrite Hen. apply find_other. by intros [_ ?].
    + fold (entries (v_data w') x') in E1. rewrite Hen in E1. unfold linked in E1. rewrite (find_linked es name de Hnone Hde) in E1. cbn [d_inum de] in E1.
      destruct (iget_table (itable s') dev inum) as [[ip t]|]; [|done]. eexists. split; [exact E1|done].
Qed.

(** ** A witness: a fourth entry in the directory of FsDir.v *)

#[local] Instance ex_patience : Patience := 1%nat.

Definition ex_ldir : kernel :=
  ex_dir <| Machine.sb := ex_wsb |> <| log := mkLog 2 30 1 0 1 (mkLogheader 0 (replicate 30 0)) |>.
Definition ex_lview : view := mkView (block_at ex_dir_disk) ∅ ∅.

Lemma ex_ltx : tx 0 ex_fs_proc 1 ex_lview ex_ldir.
Proof.
  split; try done.
  - split; [by split|]. by apply (boot_bio _ _ ex_ldir).
  - split; try done. intros i Hi. cbn in Hi. lia.
  - constructor.
Qed.

Lemma ex_linkable : linkable ex_lview ex_ldir ex_dir_inode 0 3 1 1.
Proof.
  assert (∀ bn, 0 ≤ bn < 1 → file_addr (block_at ex_dir_disk) ex_dir_inode bn = 50) as E.
  { intros bn Hbn. assert (bn = 0) as -> by lia. reflexivity. }
  split; try done.
  - split; try done. repeat constructor; done.
  - change (IBLOCK _ _) with 45. cbn [v_data ex_lview]. split.
    + intros bn Hbn. assert (bn = 0) as -> by lia. split; [done|vm_compute; discriminate|done|vm_compute; reflexivity].
    + intros bn b2 Hbn Hb2 _. lia.
    + intros bn Hbn. rewrite (E _ Hbn). done.
    + intros bn Hbn. rewrite (E _ Hbn). done.
    + done.
    + done.
    + intros bn Hbn. rewrite (E _ Hbn). unfold in_log, LOGSIZE, MAXOPBLOCKS. cbn. lia.
  - change (IBLOCK _ _) with 45. unfold in_log, LOGSIZE, MAXOPBLOCKS. cbn. lia.
Qed.

Lemma dirlink_lookup_witness :
  ∃ s', @dirlink ex_linker 1%nat 0 (Uart.str "ls" ++ [0]) 7 ex_ldir = Ret 0 s' ∧
    ∃ x' w', itable s' !! 0%nat = Some x' ∧
      entries (v_data w') x' = entries (block_at ex_dir_disk) ex_dir_inode ++ [mkDirent 7 (resize 14 0 (Uart.str "ls"))].
Proof.
  destruct (@dirlink_lookup ex_linker 1%nat 0%nat ex_fs_proc 1 ex_lview ex_ldir ex_dir_inode 0 3 1 (Uart.str "ls" ++ [0]) 7)
    as (w' & s' & x' & E & _ & _ & Hx & He & _).
  - unfold patience. lia.
  - apply ex_ltx.
  - apply ex_linkable.
  - left. apply elem_of_app. right. by left.
  - lia.
  - vm_compute. reflexivity.
  - exists s'. split; [exact E|]. exists x', w'. split; [exact Hx|]. rewrite He. vm_compute. reflexivity.
Defined.
