(* ===== verification/Pipe.v ===== *)
(** * Pipes (kernel/pipe.c)

    A pipe is a page from kalloc() used as struct pipe; its fields are in the
    store [pipes] under the page's address.  pipealloc() is in [File], which
    it calls. *)

From Stdlib Require Import ZArith Lia.
From stdpp Require Import base numbers strings option list gmap.
From S2P Require Import Prelude Params Machine Cstring Kalloc Vm Sched Uart.

Open Scope Z_scope.

Definition get_pipe (pi : Z) (s : kernel) : pipe := default pipe0 (pipes s !! pi).
Definition set_pipe (pi : Z) (f : pipe → pipe) : K () :=
  modify (λ s, s <| pipes ::= <[pi := f (get_pipe pi s)]> |>).

Section pipe.
Context `{Linker} `{Patience}.

Definition pipeclose (pi : Z) (writable : Z) : K () :=
  acquire (pipe_lock pi);;
  (if negb (writable =? 0) then
     set_pipe pi (λ x, x <| pi_writeopen := 0 |>);;
     wakeup (chan_nread pi)
   else
     set_pipe pi (λ x, x <| pi_readopen := 0 |>);;
     wakeup (chan_nwrite pi));;
  x ← gets (get_pipe pi);
  if (pi_readopen x =? 0) && (pi_writeopen x =? 0) then
    release (pipe_lock pi);;
    kfree pi
  else release (pipe_lock pi).

(** [pi->data[pi->nwrite++ % PIPESIZE] = ch] *)
Definition pipe_put (ch : Z) (x : pipe) : pipe :=
  x <| pi_data ::= <[Z.to_nat (pi_nwrite x mod PIPESIZE) := ch]> |>
    <| pi_nwrite ::= λ w, u32 (w + 1) |>.

(** [ch = pi->data[pi->nread++ % PIPESIZE]] *)
Definition pipe_char (x : pipe) : Z := default 0 (pi_data x !! Z.to_nat (pi_nread x mod PIPESIZE)).
Definition pipe_take (x : pipe) : pipe := x <| pi_nread ::= λ r, u32 (r + 1) |>.

Definition pipe_full (x : pipe) : bool := pi_nwrite x =? u32 (pi_nread x + PIPESIZE).
Definition pipe_empty (x : pipe) : bool := pi_nread x =? pi_nwrite x.

(** One round of pipewrite()'s loop; it ends with [Some i], or with [None] when
    the lock is already released and -1 is returned. *)
Definition pipewrite_body (pi addr n : Z) (pr : nat) (i : Z) : K (Z + option Z) :=
  if negb (i <? n) then mret (inr (Some i))
  else
    x ← gets (get_pipe pi);
    dead ← (if pi_readopen x =? 0 then mret true else k ← killed pr; mret (negb (k =? 0)));
    if dead : bool then
      release (pipe_lock pi);;
      mret (inr None)
    else
      x ← gets (get_pipe pi);
      if pipe_full x then
        wakeup (chan_nread pi);;
        sleep (chan_nwrite pi) (pipe_lock pi);;
        mret (inl i)
      else
        q ← getp pr;
        '(rc, bs) ← copyin (p_pagetable q) (u64 (addr + i)) 1;
        if rc =? -1 then mret (inr (Some i))
        else
          set_pipe pi (pipe_put (default 0 (head bs)));;
          mret (inl (i + 1)).

(** A round writes a byte or sleeps. *)
Definition pipewrite (pi addr n : Z) : K Z :=
  pr ← curproc;
  acquire (pipe_lock pi);;
  r ← loop (S (Z.to_nat n + patience)) (pipewrite_body pi addr n pr) 0;
  match r with
  | None => mret (-1)
  | Some i =>
      wakeup (chan_nread pi);;
      release (pipe_lock pi);;
      mret i
  end.

(** Wait for data: [true] when the reader has been killed, the lock released. *)
Definition piperead_wait (pi : Z) (pr : nat) : K bool :=
  loop patience (λ _ : (),
    x ← gets (get_pipe pi);
    if pipe_empty x && negb (pi_writeopen x =? 0) then
      k ← killed pr;
      if negb (k =? 0) then release (pipe_lock pi);; mret (inr true)
      else sleep (chan_nread pi) (pipe_lock pi);; mret (inl ())
    else mret (inr false)) ().

Definition piperead_step (pi addr : Z) (pr : nat) (i : Z) : K (option Z) :=
  x ← gets (get_pipe pi);
  if pipe_empty x then mret (Some i)
  else
    set_pipe pi pipe_take;;
    q ← getp pr;
    rc ← copyout (p_pagetable q) (u64 (addr + i)) [pipe_char x];
    if rc =? -1 then mret (Some i) else mret None.

Definition piperead (pi addr n : Z) : K Z :=
  pr ← curproc;
  acquire (pipe_lock pi);;
  k ← piperead_wait pi pr;
  if k : bool then mret (-1)
  else
    r ← for_ret (seqZ 0 n) (piperead_step pi addr pr);
    wakeup (chan_nwrite pi);;
    release (pipe_lock pi);;
    mret (default (Z.max 0 n) r).

End pipe.
