(* ===== verification/PipeFacts.v ===== *)
(** * Pipe theorems

    The ring of PIPESIZE bytes with its two free-running 32-bit counters is a
    bounded queue, and pipewrite() and piperead() put into and take from it
    exactly the bytes of the caller's memory. *)

From Stdlib Require Import ZArith Lia.
From stdpp Require Import base numbers strings option list gmap.
From S2P Require Import Prelude Params Machine Cstring Kalloc Vm VmPt VmUser VmCow VmExample Sched SchedFacts Uart Pipe.

Open Scope Z_scope.

(** ** The ring *)

(** The number of bytes in the pipe; the counters wrap, the difference does not. *)
Definition pipe_len (x : pipe) : Z := u32 (pi_nwrite x - pi_nread x).

Definition contents (x : pipe) : list Z := ring_slice PIPESIZE (pi_data x) (pi_nread x) (pipe_len x).

Definition pipe_ok (x : pipe) : Prop :=
  length (pi_data x) = 512%nat ∧ 0 ≤ pi_nread x < 2 ^ 32 ∧ 0 ≤ pi_nwrite x < 2 ^ 32 ∧
  pipe_len x ≤ PIPESIZE.

(** Equations with mod by a constant. *)
Ltac modlia := unfold pipe_len, u32, PIPESIZE in *; Z.to_euclidean_division_equations; lia.

Lemma pipe_len_range x : 0 ≤ pipe_len x < 2 ^ 32.
Proof. apply u32_range. Qed.

Lemma length_contents x : Z.of_nat (length (contents x)) = pipe_len x.
Proof. apply length_ring_slice. apply pipe_len_range. Qed.

Lemma pipe_full_spec x : pipe_ok x → pipe_full x = bool_decide (pipe_len x = PIPESIZE).
Proof.
  intros (_ & Hr & Hw & Hl). unfold pipe_full. destruct (bool_decide_reflect (pipe_len x = PIPESIZE)) as [E|E];
    [apply Z.eqb_eq|apply Z.eqb_neq]; modlia.
Qed.

Lemma pipe_empty_spec x : pipe_ok x → pipe_empty x = bool_decide (pipe_len x = 0).
Proof.
  intros (_ & Hr & Hw & Hl). unfold pipe_empty. destruct (bool_decide_reflect (pipe_len x = 0)) as [E|E];
    [apply Z.eqb_eq|apply Z.eqb_neq]; modlia.
Qed.

Lemma pipe_put_len x c :
  pipe_ok x → pipe_len x < PIPESIZE → pipe_len (pipe_put c x) = pipe_len x + 1.
Proof. intros (_ & Hr & Hw & Hl) Hn. unfold pipe_put, pipe_len in *. cbn. modlia. Qed.

Lemma contents_put x c :
  pipe_ok x → pipe_len x < PIPESIZE →
  pipe_ok (pipe_put c x) ∧ contents (pipe_put c x) = contents x ++ [c].
Proof.
  intros Hx Hn. pose proof (pipe_put_len x c Hx Hn) as Hl'. pose proof Hx as (Hd & Hr & Hw & Hl).
  pose proof (pipe_len_range x) as Hp. split.
  - split; [cbn; by rewrite length_insert|]. split; [exact Hr|]. split; [apply u32_range|lia].
  - unfold contents. rewrite Hl'. rewrite <-(ring_slice_put PIPESIZE (pi_data x) _ _ c) by (rewrite ?Hd; unfold PIPESIZE in *; lia).
    cbn. do 2 f_equal. modlia.
Qed.

Lemma contents_take x :
  pipe_ok x → 0 < pipe_len x →
  pipe_ok (pipe_take x) ∧ contents x = pipe_char x :: contents (pipe_take x).
Proof.
  intros (Hd & Hr & Hw & Hl) Hn.
  assert (pipe_len (pipe_take x) = pipe_len x - 1) as Hl' by (unfold pipe_take, pipe_len in *; cbn; modlia).
  split.
  - split; [exact Hd|]. split; [apply u32_range|]. split; [exact Hw|lia].
  - unfold contents. rewrite Hl'. replace (pipe_len x) with (1 + (pipe_len x - 1)) at 1 by lia.
    rewrite ring_slice_app by lia. cbn [pipe_take pi_nread pi_data set].
    unfold u32. rewrite (ring_slice_wrap PIPESIZE (2 ^ 32)) by (done || by exists (2 ^ 23)).
    change (ring_slice PIPESIZE (pi_data x) (pi_nread x) 1) with [default 0 (pi_data x !! Z.to_nat ((pi_nread x + 0) mod PIPESIZE))].
    by rewrite Z.add_0_r.
Qed.

(** The ring is a bounded queue of bytes, across the wrap of its 32-bit
    counters: full and empty are told apart, putting a byte appends it, taking
    one removes the oldest, and both keep the ring well-formed. *)
Theorem pipe_ring_fifo x c :
  pipe_ok x →
  (pipe_full x = true ↔ Z.of_nat (length (contents x)) = PIPESIZE) ∧
  (pipe_empty x = true ↔ contents x = []) ∧
  (pipe_full x = false → pipe_ok (pipe_put c x) ∧ contents (pipe_put c x) = contents x ++ [c]) ∧
  (pipe_empty x = false → pipe_ok (pipe_take x) ∧ contents x = pipe_char x :: contents (pipe_take x)).
Proof.
  intros Hx. rewrite (pipe_full_spec x Hx), (pipe_empty_spec x Hx), length_contents.
  rewrite !bool_decide_eq_true, !bool_decide_eq_false. pose proof (pipe_len_range x). pose proof Hx as (_ & _ & _ & Hl).
  split_and!.
  - done.
  - pose proof (length_contents x). destruct (contents x); cbn in *; split; intros; first [lia|done].
  - intros. apply contents_put; [done|lia].
  - intros. apply contents_take; [done|lia].
Qed.

(** ** Frames *)

Section pipe.
Context `{Linker}.

(** The invariants only read memory, the allocator's variables and whether its
    lock is held. *)
Lemma vm_inv_cong s s' a lab :
  mem s' = mem s → freelist s' = freelist s → refcnt s' = refcnt s → kmem_lock ∉ held s' →
  vm_inv s a lab → vm_inv s' a lab.
Proof.
  intros Em Ef Er Hl [[[Hk Hf Hn] Hr Hu] _ Hw Hv].
  assert (∀ q, ref_at s' q = ref_at s q) as E by (intros q; unfold ref_at; by rewrite Er).
  split; [split; [split|..]|done|by rewrite Em|done].
  - unfold kmem_list. by rewrite Em, Ef.
  - intros p Hp. rewrite E. by apply Hf.
  - intros p Hp. rewrite E. by apply Hn.
  - intros p Hp. rewrite E. by apply Hr.
  - done.
Qed.

Lemma as_inv_cong s s' a lab um :
  mem s' = mem s → freelist s' = freelist s → refcnt s' = refcnt s → kmem_lock ∉ held s' →
  as_inv s a lab um → as_inv s' a lab um.
Proof.
  intros Em Ef Er Hl [Hv Hm Hf Hc]. split; [by eapply vm_inv_cong|by rewrite Em|by rewrite Em|done].
Qed.

Lemma killed_eq p s q :
  procs s !! p = Some q → proc_lock p ∉ held s → killed p s = Ret (p_killed q) s.
Proof.
  intros Hq Hl. unfold killed. msimpl. mrun (acquire_free _ _ Hl). mrun (getp_eq p _ q) by exact Hq.
  rewrite (release_head _ (held s)) by done. cbn [bindO]. f_equal. same_record s.
Qed.

(** ** pipewrite *)

Section writer.
Context `{Patience} (s : kernel) (a : pool) (lab : tables) (pr : nat) (q : proc) (pi : Z).
Context (Hpr : procs s !! pr = Some q) (Hheld : held s = []) (Hcur : cur s = Some pr) (Halive : p_killed q = 0).

(** The state inside the critical section with pipe [x]. *)
Definition inside (x : pipe) : kernel :=
  s <| held := [pipe_lock pi] |> <| pipes := <[pi := x]> (pipes s) |>.

Lemma get_inside x : get_pipe pi (inside x) = x.
Proof. unfold get_pipe, inside. cbn. by rewrite lookup_insert_eq. Qed.

Lemma set_inside x f : set_pipe pi f (inside x) = Ret () (inside (f x)).
Proof.
  unfold set_pipe, modify. rewrite get_inside. unfold inside. f_equal. cbn.
  by rewrite insert_insert_eq.
Qed.

Lemma killed_inside x : killed pr (inside x) = Ret 0 (inside x).
Proof.
  rewrite (killed_eq pr (inside x) q); [by rewrite Halive|done|].
  cbn. rewrite list_elem_of_singleton. congruence.
Qed.

Lemma copyin_byte x va b :
  vm_inv s a lab → is_root lab (p_pagetable q) → user_pages_ok (mem s) (p_pagetable q) → 0 ≤ va →
  access (mem s) (p_pagetable q) va = Some b →
  copyin (p_pagetable q) va 1 (inside x) = Ret (0, [b]) (inside x).
Proof.
  intros Hvm Hr Hok Hva Hb.
  assert (vm_inv (inside x) a lab) as Hvm'.
  { eapply vm_inv_cong; [..|exact Hvm]; try reflexivity. cbn. rewrite list_elem_of_singleton. congruence. }
  destruct (copyin_spec (inside x) a lab (p_pagetable q) va 1 Hvm' Hr Hok Hva ltac:(lia))
    as (r & bs & E & Hh & [[-> Hlen]|(-> & Hlen & Hn)]).
  - rewrite E. destruct bs as [|c [|]]; cbn in Hlen; try lia.
    specialize (Hh 0%nat c eq_refl). cbn in Hh. rewrite Z.add_0_r in Hh. change (mem (inside x)) with (mem s) in Hh.
    congruence.
  - destruct bs; cbn in Hlen; [|lia]. cbn in Hn. rewrite Z.add_0_r in Hn.
    change (mem (inside x)) with (mem s) in Hn. congruence.
Qed.

Lemma pipewrite_step x addr n i b :
  vm_inv s a lab → is_root lab (p_pagetable q) → user_pages_ok (mem s) (p_pagetable q) →
  0 ≤ addr → addr + n < 2 ^ 64 → 0 ≤ i < n →
  access (mem s) (p_pagetable q) (addr + i) = Some b →
  pipe_ok x → pipe_len x < PIPESIZE → pi_readopen x ≠ 0 →
  pipewrite_body pi addr n pr i (inside x) = Ret (inl (i + 1)) (inside (pipe_put b x)).
Proof.
  intros Hvm Hr Hok Ha Hn Hi Hb Hx Hlen Hro. unfold pipewrite_body. mif_false by (apply negb_false_iff; lia).
  rewrite get_inside. mif_false by (by apply Z.eqb_neq). mrun killed_inside. cbn [negb Z.eqb]. msimpl.
  rewrite get_inside. mif_false by (rewrite pipe_full_spec by done; apply bool_decide_eq_false; lia).
  mrun (getp_eq pr _ q) by exact Hpr. rewrite u64_small by lia.
  mrun (copyin_byte x (addr + i) b Hvm Hr Hok ltac:(lia) Hb). cbn [Z.eqb head option_map default].
  mrun set_inside. reflexivity.
Qed.

Lemma put_all bs : ∀ x,
  pipe_ok x → pipe_len x + length bs ≤ PIPESIZE →
  let x' := foldl (λ x b, pipe_put b x) x bs in
  pipe_ok x' ∧ contents x' = contents x ++ bs ∧
  pi_readopen x' = pi_readopen x ∧ pi_writeopen x' = pi_writeopen x.
Proof.
  induction bs as [|b bs IH]; cbn [foldl length]; intros x Hx Hlen; [by rewrite app_nil_r|].
  destruct (contents_put x b Hx ltac:(lia)) as [Hp Hc].
  assert (pipe_len (pipe_put b x) = pipe_len x + 1) as Hl.
  { pose proof (length_contents (pipe_put b x)) as E. rewrite Hc, length_app in E. cbn in E.
    pose proof (length_contents x). lia. }
  destruct (IH (pipe_put b x) Hp ltac:(lia)) as (H1 & H2 & H3 & H4).
  split; [exact H1|]. split; [by rewrite H2, Hc, <-app_assoc|]. done.
Qed.

Lemma pipewrite_loop (e : nat) addr n bs : ∀ x i,
  vm_inv s a lab → is_root lab (p_pagetable q) → user_pages_ok (mem s) (p_pagetable q) →
  0 ≤ addr → addr + n < 2 ^ 64 → 0 ≤ i → n = i + length bs →
  user_has (mem s) (p_pagetable q) (addr + i) bs →
  pipe_ok x → pipe_len x + length bs ≤ PIPESIZE → pi_readopen x ≠ 0 →
  loop (S (length bs + e)) (pipewrite_body pi addr n pr) i (inside x) =
    Ret (Some n) (inside (foldl (λ x b, pipe_put b x) x bs)).
Proof.
  induction bs as [|b bs IH]; intros x i Hvm Hr Hok Ha Hn Hi En Hu Hx Hlen Hro.
  - apply loop_exit. unfold pipewrite_body. cbn in En.
    mif_true by (apply negb_true_iff; lia). cbn. do 2 f_equal; first [lia | f_equal; lia].
  - cbn [length] in *.
    assert (access (mem s) (p_pagetable q) (addr + i) = Some b) as Hb.
    { specialize (Hu 0%nat b eq_refl). by rewrite Z.add_0_r in Hu. }
    erewrite loop_next by (apply pipewrite_step; eassumption || lia).
    destruct (put_all [b] x Hx ltac:(cbn; lia)) as (Hp & Hc & Hro' & _). cbn [foldl] in *.
    apply IH; try assumption; try lia.
    + intros j y Hy. specialize (Hu (S j) y Hy). rewrite <-Hu. f_equal. lia.
    + pose proof (length_contents (pipe_put b x)) as E. rewrite Hc, length_app in E. cbn in E.
      pose proof (length_contents x). lia.
Qed.

Lemma wakeup_inside chan x :
  length (procs s) = NPROC →
  wakeup chan (inside x) = Ret () (inside x <| procs := imap (woken (Some pr) chan (ticks s)) (procs s) |>).
Proof.
  intros Hl. rewrite <-Hcur. apply (wakeup_spec chan (inside x)); [done|].
  intros p. right. cbn. rewrite list_elem_of_singleton. congruence.
Qed.
End writer.

(** C21: pipewrite() with room for all of the caller's bytes returns their
    number, leaves them, in order, behind what the pipe held, wakes the
    readers, releases the pipe and changes nothing else. *)
Theorem pipewrite_correct `{Patience} s a lab pr q pi x addr bs :
  vm_inv s a lab → is_root lab (p_pagetable q) → user_pages_ok (mem s) (p_pagetable q) →
  cur s = Some pr → procs s !! pr = Some q → length (procs s) = NPROC → held s = [] → p_killed q = 0 →
  pipes s !! pi = Some x → pipe_ok x → pi_readopen x ≠ 0 →
  0 ≤ addr → addr + length bs < 2 ^ 64 → user_has (mem s) (p_pagetable q) addr bs →
  Z.of_nat (length (contents x) + length bs) ≤ PIPESIZE →
  ∃ x', pipewrite pi addr (length bs) s =
      Ret (Z.of_nat (length bs))
        (s <| pipes := <[pi := x']> (pipes s) |>
           <| procs := imap (woken (Some pr) (chan_nread pi) (ticks s)) (procs s) |>) ∧
    pipe_ok x' ∧ contents x' = contents x ++ bs ∧
    pi_readopen x' = pi_readopen x ∧ pi_writeopen x' = pi_writeopen x.
Proof.
  intros Hvm Hr Hok Hc Hp Hlen Hh Hk Hx Hpx Hro Ha Hn Hu Hroom. pose proof (length_contents x).
  destruct (put_all bs x Hpx ltac:(lia)) as (Ho1 & Ho2 & Ho3). set (x' := foldl _ x bs) in *.
  exists x'. split; [|done]. unfold pipewrite. msimpl. mrun (curproc_eq pr) by done.
  mrun acquire_free by (rewrite Hh; apply not_elem_of_nil).
  match goal with |- context [loop _ _ _ ?t] => replace t with (inside s pi x) end.
  2:{ unfold inside. rewrite (insert_id (pipes s)) by done. revert Hh. clear. destruct s; cbn. by intros ->. }
  rewrite Nat2Z.id, (pipewrite_loop s a lab pr q pi Hp Hk patience addr (length bs) bs) by
    (assumption || lia || by rewrite Z.add_0_r).
  fold x'. msimpl. mrun (wakeup_inside s pr pi Hc) by done.
  rewrite (release_head _ []) by reflexivity. cbn [bindO]. f_equal.
  unfold inside. revert Hh. clear. destruct s; cbn. by intros ->.
Qed.

(** ** piperead *)

(** The memory of [s], the rest of [s0]. *)
Definition with_mem (s0 s : kernel) : kernel :=
  s0 <| mem := mem s |> <| freelist := freelist s |> <| refcnt := refcnt s |>.

(** copyout() inside the critical section. *)
Lemma copyout_inside s a lab um pi x root va src :
  as_inv s a lab um → is_root lab root → 0 ≤ va → va + length src ≤ TRAPFRAME →
  ∃ r k s' a' um', copyout root va src (inside s pi x) = Ret r (inside s' pi x) ∧
    as_inv s' a' lab um' ∧ kmem_frame s s' ∧ write_view lab (mem s) (mem s') root va (take k src) ∧
    (r = 0 ∧ k = length src ∨
     r = -1 ∧ (k < length src)%nat ∧ (user_byte (mem s) root (va + k) = None ∨ pool_free a' = [])).
Proof.
  intros Has Hr Hva Htop.
  assert (as_inv (inside s pi x) a lab um) as Has'.
  { eapply as_inv_cong; [..|exact Has]; try reflexivity. cbn. rewrite list_elem_of_singleton. congruence. }
  destruct (copyout_spec _ a lab um root va src Has' Hr Hva Htop) as (r & k & s' & a' & um' & E & Hi & Hf & Hw & Hc).
  exists r, k, (with_mem s s'), a', um'. rewrite E. split.
  { f_equal. unfold kmem_frame in Hf. rewrite Hf. unfold inside, with_mem. clear. by destruct s. }
  split. { eapply as_inv_cong; [..|exact Hi]; try reflexivity. apply (vi_lock _ _ _ (as_vm _ _ _ _ Has)). }
  split; [reflexivity|]. split; [exact Hw|exact Hc].
Qed.

Lemma piperead_step_empty pi addr pr i s x :
  pipe_empty x = true → piperead_step pi addr pr i (inside s pi x) = Ret (Some i) (inside s pi x).
Proof. intros E. unfold piperead_step. msimpl. rewrite get_inside. by mif_true by exact E. Qed.

Lemma piperead_step_spec s a lab um pi x pr q addr i :
  as_inv s a lab um → is_root lab (p_pagetable q) → procs s !! pr = Some q →
  0 ≤ addr + i → addr + i + 1 ≤ TRAPFRAME → pipe_empty x = false →
  ∃ res s' a' um', piperead_step pi addr pr i (inside s pi x) = Ret res (inside s' pi (pipe_take x)) ∧
    as_inv s' a' lab um' ∧ kmem_frame s s' ∧
    (res = None ∧ write_view lab (mem s) (mem s') (p_pagetable q) (addr + i) [pipe_char x] ∨
     res = Some i ∧ same_view lab (mem s) (mem s') ∧
     (user_byte (mem s) (p_pagetable q) (addr + i) = None ∨ pool_free a' = [])).
Proof.
  intros Has Hr Hp Hva Htop He. unfold piperead_step. msimpl. rewrite get_inside. mif_false by exact He.
  mrun set_inside. mrun (getp_eq pr _ q) by exact Hp. rewrite u64_small by (change TRAPFRAME with 274877898752 in Htop; lia).
  destruct (copyout_inside s a lab um pi (pipe_take x) (p_pagetable q) (addr + i) [pipe_char x] Has Hr Hva Htop)
    as (r & k & s' & a' & um' & E & Hi & Hf & Hw & [[-> ->]|(-> & Hk & Hn)]).
  - exists None, s', a', um'. mrun E. split; [done|]. split; [done|]. split; [done|]. by left.
  - exists (Some i), s', a', um'. mrun E. cbn in Hk. assert (k = 0%nat) as -> by lia. rewrite Z.add_0_r in Hn.
    split; [done|]. split; [done|]. split; [done|]. right. split; [done|]. split; [|done].
    intros w va Hw' Hv. rewrite Hw by done. rewrite decide_False by (cbn; lia). done.
Qed.

(** What [r] bytes read out of [k] taken are: all that was asked for and there,
    or all up to the byte that could not be stored, which is lost. *)
Definition read_upto (m : gmap Z Z) (root addr n : Z) (avail : nat) (free' : list Z) (r k : nat) : Prop :=
  k = r ∧ Z.of_nat r = Z.min n avail ∨
  k = S r ∧ (k ≤ avail)%nat ∧ Z.of_nat k ≤ n ∧ (user_byte m root (addr + r) = None ∨ free' = []).

Lemma piperead_loop pi addr pr q lab (m : nat) : ∀ s a um x i,
  as_inv s a lab um → is_root lab (p_pagetable q) → procs s !! pr = Some q →
  0 ≤ addr + i → addr + i + m ≤ TRAPFRAME → pipe_ok x →
  ∃ res r k s' a' um' x', for_ret (seqZ i m) (piperead_step pi addr pr) (inside s pi x) = Ret res (inside s' pi x') ∧
    default (i + m) res = i + Z.of_nat r ∧ as_inv s' a' lab um' ∧ kmem_frame s s' ∧ pipe_ok x' ∧
    contents x' = drop k (contents x) ∧
    write_view lab (mem s) (mem s') (p_pagetable q) (addr + i) (take r (contents x)) ∧
    read_upto (mem s) (p_pagetable q) (addr + i) m (length (contents x)) (pool_free a') r k.
Proof.
  induction m as [|m IH]; intros s a um x i Has Hr Hp Hva Htop Hx.
  { exists None, 0%nat, 0%nat, s, a, um, x. split; [done|]. split; [cbn; lia|]. split; [done|]. split; [by destruct s|].
    split; [done|]. split; [done|]. split; [by apply write_view_nil|]. left. lia. }
  rewrite seqZ_cons by lia. replace (Z.pred (S m)) with (Z.of_nat m) by lia.
  cbn [for_ret]. msimpl. destruct (pipe_empty x) eqn:He.
  { mrun piperead_step_empty by done. exists (Some i), 0%nat, 0%nat, s, a, um, x.
    rewrite pipe_empty_spec, bool_decide_eq_true in He by done. pose proof (length_contents x).
    split; [done|]. split; [cbn; lia|]. split; [done|]. split; [by destruct s|].
    split; [done|]. split; [done|]. split; [by apply write_view_nil|]. left. lia. }
  destruct (piperead_step_spec s a lab um pi x pr q addr i Has Hr Hp Hva ltac:(lia) He)
    as (res & s1 & a1 & um1 & E & Has1 & Hf1 & Hres). mrun E.
  destruct (contents_take x Hx) as [Hx1 Hc].
  { rewrite pipe_empty_spec, bool_decide_eq_false in He by done. pose proof (pipe_len_range x). lia. }
  destruct Hres as [[-> Hw1]|(-> & Hs1 & Hn)].
  2:{ exists (Some i), 0%nat, 1%nat, s1, a1, um1, (pipe_take x).
      split; [done|]. split; [cbn; lia|]. split; [done|]. split; [done|]. split; [done|].
      rewrite Hc. split; [done|]. split; [by apply write_view_nil|]. right. rewrite Z.add_0_r. cbn. repeat split; lia || done. }
  destruct (IH s1 a1 um1 (pipe_take x) (Z.succ i)) as (res & r & k & s2 & a2 & um2 & x2 & E2 & Hd & Has2 & Hf2 & Hx2 & Hc2 & Hw2 & Hu);
    [done|done|by rewrite Hf1|lia|lia|done|].
  exists res, (S r), (S k), s2, a2, um2, x2. replace (addr + Z.succ i) with (addr + i + 1) in * by lia.
  split; [done|]. split; [replace (i + S m) with (Z.succ i + m) by lia; lia|]. split; [done|].
  split; [by eapply kmem_frame_trans|]. split; [done|]. rewrite Hc. split; [done|]. split.
  - by apply (write_view_app lab _ (mem s1) _ _ _ [pipe_char x]).
  - cbn [length]. destruct Hu as [Hu|(Hk & Hk1 & Hk2 & Hu)]; [left; lia|right].
    split; [lia|]. split; [lia|]. split; [lia|]. destruct Hu as [Hu|]; [left|by right].
    rewrite Hw1 in Hu; [|done|split; [apply Z.div_pos; [lia|done]|apply Z.div_lt_upper_bound; [done|]];
      change (PGSIZE * vpn_top) with TRAPFRAME; lia].
    rewrite decide_False in Hu by (cbn; lia). rewrite <-Hu. f_equal. lia.
Qed.

(** C20: piperead() from a pipe with bytes in it, or with no writer left, does not
    sleep.  It returns the number [r] of bytes it stored, which are the oldest
    ones of the pipe, in order, at the caller's address, and it removes [k] bytes.
    Either it stores all that was asked for and there, and [k = r]; or it stops
    at a byte it cannot store, which it removes all the same, so that [k = r + 1]
    and this byte is lost.  It wakes the writers and releases the pipe. *)
Theorem piperead_correct `{Patience} s a lab um pr q pi x addr (n : nat) :
  as_inv s a lab um → is_root lab (p_pagetable q) →
  cur s = Some pr → procs s !! pr = Some q → length (procs s) = NPROC → held s = [] →
  pipes s !! pi = Some x → pipe_ok x → contents x ≠ [] ∨ pi_writeopen x = 0 →
  0 ≤ addr → addr + n ≤ TRAPFRAME → (0 < patience)%nat →
  ∃ (r k : nat) s' a' um' x',
    piperead pi addr n s =
      Ret (Z.of_nat r)
        (s' <| pipes := <[pi := x']> (pipes s) |>
            <| procs := imap (woken (Some pr) (chan_nwrite pi) (ticks s)) (procs s) |>) ∧
    as_inv s' a' lab um' ∧ kmem_frame s s' ∧ pipe_ok x' ∧ contents x' = drop k (contents x) ∧
    write_view lab (mem s) (mem s') (p_pagetable q) addr (take r (contents x)) ∧
    read_upto (mem s) (p_pagetable q) addr n (length (contents x)) (pool_free a') r k.
Proof.
  intros Has Hr Hc Hp Hlen Hh Hx Hpx Hready Ha Hn Hpat.
  destruct (piperead_loop pi addr pr q lab n s a um x 0) as (res & r & k & s2 & a2 & um2 & x2 & E2 & Hd & Has2 & Hf2 & Hx2 & Hc2 & Hw2 & Hu);
    [done|done|done|lia|lia|done|]. rewrite Z.add_0_r in *.
  exists r, k, s2, a2, um2, x2. split; [|done].
  unfold piperead. msimpl. mrun (curproc_eq pr) by done.
  mrun acquire_free by (rewrite Hh; apply not_elem_of_nil).
  match goal with |- context [piperead_wait _ _ ?t] => replace t with (inside s pi x) end.
  2:{ unfold inside. rewrite (insert_id (pipes s)) by done. revert Hh. clear. destruct s; cbn. by intros ->. }
  assert (piperead_wait pi pr (inside s pi x) = Ret false (inside s pi x)) as Ew.
  { unfold piperead_wait. destruct patience as [|f]; [lia|]. apply loop_exit. msimpl. rewrite get_inside.
    assert (pipe_empty x && negb (pi_writeopen x =? 0) = false) as ->; [|done].
    destruct Hready as [Hne| ->]; [|by rewrite andb_false_r].
    rewrite pipe_empty_spec by done. rewrite bool_decide_eq_false_2; [done|].
    pose proof (length_contents x). destruct (contents x); cbn in *; [done|lia]. }
  mrun Ew. mrun E2. mrun (wakeup_inside s2 pr pi).
  - rewrite (release_head _ []) by reflexivity. cbn [bindO]. replace (Z.max 0 n) with (0 + Z.of_nat n) by lia. rewrite Hd. f_equal.
    rewrite Hf2. unfold inside. revert Hh. clear. destruct s; cbn. by intros ->.
  - by rewrite Hf2.
  - by rewrite Hf2.
Qed.

End pipe.

(** ** Witnesses *)

(** Process 0 of the example machine, with three bytes in the pipe at [W 4];
    both counters are about to wrap. *)
Definition ex_pipe : pipe :=
  foldl (λ x b, pipe_put b x) (mkPipe (replicate 512 0) (2 ^ 32 - 2) (2 ^ 32 - 2) 1 1) [1; 2; 3].

Definition ex_proc : proc := proc0 <| p_state := RUNNING |> <| p_pagetable := W 0 |>.

Definition ex_piped : kernel :=
  ex_kernel <| cur := Some 0%nat |> <| procs := <[0%nat := ex_proc]> (replicate NPROC proc0) |>
    <| pipes := {[W 4 := ex_pipe]} |>.

#[local] Instance ex_patience : Patience := 1%nat.

Lemma ex_pipe_ok : pipe_ok ex_pipe.
Proof. repeat split; vm_compute; try done; discriminate. Qed.

Lemma ex_piped_inv : as_inv ex_piped ex_pool ex_lab ex_um.
Proof. eapply as_inv_cong; [..|apply ex_inv]; try reflexivity. apply not_elem_of_nil. Qed.

Lemma pipe_ring_fifo_witness : contents ex_pipe = [1; 2; 3] ∧ contents (pipe_put 4 ex_pipe) = [1; 2; 3; 4].
Proof.
  split; [vm_compute; reflexivity|].
  destruct (pipe_ring_fifo ex_pipe 4 ex_pipe_ok) as (_ & _ & Hput & _).
  destruct (Hput ltac:(vm_compute; reflexivity)) as [_ ->]. vm_compute. reflexivity.
Defined.

Lemma pipewrite_correct_witness :
  ∃ x' s', pipewrite (W 4) 1 4 ex_piped = Ret 4 s' ∧ pipes s' !! W 4 = Some x' ∧
    contents x' = [1; 2; 3] ++ [101; 108; 108; 111].
Proof.
  destruct (pipewrite_correct ex_piped ex_pool ex_lab 0%nat ex_proc (W 4) ex_pipe 1
    [101; 108; 108; 111]) as (x' & E & _ & Hc & _);
    [apply (as_vm _ _ _ _ ex_piped_inv)|apply ex_root0|apply ex_user_ok, ex_root0|done|done|done|done|done|done
    |apply ex_pipe_ok|done|done|done| |vm_compute; discriminate|].
  - intros [|[|[|[|i]]]] y; cbn; try done; intros [= <-]; vm_compute; reflexivity.
  - exists x'. eexists. split; [exact E|]. split; [by cbn; rewrite lookup_insert_eq|]. exact Hc.
Defined.

Lemma piperead_correct_witness :
  ∃ (r k : nat) s' x', piperead (W 4) 8 2%nat ex_piped = Ret (Z.of_nat r) s' ∧
    pipes s' !! W 4 = Some x' ∧ contents x' = drop k [1; 2; 3].
Proof.
  destruct (piperead_correct ex_piped ex_pool ex_lab ex_um 0%nat ex_proc (W 4) ex_pipe 8 2%nat)
    as (r & k & s' & a' & um' & x' & E & _ & _ & _ & Hc & _);
    [apply ex_piped_inv|apply ex_root0|done|done|done|done|done|apply ex_pipe_ok|by left|done|done|unfold patience, ex_patience; lia|].
  exists r, k. eexists. exists x'. split; [exact E|]. split; [by cbn; rewrite lookup_insert_eq|]. exact Hc.
Defined.
