(* ===== verification/File.v ===== *)
(** * Open files (kernel/file.c) and pipealloc() of kernel/pipe.c *)

From Stdlib Require Import ZArith Lia.
From stdpp Require Import base numbers strings option list gmap.
From S2P Require Import Prelude Params Machine Cstring Kalloc Vm Sched Uart Console Sleeplock Bio Log Fs Pipe.

Open Scope Z_scope.

Definition getf (f : nat) : K file := gets (λ s, default file0 (ftable s !! f)).
Definition setf (f : nat) (g : file → file) : K () := modify (λ s, s <| ftable ::= alter g f |>).

(** The bytes of struct stat; the four bytes of padding before [size] are 0. *)
Definition stat_bytes (x : stat) : list Z :=
  word_bytes (u32 (st_dev x)) ++ word_bytes (st_ino x) ++ half_bytes (u16 (st_type x)) ++
  half_bytes (u16 (st_nlink x)) ++ replicate 4 0 ++
  word_bytes (st_size x) ++ word_bytes (st_size x / 2 ^ 32).

Section file.
Context `{Linker} `{Patience}.

Definition filealloc_step (f : nat) : K (option nat) :=
  x ← getf f;
  if f_ref x =? 0 then
    setf f (λ x, x <| f_ref := 1 |>);;
    release ftable_lock;;
    mret (Some f)
  else mret None.

Definition filealloc : K (option nat) :=
  acquire ftable_lock;;
  r ← for_ret (seq 0 NFILE) filealloc_step;
  match r with
  | Some f => mret (Some f)
  | None => release ftable_lock;; mret None
  end.

Definition filedup (f : nat) : K nat :=
  acquire ftable_lock;;
  x ← getf f;
  if f_ref x <? 1 then panic "filedup"
  else
    setf f (λ x, x <| f_ref ::= λ r, i32 (r + 1) |>);;
    release ftable_lock;;
    mret f.

Definition fileclose (f : nat) : K () :=
  acquire ftable_lock;;
  x ← getf f;
  if f_ref x <? 1 then panic "fileclose"
  else
    setf f (λ x, x <| f_ref ::= λ r, i32 (r - 1) |>);;
    ff ← getf f;
    if 0 <? f_ref ff then release ftable_lock
    else
      setf f (λ x, x <| f_ref := 0 |>);;
      setf f (λ x, x <| f_type := FD_NONE |>);;
      release ftable_lock;;
      match f_type ff with
      | FD_PIPE => pipeclose (f_pipe ff) (f_writable ff)
      | FD_INODE | FD_DEVICE =>
          match f_ip ff with
          | Some ip => begin_op;; iput ip;; end_op
          | None => null_deref
          end
      | FD_NONE => mret ()
      end.

Definition filestat (f : nat) (addr : Z) : K Z :=
  p ← curproc;
  x ← getf f;
  match f_type x with
  | FD_INODE | FD_DEVICE =>
      ilock (f_ip x);;
      st ← (match f_ip x with Some ip => stati ip | None => null_deref end);
      iunlock (f_ip x);;
      q ← getp p;
      rc ← copyout (p_pagetable q) addr (stat_bytes st);
      mret (if rc <? 0 then -1 else 0)
  | _ => mret (-1)
  end.

(** The console is the only device whose functions are ever filled in. *)
Definition dev_ok (major : Z) : K bool :=
  d ← gets devsw;
  mret (negb ((major <? 0) || (NDEV <=? major)) && default false (d !! Z.to_nat major)).

Definition fileread (f : nat) (addr n : Z) : K Z :=
  x ← getf f;
  if f_readable x =? 0 then mret (-1)
  else
    match f_type x with
    | FD_PIPE => piperead (f_pipe x) addr n
    | FD_DEVICE =>
        ok ← dev_ok (f_major x);
        if negb ok then mret (-1) else consoleread (DUser addr) n
    | FD_INODE =>
        match f_ip x with
        | Some ip =>
            ilock (Some ip);;
            x ← getf f;
            '(r, _) ← readi ip (DUser addr) (f_off x) (u32 n);
            when (0 <? r) (setf f (λ x, x <| f_off ::= λ o, u32 (o + r) |>));;
            iunlock (Some ip);;
            mret r
        | None => panic "ilock"
        end
    | FD_NONE => panic "fileread"
    end.

(** Three blocks of data fit in one transaction. *)
Definition write_max : Z := (MAXOPBLOCKS - 1 - 1 - 2) / 2 * BSIZE.

Definition filewrite_body (f ip : nat) (addr n : Z) (i : Z) : K (Z + Z) :=
  if negb (i <? n) then mret (inr i)
  else
    let n1 := if write_max <? n - i then write_max else n - i in
    begin_op;;
    ilock (Some ip);;
    x ← getf f;
    r ← writei ip (SUser (u64 (addr + i))) (f_off x) (u32 n1);
    when (0 <? r) (setf f (λ x, x <| f_off ::= λ o, u32 (o + r) |>));;
    iunlock (Some ip);;
    end_op;;
    if negb (r =? n1) then mret (inr i) else mret (inl (i + r)).

Definition filewrite (f : nat) (addr n : Z) : K Z :=
  x ← getf f;
  if f_writable x =? 0 then mret (-1)
  else
    match f_type x with
    | FD_PIPE => pipewrite (f_pipe x) addr n
    | FD_DEVICE =>
        ok ← dev_ok (f_major x);
        if negb ok then mret (-1) else consolewrite (SUser addr) n
    | FD_INODE =>
        match f_ip x with
        | Some ip =>
            i ← loop (S (S (Z.to_nat (n / write_max)))) (filewrite_body f ip addr n) 0;
            mret (if i =? n then n else -1)
        | None => panic "ilock"
        end
    | FD_NONE => panic "filewrite"
    end.

(** [goto bad] of pipealloc(): at most one file has been allocated when there is
    no pipe, both when kalloc() failed. *)
Definition pipealloc : K (Z * option nat * option nat) :=
  f0 ← filealloc;
  f1 ← (match f0 with Some _ => filealloc | None => mret None end);
  pi ← (match f1 with Some _ => kalloc | None => mret 0 end);
  match f0, f1 with
  | Some r, Some w =>
      if pi =? 0 then
        fileclose r;;
        fileclose w;;
        mret (-1, f0, f1)
      else
        set_pipe pi (λ x, x <| pi_readopen := 1 |>);;
        set_pipe pi (λ x, x <| pi_writeopen := 1 |>);;
        set_pipe pi (λ x, x <| pi_nwrite := 0 |>);;
        set_pipe pi (λ x, x <| pi_nread := 0 |>);;
        setf r (λ x, x <| f_type := FD_PIPE |> <| f_readable := 1 |> <| f_writable := 0 |> <| f_pipe := pi |>);;
        setf w (λ x, x <| f_type := FD_PIPE |> <| f_readable := 0 |> <| f_writable := 1 |> <| f_pipe := pi |>);;
        mret (0, f0, f1)
  | Some r, None => fileclose r;; mret (-1, f0, f1)
  | None, _ => mret (-1, None, None)
  end.

End file.
