(* ===== verification/Proc.v ===== *)
(** * Process life cycle (the other half of kernel/proc.c)

    The process table, page tables of processes, fork, exit, wait, waitx and
    the first process; usertrapret() of trap.c, to which forkret() hands over.
    A struct trapframe is kept in [tfs] under its page's address. *)

From Stdlib Require Import ZArith Lia.
From stdpp Require Import base numbers strings option list gmap.
From S2P Require Import Prelude Params Machine Cstring Kalloc Vm Sched Uart Console Sleeplock Bio Log Fs Pipe File.

Open Scope Z_scope.

Definition get_tf (a : Z) (s : kernel) : trapframe := default trapframe0 (tfs s !! a).
Definition set_tf (a : Z) (f : trapframe → trapframe) : K () :=
  modify (λ s, s <| tfs ::= <[a := f (get_tf a s)]> |>).

(** ** The process table *)

Definition procinit : K () :=
  for_each proc_table (λ p,
    setp p (λ q, q <| p_state := UNUSED |>);;
    setp p (λ q, q <| p_kstack := KSTACK p |>)).

Definition cpuid : K Z := gets (λ s, i32 (hartid s)).

Definition allocpid : K Z :=
  acquire pid_lock;;
  pid ← gets nextpid;
  modify (λ s, s <| nextpid := i32 (pid + 1) |>);;
  release pid_lock;;
  mret pid.

Section proc.
Context `{Linker} `{Patience}.

(** ** Page tables *)

Definition proc_pagetable (p : nat) : K Z :=
  pagetable ← uvmcreate;
  if pagetable =? 0 then mret 0
  else
    r ← mappages pagetable TRAMPOLINE PGSIZE trampoline (Z.lor PTE_R PTE_X);
    if r <? 0 then
      uvmfree pagetable 0;;
      mret 0
    else
      q ← getp p;
      r ← mappages pagetable TRAPFRAME PGSIZE (p_trapframe q) (Z.lor PTE_R PTE_W);
      if r <? 0 then
        uvmunmap pagetable TRAMPOLINE 1 false;;
        uvmfree pagetable 0;;
        mret 0
      else mret pagetable.

Definition proc_freepagetable (pagetable sz : Z) : K () :=
  uvmunmap pagetable TRAMPOLINE 1 false;;
  uvmunmap pagetable TRAPFRAME 1 false;;
  uvmfree pagetable sz.

(** ** Allocation *)

Definition freeproc (p : nat) : K () :=
  q ← getp p;
  when (negb (p_trapframe q =? 0)) (kfree (p_trapframe q));;
  setp p (λ q, q <| p_trapframe := 0 |>);;
  when (negb (p_pagetable q =? 0)) (proc_freepagetable (p_pagetable q) (p_sz q));;
  setp p (λ q, q <| p_pagetable := 0 |>);;
  setp p (λ q, q <| p_sz := 0 |>);;
  setp p (λ q, q <| p_pid := 0 |>);;
  setp p (λ q, q <| p_parent := None |>);;
  setp p (λ q, q <| p_name ::= <[0%nat := 0]> |>);;
  setp p (λ q, q <| p_chan := None |>);;
  setp p (λ q, q <| p_killed := 0 |>);;
  setp p (λ q, q <| p_xstate := 0 |>);;
  setp p (λ q, q <| p_state := UNUSED |>);;
  setp p (λ q, q <| p_trace_mask := 0 |>).

(** The fields allocproc() sets at its end. *)
Definition fresh_proc (now : Z) (q : proc) : proc :=
  q <| p_context := mkContext forkret_addr (u64 (p_kstack q + PGSIZE)) (replicate 12 0) |>
    <| p_rtime := 0 |> <| p_etime := 0 |> <| p_ctime := now |>
    <| p_static_priority := 60 |> <| p_when_started_sleeping := 0 |> <| p_sleep_time := 0 |>
    <| p_tickets := 1 |> <| p_queue_id := 0 |> <| p_inqueue := 0 |>
    <| p_state := USED |> <| p_alarm_flag := 0 |>.

(** From the label found: on. *)
Definition allocproc_found (p : nat) : K (option nat) :=
  pid ← allocpid;
  setp p (λ q, q <| p_pid := pid |>);;
  tf ← kalloc;
  setp p (λ q, q <| p_trapframe := tf |>);;
  if tf =? 0 then
    freeproc p;;
    release (proc_lock p);;
    mret None
  else
    pagetable ← proc_pagetable p;
    setp p (λ q, q <| p_pagetable := pagetable |>);;
    if pagetable =? 0 then
      freeproc p;;
      release (proc_lock p);;
      mret None
    else
      t ← gets ticks;
      setp p (fresh_proc t);;
      mret (Some p).

Definition allocproc_scan (p : nat) : K (option nat) :=
  acquire (proc_lock p);;
  q ← getp p;
  if bool_decide (p_state q = UNUSED) then mret (Some p)
  else
    release (proc_lock p);;
    mret None.

Definition allocproc : K (option nat) :=
  r ← for_ret proc_table allocproc_scan;
  match r with
  | None => mret None
  | Some p => allocproc_found p
  end.

(** ** The first process *)

Definition initcode : list Z := [
  0x17; 0x05; 0x00; 0x00; 0x13; 0x05; 0x45; 0x02;
  0x97; 0x05; 0x00; 0x00; 0x93; 0x85; 0x35; 0x02;
  0x93; 0x08; 0x70; 0x00; 0x73; 0x00; 0x00; 0x00;
  0x93; 0x08; 0x20; 0x00; 0x73; 0x00; 0x00; 0x00;
  0xef; 0xf0; 0x9f; 0xff; 0x2f; 0x69; 0x6e; 0x69;
  0x74; 0x00; 0x00; 0x24; 0x00; 0x00; 0x00; 0x00;
  0x00; 0x00; 0x00; 0x00].

(** safestrcpy(q->name, t, sizeof(q->name)) for a NUL-terminated [t]. *)
Definition set_name (t : list Z) (q : proc) : proc :=
  q <| p_name ::= λ n, default n (safestrcpy n t 16) |>.

Definition userinit : K () :=
  r ← allocproc;
  modify (λ s, s <| initproc := r |>);;
  match r with
  | None => null_deref
  | Some p =>
      q ← getp p;
      uvmfirst (p_pagetable q) initcode;;
      setp p (λ q, q <| p_sz := PGSIZE |>);;
      set_tf (p_trapframe q) (λ t, t <| epc := 0 |>);;
      set_tf (p_trapframe q) (λ t, t <| tf_sp := PGSIZE |>);;
      setp p (set_name (str "initcode" ++ [0]));;
      cwd ← namei (str "/");
      setp p (λ q, q <| p_cwd := cwd |>);;
      setp p (λ q, q <| p_state := RUNNABLE |>);;
      release (proc_lock p)
  end.

(** ** growproc, fork *)

Definition growproc (n : Z) : K Z :=
  p ← curproc;
  q ← getp p;
  let sz := p_sz q in
  if 0 <? n then
    sz' ← uvmalloc (p_pagetable q) sz (u64 (sz + n)) PTE_W;
    if sz' =? 0 then mret (-1)
    else setp p (λ q, q <| p_sz := sz' |>);; mret 0
  else if n <? 0 then
    sz' ← uvmdealloc (p_pagetable q) sz (u64 (sz + n));
    setp p (λ q, q <| p_sz := sz' |>);;
    mret 0
  else setp p (λ q, q <| p_sz := sz |>);; mret 0.

(** [if(p->ofile[i]) np->ofile[i] = filedup(p->ofile[i])] *)
Definition fork_file (p np i : nat) : K () :=
  q ← getp p;
  match default None (p_ofile q !! i) with
  | Some f =>
      f ← filedup f;
      setp np (λ x, x <| p_ofile ::= <[i := Some f]> |>)
  | None => mret ()
  end.

Definition fork : K Z :=
  p ← curproc;
  r ← allocproc;
  match r with
  | None => mret (-1)
  | Some np =>
      q ← getp p;
      nq ← getp np;
      r ← uvmcopy (p_pagetable q) (p_pagetable nq) (p_sz q);
      if r <? 0 then
        freeproc np;;
        release (proc_lock np);;
        mret (-1)
      else
        setp np (λ x, x <| p_sz := p_sz q |>);;
        tf ← gets (get_tf (p_trapframe q));
        set_tf (p_trapframe nq) (λ _, tf);;
        setp np (λ x, x <| p_tickets := 1 |>);;
        set_tf (p_trapframe nq) (λ t, t <| tf_a0 := 0 |>);;
        for_each (seq 0 NOFILE) (fork_file p np);;
        q ← getp p;
        cwd ← (match p_cwd q with Some ip => idup ip | None => null_deref end);
        setp np (λ x, x <| p_cwd := Some cwd |>);;
        setp np (set_name (p_name q));;
        nq ← getp np;
        setp np (λ x, x <| p_trace_mask := p_trace_mask q |>);;
        release (proc_lock np);;
        acquire wait_lock;;
        setp np (λ x, x <| p_parent := Some p |>);;
        release wait_lock;;
        acquire (proc_lock np);;
        setp np (λ x, x <| p_state := RUNNABLE |>);;
        release (proc_lock np);;
        mret (p_pid nq)
  end.

(** ** exit *)

(** [wakeup(p)] for a struct proc pointer; nobody sleeps on the null pointer. *)
Definition wakeup_proc (p : option nat) : K () :=
  match p with Some p => wakeup (chan_proc p) | None => mret () end.

Definition reparent (p : nat) : K () :=
  for_each proc_table (λ pp,
    q ← getp pp;
    when (bool_decide (p_parent q = Some p))
      (i ← gets initproc;
       setp pp (λ q, q <| p_parent := i |>);;
       wakeup_proc i)).

Definition close_fd (p fd : nat) : K () :=
  q ← getp p;
  match default None (p_ofile q !! fd) with
  | Some f =>
      fileclose f;;
      setp p (λ q, q <| p_ofile ::= <[fd := None]> |>)
  | None => mret ()
  end.

Definition exit (status : Z) : K () :=
  p ← curproc;
  i ← gets initproc;
  if bool_decide (Some p = i) then panic "init exiting"
  else
    for_each (seq 0 NOFILE) (close_fd p);;
    begin_op;;
    q ← getp p;
    match p_cwd q with Some ip => iput ip | None => null_deref end;;
    end_op;;
    setp p (λ q, q <| p_cwd := None |>);;
    acquire wait_lock;;
    reparent p;;
    q ← getp p;
    wakeup_proc (p_parent q);;
    acquire (proc_lock p);;
    setp p (λ q, q <| p_xstate := status |>);;
    setp p (λ q, q <| p_state := ZOMBIE |>);;
    t ← gets ticks;
    setp p (λ q, q <| p_etime := t |>);;
    release wait_lock;;
    sched;;
    panic "zombie exit".

(** ** wait and waitx *)

(** One slot of the scan; [havekids] is carried, and the scan ends with the
    return value and the (wtime, rtime) of the child that was found. *)
Definition wait_scan (p : nat) (addr : Z) (havekids : bool) (pp : nat) :
    K (bool + Z * (Z * Z)) :=
  c ← getp pp;
  if negb (bool_decide (p_parent c = Some p)) then mret (inl havekids)
  else
    acquire (proc_lock pp);;
    c ← getp pp;
    if bool_decide (p_state c = ZOMBIE) then
      let times := (u32 (p_etime c - p_ctime c - p_rtime c), p_rtime c) in
      q ← getp p;
      r ← (if negb (addr =? 0) then copyout (p_pagetable q) addr (word_bytes (u32 (p_xstate c)))
           else mret 0);
      if r <? 0 then
        release (proc_lock pp);;
        release wait_lock;;
        mret (inr (-1, times))
      else
        freeproc pp;;
        release (proc_lock pp);;
        release wait_lock;;
        mret (inr (p_pid c, times))
    else
      release (proc_lock pp);;
      mret (inl true).

(** The for(;;) of wait() and waitx(); no times are set when it ends without a
    child. *)
Definition wait_body (p : nat) (addr : Z) (_ : ()) : K (() + Z * option (Z * Z)) :=
  r ← for_scan proc_table (wait_scan p addr) false;
  match r with
  | inr (pid, times) => mret (inr (pid, Some times))
  | inl havekids =>
      stop ← (if negb havekids then mret true else k ← killed p; mret (negb (k =? 0)));
      if stop : bool then
        release wait_lock;;
        mret (inr (-1, None))
      else
        sleep (chan_proc p) wait_lock;;
        mret (inl ())
  end.

Definition waitx (addr : Z) : K (Z * option (Z * Z)) :=
  p ← curproc;
  acquire wait_lock;;
  loop patience (wait_body p addr) ().

Definition wait (addr : Z) : K Z :=
  p ← curproc;
  acquire wait_lock;;
  r ← loop patience (wait_body p addr) ();
  mret r.1.

(** ** Return to user space *)

Definition set_csr (f : csrs → csrs) : K () := modify (λ s, s <| csr ::= f |>).

Definition SSTATUS_SPP : Z := Z.shiftl 1 8.
Definition SSTATUS_SPIE : Z := Z.shiftl 1 5.

(** usertrapret() of trap.c; the result is the satp value userret is called
    with in the trampoline. *)
Definition usertrapret : K Z :=
  p ← curproc;
  intr_off;;
  set_csr (λ c, c <| stvec := TRAMPOLINE + uservec_off |>);;
  q ← getp p;
  c ← gets csr;
  set_tf (p_trapframe q) (λ t, t <| kernel_satp := satp c |>);;
  set_tf (p_trapframe q) (λ t, t <| kernel_sp := u64 (p_kstack q + PGSIZE) |>);;
  set_tf (p_trapframe q) (λ t, t <| kernel_trap := usertrap_addr |>);;
  h ← gets hartid;
  set_tf (p_trapframe q) (λ t, t <| kernel_hartid := h |>);;
  set_csr (λ c, c <| sstatus ::= λ x, Z.lor (Z.land x (Z.lnot SSTATUS_SPP)) SSTATUS_SPIE |>);;
  t ← gets (get_tf (p_trapframe q));
  set_csr (λ c, c <| sepc := epc t |>);;
  mret (MAKE_SATP (p_pagetable q)).

Definition forkret : K Z :=
  p ← curproc;
  release (proc_lock p);;
  f ← gets first;
  when (negb (f =? 0))
    (modify (λ s, s <| first := 0 |>);;
     fsinit ROOTDEV);;
  usertrapret.

End proc.
