(* ===== verification/Exec.v ===== *)
(** * Program execution (kernel/exec.c)

    ELF headers are read from the bytes readi() returns, at the offsets of
    elf.h's structs. *)

From Stdlib Require Import ZArith Lia.
From stdpp Require Import base numbers strings option list gmap.
From S2P Require Import Prelude Params Machine Cstring Kalloc Vm Sched Uart Console Sleeplock Bio Log Fs Pipe File Proc.

Open Scope Z_scope.

(** ** elf.h *)

Definition ELF_MAGIC : Z := 0x464C457F.
Definition ELF_PROG_LOAD : Z := 1.

(** The little-endian 64-bit word of a byte array. *)
Definition dword_at (bs : list Z) (off : nat) : Z := word_at bs off + 2 ^ 32 * word_at bs (off + 4).
Definition dword_bytes (v : Z) : list Z := word_bytes v ++ word_bytes (v / 2 ^ 32).

(** The fields of struct elfhdr and struct proghdr that exec() uses. *)
Record elfhdr := mkElfhdr { eh_magic : Z; eh_entry : Z; eh_phoff : Z; eh_phnum : Z }.
Record proghdr := mkProghdr {
  ph_type : Z; ph_flags : Z; ph_off : Z; ph_vaddr : Z; ph_filesz : Z; ph_memsz : Z
}.

Definition ELFHDR_SIZE : Z := 64.
Definition PROGHDR_SIZE : Z := 56.

Definition elfhdr_of (bs : list Z) : elfhdr :=
  mkElfhdr (word_at bs 0) (dword_at bs 24) (dword_at bs 32) (half_at bs 56).
Definition proghdr_of (bs : list Z) : proghdr :=
  mkProghdr (word_at bs 0) (word_at bs 4) (dword_at bs 8) (dword_at bs 16) (dword_at bs 32) (dword_at bs 40).

Definition flags2perm (flags : Z) : Z :=
  let perm := if negb (Z.land flags 0x1 =? 0) then PTE_X else 0 in
  if negb (Z.land flags 0x2 =? 0) then Z.lor perm PTE_W else perm.

Section exec.
Context `{Linker} `{Patience}.

(** ** loadseg *)

Definition loadseg_body (pagetable va : Z) (ip : nat) (offset sz i : Z) : K (Z + Z) :=
  if negb (i <? sz) then mret (inr 0)
  else
    pa ← walkaddr pagetable (u64 (va + i));
    if pa =? 0 then panic "loadseg: address should exist"
    else
      let n := if sz - i <? PGSIZE then sz - i else PGSIZE in
      '(r, _) ← readi ip (DKern pa) (u32 (offset + i)) n;
      if negb (u32 r =? n) then mret (inr (-1)) else mret (inl (u32 (i + PGSIZE))).

Definition loadseg (pagetable va : Z) (ip : nat) (offset sz : Z) : K Z :=
  loop (S (S (Z.to_nat (sz / PGSIZE)))) (loadseg_body pagetable va ip offset sz) 0.

(** ** exec *)

(** One program header: the new size, or [None] for [goto bad] with the size
    reached by then. *)
Definition exec_segment (pagetable : Z) (ip : nat) (off : Z) (sz : Z) : K (Z + Z) :=
  '(r, bs) ← readi ip DVar (u32 off) PROGHDR_SIZE;
  if negb (r =? PROGHDR_SIZE) then mret (inr sz)
  else
    let ph := proghdr_of bs in
    if negb (ph_type ph =? ELF_PROG_LOAD) then mret (inl sz)
    else if ph_memsz ph <? ph_filesz ph then mret (inr sz)
    else if u64 (ph_vaddr ph + ph_memsz ph) <? ph_vaddr ph then mret (inr sz)
    else if negb (ph_vaddr ph mod PGSIZE =? 0) then mret (inr sz)
    else
      sz1 ← uvmalloc pagetable sz (u64 (ph_vaddr ph + ph_memsz ph)) (flags2perm (i32 (ph_flags ph)));
      if sz1 =? 0 then mret (inr sz)
      else
        r ← loadseg pagetable (ph_vaddr ph) ip (u32 (ph_off ph)) (u32 (ph_filesz ph));
        if r <? 0 then mret (inr sz1) else mret (inl sz1).

Definition exec_load (pagetable : Z) (ip : nat) (elf : elfhdr) : K (Z + Z) :=
  for_scan (seqZ 0 (eh_phnum elf))
    (λ sz i, exec_segment pagetable ip (i32 (eh_phoff elf + i * PROGHDR_SIZE)) sz) 0.

(** [bad:], with the inode still locked or already put. *)
Definition exec_bad (pagetable sz : Z) (ip : option nat) : K Z :=
  when (negb (pagetable =? 0)) (proc_freepagetable pagetable sz);;
  match ip with
  | Some ip => iunlockput ip;; end_op
  | None => mret ()
  end;;
  mret (-1).

(** Push one argument string below [sp]. *)
Definition push_arg (pagetable stackbase : Z) (sp : Z) (arg : list Z) : K (Z + ()) :=
  let len := Z.of_nat (length arg) + 1 in
  let sp := u64 (sp - len) in
  let sp := sp - sp mod 16 in
  if sp <? stackbase then mret (inr ())
  else
    r ← copyout pagetable sp (arg ++ [0]);
    if r <? 0 then mret (inr ()) else mret (inl sp).

(** The loop over argv: the stack pointer and ustack[], or [None] for bad. *)
Fixpoint push_args (pagetable stackbase sp : Z) (argv : list (list Z)) (ustack : list Z) :
    K (option (Z * list Z)) :=
  match argv with
  | [] => mret (Some (sp, ustack))
  | arg :: argv =>
      if MAXARG <=? length ustack then mret None
      else
        r ← push_arg pagetable stackbase sp arg;
        match r with
        | inl sp => push_args pagetable stackbase sp argv (ustack ++ [sp])
        | inr _ => mret None
        end
  end.

(** What follows the last '/'. *)
Definition basename (path : list Z) : list Z :=
  foldl (λ last i, if bool_decide (path !! i = Some 47) then drop (S i) path else last)
    path (seq 0 (length path)).

(** The user stack and the commit to the new image; [argv] are the argument
    strings without their NULs. *)
Definition exec_finish (path : list Z) (argv : list (list Z)) (elf : elfhdr) (pagetable sz : Z) : K Z :=
  p ← curproc;
  q ← getp p;
  let oldsz := p_sz q in
  let sz := PGROUNDUP sz in
  sz1 ← uvmalloc pagetable sz (u64 (sz + 2 * PGSIZE)) PTE_W;
  if sz1 =? 0 then exec_bad pagetable sz None
  else
    let sz := sz1 in
    uvmclear pagetable (u64 (sz - 2 * PGSIZE));;
    let stackbase := u64 (sz - PGSIZE) in
    r ← push_args pagetable stackbase sz argv [];
    match r with
    | None => exec_bad pagetable sz None
    | Some (sp, ustack) =>
        let argc := Z.of_nat (length ustack) in
        let sp := u64 (sp - (argc + 1) * 8) in
        let sp := sp - sp mod 16 in
        if sp <? stackbase then exec_bad pagetable sz None
        else
          r ← copyout pagetable sp (mjoin (dword_bytes <$> ustack ++ [0]));
          if r <? 0 then exec_bad pagetable sz None
          else
            set_tf (p_trapframe q) (λ t, t <| tf_a1 := sp |>);;
            setp p (set_name (basename path ++ [0]));;
            setp p (λ q, q <| p_pagetable := pagetable |>);;
            setp p (λ q, q <| p_sz := sz |>);;
            set_tf (p_trapframe q) (λ t, t <| epc := eh_entry elf |>);;
            set_tf (p_trapframe q) (λ t, t <| tf_sp := sp |>);;
            proc_freepagetable (p_pagetable q) oldsz;;
            mret (i32 argc)
    end.

Definition exec (path : list Z) (argv : list (list Z)) : K Z :=
  p ← curproc;
  begin_op;;
  r ← namei path;
  match r with
  | None => end_op;; mret (-1)
  | Some ip =>
      ilock (Some ip);;
      '(r, bs) ← readi ip DVar 0 ELFHDR_SIZE;
      let elf := elfhdr_of bs in
      if negb (r =? ELFHDR_SIZE) then exec_bad 0 0 (Some ip)
      else if negb (eh_magic elf =? ELF_MAGIC) then exec_bad 0 0 (Some ip)
      else
        pagetable ← proc_pagetable p;
        if pagetable =? 0 then exec_bad 0 0 (Some ip)
        else
          r ← exec_load pagetable ip elf;
          match r with
          | inr sz => exec_bad pagetable sz (Some ip)
          | inl sz =>
              iunlockput ip;;
              end_op;;
              exec_finish path argv elf pagetable sz
          end
  end.

End exec.
