(* ===== verification/Sysfile.v ===== *)
(** * System call arguments (kernel/syscall.c) and the file system calls
    (kernel/sysfile.c) *)

From Stdlib Require Import ZArith Lia.
From stdpp Require Import base numbers strings option list gmap.
From S2P Require Import Prelude Params Machine Cstring Kalloc Vm Sched Uart Console Sleeplock Bio Log Fs Pipe File Proc Exec.

Open Scope Z_scope.

(** [omode & flag] *)
Definition has_flag (omode flag : Z) : bool := negb (Z.land omode flag =? 0).

Section sysfile.
Context `{Linker} `{Patience}.

(** ** Arguments (syscall.c) *)

(** The result and the word read. *)
Definition fetchaddr (addr : Z) : K (Z * Z) :=
  p ← curproc;
  q ← getp p;
  if (p_sz q <=? addr) || (p_sz q <? u64 (addr + 8)) then mret (-1, 0)
  else
    '(r, bs) ← copyin (p_pagetable q) addr 8;
    if negb (r =? 0) then mret (-1, 0) else mret (0, dword_at bs 0).

(** The length or -1, and the bytes stored in [buf]. *)
Definition fetchstr (addr max : Z) : K (Z * list Z) :=
  p ← curproc;
  q ← getp p;
  '(r, bs) ← copyinstr (p_pagetable q) addr max;
  if r <? 0 then mret (-1, bs) else mret (Z.of_nat (length (cstr bs)), bs).

Definition argraw (n : nat) : K Z :=
  p ← curproc;
  q ← getp p;
  t ← gets (get_tf (p_trapframe q));
  match n with
  | 0%nat => mret (tf_a0 t)
  | 1%nat => mret (tf_a1 t)
  | 2%nat => mret (tf_a2 t)
  | 3%nat => mret (tf_a3 t)
  | 4%nat => mret (tf_a4 t)
  | 5%nat => mret (tf_a5 t)
  | _ => panic "argraw"
  end.

Definition argint (n : nat) : K Z := x ← argraw n; mret (i32 x).
Definition argaddr (n : nat) : K Z := argraw n.

(** The length or -1, and the string without its NUL. *)
Definition argstr (n : nat) (max : Z) : K (Z * list Z) :=
  addr ← argaddr n;
  '(r, bs) ← fetchstr addr max;
  mret (r, cstr bs).

(** ** File descriptors *)

(** [None] is -1. *)
Definition argfd (n : nat) : K (option (nat * nat)) :=
  fd ← argint n;
  if (fd <? 0) || (NOFILE <=? fd) then mret None
  else
    p ← curproc;
    q ← getp p;
    mret ((λ f, (Z.to_nat fd, f)) <$> default None (p_ofile q !! Z.to_nat fd)).

Definition fdalloc (f : nat) : K Z :=
  p ← curproc;
  r ← for_ret (seq 0 NOFILE) (λ fd,
    q ← getp p;
    match default None (p_ofile q !! fd) with
    | None =>
        setp p (λ q, q <| p_ofile ::= <[fd := Some f]> |>);;
        mret (Some (Z.of_nat fd))
    | Some _ => mret None
    end);
  mret (default (-1) r).

(** [p->ofile[fd] = 0] *)
Definition clear_fd (p : nat) (fd : nat) : K () := setp p (λ q, q <| p_ofile ::= <[fd := None]> |>).

Definition sys_dup : K Z :=
  a ← argfd 0;
  match a with
  | None => mret (-1)
  | Some (_, f) =>
      fd ← fdalloc f;
      if fd <? 0 then mret (-1) else filedup f;; mret fd
  end.

Definition sys_read : K Z :=
  p ← argaddr 1;
  n ← argint 2;
  a ← argfd 0;
  match a with
  | None => mret (-1)
  | Some (_, f) => fileread f p n
  end.

Definition sys_write : K Z :=
  p ← argaddr 1;
  n ← argint 2;
  a ← argfd 0;
  match a with
  | None => mret (-1)
  | Some (_, f) => filewrite f p n
  end.

Definition sys_close : K Z :=
  a ← argfd 0;
  match a with
  | None => mret (-1)
  | Some (fd, f) =>
      p ← curproc;
      clear_fd p fd;;
      fileclose f;;
      mret 0
  end.

Definition sys_fstat : K Z :=
  st ← argaddr 1;
  a ← argfd 0;
  match a with
  | None => mret (-1)
  | Some (_, f) => filestat f st
  end.

(** ** Links *)

(** [bad:] of sys_link() *)
Definition sys_link_bad (ip : nat) : K Z :=
  ilock (Some ip);;
  seti ip (λ x, x <| i_nlink ::= λ n, i16 (n - 1) |>);;
  iupdate ip;;
  iunlockput ip;;
  end_op;;
  mret (-1).

Definition sys_link : K Z :=
  '(r0, old) ← argstr 0 MAXPATH;
  if r0 <? 0 then mret (-1)
  else
    '(r1, new) ← argstr 1 MAXPATH;
    if r1 <? 0 then mret (-1)
    else
      begin_op;;
      r ← namei old;
      match r with
      | None => end_op;; mret (-1)
      | Some ip =>
          ilock (Some ip);;
          x ← geti ip;
          if i_type x =? T_DIR then
            iunlockput ip;;
            end_op;;
            mret (-1)
          else
            seti ip (λ x, x <| i_nlink ::= λ n, i16 (n + 1) |>);;
            iupdate ip;;
            iunlock (Some ip);;
            '(r, name) ← nameiparent new (replicate DIRSIZ 0);
            match r with
            | None => sys_link_bad ip
            | Some dp =>
                ilock (Some dp);;
                d ← geti dp;
                x ← geti ip;
                bad ← (if negb (i_dev d =? i_dev x) then mret true
                       else r ← dirlink dp name (i_inum x); mret (r <? 0));
                iunlockput dp;;
                if bad : bool then sys_link_bad ip
                else
                  iput ip;;
                  end_op;;
                  mret 0
            end
      end.

Definition isdirempty_body (dp : nat) (off : Z) : K (Z + bool) :=
  x ← geti dp;
  if negb (off <? i_size x) then mret (inr true)
  else
    '(r, bs) ← readi dp DVar off DIRENT_SIZE;
    if negb (r =? DIRENT_SIZE) then panic "isdirempty: readi"
    else if negb (d_inum (dirent_of bs) =? 0) then mret (inr false)
    else mret (inl (off + DIRENT_SIZE)).

Definition isdirempty (dp : nat) : K bool :=
  x ← geti dp;
  loop (S (S (Z.to_nat (i_size x / DIRENT_SIZE)))) (isdirempty_body dp) (2 * DIRENT_SIZE).

(** [bad:] of sys_unlink() *)
Definition sys_unlink_bad (dp : nat) : K Z := iunlockput dp;; end_op;; mret (-1).

Definition sys_unlink : K Z :=
  '(r, path) ← argstr 0 MAXPATH;
  if r <? 0 then mret (-1)
  else
    begin_op;;
    '(r, name) ← nameiparent path (replicate DIRSIZ 0);
    match r with
    | None => end_op;; mret (-1)
    | Some dp =>
        ilock (Some dp);;
        if bool_decide (namecmp name (str "." ++ [0]) = Some 0) ||
           bool_decide (namecmp name (str ".." ++ [0]) = Some 0) then sys_unlink_bad dp
        else
          r ← dirlookup dp name;
          match r with
          | None => sys_unlink_bad dp
          | Some (ip, off) =>
              ilock (Some ip);;
              x ← geti ip;
              if i_nlink x <? 1 then panic "unlink: nlink < 1"
              else
                full ← (if i_type x =? T_DIR then e ← isdirempty ip; mret (negb e) else mret false);
                if full : bool then
                  iunlockput ip;;
                  sys_unlink_bad dp
                else
                  r ← writei dp (SVar (replicate (Z.to_nat DIRENT_SIZE) 0)) off DIRENT_SIZE;
                  if negb (r =? DIRENT_SIZE) then panic "unlink: writei"
                  else
                    when (i_type x =? T_DIR)
                      (seti dp (λ d, d <| i_nlink ::= λ n, i16 (n - 1) |>);;
                       iupdate dp);;
                    iunlockput dp;;
                    seti ip (λ x, x <| i_nlink ::= λ n, i16 (n - 1) |>);;
                    iupdate ip;;
                    iunlockput ip;;
                    end_op;;
                    mret 0
          end
    end.

(** ** Creating and opening *)

(** [fail:] of create() *)
Definition create_fail (ip dp : nat) : K (option nat) :=
  seti ip (λ x, x <| i_nlink := 0 |>);;
  iupdate ip;;
  iunlockput ip;;
  iunlockput dp;;
  mret None.

Definition create (path : list Z) (type major minor : Z) : K (option nat) :=
  '(r, name) ← nameiparent path (replicate DIRSIZ 0);
  match r with
  | None => mret None
  | Some dp =>
      ilock (Some dp);;
      r ← dirlookup dp name;
      match r with
      | Some (ip, _) =>
          iunlockput dp;;
          ilock (Some ip);;
          x ← geti ip;
          if (type =? T_FILE) && ((i_type x =? T_FILE) || (i_type x =? T_DEVICE)) then mret (Some ip)
          else iunlockput ip;; mret None
      | None =>
          d ← geti dp;
          r ← ialloc (i_dev d) type;
          match r with
          | None => iunlockput dp;; mret None
          | Some ip =>
              ilock (Some ip);;
              seti ip (λ x, x <| i_major := major |>);;
              seti ip (λ x, x <| i_minor := minor |>);;
              seti ip (λ x, x <| i_nlink := 1 |>);;
              iupdate ip;;
              x ← geti ip;
              fail ← (if type =? T_DIR then
                        r ← dirlink ip (str "." ++ [0]) (i_inum x);
                        if r <? 0 then mret true
                        else r ← dirlink ip (str ".." ++ [0]) (i_inum d); mret (r <? 0)
                      else mret false);
              if fail : bool then create_fail ip dp
              else
                r ← dirlink dp name (i_inum x);
                if r <? 0 then create_fail ip dp
                else
                  when (type =? T_DIR)
                    (seti dp (λ d, d <| i_nlink ::= λ n, i16 (n + 1) |>);;
                     iupdate dp);;
                  iunlockput dp;;
                  mret (Some ip)
          end
      end
  end.

(** The end of sys_open(), the inode locked. *)
Definition open_inode (ip : nat) (omode : Z) : K Z :=
  x ← geti ip;
  if (i_type x =? T_DEVICE) && ((i_major x <? 0) || (NDEV <=? i_major x)) then
    iunlockput ip;;
    end_op;;
    mret (-1)
  else
    r ← filealloc;
    fd ← (match r with Some f => fdalloc f | None => mret (-1) end);
    match r with
    | Some f =>
        if fd <? 0 then
          fileclose f;;
          iunlockput ip;;
          end_op;;
          mret (-1)
        else
          (if i_type x =? T_DEVICE then
             setf f (λ y, y <| f_type := FD_DEVICE |> <| f_major := i_major x |>)
           else
             setf f (λ y, y <| f_type := FD_INODE |> <| f_off := 0 |>));;
          setf f (λ y, y <| f_ip := Some ip |>);;
          setf f (λ y, y <| f_readable := if has_flag omode O_WRONLY then 0 else 1 |>);;
          setf f (λ y, y <| f_writable := if has_flag omode O_WRONLY || has_flag omode O_RDWR then 1 else 0 |>);;
          when (has_flag omode O_TRUNC && (i_type x =? T_FILE)) (itrunc ip);;
          iunlock (Some ip);;
          end_op;;
          mret fd
    | None =>
        iunlockput ip;;
        end_op;;
        mret (-1)
    end.

Definition sys_open : K Z :=
  omode ← argint 1;
  '(n, path) ← argstr 0 MAXPATH;
  if n <? 0 then mret (-1)
  else
    begin_op;;
    if has_flag omode O_CREATE then
      r ← create path T_FILE 0 0;
      match r with
      | None => end_op;; mret (-1)
      | Some ip => open_inode ip omode
      end
    else
      r ← namei path;
      match r with
      | None => end_op;; mret (-1)
      | Some ip =>
          ilock (Some ip);;
          x ← geti ip;
          if (i_type x =? T_DIR) && negb (omode =? O_RDONLY) then
            iunlockput ip;;
            end_op;;
            mret (-1)
          else open_inode ip omode
      end.

Definition sys_mkdir : K Z :=
  begin_op;;
  '(n, path) ← argstr 0 MAXPATH;
  r ← (if n <? 0 then mret None else create path T_DIR 0 0);
  match r with
  | None => end_op;; mret (-1)
  | Some ip =>
      iunlockput ip;;
      end_op;;
      mret 0
  end.

Definition sys_mknod : K Z :=
  begin_op;;
  major ← argint 1;
  minor ← argint 2;
  '(n, path) ← argstr 0 MAXPATH;
  r ← (if n <? 0 then mret None else create path T_DEVICE (i16 major) (i16 minor));
  match r with
  | None => end_op;; mret (-1)
  | Some ip =>
      iunlockput ip;;
      end_op;;
      mret 0
  end.

Definition sys_chdir : K Z :=
  p ← curproc;
  begin_op;;
  '(n, path) ← argstr 0 MAXPATH;
  r ← (if n <? 0 then mret None else namei path);
  match r with
  | None => end_op;; mret (-1)
  | Some ip =>
      ilock (Some ip);;
      x ← geti ip;
      if negb (i_type x =? T_DIR) then
        iunlockput ip;;
        end_op;;
        mret (-1)
      else
        iunlock (Some ip);;
        q ← getp p;
        match p_cwd q with Some cwd => iput cwd | None => null_deref end;;
        end_op;;
        setp p (λ q, q <| p_cwd := Some ip |>);;
        mret 0
  end.

(** ** exec and pipe *)

(** One argument of sys_exec(): [inl] with the pages and strings so far, [inr]
    when the list ends ([true]) or goes bad ([false]). *)
Definition exec_arg (uargv : Z) (argv : list (Z * list Z)) (i : nat) :
    K (list (Z * list Z) + bool * list (Z * list Z)) :=
  '(r, uarg) ← fetchaddr (u64 (uargv + 8 * i));
  if r <? 0 then mret (inr (false, argv))
  else if uarg =? 0 then mret (inr (true, argv))
  else
    page ← kalloc;
    if page =? 0 then mret (inr (false, argv))
    else
      '(r, bs) ← fetchstr uarg PGSIZE;
      modify (λ s, s <| mem ::= λ m, store_bytes m page bs |>);;
      let argv := argv ++ [(page, cstr bs)] in
      if r <? 0 then mret (inr (false, argv)) else mret (inl argv).

(** Running out of [argv] entries goes bad as well. *)
Definition sys_exec : K Z :=
  uargv ← argaddr 1;
  '(n, path) ← argstr 0 MAXPATH;
  if n <? 0 then mret (-1)
  else
    r ← for_scan (seq 0 MAXARG) (exec_arg uargv) [];
    match r with
    | inr (true, argv) =>
        ret ← exec path argv.*2;
        for_each argv.*1 kfree;;
        mret ret
    | inr (false, argv) | inl argv =>
        for_each argv.*1 kfree;;
        mret (-1)
    end.

Definition sys_pipe : K Z :=
  p ← curproc;
  fdarray ← argaddr 0;
  '(r, rf, wf) ← pipealloc;
  if r <? 0 then mret (-1)
  else
    match rf, wf with
    | Some rf, Some wf =>
        fd0 ← fdalloc rf;
        fd1 ← (if fd0 <? 0 then mret (-1) else fdalloc wf);
        if (fd0 <? 0) || (fd1 <? 0) then
          when (0 <=? fd0) (clear_fd p (Z.to_nat fd0));;
          fileclose rf;;
          fileclose wf;;
          mret (-1)
        else
          q ← getp p;
          r ← copyout (p_pagetable q) fdarray (word_bytes fd0);
          r ← (if r <? 0 then mret (-1)
               else copyout (p_pagetable q) (u64 (fdarray + 4)) (word_bytes fd1));
          if r <? 0 then
            clear_fd p (Z.to_nat fd0);;
            clear_fd p (Z.to_nat fd1);;
            fileclose rf;;
            fileclose wf;;
            mret (-1)
          else mret 0
    | _, _ => null_deref
    end.

End sysfile.
