(* ===== verification/Trap.v ===== *)
(** * System calls and traps (kernel/sysproc.c, kernel/syscall.c,
    kernel/trap.c, kernel/plic.c) *)

From Stdlib Require Import ZArith Lia.
From stdpp Require Import base numbers strings option list gmap.
From S2P Require Import Prelude Params Machine Cstring Kalloc Vm Float32 Sched Uart Console Sleeplock.
From S2P Require Import Bio VirtioDisk Log Fs Pipe File Proc Exec Sysfile.

Open Scope Z_scope.

(** The value an uninitialised local variable happens to have. *)
Class Uninit := uninit : Z.

Section trap.
Context `{Linker} `{Patience} `{BuildConfig} `{Uninit}.

(** ** sysproc.c *)

Definition sys_exit : K Z :=
  n ← argint 0;
  exit n;;
  mret 0.

Definition sys_getpid : K Z := p ← curproc; q ← getp p; mret (u64 (p_pid q)).

Definition sys_fork : K Z := r ← fork; mret (u64 r).

Definition sys_wait : K Z := p ← argaddr 0; r ← wait p; mret (u64 r).

(** [wtime] and [rtime] are only set by waitx() when it finds a child. *)
Definition sys_waitx : K Z :=
  addr ← argaddr 0;
  addr1 ← argaddr 1;
  addr2 ← argaddr 2;
  '(ret, times) ← waitx addr;
  let '(wtime, rtime) := default (u32 uninit, u32 uninit) times in
  p ← curproc;
  q ← getp p;
  r ← copyout (p_pagetable q) addr1 (word_bytes wtime);
  if r <? 0 then mret (u64 (-1))
  else
    r ← copyout (p_pagetable q) addr2 (word_bytes rtime);
    if r <? 0 then mret (u64 (-1)) else mret (u64 ret).

Definition sys_sbrk : K Z :=
  n ← argint 0;
  p ← curproc;
  q ← getp p;
  r ← growproc n;
  if r <? 0 then mret (u64 (-1)) else mret (p_sz q).

(** [ticks - ticks0 < n] compares as unsigned. *)
Definition sys_sleep_body (ticks0 n : Z) (_ : ()) : K (() + Z) :=
  t ← gets ticks;
  if u32 (t - ticks0) <? u32 n then
    p ← curproc;
    k ← killed p;
    if negb (k =? 0) then
      release tickslock;;
      mret (inr (u64 (-1)))
    else
      sleep chan_ticks tickslock;;
      mret (inl ())
  else
    release tickslock;;
    mret (inr 0).

Definition sys_sleep : K Z :=
  n ← argint 0;
  acquire tickslock;;
  ticks0 ← gets ticks;
  loop patience (sys_sleep_body ticks0 n) ().

Definition sys_kill : K Z := pid ← argint 0; r ← kill pid; mret (u64 r).

Definition sys_uptime : K Z :=
  acquire tickslock;;
  xticks ← gets ticks;
  release tickslock;;
  mret xticks.

Definition sys_trace : K Z :=
  mask ← argint 0;
  p ← curproc;
  setp p (λ q, q <| p_trace_mask := mask |>);;
  mret 0.

Definition sys_set_priority : K Z :=
  priority ← argint 0;
  pid ← argint 1;
  old ← set_priority priority pid;
  mret (u64 old).

Definition sys_settickets : K Z :=
  tickets ← argint 0;
  pid ← argint 1;
  pid ← settickets pid tickets;
  mret (u64 pid).

Definition sys_sigalarm : K Z :=
  ticks ← argint 0;
  handler ← argaddr 1;
  p ← curproc;
  setp p (λ q, q <| p_alarm_handler := handler |>);;
  setp p (λ q, q <| p_alarm_ticks := ticks |>);;
  setp p (λ q, q <| p_alarm_ticks_left := ticks |>);;
  setp p (λ q, q <| p_alarm_flag := 0 |>);;
  mret 0.

(** The function returns an int, which the caller takes for a uint64: the
    register holds its sign extension. *)
Definition sys_sigreturn : K Z :=
  p ← curproc;
  q ← getp p;
  if p_alarm_saved_tf q =? 0 then null_deref
  else
    saved ← gets (get_tf (p_alarm_saved_tf q));
    set_tf (p_trapframe q) (λ _, saved);;
    kfree (p_alarm_saved_tf q);;
    setp p (λ q, q <| p_alarm_flag := 0 |>);;
    t ← gets (get_tf (p_trapframe q));
    mret (u64 (i32 (tf_a0 t))).

(** ** syscall.c *)

Definition as_u64 (c : K Z) : K Z := r ← c; mret (u64 r).

(** The table [syscalls]. *)
Definition syscall_table (num : Z) : option (K Z) :=
  match num with
  | 1 => Some sys_fork | 2 => Some sys_exit | 3 => Some sys_wait | 4 => Some (as_u64 sys_pipe)
  | 5 => Some (as_u64 sys_read) | 6 => Some sys_kill | 7 => Some (as_u64 sys_exec)
  | 8 => Some (as_u64 sys_fstat) | 9 => Some (as_u64 sys_chdir) | 10 => Some (as_u64 sys_dup)
  | 11 => Some sys_getpid | 12 => Some sys_sbrk | 13 => Some sys_sleep | 14 => Some sys_uptime
  | 15 => Some (as_u64 sys_open) | 16 => Some (as_u64 sys_write) | 17 => Some (as_u64 sys_mknod)
  | 18 => Some (as_u64 sys_unlink) | 19 => Some (as_u64 sys_link) | 20 => Some (as_u64 sys_mkdir)
  | 21 => Some (as_u64 sys_close) | 22 => Some sys_waitx | 23 => Some sys_trace
  | 24 => Some sys_set_priority | 25 => Some sys_settickets | 26 => Some sys_sigalarm
  | 27 => Some sys_sigreturn
  | _ => None
  end.

(** [syscall_structs]: the number of arguments and the name; the entry of
    waitx is missing and so all zero. *)
Definition syscall_structs (num : Z) : nat * option string :=
  match num with
  | 1 => (0%nat, Some "fork") | 2 => (1%nat, Some "exit") | 3 => (1%nat, Some "wait")
  | 4 => (1%nat, Some "pipe") | 5 => (3%nat, Some "read") | 6 => (1%nat, Some "kill")
  | 7 => (2%nat, Some "exec") | 8 => (2%nat, Some "fstat") | 9 => (1%nat, Some "chdir")
  | 10 => (1%nat, Some "dup") | 11 => (0%nat, Some "getpid") | 12 => (1%nat, Some "sbrk")
  | 13 => (1%nat, Some "sleep") | 14 => (0%nat, Some "uptime") | 15 => (2%nat, Some "open")
  | 16 => (3%nat, Some "write") | 17 => (3%nat, Some "mknod") | 18 => (1%nat, Some "unlink")
  | 19 => (2%nat, Some "link") | 20 => (1%nat, Some "mkdir") | 21 => (1%nat, Some "close")
  | 23 => (1%nat, Some "trace") | 24 => (1%nat, Some "trace") | 25 => (1%nat, Some "settickets")
  | 26 => (2%nat, Some "sigalarm") | 27 => (0%nat, Some "sigreturn")
  | _ => (0%nat, None)
  end.

Definition print_trace (p : nat) (num : Z) : K () :=
  q ← getp p;
  let '(num_args, name) := syscall_structs num in
  printf "%d: syscall %s (" [AInt (p_pid q); AStr (str <$> name)];;
  for_each (seq 0 num_args) (λ i,
    curr_arg ← argint i;
    printf "%d" [AInt curr_arg];;
    if negb (bool_decide (i = num_args - 1)%nat) then printf " " [] else printf ")" []);;
  t ← gets (get_tf (p_trapframe q));
  printf (ln " -> %d") [AInt (tf_a0 t)].

Definition syscall : K () :=
  p ← curproc;
  q ← getp p;
  t ← gets (get_tf (p_trapframe q));
  let num := i32 (tf_a7 t) in
  match (if 0 <? num then syscall_table num else None) with
  | Some f =>
      r ← f;
      q ← getp p;
      set_tf (p_trapframe q) (λ t, t <| tf_a0 := r |>);;
      q ← getp p;
      when (negb (Z.land (p_trace_mask q) (i32 (Z.shiftl 1 num)) =? 0)) (print_trace p num)
  | None =>
      printf (ln "%d %s: unknown sys call %d") [AInt (p_pid q); AStr (Some (p_name q)); AInt num];;
      set_tf (p_trapframe q) (λ t, t <| tf_a0 := u64 (-1) |>)
  end.

(** ** plic.c and trap.c *)

(** The claim register tells the pending interrupt; completing it lets the
    device raise another one, which is outside the model. *)
Definition plic_claim : K Z := c ← gets csr; mret (i32 (plic_irq c)).
Definition plic_complete (irq : Z) : K () := set_csr (λ c, c <| plic_irq := 0 |>).

Definition trapinithart : K () := set_csr (λ c, c <| stvec := kernelvec_addr |>).

Definition clockintr : K () :=
  acquire tickslock;;
  modify (λ s, s <| ticks ::= λ t, u32 (t + 1) |>);;
  update_time;;
  wakeup chan_ticks;;
  release tickslock.

Definition devintr : K Z :=
  c ← gets csr;
  if negb (Z.land (scause c) 0x8000000000000000 =? 0) && (Z.land (scause c) 0xff =? 9) then
    irq ← plic_claim;
    (if irq =? UART0_IRQ then uartintr
     else if irq =? VIRTIO0_IRQ then virtio_disk_intr
     else when (negb (irq =? 0)) (printf (ln "unexpected interrupt irq=%d") [AInt irq]));;
    when (negb (irq =? 0)) (plic_complete irq);;
    mret 1
  else if scause c =? 0x8000000000000001 then
    id ← cpuid;
    when (id =? 0) clockintr;;
    set_csr (λ c, c <| sip ::= λ x, Z.land x (Z.lnot 2) |>);;
    mret 2
  else mret 0.

(** The alarm code of usertrap(), run on a timer interrupt. *)
Definition alarm_tick (p : nat) : K () :=
  q ← getp p;
  when (p_alarm_flag q =? 0)
    (setp p (λ q, q <| p_alarm_ticks_left ::= λ t, i32 (t - 1) |>);;
     q ← getp p;
     when (p_alarm_ticks_left q =? 0)
       (setp p (λ q, q <| p_alarm_flag := 1 |>);;
        alarm_tf ← kalloc;
        if alarm_tf =? 0 then null_deref
        else
          t ← gets (get_tf (p_trapframe q));
          set_tf alarm_tf (λ _, t);;
          setp p (λ q, q <| p_alarm_saved_tf := alarm_tf |>);;
          setp p (λ q, q <| p_alarm_ticks_left := p_alarm_ticks q |>);;
          set_tf (p_trapframe q) (λ t, t <| epc := p_alarm_handler q |>))).

(** exit() does not return, so what follows it is only reached when the process
    lives on. *)
Definition exit_if_killed (p : nat) : K () :=
  k ← killed p;
  when (negb (k =? 0)) (exit (-1)).

Definition usertrap : K Z :=
  c ← gets csr;
  if negb (Z.land (sstatus c) SSTATUS_SPP =? 0) then panic "usertrap: not from user mode"
  else
    set_csr (λ c, c <| stvec := kernelvec_addr |>);;
    p ← curproc;
    q ← getp p;
    set_tf (p_trapframe q) (λ t, t <| epc := sepc c |>);;
    which_dev ←
      (if scause c =? 8 then
         exit_if_killed p;;
         set_tf (p_trapframe q) (λ t, t <| epc ::= λ e, u64 (e + 4) |>);;
         intr_on;;
         syscall;;
         mret 0
       else if scause c =? 15 then
         r ← cowfault (p_pagetable q) (stval c);
         when (r <? 0) (setp p (λ q, q <| p_killed := 1 |>));;
         mret 0
       else
         d ← devintr;
         if negb (d =? 0) then mret d
         else
           printf (ln "usertrap(): unexpected scause %p pid=%d") [APtr (scause c); AInt (p_pid q)];;
           printf (ln "            sepc=%p stval=%p") [APtr (sepc c); APtr (stval c)];;
           setkilled p;;
           mret 0);
    exit_if_killed p;;
    when (which_dev =? 2)
      (alarm_tick p;;
       yield);;
    usertrapret.

Definition kerneltrap : K () :=
  c ← gets csr;
  if Z.land (sstatus c) SSTATUS_SPP =? 0 then panic "kerneltrap: not from supervisor mode"
  else
    ie ← intr_get;
    if ie : bool then panic "kerneltrap: interrupts enabled"
    else
      which_dev ← devintr;
      if which_dev =? 0 then
        printf (ln "scause %p") [APtr (scause c)];;
        printf (ln "sepc=%p stval=%p") [APtr (sepc c); APtr (stval c)];;
        panic "kerneltrap"
      else
        p ← myproc;
        match p with
        | Some i =>
            q ← getp i;
            when ((which_dev =? 2) && bool_decide (p_state q = RUNNING)) yield
        | None => mret ()
        end;;
        set_csr (λ x, x <| sepc := sepc c |>);;
        set_csr (λ x, x <| sstatus := sstatus c |>).

End trap.
