(* ===== verification/TrapFacts.v ===== *)
(** * Facts on alarms (kernel/trap.c, kernel/sysproc.c, kernel/syscall.c)

    The timer interrupt counts an alarm down and, when it expires, saves the
    trapframe in a fresh page and diverts the process to its handler; sigreturn
    puts the trapframe back and gives the page back.  The theorem runs the two
    halves one after the other. *)

From Stdlib Require Import ZArith Lia.
From stdpp Require Import base numbers strings option list gmap.
From S2P Require Import Prelude Params Machine Cstring Kalloc Vm Float32 Sched SchedFacts Uart Console.
From S2P Require Import Sleeplock Bio VirtioDisk Log Fs Pipe File Proc Exec Sysfile Trap.

Open Scope Z_scope.

Section alarm.
Context `{Linker} `{Patience} `{BuildConfig} `{Uninit}.

(** The process while its handler runs. *)
Definition alarmed (pg : Z) (q : proc) : proc :=
  q <| p_alarm_flag := 1 |> <| p_alarm_saved_tf := pg |> <| p_alarm_ticks_left := p_alarm_ticks q |>.

(** The state in which the handler starts. *)
Definition fired (p : nat) (q : proc) (pg : Z) (s : kernel) : kernel :=
  after_kalloc s pg
    <| procs := <[p := alarmed pg q]> (procs s) |>
    <| tfs := <[p_trapframe q := get_tf (p_trapframe q) s <| epc := p_alarm_handler q |>]>
                (<[pg := get_tf (p_trapframe q) s]> (tfs s)) |>.

(** The process [q], which was diverted with the page [pg], calls sigreturn. *)
Definition returned (p : nat) (q : proc) (pg : Z) (t : trapframe) (s : kernel) : kernel :=
  after_kfree s pg
    <| procs := <[p := q <| p_alarm_flag := 0 |>]> (procs s) |>
    <| tfs := <[p_trapframe q := t <| tf_a0 := u64 (i32 (tf_a0 t)) |>]> (tfs s) |>.

(** The table with one process replaced. *)
Lemma getp_put p q ps s :
  (p < length ps)%nat → getp p (s <| procs := <[p := q]> ps |>) = Ret q (s <| procs := <[p := q]> ps |>).
Proof. intros Hp. apply getp_eq. cbn. by rewrite list_lookup_insert_eq. Qed.

Lemma setp_put p f q ps s :
  (p < length ps)%nat →
  setp p f (s <| procs := <[p := q]> ps |>) = Ret () (s <| procs := <[p := f q]> ps |>).
Proof.
  intros Hp. rewrite setp_eq. f_equal.
  change (s <| procs := alter f p (<[p:=q]> ps) |> = s <| procs := <[p:=f q]> ps |>).
  apply (f_equal (λ l, s <| procs := l |>)), list_eq. intros j. destruct (decide (j = p)) as [->|Hj].
  - by rewrite list_lookup_alter_eq, !list_lookup_insert_eq.
  - by rewrite list_lookup_alter_ne, !list_lookup_insert_ne.
Qed.

Lemma procs_put p q s : procs s !! p = Some q → s = s <| procs := <[p := q]> (procs s) |>.
Proof. intros Hq. rewrite list_insert_id by done. by destruct s. Qed.

Lemma alarm_tick_busy p q s :
  procs s !! p = Some q → p_alarm_flag q = 1 → alarm_tick p s = Ret () s.
Proof.
  intros Hq Hf. unfold alarm_tick. msimpl. mrun (getp_eq p s q) by exact Hq.
  rewrite Hf. reflexivity.
Qed.

Lemma alarm_tick_count p q s :
  procs s !! p = Some q → p_alarm_flag q = 0 → 1 < p_alarm_ticks_left q < 2 ^ 31 →
  alarm_tick p s =
    Ret () (s <| procs := <[p := q <| p_alarm_ticks_left ::= λ t, t - 1 |>]> (procs s) |>).
Proof.
  intros Hq Hf Hn. pose proof (lookup_lt_Some _ _ _ Hq) as Hp.
  rewrite (procs_put p q s Hq) at 1. unfold alarm_tick. msimpl.
  mrun getp_put by exact Hp. rewrite Hf. cbn [Z.eqb when]. msimpl.
  mrun setp_put by exact Hp. mrun getp_put by exact Hp.
  change (q <| p_alarm_ticks_left ::= λ t, i32 (t - 1) |>)
    with (q <| p_alarm_ticks_left := i32 (p_alarm_ticks_left q - 1) |>).
  rewrite i32_small by lia.
  mif_false by (cbn; lia). reflexivity.
Qed.

Lemma kmem_inv_same s s' l :
  mem s' = mem s → freelist s' = freelist s → refcnt s' = refcnt s → kmem_inv s l → kmem_inv s' l.
Proof.
  intros Em Ef Er [Hl Hf Hn]. split; unfold kmem_list, ref_at in *; rewrite ?Em, ?Ef, ?Er; done.
Qed.

Lemma alarm_tick_fire p q pg l s :
  procs s !! p = Some q → p_alarm_flag q = 0 → p_alarm_ticks_left q = 1 →
  kmem_inv s (pg :: l) → kmem_lock ∉ held s → p_trapframe q ≠ pg →
  alarm_tick p s = Ret () (fired p q pg s).
Proof.
  intros Hq Hf Hn Hk Hl Hpg. pose proof (lookup_lt_Some _ _ _ Hq) as Hp.
  assert (pg ≠ 0) as Hpg0.
  { destruct Hk as [(_ & _ & Hpp) _ _]. apply Forall_cons in Hpp as [Hpp _].
    apply is_page_bounds in Hpp. unfold KERNBASE in Hpp. lia. }
  rewrite (procs_put p q s Hq) at 1. unfold alarm_tick. msimpl.
  mrun getp_put by exact Hp. rewrite Hf. cbn [Z.eqb when]. msimpl.
  mrun setp_put by exact Hp. mrun getp_put by exact Hp.
  mif_true by (cbn; rewrite Hn; reflexivity).
  mrun setp_put by exact Hp.
  match goal with |- context [kalloc ?t] => set (s1 := t) end.
  mrun (kalloc_eq s1 pg l) by (first [by apply (kmem_inv_same s)|exact Hl]). mif_false by (by apply Z.eqb_neq).
  unfold set_tf. msimpl.
  match goal with |- context [setp p ?f ?u] =>
    change u with (u <| procs := <[p := q <| p_alarm_ticks_left ::= λ t, i32 (t - 1) |>
                                          <| p_alarm_flag := 1 |>]> (procs s) |>)
  end.
  mrun setp_put by exact Hp. mrun setp_put by exact Hp.
  unfold get_tf at 1. cbn. rewrite lookup_insert_ne by congruence. same_record s.
Qed.

Lemma fired_tf p q pg s : get_tf (p_trapframe q) (fired p q pg s) =
  get_tf (p_trapframe q) s <| epc := p_alarm_handler q |>.
Proof. unfold fired, get_tf at 1. cbn. by rewrite lookup_insert_eq. Qed.

(** sigreturn, called through the table. *)
Lemma sigreturn_eq p q pg l s :
  cur s = Some p → procs s !! p = Some q → p_alarm_saved_tf q = pg → p_trapframe q ≠ pg →
  kmem_inv s l → is_page pg → ref_at s (pg / PGSIZE) = 1 → kmem_lock ∉ held s →
  i32 (tf_a7 (get_tf (p_trapframe q) s)) = 27 → Z.land (p_trace_mask q) (2 ^ 27) = 0 →
  syscall s = Ret () (returned p q pg (get_tf pg s) s).
Proof.
  intros Hc Hq Hpg Hne Hk Hpp Hr Hl Ha Hm. pose proof (lookup_lt_Some _ _ _ Hq) as Hp.
  unfold syscall. msimpl. mrun (curproc_eq p) by exact Hc. mrun (getp_eq p s q) by exact Hq.
  rewrite Ha. cbn [Z.ltb Z.compare syscall_table]. unfold sys_sigreturn. msimpl.
  mrun (curproc_eq p) by exact Hc. mrun (getp_eq p s q) by exact Hq. rewrite Hpg.
  assert (pg ≠ 0) as Hpg0 by (apply is_page_bounds in Hpp; unfold KERNBASE in Hpp; lia).
  mif_false by (by apply Z.eqb_neq). unfold set_tf. msimpl.
  match goal with |- context [kfree pg ?u] => set (s1 := u) end.
  mrun (kfree_last s1 pg) by assumption.
  rewrite (procs_put p q (after_kfree s1 pg) Hq).
  mrun setp_put by exact Hp. mrun getp_put by exact Hp.
  mrun (getp_eq p _ (q <| p_alarm_flag := 0 |>)) by (cbn; by rewrite list_lookup_insert_eq).
  change (Z.land (p_trace_mask (q <| p_alarm_flag := 0 |>)) (i32 (1 ≪ 27)))
    with (Z.land (p_trace_mask q) (2 ^ 27)).
  rewrite Hm. cbn [Z.eqb negb].
  unfold get_tf, s1. cbn. rewrite lookup_insert_eq. cbn.
  unfold returned. rewrite insert_insert_eq. same_record s.
Qed.

Lemma alarmed_done pg q :
  p_alarm_flag q = 0 →
  alarmed pg q <| p_alarm_flag := 0 |> =
    q <| p_alarm_ticks_left := p_alarm_ticks q |> <| p_alarm_saved_tf := pg |>.
Proof. intros Hf. destruct q. cbn in *. by subst. Qed.

Lemma fired_procs p q pg s : procs (fired p q pg s) = <[p := alarmed pg q]> (procs s).
Proof. by destruct s. Qed.

(** The handler leaves the trapframe [t]. *)
Lemma fired_fields p q pg t s (s1 := fired p q pg s <| tfs ::= <[p_trapframe q := t]> |>) :
  cur s1 = cur s ∧ held s1 = held s ∧ procs s1 = <[p := alarmed pg q]> (procs s) ∧
  tfs s1 = <[p_trapframe q := t]> (<[p_trapframe q := get_tf (p_trapframe q) s <| epc := p_alarm_handler q |>]>
             (<[pg := get_tf (p_trapframe q) s]> (tfs s))).
Proof. by destruct s. Qed.

Lemma returned_fields p q pg t s :
  procs (returned p q pg t s) = <[p := q <| p_alarm_flag := 0 |>]> (procs s) ∧
  tfs (returned p q pg t s) = <[p_trapframe q := t <| tf_a0 ::= λ a, u64 (i32 a) |>]> (tfs s).
Proof. by destruct s. Qed.

(** What the allocator sees of the two states. *)
Definition same_pages (s s' : kernel) : Prop :=
  mem s' = mem s ∧ freelist s' = freelist s ∧ refcnt s' = refcnt s.

Lemma fired_pages p q pg u s : same_pages (after_kalloc s pg) (fired p q pg s <| tfs ::= u |>).
Proof. unfold fired. generalize (after_kalloc s pg). intros k. by split. Qed.

Lemma returned_pages p q pg t s : same_pages (after_kfree s pg) (returned p q pg t s).
Proof. unfold returned. generalize (after_kfree s pg). intros k. by split. Qed.

Lemma returned_inv p q pg t l s :
  kmem_inv s l → is_page pg → ref_at s (pg / PGSIZE) = 1 →
  kmem_inv (returned p q pg t s) (pg :: l).
Proof.
  intros Hk Hp Hr. destruct (returned_pages p q pg t s) as (Em & Ef & Er).
  apply (kmem_inv_same _ _ _ Em Ef Er).
  apply kfree_inv; [exact Hk|exact Hp|]. rewrite Hr. discriminate.
Qed.

Lemma load8_returned p q pg t s b :
  ¬ (pg ≤ b < pg + PGSIZE) → load8 (mem (returned p q pg t s)) b = load8 (mem s) b.
Proof.
  intros Hb. destruct (returned_pages p q pg t s) as (Em & _). rewrite Em.
  rewrite load8_after_kfree by (right; exact Hb). by rewrite decide_False.
Qed.

Lemma load8_after_kalloc s pg b :
  ¬ (pg ≤ b < pg + PGSIZE) → load8 (mem (after_kalloc s pg)) b = load8 (mem s) b.
Proof. intros Hb. cbn. rewrite load8_memset. by rewrite decide_False. Qed.

(** C25: A timer interrupt in a process with an alarm that has [n] ticks left only
    counts down while [n > 1].  When [n = 1] it takes a page, saves the trapframe
    there, diverts the process to its handler with every other register unchanged,
    and restarts the count.  While the handler runs no tick of the alarm code does
    anything.  When the handler, whatever it leaves in the registers, calls
    sigreturn, the process gets the interrupted trapframe back, program counter
    included, except that a0 is cut to its sign-extended low 32 bits; the alarm is
    armed again with the full count, the page is back at the head of the free list
    and no byte outside that page has changed. *)
Theorem alarm_sigreturn_roundtrip s p q n pg l :
  cur s = Some p → procs s !! p = Some q → p_alarm_flag q = 0 →
  p_alarm_ticks_left q = n → 1 ≤ n < 2 ^ 31 → Z.land (p_trace_mask q) (2 ^ 27) = 0 →
  kmem_inv s (pg :: l) → kmem_lock ∉ held s → p_trapframe q ≠ pg →
  if n =? 1 then
    ∃ s1, alarm_tick p s = Ret () s1 ∧
      get_tf (p_trapframe q) s1 = get_tf (p_trapframe q) s <| epc := p_alarm_handler q |> ∧
      alarm_tick p s1 = Ret () s1 ∧
      ∀ t, i32 (tf_a7 t) = 27 →
        ∃ s2, syscall (s1 <| tfs ::= <[p_trapframe q := t]> |>) = Ret () s2 ∧
          get_tf (p_trapframe q) s2 =
            get_tf (p_trapframe q) s <| tf_a0 ::= λ a, u64 (i32 a) |> ∧
          procs s2 = <[p := q <| p_alarm_ticks_left := p_alarm_ticks q |>
                            <| p_alarm_saved_tf := pg |>]> (procs s) ∧
          kmem_inv s2 (pg :: l) ∧
          (∀ b, ¬ (pg ≤ b < pg + PGSIZE) → load8 (mem s2) b = load8 (mem s) b)
  else alarm_tick p s =
    Ret () (s <| procs := <[p := q <| p_alarm_ticks_left ::= λ t, t - 1 |>]> (procs s) |>).
Proof.
  intros Hc Hq Hf Hn Hb Hm Hk Hl Hpg. pose proof (lookup_lt_Some _ _ _ Hq) as Hp.
  destruct (Z.eqb_spec n 1) as [->|Hn1]; [|apply alarm_tick_count; [done|done|lia]].
  exists (fired p q pg s). split; [by apply (alarm_tick_fire p q pg l)|].
  split; [apply fired_tf|].
  assert (procs (fired p q pg s) !! p = Some (alarmed pg q)) as Hq1
    by (by rewrite fired_procs, list_lookup_insert_eq).
  split; [by apply (alarm_tick_busy p (alarmed pg q))|].
  intros t Ht. destruct (fired_fields p q pg t s) as (Ec & Eh & Ep & Et).
  destruct (fired_pages p q pg <[p_trapframe q := t]> s) as (Em & Ef & Er).
  set (s1 := fired p q pg s <| tfs ::= <[p_trapframe q := t]> |>) in *. clearbody s1.
  pose proof (km_list _ _ Hk) as (_ & _ & Hpp). apply Forall_cons in Hpp as [Hpp _].
  assert (kmem_inv s1 l) as Hk1 by exact (kmem_inv_same _ _ _ Em Ef Er (kalloc_inv _ _ _ Hk)).
  assert (ref_at s1 (pg / PGSIZE) = 1) as Hr1.
  { pose proof (ref_at_after_kalloc s pg (pg / PGSIZE)) as E. rewrite decide_True in E by done.
    unfold ref_at in *. by rewrite Er. }
  destruct (returned_fields p (alarmed pg q) pg (get_tf pg s1) s1) as (Rp & Rt).
  exists (returned p (alarmed pg q) pg (get_tf pg s1) s1).
  split; [|split; [|split; [|split]]].
  - apply (sigreturn_eq p (alarmed pg q) pg l); clear Hq1; rewrite ?Ec, ?Eh, ?Ep;
      try solve [assumption|reflexivity|by rewrite list_lookup_insert_eq].
    unfold get_tf. rewrite Et. change (p_trapframe (alarmed pg q)) with (p_trapframe q).
    by rewrite lookup_insert_eq.
  - unfold get_tf at 1. rewrite Rt. change (p_trapframe (alarmed pg q)) with (p_trapframe q).
    rewrite lookup_insert_eq. unfold get_tf at 1. rewrite Et, !lookup_insert_ne by exact Hpg.
    rewrite lookup_insert_eq. reflexivity.
  - rewrite Rp, Ep, list_insert_insert_eq. f_equal. by apply alarmed_done.
  - apply returned_inv; [exact Hk1|exact Hpp|exact Hr1].
  - intros b Hb'. rewrite load8_returned, Em by exact Hb'. exact (load8_after_kalloc s pg b Hb').
Qed.

End alarm.

(** ** A process whose alarm is about to go off *)

#[local] Existing Instance tiny_linker.
#[local] Instance ex_patience : Patience := 1%nat.
#[local] Instance ex_build : BuildConfig := {| SCHEDULING_ALGO := 0 |}.
#[local] Instance ex_uninit : Uninit := 0.

Definition ex_alarm_proc : proc :=
  proc0 <| p_state := RUNNING |> <| p_trapframe := tiny_p2 |> <| p_alarm_handler := 0x40 |>
    <| p_alarm_ticks := 5 |> <| p_alarm_ticks_left := 1 |>.

(** One page is free, the other one is the trapframe. *)
Definition ex_alarm : kernel :=
  kernel0 <| cur := Some 0%nat |> <| procs := <[0%nat := ex_alarm_proc]> (replicate NPROC proc0) |>
    <| refcnt := {[tiny_p2 / PGSIZE := 1]} |> <| freelist := tiny_p1 |>
    <| tfs := {[tiny_p2 := trapframe0 <| tf_a0 := 2 ^ 32 + 7 |> <| epc := 0x1234 |>]} |>.

Lemma ex_alarm_inv : kmem_inv ex_alarm [tiny_p1].
Proof.
  split; [split|..].
  - done.
  - split; [apply NoDup_singleton|]. constructor; [apply tiny_pages; by left|constructor].
  - intros p [->| ->]%tiny_pages; rewrite list_elem_of_singleton; vm_compute; split; done.
  - intros p [->| ->]%tiny_pages; vm_compute; discriminate.
Qed.

Definition ex_return_tf : trapframe := trapframe0 <| tf_a7 := 27 |>.

(** The handler is entered at 0x40; sigreturn gives the process 0x1234 back, but
    a0, which was 2^32 + 7, comes back as 7. *)
Lemma alarm_sigreturn_roundtrip_witness :
  ∃ s1 s2, alarm_tick 0 ex_alarm = Ret () s1 ∧ epc (get_tf tiny_p2 s1) = 0x40 ∧
    syscall (s1 <| tfs ::= <[tiny_p2 := ex_return_tf]> |>) = Ret () s2 ∧
    epc (get_tf tiny_p2 s2) = 0x1234 ∧ tf_a0 (get_tf tiny_p2 s2) = 7.
Proof.
  destruct (alarm_sigreturn_roundtrip ex_alarm 0 ex_alarm_proc 1 tiny_p1 [])
    as (s1 & E1 & H1 & _ & H2);
    [reflexivity|reflexivity|reflexivity|reflexivity|lia|reflexivity|apply ex_alarm_inv
    |apply not_elem_of_nil|discriminate|].
  destruct (H2 ex_return_tf ltac:(vm_compute; reflexivity)) as (s2 & E2 & H3 & _).
  exists s1, s2. change (p_trapframe ex_alarm_proc) with tiny_p2 in *.
  split; [exact E1|]. split; [rewrite H1; reflexivity|]. split; [exact E2|].
  split; rewrite H3; vm_compute; reflexivity.
Defined.
