(* ===== verification/Ulib.v ===== *)
(** * The user library (user/ulib.c, user/printf.c)

    Strings are objects as in Cstring.v: the bytes from the pointer to the end
    of the object, [None] where the code would leave it.  Memory is that of the
    process.  Output is the list of bytes written, input a [Stream]. *)

From Stdlib Require Import ZArith Lia.
From stdpp Require Import base numbers strings option list gmap.
From S2P Require Import Prelude Params Machine Cstring.

Open Scope Z_scope.

(** ** What a program expects of read() on an open file

    [rest] is what is left to read.  A read gets the next bytes, at most as many
    as asked for, and at least one unless nothing is left or none was asked for. *)
Class Stream (St : Type) := {
  rest : St → list Z;
  read : St → nat → list Z * St;
  read_rest s n : rest s = (read s n).1 ++ rest (read s n).2;
  read_le s n : (length (read s n).1 ≤ n)%nat;
  read_some s n : (0 < n)%nat → rest s ≠ [] → (read s n).1 ≠ []
}.

(** ** ulib.c *)

Fixpoint strcpy (s t : list Z) : option (list Z) :=
  match s, t with
  | _ :: s, c :: t => if c =? 0 then Some (c :: s) else cons c <$> strcpy s t
  | _, _ => None
  end.

Fixpoint strcmp (p q : list Z) : option Z :=
  match p, q with
  | a :: p, b :: q => if negb (a =? 0) && (a =? b) then strcmp p q else Some (a - b)
  | _, _ => None
  end.

Fixpoint strlen (s : list Z) : option Z :=
  match s with
  | [] => None
  | c :: s => if c =? 0 then Some 0 else (λ n, n + 1) <$> strlen s
  end.

Definition memset (m : gmap Z Z) (dst c n : Z) : gmap Z Z :=
  foldl (λ m i, store8 m (dst + i) c) m (seqZ 0 n).

(** The index of the character, [None] inside for the null pointer. *)
Fixpoint strchr (s : list Z) (c : Z) : option (option nat) :=
  match s with
  | [] => None
  | x :: s =>
      if x =? 0 then Some None
      else if x =? c then Some (Some 0%nat)
      else option_map (option_map S) (strchr s c)
  end.

Section gets.
Context {St : Type} `{!Stream St}.

(** The loop of gets(), [k] characters from the end of the buffer. *)
Fixpoint gets_loop (k : nat) (s : St) : list Z * St :=
  match k with
  | O => ([], s)
  | S k =>
      let '(bs, s) := read s 1 in
      match bs with
      | [] => ([], s)
      | c :: _ =>
          if (c =? 10) || (c =? 13) then ([c], s)
          else let '(l, s) := gets_loop k s in (c :: l, s)
      end
  end.

(** The bytes stored in buf, the NUL included. *)
Definition gets (max : Z) (s : St) : list Z * St :=
  let '(l, s) := gets_loop (Z.to_nat (max - 1)) s in (l ++ [0], s).
End gets.

(** The loop of atoi() from the value [n]. *)
Fixpoint atoi_loop (s : list Z) (n : Z) : option Z :=
  match s with
  | [] => None
  | c :: s => if (48 <=? c) && (c <=? 57) then atoi_loop s (i32 (n * 10 + c - 48)) else Some n
  end.
Definition atoi (s : list Z) : option Z := atoi_loop s 0.

Definition memmove (m : gmap Z Z) (vdst vsrc n : Z) : gmap Z Z :=
  if vdst <? vsrc then move_fwd (Z.to_nat n) m vdst vsrc
  else move_bwd (Z.to_nat n) m (vdst + n) (vsrc + n).

Fixpoint memcmp_loop (m : gmap Z Z) (n : nat) (p1 p2 : Z) : Z :=
  match n with
  | O => 0
  | S n =>
      if negb (load8 m p1 =? load8 m p2) then load8 m p1 - load8 m p2
      else memcmp_loop m n (p1 + 1) (p2 + 1)
  end.
Definition memcmp (m : gmap Z Z) (s1 s2 n : Z) : Z := memcmp_loop m (Z.to_nat n) s1 s2.

Definition memcpy (m : gmap Z Z) (dst src n : Z) : gmap Z Z := memmove m dst src n.

(** ** printf.c *)

Definition str (s : string) : list Z := (λ c, Z.of_N (Ascii.N_of_ascii c)) <$> String.list_ascii_of_string s.

Definition nl : string := String (Ascii.ascii_of_nat 10) EmptyString.

Definition digit (d : Z) : Z := default 0 (str "0123456789ABCDEF" !! Z.to_nat d).

(** The do-while loop; a 32-bit number has at most 32 digits in any base. *)
Fixpoint printint_digits (fuel : nat) (x base : Z) : list Z :=
  match fuel with
  | O => []
  | S n => digit (x mod base) :: (if x / base =? 0 then [] else printint_digits n (x / base) base)
  end.

Definition printint (xx base : Z) (sgn : bool) : list Z :=
  let neg := sgn && (xx <? 0) in
  let x := if neg then u32 (- xx) else u32 xx in
  reverse (printint_digits 32 x base ++ if neg then [45] else []).

Definition printptr (x : Z) : list Z :=
  48 :: 120 :: ((λ i, digit (Z.shiftr (u64 (Z.shiftl x (4 * i))) 60)) <$> seqZ 0 16).

(** The variadic arguments: a number or a string, which may be null. *)
Inductive varg := VNum (x : Z) | VStr (s : option (list Z)).
Definition varg_Z (a : varg) : Z := match a with VNum x => x | VStr _ => 0 end.
Definition varg_str (a : varg) : list Z := match a with VStr (Some s) => s | _ => str "(null)" end.
Definition next_varg (ap : list varg) : varg := default (VNum 0) (head ap).

(** What a conversion prints, and whether it takes an argument. *)
Definition convert (c : Z) (a : varg) : list Z * bool :=
  if c =? 100 then (printint (i32 (varg_Z a)) 10 true, true)
  else if c =? 108 then (printint (i32 (varg_Z a)) 10 false, true)
  else if c =? 120 then (printint (i32 (varg_Z a)) 16 false, true)
  else if c =? 112 then (printptr (u64 (varg_Z a)), true)
  else if c =? 115 then (cstr (varg_str a), true)
  else if c =? 99 then ([u8 (varg_Z a)], true)
  else if c =? 37 then ([c], false)
  else ([37; c], false).

(** [state] is true after a percent sign. *)
Fixpoint vprintf_loop (fmt : list Z) (state : bool) (ap : list varg) : list Z :=
  match fmt with
  | [] => []
  | c :: fmt =>
      if c =? 0 then []
      else if negb state then
        if c =? 37 then vprintf_loop fmt true ap else c :: vprintf_loop fmt false ap
      else
        let '(out, takes) := convert c (next_varg ap) in
        out ++ vprintf_loop fmt false (if takes : bool then tail ap else ap)
  end.
Definition vprintf (fmt : string) (ap : list varg) : list Z := vprintf_loop (str fmt) false ap.

(** ** Lemmas *)

(** The two loops of memmove() copy all bytes as if at once. *)
Lemma load8_umemmove m dst src n b :
  0 ≤ n →
  load8 (memmove m dst src n) b =
    if decide (dst ≤ b < dst + n) then load8 m (src + (b - dst)) else load8 m b.
Proof.
  intros Hn. unfold memmove. destruct (Z.ltb_spec dst src).
  - rewrite move_fwd_spec by lia. by rewrite Z2Nat.id by lia.
  - rewrite move_bwd_spec by lia. rewrite Z2Nat.id by lia. repeat case_decide; try lia; f_equal; lia.
Qed.

Lemma strchr_nul (l : list Z) c r :
  Forall (λ x, x ≠ 0) l → strchr (l ++ 0 :: r) c = Some (list_find (λ x, x = c) l ≫= λ p, Some p.1).
Proof.
  induction 1 as [|x l Hx _ IH]; [done|]. cbn [app strchr list_find].
  rewrite (proj2 (Z.eqb_neq x 0) Hx). destruct (Z.eqb_spec x c) as [->|Hc].
  - by rewrite decide_True.
  - rewrite decide_False by done. rewrite IH. by destruct (list_find _ l) as [[]|].
Qed.

(** A stream that is read one piece after the other: each number says how much
    the next read gets at most, when it is not 0. *)
Definition pieces : Type := list Z * list nat.

Definition read_piece (s : pieces) (n : nat) : list Z * pieces :=
  let k := match s.2 with [] | O :: _ => n | c :: _ => Nat.min c n end in
  (take k s.1, (drop k s.1, tail s.2)).

#[export] Instance pieces_stream : Stream pieces.
Proof.
  refine {| rest s := s.1; read := read_piece |}.
  - intros s n. cbn. by rewrite take_drop.
  - intros s n. unfold read_piece. cbn. rewrite length_take. destruct s.2 as [|[]]; lia.
  - intros s n Hn Hs. unfold read_piece. cbn. destruct s.1 as [|x l]; [done|].
    destruct n; [lia|]. by destruct s.2 as [|[|c] ?].
Defined.
