(* ===== verification/Grep.v ===== *)
(** * grep (user/grep.c)

    The matcher of Kernighan and Pike and the loop that feeds it the lines of a
    file.  The matcher is compared with the language of a regular expression,
    the loop with the list of the file's lines. *)

From Stdlib Require Import ZArith Lia.
From stdpp Require Import base numbers strings option list gmap.
From S2P Require Import Prelude Ulib.

Open Scope Z_scope.

(** ** The matcher

    [re] and [text] are the characters of the two strings without the NUL. *)

Section star.
Context (matchhere : list Z → bool) (c : Z).

(** [matchhere] is the match of what follows the star. *)
Fixpoint matchstar (text : list Z) : bool :=
  matchhere text ||
  match text with
  | [] => false
  | t :: text => ((t =? c) || (c =? 46)) && matchstar text
  end.
End star.

Fixpoint matchhere (re text : list Z) {struct re} : bool :=
  match re with
  | [] => true
  | c :: re1 =>
      let one :=
        match text with
        | [] => false
        | t :: text => ((c =? 46) || (c =? t)) && matchhere re1 text
        end in
      match re1 with
      | [] => if c =? 36 then bool_decide (text = []) else one
      | c1 :: re2 => if c1 =? 42 then matchstar (matchhere re2) c text else one
      end
  end.

(** The do-while loop of match(). *)
Fixpoint match_at_any (re text : list Z) : bool :=
  matchhere re text ||
  match text with
  | [] => false
  | _ :: text => match_at_any re text
  end.

Definition match_ (re text : list Z) : bool :=
  match re with
  | [] => match_at_any re text
  | c :: re1 => if c =? 94 then matchhere re1 text else match_at_any re text
  end.

(** ** The lines of a file *)

(** The inner loop of grep(): the lines in the buffer from [p] on, what is
    written for them and what is left.  Every round takes a newline away, so
    that the length of the buffer bounds the rounds. *)
Fixpoint grep_lines (fuel : nat) (pattern p : list Z) : list Z * list Z :=
  match fuel with
  | O => ([], p)
  | S fuel =>
      match strchr (p ++ [0]) 10 with
      | Some (Some q) =>
          let '(out, p') := grep_lines fuel pattern (drop (S q) p) in
          ((if match_ pattern (take q p) then take (S q) p else []) ++ out, p')
      | _ => ([], p)
      end
  end.

Definition BUFSIZE : nat := 1024.

Section grep.
Context {St : Type} `{!Stream St}.

(** [buf] is what the last round has left. *)
Fixpoint grep_loop (fuel : nat) (pattern buf : list Z) (fd : St) : option (list Z) :=
  match fuel with
  | O => None
  | S fuel =>
      let '(bs, fd) := read fd (BUFSIZE - length buf - 1) in
      match bs with
      | [] => Some []
      | _ =>
          let p := buf ++ bs in
          let '(out, p) := grep_lines (length p) pattern p in
          app out <$> grep_loop fuel pattern p fd
      end
  end.

(** Every round reads something. *)
Definition grep (pattern : list Z) (fd : St) : option (list Z) :=
  grep_loop (S (length (rest fd))) pattern [] fd.

(** The files of main(), the output so far in front: what goes to the standard
    output, and the exit status. *)
Fixpoint grep_files (open : list Z → option St) (pattern : list Z) (files : list (list Z)) :
    option (list Z * Z) :=
  match files with
  | [] => Some ([], 0)
  | f :: files =>
      match open f with
      | None => Some (vprintf (String.append "grep: cannot open %s" nl) [VStr (Some f)], 1)
      | Some fd =>
          match grep pattern fd, grep_files open pattern files with
          | Some out, Some (out', status) => Some (out ++ out', status)
          | _, _ => None
          end
      end
  end.

(** The standard output, the error output and the exit status. *)
Definition grep_main (open : list Z → option St) (stdin : St) (argv : list (list Z)) :
    option (list Z * list Z * Z) :=
  match argv with
  | [] | [_] => Some ([], vprintf (String.append "usage: grep pattern [file ...]" nl) [], 1)
  | [_; pattern] => (λ out, (out, [], 0)) <$> grep pattern stdin
  | _ :: pattern :: files => (λ r, (r.1, [], r.2)) <$> grep_files open pattern files
  end.
End grep.

(** ** Regular expressions *)

Inductive rexp :=
| Eps
| Sym (c : Z)
| AnySym
| Cat (r1 r2 : rexp)
| Star (r : rexp).

Inductive lang : rexp → list Z → Prop :=
| lang_eps : lang Eps []
| lang_sym c : lang (Sym c) [c]
| lang_any c : lang AnySym [c]
| lang_cat r1 r2 w1 w2 : lang r1 w1 → lang r2 w2 → lang (Cat r1 r2) (w1 ++ w2)
| lang_star_nil r : lang (Star r) []
| lang_star_app r w1 w2 : lang r w1 → lang (Star r) w2 → lang (Star r) (w1 ++ w2).

(** What a pattern means: the expression, and whether it ends at the end of the
    text.  A star applies to the character before it, a dollar sign is special
    at the end only. *)
Definition sym (c : Z) : rexp := if c =? 46 then AnySym else Sym c.

Fixpoint pattern (re : list Z) : rexp * bool :=
  match re with
  | [] => (Eps, false)
  | c :: re1 =>
      match re1 with
      | [] => if c =? 36 then (Eps, true) else (Cat (sym c) Eps, false)
      | c1 :: re2 =>
          if c1 =? 42 then let '(r, e) := pattern re2 in (Cat (Star (sym c)) r, e)
          else let '(r, e) := pattern re1 in (Cat (sym c) r, e)
      end
  end.

(** A caret at the beginning ties the match to the beginning of the text. *)
Definition anchored (re : list Z) : bool * list Z :=
  match re with
  | c :: re1 => if c =? 94 then (true, re1) else (false, re)
  | [] => (false, [])
  end.

(** Some part of the text is in the language. *)
Definition occurs (re text : list Z) : Prop :=
  let '(start, re) := anchored re in
  let '(r, stop) := pattern re in
  ∃ pre w post, text = pre ++ w ++ post ∧ lang r w ∧
    (start = true → pre = []) ∧ (stop = true → post = []).

Lemma lang_sym_iff c w : lang (sym c) w ↔ ∃ t, w = [t] ∧ (c = 46 ∨ c = t).
Proof.
  unfold sym. destruct (Z.eqb_spec c 46) as [->|Hc].
  - split; [inversion 1; eauto|]. intros (t & -> & _). constructor.
  - split; [inversion 1; eauto|]. intros (t & -> & [|<-]); [done|constructor].
Qed.

Lemma lang_cat_iff r1 r2 w : lang (Cat r1 r2) w ↔ ∃ w1 w2, w = w1 ++ w2 ∧ lang r1 w1 ∧ lang r2 w2.
Proof. split; [inversion 1; eauto 6|]. intros (w1 & w2 & -> & ? & ?). by constructor. Qed.

Lemma lang_star_sym c w : lang (Star (sym c)) w ↔ Forall (λ t, c = 46 ∨ c = t) w.
Proof.
  split.
  - intros H. remember (Star (sym c)) as r eqn:E. induction H; try done.
    injection E as ->. apply lang_sym_iff in H as (t & -> & Ht). constructor; auto.
  - induction 1 as [|t w Ht Hw IH]; [constructor|]. apply (lang_star_app _ [t] w); [|done].
    apply lang_sym_iff. eauto.
Qed.

(** A match at the beginning of the text. *)
Definition prefix_lang (re text : list Z) : Prop :=
  let '(r, stop) := pattern re in
  ∃ w post, text = w ++ post ∧ lang r w ∧ (stop = true → post = []).

Lemma prefix_cons c re1 text :
  (∀ c1 re2, re1 = c1 :: re2 → c1 ≠ 42) → ¬ (re1 = [] ∧ c = 36) →
  prefix_lang (c :: re1) text ↔
    ∃ t text', text = t :: text' ∧ (c = 46 ∨ c = t) ∧ prefix_lang re1 text'.
Proof.
  intros Hs He. unfold prefix_lang.
  assert (∃ r e, pattern re1 = (r, e) ∧ pattern (c :: re1) = (Cat (sym c) r, e)) as (r & e & E1 & E2).
  { cbn [pattern]. destruct re1 as [|c1 re2].
    - rewrite (proj2 (Z.eqb_neq c 36)) by tauto. by eexists _, _.
    - rewrite (proj2 (Z.eqb_neq c1 42)) by (by eapply Hs). destruct (pattern (c1 :: re2)). by eexists _, _. }
  rewrite E1, E2. split.
  - intros (w & post & -> & Hw & Hp). apply lang_cat_iff in Hw as (w1 & w2 & -> & H1 & H2).
    apply lang_sym_iff in H1 as (t & -> & Ht). exists t, (w2 ++ post). by eauto 8.
  - intros (t & text' & -> & Ht & w & post & -> & Hw & Hp). exists (t :: w), post.
    split; [done|]. split; [|done]. apply (lang_cat _ _ [t] w); [|done]. apply lang_sym_iff. eauto.
Qed.

Lemma prefix_star c re2 text :
  prefix_lang (c :: 42 :: re2) text ↔
    ∃ w text', text = w ++ text' ∧ Forall (λ t, c = 46 ∨ c = t) w ∧ prefix_lang re2 text'.
Proof.
  unfold prefix_lang. cbn [pattern]. destruct (pattern re2) as [r e]. cbn. split.
  - intros (w & post & -> & Hw & Hp). apply lang_cat_iff in Hw as (w1 & w2 & -> & H1 & H2).
    apply lang_star_sym in H1. exists w1, (w2 ++ post). rewrite app_assoc. eauto 8.
  - intros (w1 & text' & -> & H1 & w & post & -> & Hw & Hp). exists (w1 ++ w), post.
    rewrite app_assoc. split; [done|]. split; [|done]. constructor; [by apply lang_star_sym|done].
Qed.

Lemma matchstar_spec (mh : list Z → bool) c text :
  matchstar mh c text = true ↔
    ∃ w text', text = w ++ text' ∧ Forall (λ t, c = 46 ∨ c = t) w ∧ mh text' = true.
Proof.
  induction text as [|t text IH]; cbn [matchstar]; rewrite orb_true_iff.
  - split.
    + intros [H|]; [|done]. by exists [], [].
    + intros (w & text' & E & _ & H). symmetry in E. apply app_nil in E as [-> ->]. by left.
  - rewrite andb_true_iff, orb_true_iff, IH, Z.eqb_eq, Z.eqb_eq. split.
    + intros [H|(Ht & w & text' & -> & Hw & H)]; [by exists [], (t :: text)|].
      exists (t :: w), text'. split; [done|]. split; [|done]. constructor; [|done]. destruct Ht; [by right|by left].
    + intros ([|t' w] & text' & E & Hw & H); cbn in E; [subst; by left|]. injection E as <- ->.
      apply Forall_cons in Hw as [Ht Hw]. right. split; [destruct Ht; [by right|by left]|]. by eauto.
Qed.

Lemma match_one c text (mh : list Z → bool) (P : list Z → Prop) :
  (∀ text, mh text = true ↔ P text) →
  match text with [] => false | t :: text => ((c =? 46) || (c =? t)) && mh text end = true ↔
    ∃ t text', text = t :: text' ∧ (c = 46 ∨ c = t) ∧ P text'.
Proof.
  intros H. destruct text as [|t text].
  - split; [done|]. by intros (? & ? & ? & _).
  - rewrite andb_true_iff, orb_true_iff, !Z.eqb_eq, H. split; [by eauto 8|].
    intros (? & ? & [= <- <-] & ? & ?). done.
Qed.

Lemma matchhere_spec re text : matchhere re text = true ↔ prefix_lang re text.
Proof.
  remember (length re) as k eqn:Hk. revert re text Hk.
  induction (lt_wf k) as [k _ IH]. intros re text ->.
  assert (∀ re', (length re' < length re)%nat → ∀ text, matchhere re' text = true ↔ prefix_lang re' text) as IH'
    by (intros re' Hl text'; by apply (IH (length re') Hl)).
  destruct re as [|c re1].
  { split; [|done]. intros _. exists [], text. split; [done|]. split; [constructor|done]. }
  cbn [matchhere]. destruct re1 as [|c1 re2].
  - destruct (Z.eqb_spec c 36) as [->|Hc].
    + rewrite bool_decide_eq_true. unfold prefix_lang. cbn. split.
      * intros ->. exists [], []. split; [done|]. split; [constructor|done].
      * intros (w & post & -> & Hw & Hp). inversion Hw. by rewrite Hp.
    + rewrite prefix_cons by (try done; intros []; done). by apply match_one, IH'; cbn; lia.
  - destruct (Z.eqb_spec c1 42) as [->|Hc].
    + rewrite prefix_star, matchstar_spec. do 2 (apply exist_proper; intros ?).
      rewrite (IH' re2) by (cbn; lia). done.
    + rewrite prefix_cons by (try (by intros []); intros ? ? [= <- <-]; done).
      by apply match_one, IH'; cbn; lia.
Qed.

Lemma match_at_any_spec re text :
  match_at_any re text = true ↔ ∃ pre text', text = pre ++ text' ∧ prefix_lang re text'.
Proof.
  induction text as [|t text IH]; cbn [match_at_any]; rewrite orb_true_iff, matchhere_spec.
  - split.
    + intros [H|]; [|done]. by exists [], [].
    + intros (pre & text' & E & H). symmetry in E. apply app_nil in E as [-> ->]. by left.
  - rewrite IH. split.
    + intros [H|(pre & text' & -> & H)]; [by exists [], (t :: text)|by exists (t :: pre), text'].
    + intros ([|t' pre] & text' & E & H); cbn in E; [subst; by left|]. injection E as <- ->. right. eauto.
Qed.

Lemma occurs_unanchored r (e : bool) text :
  (∃ pre text', text = pre ++ text' ∧ ∃ w post, text' = w ++ post ∧ lang r w ∧ (e = true → post = [])) ↔
  ∃ pre w post, text = pre ++ w ++ post ∧ lang r w ∧ (false = true → pre = []) ∧ (e = true → post = []).
Proof.
  split.
  - intros (pre & ? & -> & w & post & -> & Hw & Hp). by exists pre, w, post.
  - intros (pre & w & post & -> & Hw & _ & Hp). exists pre, (w ++ post). split; [done|]. by exists w, post.
Qed.

(** C27: the matcher decides the regular language the pattern stands for: match()
    returns 1 exactly when some part of the text is in the language, tied to the
    beginning of the text by a leading caret and to its end by a final dollar
    sign.  The greedy-free search through matchstar() misses no split. *)
Theorem match_correct re text : match_ re text = true ↔ occurs re text.
Proof.
  unfold match_, occurs, anchored. destruct re as [|c re1]; [|destruct (Z.eqb_spec c 94) as [->|Hc]].
  - rewrite match_at_any_spec. unfold prefix_lang. destruct (pattern []) as [r e].
    apply occurs_unanchored.
  - rewrite matchhere_spec. unfold prefix_lang. destruct (pattern re1) as [r e]. split.
    + intros (w & post & -> & Hw & Hp). by exists [], w, post.
    + intros (pre & w & post & -> & Hw & Hs & Hp). rewrite (Hs eq_refl). by exists w, post.
  - rewrite match_at_any_spec. unfold prefix_lang. destruct (pattern (c :: re1)) as [r e].
    apply occurs_unanchored.
Qed.

(** ** The output of grep *)

(** The complete lines of a file, and what follows the last newline. *)
Fixpoint split_lines (l : list Z) : list (list Z) * list Z :=
  match l with
  | [] => ([], [])
  | c :: l =>
      let '(ls, r) := split_lines l in
      if c =? 10 then ([] :: ls, r)
      else match ls with [] => ([], c :: r) | x :: ls => ((c :: x) :: ls, r) end
  end.

(** The lines before the first one that does not fit into the buffer. *)
Fixpoint until_long (ls : list (list Z)) : list (list Z) :=
  match ls with
  | [] => []
  | x :: ls => if decide (length x + 1 < BUFSIZE)%nat then x :: until_long ls else []
  end.

Definition print_lines (pattern : list Z) (ls : list (list Z)) : list Z :=
  flat_map (λ x, x ++ [10]) (filter (λ x, match_ pattern x = true) ls).

Definition grep_spec (pattern l : list Z) : list Z := print_lines pattern (until_long (split_lines l).1).

Lemma split_lines_app a b :
  split_lines (a ++ b) =
    let '(l1, r1) := split_lines a in
    let '(l2, r2) := split_lines (r1 ++ b) in (l1 ++ l2, r2).
Proof.
  induction a as [|c a IH]; [cbn; by destruct (split_lines b)|]. cbn [app split_lines]. rewrite IH.
  destruct (split_lines a) as [l1 r1]. destruct (Z.eqb_spec c 10) as [->|Hc].
  - by destruct (split_lines (r1 ++ b)).
  - destruct l1 as [|x l1]; cbn [app split_lines].
    + rewrite (proj2 (Z.eqb_neq c 10) Hc). by destruct (split_lines (r1 ++ b)) as [[|]].
    + by destruct (split_lines (r1 ++ b)).
Qed.

Lemma split_lines_none l : 10 ∉ l → split_lines l = ([], l).
Proof.
  induction l as [|c l IH]; [done|]. intros [Hc Hl]%not_elem_of_cons. cbn. rewrite IH by done.
  by rewrite (proj2 (Z.eqb_neq c 10)) by done.
Qed.

Lemma split_lines_rest l : 10 ∉ (split_lines l).2.
Proof.
  induction l as [|c l IH]; [apply not_elem_of_nil|]. cbn. destruct (split_lines l) as [ls r]. cbn in IH.
  destruct (Z.eqb_spec c 10); [done|]. destruct ls; [|done]. apply not_elem_of_cons. done.
Qed.

Lemma split_lines_first x l : 10 ∉ x → split_lines (x ++ 10 :: l) = (x :: (split_lines l).1, (split_lines l).2).
Proof.
  intros Hx. rewrite split_lines_app, split_lines_none by done. cbn -[split_lines].
  induction x as [|c x IH]; [cbn; by destruct (split_lines l)|]. apply not_elem_of_cons in Hx as [Hc Hx].
  specialize (IH Hx). cbn. destruct (split_lines (x ++ 10 :: l)) as [l2 r2]. injection IH as -> ->.
  by rewrite (proj2 (Z.eqb_neq c 10)) by done.
Qed.

(** Every line is shorter than the text it comes from. *)
Lemma split_lines_length l x : x ∈ (split_lines l).1 → (length x < length l)%nat.
Proof.
  revert x. induction l as [|c l IH]; intros x; [by intros ?%not_elem_of_nil|]. cbn.
  destruct (split_lines l) as [ls r]. cbn in IH. destruct (c =? 10).
  - cbn. intros [->|Hx]%elem_of_cons; [cbn; lia|]. specialize (IH x Hx). lia.
  - destruct ls as [|y ls]; cbn; [by intros ?%not_elem_of_nil|]. intros [->|Hx]%elem_of_cons.
    + specialize (IH y ltac:(left)). cbn. lia.
    + specialize (IH x ltac:(by right)). lia.
Qed.

Lemma strchr_newline p :
  Forall (λ x, x ≠ 0) p →
  ((10 ∉ p) ∧ strchr (p ++ [0]) 10 = Some None) ∨
  (∃ x l, p = x ++ 10 :: l ∧ (10 ∉ x) ∧ strchr (p ++ [0]) 10 = Some (Some (length x))).
Proof.
  intros Hp. rewrite (strchr_nul p 10 []) by done.
  destruct (list_find (λ x, x = 10) p) as [[q c]|] eqn:E.
  - right. apply list_find_Some in E as (Hq & -> & Hlt). exists (take q p), (drop (S q) p).
    pose proof (lookup_lt_Some _ _ _ Hq). split; [by rewrite take_drop_middle|]. split.
    + intros (i & Hi)%list_elem_of_lookup. apply lookup_take_Some in Hi as [Hi ?]. by eapply Hlt.
    + rewrite length_take_le by lia. done.
  - left. split; [|done]. intros Hin. apply list_find_None in E. rewrite Forall_forall in E. by apply (E 10).
Qed.

Lemma print_lines_app pattern l1 l2 :
  print_lines pattern (l1 ++ l2) = print_lines pattern l1 ++ print_lines pattern l2.
Proof. unfold print_lines. by rewrite filter_app, flat_map_app. Qed.

Lemma grep_lines_spec fuel pattern p :
  Forall (λ x, x ≠ 0) p → (length p ≤ fuel)%nat →
  grep_lines fuel pattern p = (print_lines pattern (split_lines p).1, (split_lines p).2).
Proof.
  revert p. induction fuel as [|fuel IH]; intros p Hp Hf.
  { destruct p; [done|cbn in Hf; lia]. }
  cbn [grep_lines]. destruct (strchr_newline p Hp) as [[Hn ->]|(x & l & -> & Hx & ->)].
  { by rewrite split_lines_none. }
  apply Forall_app in Hp as [_ Hp]. apply Forall_cons in Hp as [_ Hl].
  rewrite length_app in Hf. cbn in Hf. rewrite (split_lines_first x l Hx).
  replace (x ++ 10 :: l) with ((x ++ [10]) ++ l) by (by rewrite <- app_assoc).
  assert (S (length x) = length (x ++ [10])) as El by (rewrite length_app; cbn; lia).
  rewrite El, drop_app_length, take_app_length, IH by (done || lia).
  rewrite <- app_assoc, take_app_length. cbn [fst snd]. f_equal.
  change (x :: (split_lines l).1) with ([x] ++ (split_lines l).1). rewrite print_lines_app. f_equal.
  unfold print_lines. destruct (match_ pattern x) eqn:E.
  - rewrite filter_cons_True by done. cbn. by rewrite app_nil_r.
  - by rewrite filter_cons_False by congruence.
Qed.

Lemma until_long_app l1 l2 :
  Forall (λ x, (length x + 1 < BUFSIZE)%nat) l1 → until_long (l1 ++ l2) = l1 ++ until_long l2.
Proof. induction 1 as [|x l1 Hx _ IH]; [done|]. cbn. by rewrite decide_True, IH. Qed.

(** The text in the buffer and what follows in the file. *)
Lemma grep_spec_app pattern a b :
  (length a < BUFSIZE)%nat →
  grep_spec pattern (a ++ b) = print_lines pattern (split_lines a).1 ++ grep_spec pattern ((split_lines a).2 ++ b).
Proof.
  intros Ha. unfold grep_spec. rewrite split_lines_app. pose proof (split_lines_length a) as Hl.
  destruct (split_lines a) as [l1 r1]. destruct (split_lines (r1 ++ b)) as [l2 r2] eqn:E. cbn [fst snd] in *.
  rewrite until_long_app, print_lines_app, E; [done|]. apply Forall_forall. intros x Hx.
  specialize (Hl x Hx). lia.
Qed.

Lemma grep_spec_stuck pattern a b :
  10 ∉ a → (BUFSIZE - length a - 1 = 0)%nat → grep_spec pattern (a ++ b) = [].
Proof.
  intros Ha Hl. unfold grep_spec. rewrite split_lines_app, split_lines_none by done. cbn [app].
  destruct (split_lines (a ++ b)) as [[|x ls] r] eqn:E; [done|]. cbn [fst until_long].
  rewrite decide_False; [done|]. assert (length a ≤ length x)%nat; [|lia].
  clear Hl. revert x ls r E. induction a as [|c a IH]; intros x ls r E; [cbn; lia|].
  apply not_elem_of_cons in Ha as [Hc Ha]. cbn in E. destruct (split_lines (a ++ b)) as [[|y ls'] r'] eqn:E'.
  - by rewrite (proj2 (Z.eqb_neq c 10)) in E by done.
  - rewrite (proj2 (Z.eqb_neq c 10)) in E by done. injection E as <- <- <-. cbn.
    specialize (IH Ha y ls' r' eq_refl). lia.
Qed.

Lemma split_lines_tail (P : Z → Prop) l :
  Forall P l → Forall P (split_lines l).2 ∧ (length (split_lines l).2 ≤ length l)%nat.
Proof.
  induction 1 as [|c l Hc _ IH]; [done|]. cbn. destruct (split_lines l) as [ls r]. cbn in IH.
  destruct IH as [IH1 IH2]. destruct (c =? 10); cbn; [split; [done|lia]|].
  destruct ls; cbn; split; try lia; [by constructor|done].
Qed.

Lemma grep_loop_spec {St} `{!Stream St} fuel pattern buf (fd : St) :
  Forall (λ x, x ≠ 0) (buf ++ rest fd) → 10 ∉ buf → (length buf < BUFSIZE)%nat →
  (length (rest fd) < fuel)%nat →
  grep_loop fuel pattern buf fd = Some (grep_spec pattern (buf ++ rest fd)).
Proof.
  revert buf fd. induction fuel as [|fuel IH]; intros buf fd H0 Hb Hl Hf; [lia|]. cbn [grep_loop].
  set (n := (BUFSIZE - length buf - 1)%nat).
  pose proof (read_rest fd n) as Hr. pose proof (read_le fd n) as Hle. pose proof (read_some fd n) as Hs.
  destruct (read fd n) as [bs fd'] eqn:E. cbn [fst snd] in *. destruct bs as [|c bs'] eqn:Ebs.
  - f_equal. symmetry. destruct (decide (n = 0)%nat) as [En|En]; [by apply grep_spec_stuck|].
    destruct (rest fd) eqn:Erest; [|by destruct Hs; [lia|..]].
    rewrite app_nil_r. unfold grep_spec. by rewrite split_lines_none.
  - assert (0 < length bs)%nat as Hne by (rewrite Ebs; cbn; lia). rewrite <- Ebs in *. clear Ebs.
    rewrite Hr, app_assoc in H0. apply Forall_app in H0 as [H0 H1].
    rewrite grep_lines_spec by (done || lia).
    pose proof (split_lines_tail _ _ H0) as [H2 H3]. rewrite length_app in H3.
    rewrite Hr, length_app in Hf. rewrite Hr, app_assoc, grep_spec_app by (rewrite length_app; lia).
    rewrite IH; [done|by apply Forall_app|apply split_lines_rest|lia|lia].
Qed.

(** C23: grep() of a file without NUL bytes returns, however read() cuts the file
    into pieces, and prints, in order and with their newlines, the lines that match
    the pattern, up to the first line that does not fit into its buffer of 1024
    bytes; text after the last newline is not looked at. *)
Theorem grep_correct {St} `{!Stream St} pattern (fd : St) :
  Forall (λ x, x ≠ 0) (rest fd) → grep pattern fd = Some (grep_spec pattern (rest fd)).
Proof.
  intros H. apply (grep_loop_spec _ pattern [] fd); [done|apply not_elem_of_nil|unfold BUFSIZE; cbn; lia|lia].
Qed.

(** Three lines, read four bytes at a time. *)
Lemma grep_correct_witness :
  grep (str "^a.*c$") (str (String.append "abbc" (String.append nl (String.append "xabc" (String.append nl "ac")))) ++ [10], repeat 4%nat 9)
  = Some (str (String.append "abbc" (String.append nl (String.append "ac" nl)))).
Proof.
  rewrite grep_correct; [vm_compute; reflexivity|].
  apply (bool_decide_unpack _). vm_compute. exact I.
Defined.
