(* ===== verification/Mkfs.v ===== *)
(** * The file system image (mkfs/mkfs.c)

    mkfs runs on the host and writes the disk image the kernel boots from.  Its
    state is the image file, as the list of its sectors, and the two counters
    [freeinode] and [freeblock].  The host is little-endian, its file accepts
    every write, and reading it past its end comes back short, which mkfs dies
    of.  A [struct dinode] is the on-disk part of an [inode]; die() and a failed
    assert() are [Panic]s with the text they print.

    The theorem: for any files that fit, mkfs ends and the image is one whose
    inodes, block maps, directory and bitmap are what the kernel's functions of
    Fs.v read, with the files' contents in it. *)

From Stdlib Require Import ZArith Lia.
From stdpp Require Import base numbers strings option list gmap.
From S2P Require Import Prelude Params Machine Cstring Bio Log LogFacts Fs FsFacts Ulib.

Open Scope Z_scope.

Record image := mkImage { sectors : list (list Z); freeinode : Z; freeblock : Z }.
#[export] Instance eta_image : Settable image := λ i, mkImage (sectors i) (freeinode i) (freeblock i).

(** ** Byte order and layout *)

Definition xshort (x : Z) : Z := half_at (half_bytes x) 0.
Definition xint (x : Z) : Z := word_at (word_bytes x) 0.

Definition NINODES : Z := 200.
Definition nbitmap : Z := FSSIZE / (BSIZE * 8) + 1.
Definition ninodeblocks : Z := NINODES / IPB + 1.
Definition nlog : Z := LOGSIZE.
Definition nmeta : Z := 2 + nlog + ninodeblocks + nbitmap.
Definition nblocks : Z := FSSIZE - nmeta.

Definition sb : superblock :=
  mkSuperblock FSMAGIC (xint FSSIZE) (xint nblocks) (xint NINODES) (xint nlog) (xint 2)
    (xint (2 + nlog)) (xint (2 + nlog + ninodeblocks)).

(** The bytes of the struct. *)
Definition sb_bytes (b : superblock) : list Z :=
  mjoin (word_bytes <$> [sb_magic b; sb_size b; sb_nblocks b; sb_ninodes b; sb_nlog b;
                         sb_logstart b; sb_inodestart b; sb_bmapstart b]).

(** ** Sectors *)

(** lseek() to [sec * BSIZE], a 32-bit product. *)
Definition seek (sec : Z) : nat := Z.to_nat (u32 (sec * BSIZE) / BSIZE).

(** A write past the end of the file leaves a hole of zeroes before it. *)
Definition wsect (sec : Z) (buf : list Z) : M image () :=
  modify (λ i, i <| sectors ::= λ l, <[seek sec := buf]> (l ++ replicate (S (seek sec) - length l) zero_block) |>).

Definition rsect (sec : Z) : M image (list Z) := λ i,
  match sectors i !! seek sec with Some b => Ret b i | None => Panic "read" i end.

(** ** Inodes *)

Definition winode (inum : Z) (ip : inode) : M image () :=
  let bn := IBLOCK inum sb in
  buf ← rsect bn;
  wsect bn (dinode_put buf (dinode_off inum) ip).

Definition rinode (inum : Z) : M image inode :=
  let bn := IBLOCK inum sb in
  buf ← rsect bn;
  mret (dinode_get buf (dinode_off inum) inode0).

Definition ialloc (type : Z) : M image Z :=
  inum ← Prelude.gets freeinode;
  modify (λ i, i <| freeinode := u32 (inum + 1) |>);;
  let din := inode0 <| i_type := i16 (xshort type) |> <| i_nlink := i16 (xshort 1) |> <| i_size := xint 0 |> in
  winode inum din;;
  mret inum.

(** [freeblock++] *)
Definition next_block : M image Z :=
  b ← Prelude.gets freeblock;
  modify (λ i, i <| freeblock := u32 (b + 1) |>);;
  mret b.

Definition balloc (used : Z) : M image () :=
  if negb (used <? BSIZE * 8) then panic "used < BSIZE*8"
  else wsect (sb_bmapstart sb) (foldl bit_mark zero_block (seqZ 0 used)).

(** [if(din.addrs[i] == 0) din.addrs[i] = freeblock++;] *)
Definition ensure_addr (din : inode) (i : nat) : M image inode :=
  if xint (addr_at din i) =? 0 then
    b ← next_block;
    mret (din <| i_addrs ::= λ l, <[i := xint b]> l |>)
  else mret din.

(** The sector of block [fbn] of the file, allocated if need be. *)
Definition append_block (din : inode) (fbn : Z) : M image (Z * inode) :=
  if fbn <? NDIRECT then
    din ← ensure_addr din (Z.to_nat fbn);
    mret (xint (addr_at din (Z.to_nat fbn)), din)
  else
    din ← ensure_addr din NDIRECT;
    let k := (4 * Z.to_nat (fbn - NDIRECT))%nat in
    indirect ← rsect (xint (addr_at din NDIRECT));
    if word_at indirect k =? 0 then
      b ← next_block;
      let indirect := put_word indirect k (xint b) in
      wsect (xint (addr_at din NDIRECT)) indirect;;
      mret (xint (word_at indirect k), din)
    else mret (xint (word_at indirect k), din).

Definition iappend_body (st : inode * Z * list Z) : M image (inode * Z * list Z + inode * Z) :=
  let '(din, off, p) := st in
  let n := Z.of_nat (length p) in
  if negb (0 <? n) then mret (inr (din, off))
  else
    let fbn := off / BSIZE in
    if negb (fbn <? MAXFILE) then panic "fbn < MAXFILE"
    else
      r ← append_block din fbn;
      let '(x, din) := r in
      let n1 := Z.min n ((fbn + 1) * BSIZE - off) in
      buf ← rsect x;
      wsect x (list_inserts (Z.to_nat (off - fbn * BSIZE)) (take (Z.to_nat n1) p) buf);;
      mret (inl (din, off + n1, drop (Z.to_nat n1) p)).

Definition iappend (inum : Z) (p : list Z) : M image () :=
  din ← rinode inum;
  r ← loop (S (length p)) iappend_body (din, xint (i_size din), p);
  let '(din, off) := r in
  winode inum (din <| i_size := xint off |>).

(** ** Names *)

(** The name of a file in the root directory, from the path of its host file. *)
Definition without_user (path : list Z) : list Z :=
  if bool_decide (take 5 path = str "user/") then drop 5 path else path.
Definition without_bar (name : list Z) : list Z :=
  match name with c :: name' => if c =? 95 then name' else name | [] => [] end.
Definition shortname (path : list Z) : list Z := without_bar (without_user path).

(** strncpy() into [de.name] *)
Definition dir_name (name : list Z) : list Z := resize DIRSIZ 0 name.
Definition mk_dirent (inum : Z) (name : list Z) : list Z := dirent_bytes (mkDirent (xshort inum) (dir_name name)).

(** ** main() *)

Section main.
Context {St : Type} `{!Stream St} (host_open : list Z → option St) (host_creat : list Z → bool).

Definition copy_body (inum : Z) (s : St) : M image (St + ()) :=
  let '(buf, s) := read s (Z.to_nat BSIZE) in
  if negb (0 <? Z.of_nat (length buf)) then mret (inr ())
  else iappend inum buf;; mret (inl s).

Definition add_file (rootino : Z) (arg : list Z) : M image () :=
  if bool_decide (47 ∈ without_user arg) then panic "index(shortname, '/') == 0"
  else
    match host_open arg with
    | None => panic "open"
    | Some fd =>
        inum ← ialloc T_FILE;
        iappend rootino (mk_dirent inum (shortname arg));;
        loop (S (length (rest fd))) (copy_body inum) fd
    end.

Definition main (argv : list (list Z)) : M image () :=
  match argv with
  | _ :: img :: files =>
      if negb (host_creat img) then panic "open"
      else
        modify (λ i, i <| freeblock := nmeta |>);;
        for_each (seqZ 0 FSSIZE) (λ i, wsect i zero_block);;
        wsect 1 (list_inserts 0 (sb_bytes sb) zero_block);;
        rootino ← ialloc T_DIR;
        if negb (rootino =? ROOTINO) then panic "rootino == ROOTINO"
        else
          iappend rootino (mk_dirent rootino (str "."));;
          iappend rootino (mk_dirent rootino (str ".."));;
          for_each files (add_file rootino);;
          din ← rinode rootino;
          let off := u32 ((xint (i_size din) / BSIZE + 1) * BSIZE) in
          winode rootino (din <| i_size := xint off |>);;
          used ← Prelude.gets freeblock;
          balloc used
  | _ => panic "Usage: mkfs fs.img files..."
  end.
End main.

(** The state main() starts in: the image is created empty. *)
Definition image0 : image := mkImage [] 1 0.

(** ** Lists filled up with zeroes *)

Lemma resize_lookup (n i : nat) (l : list Z) : (i < n)%nat → resize n 0 l !! i = Some (default 0 (l !! i)).
Proof.
  intros Hi. destruct (l !! i) as [x|] eqn:E; cbn.
  - rewrite lookup_resize; [done|done|by eapply lookup_lt_Some].
  - apply lookup_resize_new; [by apply lookup_ge_None|done].
Qed.

Lemma resize_ext n (l l' : list Z) : (∀ i, (i < n)%nat → default 0 (l !! i) = default 0 (l' !! i)) → resize n 0 l = resize n 0 l'.
Proof.
  intros H. apply list_eq. intros i. destruct (decide (i < n)%nat).
  - rewrite !resize_lookup by done. by rewrite H.
  - by rewrite !lookup_resize_old by lia.
Qed.

Lemma resize_nil n : resize n 0 [] = replicate n 0.
Proof. by destruct n. Qed.

Lemma inserts_resize n (l q : list Z) :
  (length l + length q ≤ n)%nat → list_inserts (length l) q (resize n 0 l) = resize n 0 (l ++ q).
Proof.
  intros Hn. apply list_eq. intros i. destruct (decide (i < n)%nat) as [Hi|Hi].
  - rewrite (resize_lookup n i (l ++ q)) by done. destruct (decide (i < length l)%nat).
    { rewrite list_lookup_inserts_lt, resize_lookup, lookup_app_l by done. done. }
    rewrite lookup_app_r by lia. destruct (decide (i < length l + length q)%nat).
    + rewrite list_lookup_inserts; rewrite ?length_resize; [|lia|lia].
      destruct (lookup_lt_is_Some_2 q (i - length l)) as [x ->]; [lia|done].
    + rewrite list_lookup_inserts_ge, resize_lookup by lia. rewrite !(proj2 (lookup_ge_None _ _)) by lia. done.
  - rewrite lookup_resize_old by lia. apply lookup_ge_None. rewrite length_inserts, length_resize. lia.
Qed.

Lemma insert_resize n (l : list Z) x : (length l < n)%nat → <[length l := x]> (resize n 0 l) = resize n 0 (l ++ [x]).
Proof. intros H. rewrite <-(inserts_resize n l [x]) by (cbn; lia). done. Qed.

(** Bytes appended after a full block do not show in it. *)
Lemma resize_drop_app n k (l q : list Z) : (n + k ≤ length l)%nat → resize n 0 (drop k (l ++ q)) = resize n 0 (drop k l).
Proof. intros H. apply resize_ext. intros i Hi. by rewrite !lookup_drop, lookup_app_l by lia. Qed.

(** ** A table of words *)

Definition table (l : list Z) : list Z := mjoin (word_bytes <$> resize NINDIRECT 0 l).

Lemma length_table l : length (table l) = 1024%nat.
Proof. unfold table. by rewrite length_words, length_resize. Qed.

Lemma table_nil : table [] = zero_block.
Proof. reflexivity. Qed.

Lemma table_word l k : (k < NINDIRECT)%nat → Forall (λ a, 0 ≤ a < 2 ^ 32) l → word_at (table l) (4 * k) = default 0 (l !! k).
Proof.
  intros Hk Hl. apply word_of_bytes.
  - destruct (l !! k) as [a|] eqn:E; [by eapply (Forall_lookup_1 _ _ _ _ Hl)|cbn; lia].
  - intros j Hj. apply words_lookup; [by apply resize_lookup|done].
Qed.

Lemma inserts_words (l : list Z) k x : (k < length l)%nat →
  put_word (mjoin (word_bytes <$> l)) (4 * k) x = mjoin (word_bytes <$> <[k := x]> l).
Proof.
  intros Hk. unfold put_word. revert k Hk. induction l as [|y l IH]; intros k Hk; [cbn in Hk; lia|].
  destruct k as [|k]; [done|]. cbn in Hk. change (<[S k := x]> (y :: l)) with (y :: <[k := x]> l). rewrite !fmap_cons.
  change (mjoin (word_bytes y :: ?m)) with (word_bytes y ++ mjoin m). rewrite <-IH by lia.
  replace (4 * S k)%nat with (length (word_bytes y) + 4 * k)%nat by (cbn; lia). generalize (mjoin (word_bytes <$> l)) as m.
  generalize (4 * k)%nat as p. intros p m. apply list_eq. intros i. set (a := word_bytes y).
  destruct (decide (i < length a)%nat).
  - rewrite list_lookup_inserts_lt, !lookup_app_l by lia. done.
  - rewrite lookup_app_r by lia. destruct (decide (i < length a + p)%nat).
    + rewrite !list_lookup_inserts_lt, lookup_app_r by lia. done.
    + destruct (decide (i < length a + p + 4)%nat).
      * destruct (decide (i < length a + length m)%nat).
        -- rewrite !list_lookup_inserts; rewrite ?length_app; cbn [length word_bytes]; try lia. f_equal. lia.
        -- rewrite !(proj2 (lookup_ge_None _ _)); rewrite ?length_inserts, ?length_app; (done || lia).
      * rewrite !list_lookup_inserts_ge, lookup_app_r by (cbn [length word_bytes]; lia). done.
Qed.

Lemma table_snoc l x : (length l < NINDIRECT)%nat → put_word (table l) (4 * length l) x = table (l ++ [x]).
Proof. intros H. unfold table. rewrite inserts_words by (by rewrite length_resize). by rewrite insert_resize. Qed.

(** ** Sectors of an image *)

Lemma xint_small x : 0 ≤ x < 2 ^ 32 → xint x = x.
Proof. intros Hx. unfold xint. apply word_of_bytes; [done|]. by intros. Qed.

Definition sector (i : image) (n : Z) : list Z := default [] (sectors i !! Z.to_nat n).

(** The inode as the kernel's ilock() reads it. *)
Definition disk_inode (i : image) (inum : Z) : inode :=
  dinode_get (sector i (IBLOCK inum sb)) (dinode_off inum) inode0.

(** Every sector of the image is there. *)
Definition full (i : image) : Prop :=
  Z.of_nat (length (sectors i)) = FSSIZE ∧ Forall (λ b : list Z, length b = 1024%nat) (sectors i).

Definition put_sector (n : Z) (b : list Z) (i : image) : image := i <| sectors ::= λ l, <[Z.to_nat n := b]> l |>.

Lemma seek_small n : 0 ≤ n < FSSIZE → seek n = Z.to_nat n.
Proof. unfold FSSIZE. intros Hn. unfold seek, BSIZE. rewrite u32_small, Z.div_mul by lia. done. Qed.

Lemma sector_lookup i n : full i → 0 ≤ n < FSSIZE → sectors i !! Z.to_nat n = Some (sector i n).
Proof.
  intros [Hl _] Hn. unfold sector. destruct (lookup_lt_is_Some_2 (sectors i) (Z.to_nat n)) as [b Hb]; [lia|]. by rewrite Hb.
Qed.

Lemma length_sector i n : full i → 0 ≤ n < FSSIZE → length (sector i n) = 1024%nat.
Proof. intros Hf Hn. apply (Forall_lookup_1 _ _ _ _ (proj2 Hf) (sector_lookup i n Hf Hn)). Qed.

Lemma rsect_eq i n : full i → 0 ≤ n < FSSIZE → rsect n i = Ret (sector i n) i.
Proof. intros Hf Hn. unfold rsect. by rewrite seek_small, sector_lookup by done. Qed.

Lemma wsect_eq i n b : full i → 0 ≤ n < FSSIZE → wsect n b i = Ret () (put_sector n b i).
Proof.
  intros [Hl _] Hn. unfold wsect, put_sector. msimpl. rewrite seek_small by done. cbn.
  by rewrite (proj2 (Nat.sub_0_le _ _)), app_nil_r by lia.
Qed.

Lemma full_put i n b : full i → length b = 1024%nat → full (put_sector n b i).
Proof. intros [Hl Hf] Hb. split; cbn; [by rewrite length_insert|by apply Forall_insert]. Qed.

Lemma sector_put i n b m : full i → 0 ≤ n < FSSIZE → 0 ≤ m → sector (put_sector n b i) m = if decide (m = n) then b else sector i m.
Proof.
  intros [Hl _] Hn Hm. unfold sector, put_sector. cbn. case_decide as E.
  - rewrite E, list_lookup_insert_eq by lia. done.
  - rewrite list_lookup_insert_ne by lia. done.
Qed.

(** Where the inodes are. *)
Lemma IBLOCK_range inum : 0 ≤ inum < 208 → IBLOCK inum sb = inum / 16 + 32 ∧ 32 ≤ IBLOCK inum sb < 45.
Proof.
  intros H. unfold IBLOCK. change (sb_inodestart sb) with 32. change IPB with 16.
  rewrite u32_small; Z.to_euclidean_division_equations; lia.
Qed.

Lemma dinode_off_range inum : (dinode_off inum + 64 ≤ 1024)%nat.
Proof.
  unfold dinode_off, DINODE_SIZE. change IPB with 16. pose proof (Z.mod_pos_bound inum 16 eq_refl). nia.
Qed.

Lemma dinode_off_ne i j : 0 ≤ i → 0 ≤ j → i ≠ j → i / 16 = j / 16 → (dinode_off i + 64 ≤ dinode_off j ∨ dinode_off j + 64 ≤ dinode_off i)%nat.
Proof.
  intros Hi Hj Hne E. unfold dinode_off, DINODE_SIZE. change IPB with 16.
  pose proof (Z.div_mod i 16 ltac:(done)). pose proof (Z.div_mod j 16 ltac:(done)).
  pose proof (Z.mod_pos_bound i 16 eq_refl). pose proof (Z.mod_pos_bound j 16 eq_refl). nia.
Qed.

(** An inode that is only what the disk holds. *)
Definition on_disk (x : inode) : Prop :=
  inode0 <| i_type := i_type x |> <| i_major := i_major x |> <| i_minor := i_minor x |> <| i_nlink := i_nlink x |>
    <| i_size := i_size x |> <| i_addrs := i_addrs x |> = x.

Lemma rinode_eq i inum : full i → 0 ≤ inum < 208 → rinode inum i = Ret (disk_inode i inum) i.
Proof.
  intros Hf Hn. unfold rinode. msimpl. destruct (IBLOCK_range inum Hn). mrun rsect_eq by (done || (unfold FSSIZE; lia)). done.
Qed.

(** winode() writes one inode. *)
Lemma winode_eq i inum x :
  full i → 0 ≤ inum < 208 → dinode_ok x → on_disk x →
  ∃ i', winode inum x i = Ret () i' ∧ full i' ∧ freeinode i' = freeinode i ∧ freeblock i' = freeblock i ∧
    (∀ n, 0 ≤ n → n < 32 ∨ 45 ≤ n → sector i' n = sector i n) ∧
    ∀ j, 0 ≤ j < 208 → disk_inode i' j = if decide (j = inum) then x else disk_inode i j.
Proof.
  intros Hf Hn Hok Hx. destruct (IBLOCK_range inum Hn) as [E Hr]. unfold winode. msimpl.
  assert (0 ≤ IBLOCK inum sb < FSSIZE) as Hb by (unfold FSSIZE; lia). mrun rsect_eq by done. rewrite wsect_eq by done.
  pose proof (length_sector i _ Hf Hb) as Hl. pose proof (dinode_off_range inum).
  eexists. split; [done|]. split; [apply full_put; [done|by rewrite length_dinode_put]|]. do 2 (split; [done|]). split.
  - intros n Hn0 Hout. rewrite sector_put by done. by rewrite decide_False by lia.
  - intros j Hj. unfold disk_inode. destruct (IBLOCK_range j Hj) as [Ej Hrj]. rewrite sector_put by (done || lia). case_decide as D.
    + rewrite D. destruct (decide (j = inum)) as [->|Hne]; [rewrite dinode_get_put by (done || lia); exact Hx|].
      apply dinode_get_ext. intros k Hk. apply dinode_put_out; [apply Hok|].
      destruct (dinode_off_ne j inum); lia.
    + rewrite decide_False by (intros ->; done). done.
Qed.

(** ** Files in an image

    [ent]: a file while mkfs builds it, its contents and the sectors it has, the
    data blocks in order and the indirect block or 0. *)

Record ent := mkEnt { e_type : Z; e_data : list Z; e_blks : list Z; e_ind : Z }.

Definition ent_blocks (e : ent) : list Z := e_blks e ++ (if e_ind e =? 0 then [] else [e_ind e]).

(** Its disk inode when its size field is [sz]. *)
Definition ent_din (sz : Z) (e : ent) : inode :=
  inode0 <| i_type := e_type e |> <| i_nlink := 1 |> <| i_size := sz |>
         <| i_addrs := resize NDIRECT 0 (e_blks e) ++ [e_ind e] |>.
Definition ent_inode (e : ent) : inode := ent_din (length (e_data e)) e.

(** The sectors [v] hold the file; what is left of its last block is zero. *)
Record ent_wf (v : Z → list Z) (e : ent) : Prop := {
  ew_ind : e_ind e = 0 ↔ (length (e_blks e) ≤ NDIRECT)%nat;
  ew_table : (NDIRECT < length (e_blks e))%nat → v (e_ind e) = table (drop NDIRECT (e_blks e));
  ew_max : length (e_blks e) ≤ MAXFILE;
  ew_room : (length (e_data e) ≤ 1024 * length (e_blks e))%nat;
  ew_data : ∀ k a, e_blks e !! k = Some a → v a = resize 1024 0 (drop (1024 * k) (e_data e));
}.

Lemma ent_wf_ext v v' e : (∀ a, a ∈ ent_blocks e → v' a = v a) → ent_wf v e → ent_wf v' e.
Proof.
  intros Hv [H1 H2 H3 H4 H5]. split; try done.
  - intros Hl. rewrite Hv; [auto|]. unfold ent_blocks. destruct (Z.eqb_spec (e_ind e) 0); [lia|].
    apply elem_of_app. right. by left.
  - intros k a Hk. rewrite Hv; [eauto|]. apply elem_of_app. left. by eapply list_elem_of_lookup_2.
Qed.

(** Data blocks and sectors of a file of [n] bytes. *)
Definition nblk (n : Z) : Z := (n + BSIZE - 1) / BSIZE.
Definition cost (n : Z) : Z := nblk n + (if NDIRECT <? nblk n then 1 else 0).
Definition tight (e : ent) : Prop := Z.of_nat (length (e_blks e)) = nblk (length (e_data e)).

(** The image while mkfs runs: the files [F], inode 1 first.  The inode of
    [cur] is in memory and not on the disk yet. *)
Record inv (i : image) (F : list ent) (cur : option nat) : Prop := {
  iv_full : full i;
  iv_sb : sector i 1 = list_inserts 0 (sb_bytes sb) zero_block;
  iv_ino : freeinode i = length F + 1 ∧ length F + 1 ≤ NINODES;
  iv_fb : nmeta ≤ freeblock i ≤ FSSIZE;
  iv_perm : mjoin (ent_blocks <$> F) ≡ₚ seqZ nmeta (freeblock i - nmeta);
  iv_zero : ∀ n, freeblock i ≤ n < FSSIZE → sector i n = zero_block;
  iv_wf : ∀ k e, F !! k = Some e → ent_wf (sector i) e ∧ - 2 ^ 15 ≤ e_type e < 2 ^ 15;
  iv_disk : ∀ k e, F !! k = Some e → cur ≠ Some k → disk_inode i (k + 1) = ent_inode e ∧ tight e;
  iv_free : ∀ inum, length F < inum < 208 → disk_inode i inum = inode0;
}.

Lemma blocks_elem F k e a : F !! k = Some e → a ∈ ent_blocks e → a ∈ mjoin (ent_blocks <$> F).
Proof.
  intros Hk Ha. apply list_elem_of_join. exists (ent_blocks e). split; [done|]. apply list_elem_of_fmap. exists e.
  split; [done|]. by eapply list_elem_of_lookup_2.
Qed.

Lemma blocks_range i F cur k e a : inv i F cur → F !! k = Some e → a ∈ ent_blocks e → nmeta ≤ a < freeblock i.
Proof. intros HI Hk Ha. pose proof (blocks_elem F k e a Hk Ha) as H. rewrite (iv_perm _ _ _ HI), elem_of_seqZ in H. lia. Qed.

Lemma blocks_nodup i F cur : inv i F cur → NoDup (mjoin (ent_blocks <$> F)).
Proof. intros HI. rewrite (iv_perm _ _ _ HI). apply NoDup_seqZ. Qed.

(** Changing one file's blocks. *)
Lemma blocks_insert F k e e' l :
  F !! k = Some e → ent_blocks e' ≡ₚ l ++ ent_blocks e →
  mjoin (ent_blocks <$> <[k := e']> F) ≡ₚ l ++ mjoin (ent_blocks <$> F).
Proof.
  intros Hk He. revert k Hk. induction F as [|y F IH]; intros k Hk; [done|]. destruct k as [|k]; cbn in *.
  - injection Hk as ->. rewrite He. by rewrite app_assoc.
  - rewrite (IH k Hk). rewrite !app_assoc. by rewrite (Permutation_app_comm (ent_blocks y) l).
Qed.

Lemma ent_blocks_nodup i F cur k e : inv i F cur → F !! k = Some e → NoDup (ent_blocks e).
Proof.
  intros HI Hk. pose proof (blocks_nodup _ _ _ HI) as H. clear HI. revert k Hk. induction F as [|y F IH]; intros k Hk; [done|].
  cbn in H. apply NoDup_app in H as (H1 & _ & H2). destruct k; [by injection Hk as ->|by eapply IH].
Qed.

Lemma blocks_disjoint i F cur k k' e e' a :
  inv i F cur → F !! k = Some e → F !! k' = Some e' → k ≠ k' → a ∈ ent_blocks e → a ∉ ent_blocks e'.
Proof.
  intros HI Hk Hk' Hne Ha Ha'. pose proof (blocks_nodup _ _ _ HI) as H. clear HI.
  revert k k' Hk Hk' Hne. induction F as [|y F IH]; intros k k' Hk Hk' Hne; [done|]. cbn in H.
  apply NoDup_app in H as (_ & H1 & H2). destruct k as [|k], k' as [|k']; cbn in Hk, Hk'; simplify_eq.
  - apply (H1 a); [done|]. by eapply blocks_elem.
  - apply (H1 a); [done|]. by eapply blocks_elem.
  - apply (IH H2 k k'); auto.
Qed.

(** Writing to a file's own sectors, old and new. *)
Lemma inv_update i i' F cur e e' :
  inv i F (Some cur) → F !! cur = Some e → full i' → freeinode i' = freeinode i →
  freeblock i ≤ freeblock i' ≤ FSSIZE → e_type e' = e_type e →
  ent_blocks e' ≡ₚ seqZ (freeblock i) (freeblock i' - freeblock i) ++ ent_blocks e →
  (∀ n, 0 ≤ n → n ∉ ent_blocks e' → sector i' n = sector i n) →
  ent_wf (sector i') e' → inv i' (<[cur := e']> F) (Some cur).
Proof.
  intros HI Hk Hf Hi Hb Ht Hp Hs Hw. pose proof (iv_fb _ _ _ HI) as Hfb. assert (0 ≤ nmeta) as Hm by done.
  assert (∀ n, n ∈ ent_blocks e' → nmeta ≤ n < freeblock i') as Hr.
  { intros n Hn. rewrite Hp, elem_of_app, elem_of_seqZ in Hn. destruct Hn as [?|Hn]; [lia|].
    pose proof (blocks_range _ _ _ _ _ _ HI Hk Hn). lia. }
  assert (∀ n, 0 ≤ n < nmeta → sector i' n = sector i n) as Hlow.
  { intros n Hn. apply Hs; [lia|]. intros H%Hr. lia. }
  assert (∀ j, 0 ≤ j < 208 → disk_inode i' j = disk_inode i j) as Hdi.
  { intros j Hj. unfold disk_inode. destruct (IBLOCK_range j Hj). rewrite Hlow; [done|]. change nmeta with 46. lia. }
  split; rewrite ?length_insert; try done.
  - rewrite Hlow by done. apply HI.
  - rewrite Hi. apply HI.
  - lia.
  - rewrite (blocks_insert _ _ _ _ _ Hk Hp), (iv_perm _ _ _ HI), Permutation_app_comm.
    replace (freeblock i' - nmeta) with ((freeblock i - nmeta) + (freeblock i' - freeblock i)) by lia.
    rewrite seqZ_app by lia. by replace (nmeta + (freeblock i - nmeta)) with (freeblock i) by lia.
  - intros n Hn. rewrite Hs; [apply (iv_zero _ _ _ HI); lia|lia|]. intros H%Hr. lia.
  - intros k x Hx. destruct (decide (k = cur)) as [->|Hne].
    + rewrite list_lookup_insert_eq in Hx by (by eapply lookup_lt_Some). injection Hx as <-. split; [done|]. rewrite Ht.
      by apply (iv_wf _ _ _ HI cur).
    + rewrite list_lookup_insert_ne in Hx by done. destruct (iv_wf _ _ _ HI k x Hx) as [Hwx ?]. split; [|done].
      eapply ent_wf_ext; [|exact Hwx]. intros a Ha. pose proof (blocks_range _ _ _ _ _ _ HI Hx Ha).
      apply Hs; [change nmeta with 46 in *; lia|]. rewrite Hp, elem_of_app, elem_of_seqZ. intros [?|H']; [lia|].
      by apply (blocks_disjoint i F (Some cur) k cur x e a).
  - intros k x Hx Hne. rewrite list_lookup_insert_ne in Hx by congruence. destruct (iv_disk _ _ _ HI k x Hx Hne) as [Hd ?].
    split; [|done]. rewrite Hdi; [done|]. pose proof (lookup_lt_Some _ _ _ Hx). destruct (iv_ino _ _ _ HI). unfold NINODES in *. lia.
  - intros inum Hn. rewrite Hdi by lia. by apply (iv_free _ _ _ HI).
Qed.

(** ** Allocating a block of a file *)

Lemma addr_direct sz e k : (k < NDIRECT)%nat → addr_at (ent_din sz e) k = default 0 (e_blks e !! k).
Proof. intros Hk. unfold addr_at. cbn. rewrite lookup_app_l by (by rewrite length_resize). by rewrite resize_lookup by done. Qed.

Lemma addr_ind sz e : addr_at (ent_din sz e) NDIRECT = e_ind e.
Proof. unfold addr_at. cbn. rewrite lookup_app_r; rewrite length_resize; done. Qed.

Lemma next_block_eq i : 0 ≤ freeblock i < FSSIZE → next_block i = Ret (freeblock i) (i <| freeblock := freeblock i + 1 |>).
Proof. unfold FSSIZE. intros H. unfold next_block. msimpl. by rewrite u32_small by lia. Qed.

Lemma blks_range i F cur k e j a : inv i F cur → F !! k = Some e → e_blks e !! j = Some a → 46 ≤ a < FSSIZE.
Proof.
  intros HI Hk Ha. destruct (blocks_range i F cur k e a HI Hk).
  { apply elem_of_app. left. by eapply list_elem_of_lookup_2. }
  pose proof (iv_fb _ _ _ HI). change nmeta with 46 in *. lia.
Qed.

Lemma blks_words i F cur k e n : inv i F cur → F !! k = Some e → Forall (λ a, 0 ≤ a < 2 ^ 32) (drop n (e_blks e)).
Proof.
  intros HI Hk. apply Forall_drop, Forall_lookup_2. intros j a Ha. pose proof (blks_range _ _ _ _ _ _ _ HI Hk Ha).
  unfold FSSIZE in *. lia.
Qed.

Lemma ind_range i F cur k e : inv i F cur → F !! k = Some e → (NDIRECT < length (e_blks e))%nat →
  46 ≤ e_ind e < freeblock i ∧ freeblock i ≤ FSSIZE ∧ e_ind e ∉ e_blks e.
Proof.
  intros HI Hk Hl. destruct (iv_wf _ _ _ HI k e Hk) as [Hw _]. pose proof (ew_ind _ _ Hw) as Hi.
  assert (ent_blocks e = e_blks e ++ [e_ind e]) as E.
  { unfold ent_blocks. destruct (Z.eqb_spec (e_ind e) 0); [lia|done]. }
  destruct (blocks_range i F cur k e (e_ind e) HI Hk); [rewrite E; apply elem_of_app; right; by left|].
  pose proof (iv_fb _ _ _ HI). change nmeta with 46 in *. split; [lia|]. split; [lia|].
  pose proof (ent_blocks_nodup _ _ _ _ _ HI Hk) as Hnd. rewrite E in Hnd. apply NoDup_app in Hnd as (_ & Hnd & _).
  intros Hin. apply (Hnd _ Hin). by left.
Qed.

Lemma append_old i F cur e sz fbn a :
  inv i F (Some cur) → F !! cur = Some e → 0 ≤ fbn → e_blks e !! Z.to_nat fbn = Some a →
  append_block (ent_din sz e) fbn i = Ret (a, ent_din sz e) i.
Proof.
  intros HI Hk Hf Ha. pose proof (blks_range _ _ _ _ _ _ _ HI Hk Ha) as Hr. unfold FSSIZE in Hr.
  assert (xint a = a) as Ex by (apply xint_small; lia). unfold append_block, ensure_addr.
  destruct (Z.ltb_spec fbn NDIRECT) as [Hd|Hd].
  - rewrite addr_direct, Ha by lia. cbn [default id from_option]. rewrite Ex, (proj2 (Z.eqb_neq a 0)) by lia. msimpl.
    by rewrite addr_direct, Ha by lia; cbn [default id from_option]; rewrite Ex.
  - pose proof (lookup_lt_Some _ _ _ Ha) as Hl. destruct (iv_wf _ _ _ HI cur e Hk) as [Hw _].
    destruct (ind_range _ _ _ _ _ HI Hk ltac:(lia)) as ([Hi1 Hi2] & Hi3 & _).
    assert (xint (e_ind e) = e_ind e) as Ei by (apply xint_small; unfold FSSIZE in *; lia).
    rewrite !addr_ind, Ei, (proj2 (Z.eqb_neq (e_ind e) 0)) by lia. msimpl. rewrite addr_ind, Ei.
    mrun rsect_eq by (apply HI || lia). rewrite (ew_table _ _ Hw) by lia. pose proof (ew_max _ _ Hw) as Hm. unfold MAXFILE in Hm.
    rewrite table_word; [|lia|by eapply blks_words]. rewrite lookup_drop.
    replace (NDIRECT + Z.to_nat (fbn - NDIRECT))%nat with (Z.to_nat fbn) by lia. rewrite Ha. cbn [default id from_option].
    rewrite (proj2 (Z.eqb_neq a 0)), Ex by lia. done.
Qed.

Lemma ent_grow v v' e a ind :
  ent_wf v e → length (e_blks e) < MAXFILE → v' a = zero_block → (∀ b, b ∈ e_blks e → v' b = v b) →
  (ind = 0 ↔ (S (length (e_blks e)) ≤ NDIRECT)%nat) →
  ((NDIRECT ≤ length (e_blks e))%nat → v' ind = table (drop NDIRECT (e_blks e) ++ [a])) →
  ent_wf v' (mkEnt (e_type e) (e_data e) (e_blks e ++ [a]) ind).
Proof.
  intros [H1 H2 H3 H4 H5] Hm Ha Hb Hi Ht. split; cbn [e_type e_data e_blks e_ind]; rewrite ?length_app; cbn [length].
  - rewrite Nat.add_1_r. done.
  - intros Hl. rewrite Ht by lia. by rewrite drop_app_le by lia.
  - lia.
  - lia.
  - intros k x [Hx|[-> ->]]%lookup_snoc_Some.
    + destruct Hx as [_ Hx]. rewrite Hb by (by eapply list_elem_of_lookup_2). eauto.
    + rewrite Ha, drop_ge by lia. by rewrite resize_nil.
Qed.

(** A block more at the end of the file. *)
Definition grown (e : ent) (a ind : Z) : ent := mkEnt (e_type e) (e_data e) (e_blks e ++ [a]) ind.

Lemma inv_grow i i' F cur e a ind :
  inv i F (Some cur) → F !! cur = Some e → length (e_blks e) < MAXFILE → full i' → freeinode i' = freeinode i →
  freeblock i ≤ a < freeblock i' → freeblock i' ≤ FSSIZE → a ≠ ind → ind ∉ e_blks e →
  ent_blocks (grown e a ind) ≡ₚ seqZ (freeblock i) (freeblock i' - freeblock i) ++ ent_blocks e →
  (∀ n, 0 ≤ n → (ind ≠ 0 → n ≠ ind) → sector i' n = sector i n) →
  (ind = 0 ↔ (S (length (e_blks e)) ≤ NDIRECT)%nat) →
  ((NDIRECT ≤ length (e_blks e))%nat → sector i' ind = table (drop NDIRECT (e_blks e) ++ [a])) →
  inv i' (<[cur := grown e a ind]> F) (Some cur).
Proof.
  intros HI Hk Hm Hf Hi Ha Hb Hai Hib Hp Hs Hind Ht. pose proof (iv_fb _ _ _ HI) as Hfb. assert (0 < nmeta) as Hnm by done.
  eapply inv_update; try done; [lia|..].
  - intros n Hn Hout. apply Hs; [done|]. intros Hne ->. apply Hout. unfold ent_blocks, grown. cbn.
    rewrite (proj2 (Z.eqb_neq _ _) Hne). apply elem_of_app. right. by left.
  - apply (ent_grow (sector i)); try done.
    + apply (iv_wf _ _ _ HI cur e Hk).
    + rewrite Hs by (done || lia). apply (iv_zero _ _ _ HI). lia.
    + intros b Hbb. apply Hs; [|by intros _ ->]. destruct (blocks_range _ _ _ _ _ b HI Hk); [|lia].
      apply elem_of_app. by left.
Qed.

Lemma ensure_old din k i : 0 < addr_at din k < 2 ^ 32 → ensure_addr din k i = Ret din i.
Proof. intros H. unfold ensure_addr. by rewrite xint_small, (proj2 (Z.eqb_neq (addr_at din k) 0)) by lia. Qed.

Lemma ensure_new din k i :
  addr_at din k = 0 → 0 ≤ freeblock i < FSSIZE →
  ensure_addr din k i = Ret (din <| i_addrs ::= λ l, <[k := freeblock i]> l |>) (i <| freeblock := freeblock i + 1 |>).
Proof.
  intros H Hfb. unfold ensure_addr. rewrite H. change (xint 0 =? 0) with true. msimpl. rewrite next_block_eq by done. msimpl.
  by rewrite xint_small by (unfold FSSIZE in *; lia).
Qed.

Lemma din_direct sz e a :
  (length (e_blks e) < NDIRECT)%nat → e_ind e = 0 →
  ent_din sz e <| i_addrs ::= λ l, <[length (e_blks e) := a]> l |> = ent_din sz (grown e a 0).
Proof.
  intros Hl Hi. unfold ent_din, grown. cbn [e_type e_blks e_ind set i_type i_addrs]. f_equal. rewrite Hi.
  rewrite insert_app_l by (by rewrite length_resize). by rewrite insert_resize.
Qed.

Lemma din_indirect sz e a ind :
  (NDIRECT ≤ length (e_blks e))%nat →
  ent_din sz e <| i_addrs ::= λ l, <[NDIRECT := ind]> l |> = ent_din sz (grown e a ind).
Proof.
  intros Hl. unfold ent_din, grown. cbn [e_type e_blks e_ind set i_type i_addrs]. f_equal.
  rewrite insert_app_r_alt by (by rewrite length_resize). rewrite length_resize, Nat.sub_diag. f_equal.
  symmetry. exact (resize_drop_app NDIRECT 0 (e_blks e) [a] ltac:(lia)).
Qed.

(** Its sector is a new one, and so is the indirect block's if it is the first
    to need one. *)
Lemma append_direct i F cur e sz :
  inv i F (Some cur) → F !! cur = Some e → (length (e_blks e) < NDIRECT)%nat → freeblock i < FSSIZE →
  ∃ i', append_block (ent_din sz e) (length (e_blks e)) i = Ret (freeblock i, ent_din sz (grown e (freeblock i) 0)) i' ∧
    inv i' (<[cur := grown e (freeblock i) 0]> F) (Some cur) ∧ freeblock i' = freeblock i + 1.
Proof.
  intros HI Hk Hl Hfb. pose proof (iv_fb _ _ _ HI) as [Hfb1 _]. assert (0 < nmeta) as Hnm by done.
  destruct (iv_wf _ _ _ HI cur e Hk) as [Hw _]. assert (e_ind e = 0) as Hi by (apply (ew_ind _ _ Hw); lia).
  exists (i <| freeblock := freeblock i + 1 |>). split; [|split; [|done]].
  - unfold append_block. rewrite Nat2Z.id. mif_true. msimpl. rewrite ensure_new; [|by rewrite addr_direct, (proj2 (lookup_ge_None (e_blks e) _)) by lia|lia].
    msimpl. rewrite din_direct, addr_direct by done. unfold grown. cbn [e_blks].
    rewrite (list_lookup_middle (e_blks e) [] (freeblock i)) by done. cbn [default id from_option].
    by rewrite xint_small by (unfold FSSIZE in *; lia).
  - eapply inv_grow; try done; cbn [freeblock set]; try lia.
    + unfold MAXFILE. lia.
    + apply HI.
    + intros [j Hj]%list_elem_of_lookup_1. pose proof (blks_range _ _ _ _ _ _ _ HI Hk Hj). lia.
    + unfold ent_blocks, grown. cbn [e_blks e_ind]. rewrite Hi. cbn [Z.eqb]. rewrite !app_nil_r.
      replace (freeblock i + 1 - freeblock i) with 1 by lia. apply Permutation_app_comm.
Qed.

Lemma din_same sz e a : (NDIRECT ≤ length (e_blks e))%nat → ent_din sz e = ent_din sz (grown e a (e_ind e)).
Proof.
  intros Hl. unfold ent_din, grown. cbn [e_type e_blks e_ind set i_type i_addrs]. do 2 f_equal.
  symmetry. exact (resize_drop_app NDIRECT 0 (e_blks e) [a] ltac:(lia)).
Qed.

Lemma append_indirect i F cur e sz :
  inv i F (Some cur) → F !! cur = Some e → (NDIRECT < length (e_blks e))%nat → length (e_blks e) < MAXFILE → freeblock i < FSSIZE →
  ∃ i', append_block (ent_din sz e) (length (e_blks e)) i = Ret (freeblock i, ent_din sz (grown e (freeblock i) (e_ind e))) i' ∧
    inv i' (<[cur := grown e (freeblock i) (e_ind e)]> F) (Some cur) ∧ freeblock i' = freeblock i + 1.
Proof.
  intros HI Hk Hl Hm Hfb. pose proof (iv_fb _ _ _ HI) as [Hfb1 _]. assert (0 < nmeta) as Hnm by done.
  destruct (iv_wf _ _ _ HI cur e Hk) as [Hw _]. destruct (ind_range _ _ _ _ _ HI Hk Hl) as ([Hi1 Hi2] & _ & Hi3).
  set (tab := table (drop NDIRECT (e_blks e) ++ [freeblock i])). assert (2 ^ 32 > FSSIZE) as HFS by done.
  assert (length (drop NDIRECT (e_blks e)) < NINDIRECT)%nat as Hld by (rewrite length_drop; unfold MAXFILE in Hm; lia).
  exists (put_sector (e_ind e) tab (i <| freeblock := freeblock i + 1 |>)). split; [|split; [|done]].
  - unfold append_block. mif_false. msimpl. rewrite ensure_old by (rewrite addr_ind; lia). msimpl.
    rewrite addr_ind, xint_small by lia. mrun rsect_eq by (apply HI || lia). rewrite (ew_table _ _ Hw) by done.
    replace (Z.to_nat (length (e_blks e) - NDIRECT)) with (length (drop NDIRECT (e_blks e))) by (rewrite length_drop; lia).
    rewrite table_word by (done || by eapply blks_words). rewrite (proj2 (lookup_ge_None _ _)) by lia. cbn [default id from_option Z.eqb].
    rewrite next_block_eq by lia. msimpl. rewrite xint_small, table_snoc by (done || lia). fold tab.
    rewrite wsect_eq by (apply HI || lia). msimpl. unfold tab. rewrite table_word, list_lookup_middle; [|done|done|].
    + cbn [default id from_option]. rewrite xint_small by lia. f_equal. f_equal. apply din_same. lia.
    + apply Forall_app. split; [by eapply blks_words|]. constructor; [lia|constructor].
  - eapply inv_grow; try done; cbn [freeblock set put_sector]; try lia.
    + apply full_put; [apply HI|apply length_table].
    + unfold ent_blocks, grown. cbn [e_blks e_ind]. rewrite (proj2 (Z.eqb_neq (e_ind e) 0)) by lia.
      replace (freeblock i + 1 - freeblock i) with 1 by lia. change (seqZ ?b 1) with [b]. rewrite <-app_assoc. solve_Permutation.
    + intros n Hn Hne. rewrite sector_put; [|apply HI|lia|lia]. rewrite decide_False by (apply Hne; lia). done.
    + intros _. rewrite sector_put; [|apply HI|lia|lia]. by rewrite decide_True.
Qed.

Lemma append_first_indirect i F cur e sz :
  inv i F (Some cur) → F !! cur = Some e → length (e_blks e) = NDIRECT → freeblock i + 1 < FSSIZE →
  let e' := grown e (freeblock i + 1) (freeblock i) in
  ∃ i', append_block (ent_din sz e) (length (e_blks e)) i = Ret (freeblock i + 1, ent_din sz e') i' ∧
    inv i' (<[cur := e']> F) (Some cur) ∧ freeblock i' = freeblock i + 2.
Proof.
  intros HI Hk Hl Hfb e'. pose proof (iv_fb _ _ _ HI) as [Hfb1 _]. assert (0 < nmeta) as Hnm by done.
  destruct (iv_wf _ _ _ HI cur e Hk) as [Hw _]. assert (e_ind e = 0) as Hi by (apply (ew_ind _ _ Hw); lia).
  assert (2 ^ 32 > FSSIZE) as HFS by done. set (i1 := i <| freeblock := freeblock i + 1 |>).
  assert (full i1) as Hf1 by apply HI. assert (sector i1 (freeblock i) = table []) as Hs1 by (apply (iv_zero _ _ _ HI); lia).
  exists (put_sector (freeblock i) (table [freeblock i + 1]) (i1 <| freeblock := freeblock i1 + 1 |>)). split; [|split; [|cbn; lia]].
  - unfold append_block. mif_false. msimpl. rewrite ensure_new by (rewrite ?addr_ind; (done || lia)). msimpl. fold i1.
    rewrite (din_indirect sz e (freeblock i + 1)) by lia. fold e'. rewrite addr_ind. change (e_ind e') with (freeblock i). rewrite xint_small by lia.
    rewrite rsect_eq by (done || lia). msimpl. rewrite Hs1, Hl. change (4 * Z.to_nat (NDIRECT - NDIRECT))%nat with (4 * length (@nil Z))%nat.
    change (word_at (table []) (4 * length []) =? 0) with true. msimpl.
    assert (0 ≤ freeblock i1 < FSSIZE) as Hb1 by (cbn; lia). rewrite next_block_eq by done. msimpl. rewrite xint_small by lia. rewrite table_snoc by (unfold NINDIRECT; cbn; lia).
    rewrite wsect_eq by (apply HI || lia). msimpl. change (([] : list Z) ++ [freeblock i1]) with [freeblock i + 1].
    rewrite table_word; [|unfold NINDIRECT; cbn; lia|repeat constructor; lia]. cbn [lookup list_lookup length default id from_option].
    by rewrite xint_small by lia.
  - assert (∀ x, x ∈ e_blks e → x < freeblock i) as Hlt.
    { intros x [j Hj]%list_elem_of_lookup_1. destruct (blocks_range _ _ _ _ _ x HI Hk); [|done].
      apply elem_of_app. left. by eapply list_elem_of_lookup_2. }
    eapply inv_grow; try done; cbn [freeblock set put_sector i1]; try lia.
    + rewrite Hl. done.
    + apply full_put; [apply HI|apply length_table].
    + intros H%Hlt. lia.
    + unfold ent_blocks, grown. cbn [e_blks e_ind]. rewrite Hi, (proj2 (Z.eqb_neq (freeblock i) 0)) by lia. cbn [Z.eqb].
      replace (freeblock i + 1 + 1 - freeblock i) with 2 by lia. change (seqZ ?b 2) with [b; 1 + b]. rewrite <-app_assoc, app_nil_r.
      rewrite (Z.add_comm 1). solve_Permutation.
    + intros n Hn Hne. rewrite sector_put; [|apply HI|lia|lia]. rewrite decide_False by (apply Hne; lia). done.
    + intros _. rewrite sector_put; [|apply HI|lia|lia]. rewrite decide_True by done. rewrite drop_ge by lia. done.
Qed.

(** ** iappend() *)

(** The bytes that go into the block at the end of the file. *)
Definition longer (e : ent) (q : list Z) : ent := mkEnt (e_type e) (e_data e ++ q) (e_blks e) (e_ind e).

Lemma write_inv i F cur e q a k :
  inv i F (Some cur) → F !! cur = Some e → length (e_blks e) = S k → e_blks e !! k = Some a →
  (1024 * k ≤ length (e_data e))%nat → (length (e_data e) + length q ≤ 1024 * S k)%nat →
  let b := list_inserts (length (e_data e) - 1024 * k) q (sector i a) in
  inv (put_sector a b i) (<[cur := longer e q]> F) (Some cur).
Proof.
  intros HI Hk Hl Ha Hlo Hhi b. destruct (iv_wf _ _ _ HI cur e Hk) as [Hw _].
  pose proof (blks_range _ _ _ _ _ _ _ HI Hk Ha) as Hr. pose proof (iv_fb _ _ _ HI) as Hfb.
  assert (∀ j x, e_blks e !! j = Some x → j ≠ k → x ≠ a) as Hne.
  { intros j x Hj Hjk ->. pose proof (ent_blocks_nodup _ _ _ _ _ HI Hk) as Hnd. unfold ent_blocks in Hnd.
    apply NoDup_app in Hnd as [Hnd _]. apply Hjk. by eapply NoDup_lookup. }
  assert (a ∈ ent_blocks e) as Hin by (apply elem_of_app; left; by eapply list_elem_of_lookup_2).
  eapply inv_update; try done.
  - apply full_put; [apply HI|]. unfold b. rewrite length_inserts. apply length_sector; [apply HI|lia].
  - cbn. lia.
  - cbn [freeblock put_sector set]. by rewrite Z.sub_diag.
  - intros n Hn Hout. rewrite sector_put; [|apply HI|lia|lia]. rewrite decide_False; [done|]. intros ->. done.
  - destruct Hw as [H1 H2 H3 H4 H5]. split; try done; cbn [longer e_type e_data e_blks e_ind].
    + intros H12. destruct (ind_range _ _ _ _ _ HI Hk H12) as (? & _ & Hi). rewrite sector_put; [|apply HI|lia|lia].
      rewrite decide_False; [auto|]. intros E. apply Hi. rewrite E. by eapply list_elem_of_lookup_2.
    + rewrite length_app, Hl. lia.
    + intros j x Hj. pose proof (blks_range _ _ _ _ _ _ _ HI Hk Hj). rewrite sector_put; [|apply HI|lia|lia].
      destruct (decide (j = k)) as [->|Hjk].
      * rewrite decide_True by congruence. unfold b. rewrite (H5 _ _ Ha), drop_app_le by lia.
        rewrite <-inserts_resize by (rewrite length_drop; lia). by rewrite length_drop.
      * rewrite decide_False by eauto. rewrite (H5 _ _ Hj). symmetry. apply resize_drop_app.
        pose proof (lookup_lt_Some _ _ _ Hj). lia.
Qed.

Lemma nblk_step n k : 0 ≤ n → BSIZE * k < n ≤ BSIZE * (k + 1) → nblk n = k + 1.
Proof. intros Hn Hk. unfold nblk, BSIZE in *. Z.to_euclidean_division_equations. lia. Qed.

Lemma cost_mono n m : 0 ≤ n ≤ m → cost n ≤ cost m.
Proof.
  intros H. unfold cost. assert (nblk n ≤ nblk m) by (unfold nblk, BSIZE; Z.to_euclidean_division_equations; lia).
  destruct (Z.ltb_spec NDIRECT (nblk n)), (Z.ltb_spec NDIRECT (nblk m)); lia.
Qed.

(** The block at the end of a file that is to grow. *)
Lemma append_block_eq i F cur e sz :
  inv i F (Some cur) → F !! cur = Some e → tight e → length (e_data e) < MAXFILE * BSIZE →
  let n := Z.of_nat (length (e_data e)) in freeblock i + cost (n + 1) - cost n ≤ FSSIZE →
  ∃ i' e' a, append_block (ent_din sz e) (n / BSIZE) i = Ret (a, ent_din sz e') i' ∧
    inv i' (<[cur := e']> F) (Some cur) ∧ e_type e' = e_type e ∧ e_data e' = e_data e ∧
    Z.of_nat (length (e_blks e')) = n / BSIZE + 1 ∧ e_blks e' !! Z.to_nat (n / BSIZE) = Some a ∧
    freeblock i' = freeblock i + cost (n + 1) - cost n.
Proof.
  intros HI Hk Ht Hmax n Hfb. unfold tight in Ht. fold n in Ht, Hmax.
  assert (0 ≤ n) as Hn by lia. pose proof (Z.div_pos n BSIZE Hn eq_refl) as Hq.
  assert (nblk (n + 1) = n / BSIZE + 1) as E1 by (unfold nblk, BSIZE; Z.to_euclidean_division_equations; lia).
  destruct (decide (nblk n = n / BSIZE + 1)) as [E|E].
  - destruct (lookup_lt_is_Some_2 (e_blks e) (Z.to_nat (n / BSIZE))) as [a Ha]; [lia|].
    exists i, e, a. rewrite (append_old i F cur e sz _ a) by done. rewrite list_insert_id by done.
    unfold cost. rewrite E1, <-E. split_and!; try done; lia.
  - assert (nblk n = n / BSIZE) as E2 by (unfold nblk, BSIZE in *; Z.to_euclidean_division_equations; lia).
    assert (n / BSIZE < MAXFILE) as Hlt by (apply Z.div_lt_upper_bound; [done|lia]).
    assert (Z.of_nat (length (e_blks e)) = n / BSIZE) as El by lia. rewrite <-El. rewrite Nat2Z.id.
    unfold cost in Hfb |- *. rewrite E1, E2, <-El in Hfb |- *.
    assert (∀ a ind, Z.of_nat (length (e_blks (grown e a ind))) = length (e_blks e) + 1 ∧
      e_blks (grown e a ind) !! length (e_blks e) = Some a) as Hg.
    { intros a ind. cbn. rewrite length_app. cbn. split; [lia|]. by apply list_lookup_middle. }
    destruct (lt_eq_lt_dec (length (e_blks e)) NDIRECT) as [[Hd|Hd]|Hd].
    + rewrite !(proj2 (Z.ltb_ge _ _)) in Hfb |- * by lia.
      destruct (append_direct i F cur e sz HI Hk Hd ltac:(lia)) as (i' & Ea & HI' & Hf').
      exists i', (grown e (freeblock i) 0), (freeblock i). destruct (Hg (freeblock i) 0). split_and!; try done; lia.
    + rewrite (proj2 (Z.ltb_lt _ _)), (proj2 (Z.ltb_ge NDIRECT (length (e_blks e)))) in Hfb |- * by lia.
      destruct (append_first_indirect i F cur e sz HI Hk Hd ltac:(lia)) as (i' & Ea & HI' & Hf').
      eexists i', _, (freeblock i + 1). destruct (Hg (freeblock i + 1) (freeblock i)).
      split; [exact Ea|]. split; [exact HI'|]. split_and!; try done; lia.
    + rewrite !(proj2 (Z.ltb_lt _ _)) in Hfb |- * by lia.
      destruct (append_indirect i F cur e sz HI Hk Hd ltac:(lia) ltac:(lia)) as (i' & Ea & HI' & Hf').
      exists i', (grown e (freeblock i) (e_ind e)), (freeblock i). destruct (Hg (freeblock i) (e_ind e)). split_and!; try done; lia.
Qed.

Lemma iappend_round i F cur e sz p :
  inv i F (Some cur) → F !! cur = Some e → tight e → p ≠ [] →
  let n := Z.of_nat (length (e_data e)) in n + length p ≤ MAXFILE * BSIZE →
  freeblock i + cost (n + length p) - cost n ≤ FSSIZE →
  let n1 := Z.min (length p) ((n / BSIZE + 1) * BSIZE - n) in
  ∃ i' e', iappend_body (ent_din sz e, n, p) i = Ret (inl (ent_din sz e', n + n1, drop (Z.to_nat n1) p)) i' ∧
    inv i' (<[cur := e']> F) (Some cur) ∧ e_type e' = e_type e ∧ e_data e' = e_data e ++ take (Z.to_nat n1) p ∧ tight e' ∧
    0 < n1 ≤ length p ∧ freeblock i' = freeblock i + cost (n + n1) - cost n.
Proof.
  intros HI Hk Ht Hp n Hmax Hfb n1. assert (0 < length p) as Hlp by (destruct p; [done|cbn; lia]).
  assert (n = BSIZE * (n / BSIZE) + n mod BSIZE ∧ 0 ≤ n mod BSIZE < BSIZE) as [Hdiv Hmod]
    by (split; [by apply Z.div_mod|by apply Z.mod_pos_bound]).
  assert (0 < n1 ≤ length p ∧ n + n1 ≤ BSIZE * (n / BSIZE + 1)) as [Hn1 Hn1'] by (unfold n1; lia).
  assert (0 ≤ n / BSIZE) as Hq by (apply Z.div_pos; [lia|done]).
  assert (nblk (n + n1) = n / BSIZE + 1 ∧ nblk (n + 1) = n / BSIZE + 1) as [En1 En2] by (split; apply nblk_step; lia).
  assert (cost (n + n1) = cost (n + 1)) as Ec by (unfold cost; by rewrite En1, En2).
  pose proof (cost_mono (n + 1) (n + length p) ltac:(lia)) as Hc.
  destruct (append_block_eq i F cur e sz HI Hk Ht) as (i1 & e1 & a & E1 & HI1 & Ht1 & Hd1 & Hl1 & Ha1 & Hf1); [lia|fold n; lia|].
  fold n in E1, Hl1, Ha1, Hf1. set (k := Z.to_nat (n / BSIZE)) in *.
  assert (<[cur := e1]> F !! cur = Some e1) as Hk1 by (apply list_lookup_insert_eq; by eapply lookup_lt_Some).
  pose proof (blks_range _ _ _ _ _ _ _ HI1 Hk1 Ha1) as Hr.
  assert (Z.of_nat (length (take (Z.to_nat n1) p)) = n1) as Hlt by (rewrite length_take; lia).
  pose proof (write_inv i1 _ cur e1 (take (Z.to_nat n1) p) a k HI1 Hk1 ltac:(lia) Ha1) as Hwr.
  rewrite Hd1 in Hwr. assert (BSIZE = 1024) as HB by done.
  specialize (Hwr ltac:(lia) ltac:(lia)). rewrite list_insert_insert_eq in Hwr.
  eexists _, (longer e1 _). split; [|split; [exact Hwr|]].
  - unfold iappend_body. fold n. mif_false by (apply negb_false_iff; lia).
    mif_false by (apply negb_false_iff, Z.ltb_lt, Z.div_lt_upper_bound; [done|lia]). msimpl. rewrite E1. msimpl.
    rewrite rsect_eq by (apply HI1 || lia). msimpl. rewrite wsect_eq by (apply HI1 || lia). msimpl. fold n1.
    replace (Z.to_nat (n - n / BSIZE * BSIZE)) with (length (e_data e) - 1024 * k)%nat by lia. done.
  - cbn [e_type e_data longer]. rewrite Hd1. split_and!; try done; try lia.
    + unfold tight. cbn [e_blks e_data longer]. rewrite length_app, Hd1. replace (Z.of_nat (length (e_data e) + _)) with (n + n1) by lia. lia.
    + rewrite Ec. done.
Qed.

Lemma iappend_loop (fuel : nat) cur sz : ∀ i F e p,
  inv i F (Some cur) → F !! cur = Some e → tight e →
  let n := Z.of_nat (length (e_data e)) in n + length p ≤ MAXFILE * BSIZE →
  freeblock i + cost (n + length p) - cost n ≤ FSSIZE → (length p < fuel)%nat →
  ∃ i' e', loop fuel iappend_body (ent_din sz e, n, p) i = Ret (ent_din sz e', n + length p) i' ∧
    inv i' (<[cur := e']> F) (Some cur) ∧ e_type e' = e_type e ∧ e_data e' = e_data e ++ p ∧ tight e' ∧
    freeblock i' = freeblock i + cost (n + length p) - cost n.
Proof.
  induction fuel as [|fuel IH]; intros i F e p HI Hk Ht n Hmax Hfb Hfu; [lia|]. destruct (decide (p = [])) as [->|Hp].
  - exists i, e. rewrite (loop_exit _ _ _ _ (ent_din sz e, n) i) by done. cbn [length]. change (Z.of_nat 0) with 0.
    rewrite Z.add_0_r, app_nil_r, list_insert_id by done. split_and!; try done. lia.
  - destruct (iappend_round i F cur e sz p HI Hk Ht Hp Hmax Hfb) as (i1 & e1 & E1 & HI1 & Ht1 & Hd1 & Hti1 & Hn1 & Hf1).
    fold n in E1, Hn1, Hf1. set (n1 := Z.min _ _) in *.
    assert (<[cur := e1]> F !! cur = Some e1) as Hk1 by (apply list_lookup_insert_eq; by eapply lookup_lt_Some).
    assert (Z.of_nat (length (e_data e1)) = n + n1) as Hl1 by (rewrite Hd1, length_app, length_take; lia).
    assert (Z.of_nat (length (drop (Z.to_nat n1) p)) = length p - n1) as Hl2 by (rewrite length_drop; lia).
    destruct (IH i1 _ e1 (drop (Z.to_nat n1) p) HI1 Hk1 Hti1) as (i2 & e2 & E2 & HI2 & Ht2 & Hd2 & Hti2 & Hf2).
    { lia. }
    { rewrite Hl1, Hl2. replace (n + n1 + (length p - n1)) with (n + length p) by lia. lia. }
    { lia. }
    rewrite Hl1, Hl2 in E2, Hf2. replace (n + n1 + (length p - n1)) with (n + length p) in E2, Hf2 by lia.
    exists i2, e2. rewrite (loop_next _ _ _ _ _ _ E1), E2. rewrite list_insert_insert_eq in HI2.
    split_and!; try done; [congruence| |lia]. rewrite Hd2, Hd1, <-app_assoc. by rewrite take_drop.
Qed.

Lemma inv_open i F cur : inv i F None → inv i F (Some cur).
Proof. intros []. split; auto. Qed.

Lemma ent_inode_ok i F cur k e : inv i F cur → F !! k = Some e → dinode_ok (ent_inode e).
Proof.
  intros HI Hk. destruct (iv_wf _ _ _ HI k e Hk) as [Hw Ht]. pose proof (ew_max _ _ Hw) as Hm. pose proof (ew_room _ _ Hw).
  assert (MAXFILE = 268) as EM by done. split; try done; cbn [ent_inode ent_din i_type i_size i_addrs set].
  - lia.
  - rewrite length_app, length_resize. done.
  - apply Forall_app. split; [|constructor; [|constructor]].
    + apply Forall_lookup_2. intros j a Ha. assert (j < NDIRECT)%nat as Hj by (apply lookup_lt_Some in Ha; by rewrite length_resize in Ha).
      rewrite resize_lookup in Ha by done. injection Ha as <-. destruct (e_blks e !! j) as [a|] eqn:E; [|done].
      pose proof (blks_range _ _ _ _ _ _ _ HI Hk E). unfold FSSIZE in *. cbn. lia.
    + destruct (decide (length (e_blks e) ≤ NDIRECT)%nat) as [Hd|Hd]; [by rewrite (proj2 (ew_ind _ _ Hw) Hd)|].
      destruct (ind_range _ _ _ _ _ HI Hk ltac:(lia)). unfold FSSIZE in *. lia.
Qed.

(** The inode goes to the disk. *)
Lemma inv_close i F cur e :
  inv i F (Some cur) → F !! cur = Some e → tight e →
  ∃ i', winode (cur + 1) (ent_inode e) i = Ret () i' ∧ inv i' F None ∧ freeblock i' = freeblock i.
Proof.
  intros HI Hk Ht. pose proof (lookup_lt_Some _ _ _ Hk) as Hlt. pose proof (iv_ino _ _ _ HI) as [Hi1 Hi2]. unfold NINODES in Hi2.
  destruct (winode_eq i (cur + 1) (ent_inode e)) as (i' & E & Hf & Hfi & Hfb & Hs & Hd);
    [apply HI|lia|by eapply ent_inode_ok|done|].
  exists i'. split; [done|]. split; [|done]. pose proof (iv_fb _ _ _ HI) as Hb. assert (nmeta = 46) as Hnm by done.
  split; try done.
  - rewrite Hs by lia. apply HI.
  - by rewrite Hfi.
  - by rewrite Hfb.
  - rewrite Hfb. apply HI.
  - intros n Hn. rewrite Hfb in Hn. rewrite Hs by lia. by apply (iv_zero _ _ _ HI).
  - intros k x Hx. destruct (iv_wf _ _ _ HI k x Hx) as [Hw ?]. split; [|done]. eapply ent_wf_ext; [|exact Hw].
    intros a Ha. pose proof (blocks_range _ _ _ _ _ _ HI Hx Ha). apply Hs; lia.
  - intros k x Hx _. pose proof (lookup_lt_Some _ _ _ Hx). rewrite Hd by lia. destruct (decide (k = cur)) as [->|Hne].
    + rewrite decide_True by done. replace x with e by congruence. done.
    + rewrite decide_False by lia. apply (iv_disk _ _ _ HI); [done|congruence].
  - intros n Hn. rewrite Hd by lia. rewrite decide_False by lia. by apply (iv_free _ _ _ HI).
Qed.

(** iappend() adds bytes to the end of one file and changes no other. *)
Lemma iappend_eq i F (cur : nat) e p :
  inv i F None → F !! cur = Some e →
  let n := Z.of_nat (length (e_data e)) in n + length p ≤ MAXFILE * BSIZE →
  freeblock i + cost (n + length p) - cost n ≤ FSSIZE →
  ∃ i' e', iappend (cur + 1) p i = Ret () i' ∧ inv i' (<[cur := e']> F) None ∧
    e_type e' = e_type e ∧ e_data e' = e_data e ++ p ∧ freeblock i' = freeblock i + cost (n + length p) - cost n.
Proof.
  intros HI Hk n Hmax Hfb. destruct (iv_disk _ _ _ HI cur e Hk ltac:(done)) as [Hdi Ht].
  pose proof (lookup_lt_Some _ _ _ Hk) as Hlt. pose proof (iv_ino _ _ _ HI) as [Hi1 Hi2]. unfold NINODES in Hi2.
  assert (MAXFILE * BSIZE = 274432) as EM by done.
  destruct (iappend_loop (S (length p)) cur n i F e p (inv_open _ _ _ HI) Hk Ht Hmax Hfb ltac:(lia))
    as (i1 & e1 & E1 & HI1 & Ht1 & Hd1 & Hti1 & Hf1). fold n in E1, Hf1.
  assert (<[cur := e1]> F !! cur = Some e1) as Hk1 by (apply list_lookup_insert_eq; by eapply lookup_lt_Some).
  destruct (inv_close _ _ _ _ HI1 Hk1 Hti1) as (i2 & E2 & HI2 & Hf2).
  exists i2, e1. split_and!; try done; [|congruence]. unfold iappend. msimpl. rewrite rinode_eq by (apply HI || lia). msimpl.
  rewrite Hdi. change (i_size (ent_inode e)) with n. rewrite xint_small by lia. change (ent_inode e) with (ent_din n e).
  rewrite E1. msimpl. rewrite xint_small by lia. rewrite <-E2. f_equal. unfold ent_inode. rewrite Hd1, length_app.
  by replace (Z.of_nat (length (e_data e) + length p)) with (n + length p) by lia.
Qed.

Lemma xshort_small x : 0 ≤ x < 2 ^ 16 → xshort x = x.
Proof. intros Hx. unfold xshort, half_at, half_bytes. cbn [lookup list_lookup default id from_option]. Z.to_euclidean_division_equations. lia. Qed.

Lemma ialloc_eq i F ty :
  inv i F None → length F + 2 ≤ NINODES → 0 ≤ ty < 2 ^ 15 →
  ∃ i', ialloc ty i = Ret (length F + 1) i' ∧ inv i' (F ++ [mkEnt ty [] [] 0]) None ∧ freeblock i' = freeblock i.
Proof.
  intros HI Hl Hty. set (e := mkEnt ty [] [] 0). set (i1 := i <| freeinode := length F + 2 |>).
  pose proof (iv_ino _ _ _ HI) as [Hi1 _]. unfold NINODES in Hl.
  assert ((F ++ [e]) !! length F = Some e) as Hk by (by apply list_lookup_middle).
  assert (inv i1 (F ++ [e]) (Some (length F))) as HI1.
  { destruct HI as [H1 H2 H3 H4 H5 H6 H7 H8 H9]. split; try done; rewrite ?length_app; cbn [length].
    - cbn. unfold NINODES. lia.
    - rewrite fmap_app, join_app. cbn. rewrite app_nil_r. done.
    - intros k x [[_ Hx]|[-> <-]]%lookup_snoc_Some; [by apply (H7 k)|]. split; [|cbn; lia].
      split; cbn [e e_ind e_blks e_data length]; try done; unfold NDIRECT; (lia || idtac).
    - intros k x [[_ Hx]|[-> <-]]%lookup_snoc_Some Hne; [|done]. by apply (H8 k).
    - intros n Hn. apply H9. lia. }
  destruct (inv_close _ _ _ _ HI1 Hk eq_refl) as (i2 & E & HI2 & Hf). exists i2. split_and!; try done.
  unfold ialloc. msimpl. rewrite Hi1, u32_small by lia. replace (length F + 1 + 1) with (length F + 2) by lia. fold i1.
  assert (i16 (xshort ty) = ty) as -> by (rewrite xshort_small, i16_small; lia).
  change (inode0 <| i_type := ty |> <| i_nlink := i16 (xshort 1) |> <| i_size := xint 0 |>) with (ent_inode e). by rewrite E.
Qed.

(** ** What the kernel reads *)

(** The sectors of a file of [n] bytes through its inode. *)
Definition inode_blocks (v : Z → list Z) (x : inode) (n : Z) : list Z :=
  (file_addr v x <$> seqZ 0 (nblk n)) ++ (if addr_at x NDIRECT =? 0 then [] else [addr_at x NDIRECT]).

Section read_back.
Context (v : Z → list Z) (e : ent) (sz : Z).
Context (Hw : ent_wf v e) (Hr : ∀ j a, e_blks e !! j = Some a → 46 ≤ a < FSSIZE).

Lemma file_addr_ent bn : 0 ≤ bn < length (e_blks e) → e_blks e !! Z.to_nat bn = Some (file_addr v (ent_din sz e) bn).
Proof using Hw Hr.
  intros Hb. destruct (lookup_lt_is_Some_2 (e_blks e) (Z.to_nat bn)) as [a Ha]; [lia|]. rewrite Ha. f_equal. unfold file_addr.
  destruct (Z.ltb_spec bn NDIRECT) as [Hd|Hd]; [by rewrite addr_direct, Ha by lia|].
  rewrite addr_ind, (ew_table _ _ Hw) by lia. pose proof (ew_max _ _ Hw) as Hm. unfold MAXFILE in Hm.
  rewrite table_word; [|lia|].
  - rewrite lookup_drop. replace (NDIRECT + Z.to_nat (bn - NDIRECT))%nat with (Z.to_nat bn) by lia. by rewrite Ha.
  - apply Forall_drop, Forall_lookup_2. intros j x Hj. pose proof (Hr _ _ Hj). unfold FSSIZE in *. lia.
Qed.

Lemma mapped_ent bn : mapped v (ent_din sz e) bn ↔ 0 ≤ bn < length (e_blks e).
Proof using Hw Hr.
  pose proof (ew_ind _ _ Hw) as Hi. split.
  - intros [H1 H2 H3 _]. split; [lia|]. destruct (decide (bn < length (e_blks e))) as [|Hge]; [done|]. exfalso. apply H2.
    unfold file_addr. destruct (Z.ltb_spec bn NDIRECT) as [Hd|Hd].
    + by rewrite addr_direct, (proj2 (lookup_ge_None (e_blks e) _)) by lia.
    + rewrite addr_ind in H3 |- *. rewrite (ew_table _ _ Hw) by (destruct (decide (e_ind e = 0)); [by destruct H3|lia]).
      unfold MAXFILE in H1. rewrite table_word; [|lia|].
      * rewrite lookup_drop, (proj2 (lookup_ge_None (e_blks e) _)) by lia. done.
      * apply Forall_drop, Forall_lookup_2. intros j x Hj. pose proof (Hr _ _ Hj). unfold FSSIZE in *. lia.
  - intros Hb. pose proof (file_addr_ent bn Hb) as Ha. pose proof (Hr _ _ Ha). pose proof (ew_max _ _ Hw). split; try lia.
    + intros Hd. rewrite addr_ind. lia.
    + rewrite (ew_data _ _ Hw _ _ Ha), length_resize. done.
Qed.

Lemma file_bytes_ent : file_bytes v (ent_din sz e) 0 (BSIZE * length (e_blks e)) = resize (1024 * length (e_blks e)) 0 (e_data e).
Proof using Hw Hr.
  apply list_eq. intros k. unfold file_bytes. rewrite list_lookup_fmap. assert (BSIZE = 1024) as HB by done.
  destruct (decide (k < 1024 * length (e_blks e))%nat) as [Hk|Hk].
  - rewrite lookup_seqZ_lt, resize_lookup by lia. cbn [fmap option_fmap option_map]. f_equal. rewrite !Z.add_0_l.
    assert (0 ≤ k / BSIZE < length (e_blks e)) as Hb by (rewrite HB; Z.to_euclidean_division_equations; lia).
    rewrite (ew_data _ _ Hw _ _ (file_addr_ent _ Hb)). pose proof (Z.mod_pos_bound k BSIZE eq_refl).
    rewrite resize_lookup, lookup_drop by lia. cbn. do 2 f_equal. rewrite HB in *. Z.to_euclidean_division_equations. lia.
  - rewrite lookup_seqZ_ge, lookup_resize_old by lia. done.
Qed.

Lemma file_data_ent : file_bytes v (ent_din sz e) 0 (length (e_data e)) = e_data e.
Proof using Hw Hr.
  pose proof file_bytes_ent as E. pose proof (ew_room _ _ Hw). assert (BSIZE = 1024) as HB by done.
  replace (BSIZE * length (e_blks e)) with (length (e_data e) + (BSIZE * length (e_blks e) - length (e_data e))) in E by lia.
  rewrite file_bytes_app, resize_ge in E by lia. pose proof (length_file_bytes v (ent_din sz e) 0 (length (e_data e)) ltac:(lia)).
  apply app_inj_1 in E as [E _]; [done|lia].
Qed.

Lemma inode_blocks_ent : tight e → inode_blocks v (ent_din sz e) (length (e_data e)) = ent_blocks e.
Proof using Hw Hr.
  intros Ht. unfold inode_blocks, ent_blocks. rewrite addr_ind. f_equal. rewrite <-Ht. apply list_eq. intros k. rewrite list_lookup_fmap.
  destruct (decide (k < length (e_blks e))%nat) as [Hk|Hk].
  - rewrite lookup_seqZ_lt by lia. cbn [fmap option_fmap option_map]. rewrite Z.add_0_l.
    rewrite <-(file_addr_ent k ltac:(lia)). by rewrite Nat2Z.id.
  - rewrite lookup_seqZ_ge by lia. symmetry. apply lookup_ge_None. lia.
Qed.
End read_back.

(** ** The bitmap *)

Lemma bitmap_spec used d b :
  0 ≤ used ≤ 8 * length d → 0 ≤ b → bit_used (foldl bit_mark d (seqZ 0 used)) b = bit_used d b || (b <? used).
Proof.
  intros Hu Hb. replace used with (Z.of_nat (Z.to_nat used)) by lia. assert (Z.to_nat used ≤ 8 * length d)%nat as Hn by lia.
  generalize (Z.to_nat used) as n, Hn. clear used Hu Hn. intros n Hn.
  assert (length (foldl bit_mark d (seqZ 0 n)) = length d ∧
    bit_used (foldl bit_mark d (seqZ 0 n)) b = bit_used d b || (b <? n)) as [_ H]; [|done].
  induction n as [|n IH].
  - split; [done|]. by rewrite (proj2 (Z.ltb_ge b 0%nat)), orb_false_r by lia.
  - destruct IH as [IH1 IH2]; [lia|]. replace (Z.of_nat (S n)) with (n + 1) by lia. rewrite seqZ_app by lia.
    change (seqZ (0 + n) 1) with [0 + (0 + n)]. rewrite foldl_app. cbn [foldl]. rewrite Z.add_0_l. split.
    + unfold bit_mark at 1. by rewrite length_alter.
    + rewrite bit_used_mark, IH2 by lia. rewrite <-orb_assoc. f_equal.
      destruct (Z.ltb_spec b n), (Z.eqb_spec b n), (Z.ltb_spec b (n + 1)); (done || lia).
Qed.

(** ** The whole run *)

Lemma half_at_zero n off : half_at (replicate n 0) off = 0.
Proof.
  unfold half_at. assert (∀ k, default 0 (replicate n 0 !! k) = 0) as H; [|by rewrite !H].
  intros k. destruct (replicate n 0 !! k) eqn:E; [|done]. by apply lookup_replicate in E as [-> _].
Qed.

Lemma word_at_zero n off : word_at (replicate n 0) off = 0.
Proof.
  unfold word_at. assert (∀ k, default 0 (replicate n 0 !! k) = 0) as H; [|by rewrite !H].
  intros k. destruct (replicate n 0 !! k) eqn:E; [|done]. by apply lookup_replicate in E as [-> _].
Qed.

Lemma dinode_get_zero off : dinode_get zero_block off inode0 = inode0.
Proof.
  unfold dinode_get, zero_block. rewrite !half_at_zero, word_at_zero.
  assert ((λ i, word_at (replicate (Z.to_nat BSIZE) 0) (off + 12 + 4 * i)) <$> seq 0 13 = replicate 13 0) as ->; [|done].
  transitivity ((λ _, 0) <$> seq 0 13); [|done]. apply list_fmap_ext. intros. apply word_at_zero.
Qed.

(** The empty image with its superblock. *)
Lemma clear_image (N : nat) fi fb :
  N ≤ FSSIZE →
  for_each (seqZ 0 N) (λ i, wsect i zero_block) (mkImage [] fi fb) = Ret () (mkImage (replicate N zero_block) fi fb).
Proof.
  intros HN. destruct (for_each_ind (seqZ 0 N) (λ i, wsect i zero_block) (λ n s, s = mkImage (replicate n zero_block) fi fb)
    (mkImage [] fi fb)) as (s & E & ->); [|done|].
  - intros n x s Hx ->. apply lookup_seqZ in Hx as [-> Hn]. eexists. split; [reflexivity|].
    rewrite seek_small by lia. cbn. f_equal. rewrite length_replicate.
    replace (Z.to_nat (0 + n)) with n by lia. replace (S n - n)%nat with 1%nat by lia. cbn [replicate].
    rewrite insert_app_r_alt by (rewrite length_replicate; lia). rewrite length_replicate, Nat.sub_diag. cbn.
    by rewrite <-replicate_S_end.
  - rewrite E, length_seqZ, Nat2Z.id. reflexivity.
Qed.

Definition blank : image := mkImage (replicate (Z.to_nat FSSIZE) zero_block) 1 nmeta.
Definition empty_image : image := put_sector 1 (list_inserts 0 (sb_bytes sb) zero_block) blank.

Lemma full_blank : full blank.
Proof. split; [cbn [sectors blank]; rewrite length_replicate; reflexivity|by apply Forall_replicate]. Qed.

Lemma blank_eq : for_each (seqZ 0 FSSIZE) (λ i, wsect i zero_block) (mkImage [] 1 nmeta) = Ret () blank.
Proof. pose proof (clear_image (Z.to_nat FSSIZE) 1 nmeta ltac:(done)) as E. rewrite Z2Nat.id in E by done. exact E. Qed.

Lemma super_eq : wsect 1 (list_inserts 0 (sb_bytes sb) zero_block) blank = Ret () empty_image.
Proof. rewrite wsect_eq; [reflexivity|exact full_blank|done]. Qed.

Lemma inv_empty : inv empty_image [] None.
Proof.
  pose proof full_blank as Hf0.
  assert (∀ n, 0 ≤ n < FSSIZE → sector blank n = zero_block) as Hz.
  { intros n Hn. unfold sector. cbn. rewrite lookup_replicate_2 by lia. done. }
  assert (∀ n, 2 ≤ n < FSSIZE → sector empty_image n = zero_block) as Hz1.
  { intros n Hn. unfold empty_image. rewrite sector_put by (done || lia). rewrite decide_False by lia. apply Hz. lia. }
  assert (nmeta = 46) as Hnm by done. split; try done.
  - apply full_put; [done|]. by rewrite length_inserts.
  - intros n Hn. apply Hz1. change (freeblock empty_image) with nmeta in Hn. lia.
  - intros inum Hn. cbn in Hn. unfold disk_inode. destruct (IBLOCK_range inum ltac:(lia)). rewrite Hz1 by (unfold FSSIZE; lia).
    apply dinode_get_zero.
Qed.

Lemma length_mk_dirent inum name : length (mk_dirent inum name) = 16%nat.
Proof. unfold mk_dirent, dirent_bytes, dir_name. cbn [d_name d_inum]. rewrite length_app, length_resize. done. Qed.

Section run.
Context {St : Type} {HSt : Stream St} (host_open : list Z → option St) (host_creat : list Z → bool).

(** Copying a host file. *)
Lemma copy_loop (fuel cur : nat) : ∀ i F e s,
  inv i F None → F !! cur = Some e →
  let n := Z.of_nat (length (e_data e)) in n + length (rest s) ≤ MAXFILE * BSIZE →
  freeblock i + cost (n + length (rest s)) - cost n ≤ FSSIZE → (length (rest s) < fuel)%nat →
  ∃ i' e', loop fuel (copy_body (cur + 1)) s i = Ret () i' ∧ inv i' (<[cur := e']> F) None ∧
    e_type e' = e_type e ∧ e_data e' = e_data e ++ rest s ∧ freeblock i' = freeblock i + cost (n + length (rest s)) - cost n.
Proof.
  induction fuel as [|fuel IH]; intros i F e s HI Hk n Hmax Hfb Hfu; [lia|].
  pose proof (read_rest s (Z.to_nat BSIZE)) as Hrest. pose proof (read_some s (Z.to_nat BSIZE) ltac:(by apply Nat.ltb_lt)) as Hsome.
  destruct (read s (Z.to_nat BSIZE)) as [buf s1] eqn:Er. cbn [fst snd] in Hrest, Hsome.
  destruct (decide (buf = [])) as [->|Hb].
  - assert (rest s = []) as E by (destruct (rest s); [done|by destruct Hsome]).
    rewrite E, app_nil_r in *. cbn [length] in *. change (Z.of_nat 0) with 0 in *. rewrite Z.add_0_r in *.
    exists i, e. rewrite (loop_exit _ _ _ _ () i) by (unfold copy_body; by rewrite Er).
    rewrite list_insert_id by done. split_and!; try done. lia.
  - assert (0 < length buf) as Hlb by (destruct buf; [done|cbn; lia]). assert (0 ≤ n) as Hn0 by lia.
    rewrite Hrest, length_app, Nat2Z.inj_add in Hmax, Hfb |- *. rewrite Hrest, length_app in Hfu.
    pose proof (cost_mono (n + length buf) (n + (length buf + length (@rest St HSt s1))) ltac:(lia)) as Hcm.
    destruct (iappend_eq i F cur e buf HI Hk) as (i1 & e1 & E1 & HI1 & Ht1 & Hd1 & Hf1); [lia|fold n; lia|]. fold n in Hf1.
    assert (<[cur := e1]> F !! cur = Some e1) as Hk1 by (apply list_lookup_insert_eq; by eapply lookup_lt_Some).
    assert (Z.of_nat (length (e_data e1)) = n + length buf) as Hl1 by (rewrite Hd1, length_app; lia).
    destruct (IH i1 _ e1 s1 HI1 Hk1) as (i2 & e2 & E2 & HI2 & Ht2 & Hd2 & Hf2); rewrite ?Hl1, <-?Z.add_assoc; try lia.
    rewrite Hl1, <-Z.add_assoc in Hf2. exists i2, e2. rewrite (loop_next _ _ _ _ s1 i1).
    + rewrite E2. rewrite list_insert_insert_eq in HI2. split_and!; try done; [congruence| |lia]. by rewrite Hd2, Hd1, app_assoc.
    + unfold copy_body. rewrite Er. mif_false by (apply negb_false_iff; lia). msimpl. by rewrite E1.
Qed.

(** A file given to mkfs: its path and contents. *)
Definition source_ok (f : list Z * list Z) : Prop :=
  47 ∉ without_user f.1 ∧ length f.2 ≤ MAXFILE * BSIZE ∧ ∃ fd, host_open f.1 = Some fd ∧ rest fd = f.2.

Lemma add_file_eq i root fs f :
  inv i (root :: fs) None → source_ok f → length fs + 3 ≤ NINODES →
  let n := Z.of_nat (length (e_data root)) in n + 16 ≤ MAXFILE * BSIZE →
  freeblock i + cost (n + 16) - cost n + cost (length f.2) ≤ FSSIZE →
  ∃ i' root' e, add_file host_open 1 f.1 i = Ret () i' ∧ inv i' (root' :: fs ++ [e]) None ∧
    e_type root' = e_type root ∧ e_data root' = e_data root ++ mk_dirent (length fs + 2) (shortname f.1) ∧
    e_type e = T_FILE ∧ e_data e = f.2 ∧ freeblock i' = freeblock i + cost (n + 16) - cost n + cost (length f.2).
Proof.
  intros HI (Hs & Hlen & fd & Hopen & Hrest) Hroom n Hmax Hfb.
  destruct (ialloc_eq i (root :: fs) T_FILE HI) as (i1 & E1 & HI1 & Hf1); [cbn [length]; lia|done|].
  replace (length (root :: fs) + 1) with (length fs + 2) in E1 by (cbn [length]; lia).
  set (de := mk_dirent (length fs + 2) (shortname f.1)). assert (Z.of_nat (length de) = 16) as Hde by (unfold de; by rewrite length_mk_dirent).
  pose proof (cost_mono 0 (length f.2) ltac:(lia)) as Hc0. change (cost 0) with 0 in Hc0.
  destruct (iappend_eq i1 _ 0 root de HI1 eq_refl) as (i2 & root' & E2 & HI2 & Ht2 & Hd2 & Hf2); rewrite ?Hde; fold n; [lia|lia|].
  rewrite Hde in Hf2. fold n in Hf2. change (<[0%nat := root']> ((root :: fs) ++ [?e])) with (root' :: fs ++ [e]) in HI2.
  set (e0 := mkEnt T_FILE [] [] 0) in *. assert ((root' :: fs ++ [e0]) !! S (length fs) = Some e0) as Hk by (by apply list_lookup_middle).
  destruct (copy_loop (S (length (rest fd))) (S (length fs)) i2 _ e0 fd HI2 Hk) as (i3 & e & E3 & HI3 & Ht3 & Hd3 & Hf3);
    cbn [e0 e_data length]; change (Z.of_nat 0) with 0; rewrite ?Z.add_0_l, ?Hrest; change (cost 0) with 0; [lia|lia|lia|].
  cbn [e0 e_data length] in Hf3. change (Z.of_nat 0) with 0 in Hf3. rewrite Z.add_0_l, Hrest in Hf3. change (cost 0) with 0 in Hf3.
  exists i3, root', e. split; [|split; [|split_and!; try done; [by rewrite Hd3, Hrest|lia]]].
  - unfold add_file. rewrite bool_decide_false, Hopen by done. msimpl. rewrite E1. msimpl. fold de.
    change (1) with (0%nat + 1) at 1. rewrite E2. msimpl. by replace (length fs + 2) with (S (length fs) + 1) by lia.
  - change (S (length fs)) with (length (root' :: fs)) in HI3. change (root' :: fs ++ [e0]) with ((root' :: fs) ++ e0 :: []) in HI3.
    rewrite insert_app_r_alt, Nat.sub_diag in HI3 by done. exact HI3.
Qed.

(** The root directory that lists the files, and the sectors all of it takes. *)
Definition root_dir (files : list (list Z * list Z)) : list Z :=
  mk_dirent 1 (str ".") ++ mk_dirent 1 (str "..") ++ mjoin (imap (λ k f, mk_dirent (k + 2) (shortname f.1)) files).
Definition used_by (files : list (list Z * list Z)) : Z :=
  cost (length (root_dir files)) + foldr (λ f z, cost (length f.2) + z) 0 files.

Lemma root_dir_snoc files f : root_dir (files ++ [f]) = root_dir files ++ mk_dirent (length files + 2) (shortname f.1).
Proof.
  unfold root_dir. rewrite imap_app, join_app. cbn [imap]. rewrite Nat.add_0_r, <-!app_assoc.
  change (mjoin [?x]) with (x ++ []). by rewrite app_nil_r.
Qed.

Lemma length_root_dir files : Z.of_nat (length (root_dir files)) = 16 * (length files + 2).
Proof.
  induction files as [|f files IH] using rev_ind; [reflexivity|].
  rewrite root_dir_snoc, length_app, length_mk_dirent, length_app. cbn [length]. lia.
Qed.

Lemma used_by_snoc files f :
  let n := Z.of_nat (length (root_dir files)) in
  used_by (files ++ [f]) = used_by files + cost (n + 16) - cost n + cost (length f.2).
Proof.
  intros n. unfold used_by. rewrite root_dir_snoc, length_app, length_mk_dirent.
  replace (Z.of_nat (length (root_dir files) + 16)) with (n + 16) by lia. fold n.
  assert (∀ z, foldr (λ f z, cost (length f.2) + z) z files = foldr (λ f z, cost (length f.2) + z) 0 files + z) as Hz.
  { intros z. induction files as [|g files IH]; cbn; [lia|]. rewrite IH. lia. }
  rewrite foldr_app. cbn [foldr]. rewrite Hz. lia.
Qed.

Lemma used_by_prefix l1 l2 : used_by l1 ≤ used_by (l1 ++ l2).
Proof.
  induction l2 as [|f l2 IH] using rev_ind; [by rewrite app_nil_r|]. rewrite app_assoc, used_by_snoc.
  pose proof (length_root_dir (l1 ++ l2)). set (n := Z.of_nat (length (root_dir (l1 ++ l2)))) in *.
  pose proof (cost_mono n (n + 16) ltac:(lia)). pose proof (cost_mono 0 (length f.2) ltac:(lia)) as Hc. change (cost 0) with 0 in Hc. lia.
Qed.

(** What mkfs has when it has copied [files]. *)
Record built (i : image) (files : list (list Z * list Z)) (root : ent) (fs : list ent) : Prop := {
  bu_inv : inv i (root :: fs) None;
  bu_type : e_type root = T_DIR;
  bu_root : e_data root = root_dir files;
  bu_files : Forall2 (λ f e, e_type e = T_FILE ∧ e_data e = f.2) files fs;
  bu_fb : freeblock i = nmeta + used_by files;
}.

Lemma built_add i files f root fs :
  built i files root fs → source_ok f → length files + 3 ≤ NINODES → nmeta + used_by (files ++ [f]) ≤ FSSIZE →
  ∃ i' root' fs', add_file host_open 1 f.1 i = Ret () i' ∧ built i' (files ++ [f]) root' fs'.
Proof.
  intros [HI Ht Hr Hfs Hfb] Hf Hl Hu. pose proof (Forall2_length _ _ _ Hfs) as Hlen. pose proof (length_root_dir files) as Hlr.
  pose proof (used_by_snoc files f) as Hsn. cbn zeta in Hsn. unfold NINODES in Hl. assert (MAXFILE * BSIZE = 274432) as EM by done.
  destruct (add_file_eq i root fs f HI Hf) as (i' & root' & e & E & HI' & Ht' & Hd' & Hte & Hde & Hfb');
    rewrite ?Hr; [unfold NINODES; lia|lia|lia|].
  exists i', root', (fs ++ [e]). split; [done|]. split; try done.
  - congruence.
  - by rewrite Hd', Hr, root_dir_snoc, Hlen.
  - apply Forall2_app; [done|]. by constructor.
  - rewrite Hr in Hfb'. lia.
Qed.

Lemma built_all i root fs files : ∀ done,
  built i done root fs → Forall source_ok files → length (done ++ files) + 2 ≤ NINODES → nmeta + used_by (done ++ files) ≤ FSSIZE →
  ∃ i' root' fs', for_each files.*1 (add_file host_open 1) i = Ret () i' ∧ built i' (done ++ files) root' fs'.
Proof.
  revert i root fs. induction files as [|f files IH]; intros i root fs d Hb Hs Hl Hu.
  - exists i, root, fs. by rewrite app_nil_r.
  - apply Forall_cons in Hs as [Hf Hs]. replace (d ++ f :: files) with ((d ++ [f]) ++ files) in * by (by rewrite <-app_assoc).
    pose proof (used_by_prefix (d ++ [f]) files). rewrite !length_app in Hl. cbn [length] in Hl.
    destruct (built_add i d f root fs Hb Hf) as (i1 & r1 & fs1 & E1 & Hb1); [lia|lia|].
    destruct (IH i1 r1 fs1 (d ++ [f]) Hb1 Hs) as (i2 & r2 & fs2 & E2 & Hb2); [rewrite !length_app; cbn [length]; lia|done|].
    exists i2, r2, fs2. split; [|done]. cbn [fmap list_fmap for_each]. msimpl. by rewrite E1.
Qed.
End run.

(** The superblock as readsb() loads it. *)
Definition sb_at (d : list Z) : superblock :=
  let w i := word_at d (4 * i) in
  mkSuperblock (w 0%nat) (w 1%nat) (w 2%nat) (w 3%nat) (w 4%nat) (w 5%nat) (w 6%nat) (w 7%nat).

(** A regular file of the image: what ilock(), bmap() and readi() find. *)
Definition stored (i : image) (inum type size : Z) (data : list Z) : Prop :=
  let x := disk_inode i inum in
  i_type x = type ∧ i_nlink x = 1 ∧ i_size x = size ∧
  file_bytes (sector i) x 0 (length data) = data ∧
  ∀ bn, mapped (sector i) x bn ↔ 0 ≤ bn < nblk (length data).

(** The image of [files].  The unused end of the root directory's last block is
    zero, the size in its inode is a multiple of the block size. *)
Record fs_image (i : image) (files : list (list Z * list Z)) : Prop := {
  fi_full : full i;
  fi_sb : sb_at (sector i 1) = sb;
  fi_root : stored i ROOTINO T_DIR ((length (root_dir files) / BSIZE + 1) * BSIZE) (root_dir files);
  fi_end : let n := Z.of_nat (length (root_dir files)) in
    file_bytes (sector i) (disk_inode i ROOTINO) n (BSIZE * nblk n - n) = replicate (Z.to_nat (BSIZE * nblk n - n)) 0;
  fi_files : ∀ (k : nat) f, files !! k = Some f → stored i (k + 2) T_FILE (length f.2) f.2;
  fi_free : ∀ inum, length files + 2 ≤ inum < NINODES → disk_inode i inum = inode0;
  fi_blocks :
    inode_blocks (sector i) (disk_inode i ROOTINO) (length (root_dir files)) ++
    mjoin (imap (λ k f, inode_blocks (sector i) (disk_inode i (k + 2)) (length f.2)) files)
    ≡ₚ seqZ nmeta (used_by files);
  fi_bitmap : ∀ b, 0 ≤ b < FSSIZE → bit_used (sector i (BBLOCK b sb)) (b mod BPB) = (b <? nmeta + used_by files);
}.

(** The last steps of main(). *)
Definition finish : M image () :=
  din ← rinode ROOTINO;
  winode ROOTINO (din <| i_size := xint (u32 ((xint (i_size din) / BSIZE + 1) * BSIZE)) |>);;
  used ← Prelude.gets freeblock;
  balloc used.

Section finish.
Context (i : image) (files : list (list Z * list Z)) (root : ent) (fs : list ent).
Context (Hb : built i files root fs) (Hlen : length files + 2 ≤ NINODES) (Hused : nmeta + used_by files ≤ FSSIZE).

Lemma root_size : 0 ≤ (length (root_dir files) / BSIZE + 1) * BSIZE < 2 ^ 31.
Proof using Hlen. rewrite length_root_dir. unfold NINODES, BSIZE in *. Z.to_euclidean_division_equations. lia. Qed.

(** The image it leaves, in terms of the files. *)
Lemma finish_eq :
  ∃ i', finish i = Ret () i' ∧ full i' ∧ (∀ n, 0 ≤ n → n < 32 ∨ 46 ≤ n → sector i' n = sector i n) ∧
    sector i' 45 = foldl bit_mark zero_block (seqZ 0 (freeblock i)) ∧
    ∀ j, 0 ≤ j < 208 → disk_inode i' j =
      if decide (j = 1) then ent_din ((length (root_dir files) / BSIZE + 1) * BSIZE) root else disk_inode i j.
Proof using Hb Hlen Hused.
  destruct Hb as [HI Ht Hr Hfs Hfb]. pose proof root_size as Hs. set (sz := (length (root_dir files) / BSIZE + 1) * BSIZE) in *.
  destruct (iv_disk _ _ _ HI 0 root eq_refl ltac:(done)) as [Hd Htight]. pose proof (length_root_dir files) as Hl.
  destruct (winode_eq i 1 (ent_din sz root)) as (i1 & E1 & Hf1 & _ & Hfb1 & Hs1 & Hd1); [apply HI|lia| |done|].
  { destruct (ent_inode_ok _ _ _ 0 root HI eq_refl). split; try done. cbn. lia. }
  unfold finish. msimpl. rewrite rinode_eq by (apply HI || done). msimpl. change (disk_inode i ROOTINO) with (disk_inode i (0%nat + 1)).
  rewrite Hd. change (i_size (ent_inode root)) with (Z.of_nat (length (e_data root))). rewrite Hr.
  unfold NINODES in Hlen. rewrite (xint_small (length (root_dir files))) by lia. fold sz. rewrite u32_small, xint_small by lia.
  change (ent_inode root <| i_size := sz |>) with (ent_din sz root). change ROOTINO with 1. rewrite E1. msimpl.
  rewrite Hfb1. unfold balloc. mif_false by (apply negb_false_iff; rewrite Hfb; unfold FSSIZE, BSIZE in *; lia).
  change (sb_bmapstart sb) with 45. rewrite wsect_eq by (done || (unfold FSSIZE; lia)). eexists. split; [done|].
  assert (∀ l d, length (foldl bit_mark d l) = length d) as Hlb.
  { induction l as [|b l IH]; intros d; [done|]. cbn [foldl]. rewrite IH. apply length_alter. }
  assert (0 ≤ 45 < FSSIZE) as H45 by (unfold FSSIZE; lia).
  split; [apply full_put; [done|by rewrite Hlb]|]. split_and!.
  - intros n Hn Hout. rewrite sector_put by done. rewrite decide_False by lia. apply Hs1; lia.
  - rewrite sector_put by done. by rewrite decide_True.
  - intros j Hj. destruct (IBLOCK_range j Hj). unfold disk_inode at 1. rewrite sector_put by (done || lia). rewrite decide_False by lia. by apply Hd1.
Qed.

Lemma stored_ent i' inum e sz k :
  (root :: fs) !! k = Some e → (∀ n, 46 ≤ n → sector i' n = sector i n) → disk_inode i' inum = ent_din sz e →
  stored i' inum (e_type e) sz (e_data e) ∧ inode_blocks (sector i') (disk_inode i' inum) (length (e_data e)) = ent_blocks e.
Proof using Hb.
  intros Hk Hs Hd. pose proof (bu_inv _ _ _ _ Hb) as HI. destruct (iv_wf _ _ _ HI k e Hk) as [Hw _].
  destruct (iv_disk _ _ _ HI k e Hk ltac:(done)) as [_ Ht].
  assert (∀ j a, e_blks e !! j = Some a → 46 ≤ a < FSSIZE) as Hr by (intros j a Ha; by eapply blks_range).
  assert (ent_wf (sector i') e) as Hw'.
  { eapply ent_wf_ext; [|exact Hw]. intros a Ha. apply Hs. pose proof (blocks_range _ _ _ _ _ _ HI Hk Ha). change nmeta with 46 in *. lia. }
  unfold stored. rewrite Hd. split; [split_and!; try done|].
  - by apply file_data_ent.
  - intros bn. rewrite (mapped_ent _ _ _ Hw' Hr). by rewrite Ht.
  - by apply inode_blocks_ent.
Qed.

(** The end of the root directory's last block. *)
Lemma root_end i' :
  (∀ n, 46 ≤ n → sector i' n = sector i n) →
  let n := Z.of_nat (length (root_dir files)) in
  ∀ sz, file_bytes (sector i') (ent_din sz root) n (BSIZE * nblk n - n) = replicate (Z.to_nat (BSIZE * nblk n - n)) 0.
Proof using Hb.
  intros Hs n sz. pose proof (bu_inv _ _ _ _ Hb) as HI. destruct (iv_wf _ _ _ HI 0 root eq_refl) as [Hw _].
  destruct (iv_disk _ _ _ HI 0 root eq_refl ltac:(done)) as [_ Ht]. unfold tight in Ht. rewrite (bu_root _ _ _ _ Hb) in Ht. fold n in Ht.
  assert (∀ j a, e_blks root !! j = Some a → 46 ≤ a < FSSIZE) as Hr by (intros j a Ha; by eapply (blks_range _ _ _ 0)).
  assert (ent_wf (sector i') root) as Hw'.
  { eapply ent_wf_ext; [|exact Hw]. intros a Ha. apply Hs. pose proof (blocks_range _ _ _ 0 _ _ HI eq_refl Ha). change nmeta with 46 in *. lia. }
  pose proof (file_bytes_ent _ _ sz Hw' Hr) as E. pose proof (ew_room _ _ Hw') as Hroom. rewrite (bu_root _ _ _ _ Hb) in E, Hroom.
  assert (BSIZE = 1024) as HB by done. rewrite Ht in E.
  assert (n ≤ BSIZE * nblk n) as Hle by (unfold n in *; lia).
  replace (BSIZE * nblk n) with (n + (BSIZE * nblk n - n)) in E at 1 by lia. rewrite file_bytes_app, resize_ge in E by lia.
  pose proof (length_file_bytes (sector i') (ent_din sz root) 0 n ltac:(lia)).
  apply app_inj_1 in E as [_ E]; [|lia]. rewrite Z.add_0_l in E. rewrite E. f_equal. lia.
Qed.

Lemma finish_image : ∃ i', finish i = Ret () i' ∧ fs_image i' files.
Proof using Hb Hlen Hused.
  destruct finish_eq as (i' & E & Hf & Hs & Hbm & Hd). exists i'. split; [done|].
  pose proof (bu_inv _ _ _ _ Hb) as HI. pose proof (bu_files _ _ _ _ Hb) as Hfs. pose proof (Forall2_length _ _ _ Hfs) as Hlf.
  assert (∀ n, 46 ≤ n → sector i' n = sector i n) as Hs' by (intros; apply Hs; lia). unfold NINODES in *.
  pose proof (Hd 1 ltac:(lia)) as Hd1. rewrite decide_True in Hd1 by done.
  destruct (stored_ent i' 1 root _ 0 eq_refl Hs' Hd1) as [Hroot Hrb]. rewrite (bu_root _ _ _ _ Hb) in Hroot, Hrb. rewrite (bu_type _ _ _ _ Hb) in Hroot.
  assert (∀ (k : nat) f, files !! k = Some f → ∃ e, fs !! k = Some e ∧ stored i' (k + 2) T_FILE (length f.2) f.2 ∧
    inode_blocks (sector i') (disk_inode i' (k + 2)) (length f.2) = ent_blocks e) as Hfile.
  { intros k f Hk. destruct (Forall2_lookup_l _ _ _ _ _ Hfs Hk) as (e & Hke & Het & Hed). exists e. split; [done|].
    pose proof (lookup_lt_Some _ _ _ Hk). destruct (iv_disk _ _ _ HI (S k) e Hke ltac:(done)) as [Hde _].
    rewrite <-Het, <-Hed. apply (stored_ent i' (k + 2) e _ (S k)); [done..|]. rewrite Hd by lia. rewrite decide_False by lia.
    replace (k + 2) with (S k + 1) by lia. done. }
  split; try done.
  - rewrite Hs, (iv_sb _ _ _ HI) by lia. vm_compute. reflexivity.
  - intros n. change (disk_inode i' ROOTINO) with (disk_inode i' 1). rewrite Hd1. by apply root_end.
  - intros k f Hk. by destruct (Hfile k f Hk) as (e & _ & ? & _).
  - intros inum Hn. unfold NINODES in Hn. rewrite Hd by lia. rewrite decide_False by lia. apply (iv_free _ _ _ HI). cbn [length]. lia.
  - change (disk_inode i' ROOTINO) with (disk_inode i' 1). rewrite Hrb.
    replace (imap _ files) with (ent_blocks <$> fs); [|].
    + change (ent_blocks root ++ mjoin (ent_blocks <$> fs)) with (mjoin (ent_blocks <$> root :: fs)).
      rewrite (iv_perm _ _ _ HI), (bu_fb _ _ _ _ Hb). by replace (nmeta + used_by files - nmeta) with (used_by files) by lia.
    + apply list_eq. intros k. rewrite list_lookup_fmap, list_lookup_imap. destruct (files !! k) as [f|] eqn:Ek.
      * destruct (Hfile k f Ek) as (e & -> & _ & Eb). cbn. by rewrite Eb.
      * rewrite (proj2 (lookup_ge_None fs k)); [done|]. apply lookup_ge_None in Ek. lia.
  - intros b Hbr. unfold BBLOCK. change (sb_bmapstart sb) with 45. change BPB with 8192. unfold FSSIZE in *.
    rewrite Z.div_small, Z.mod_small, u32_small by lia. rewrite Z.add_0_l, Hbm, bitmap_spec, (bu_fb _ _ _ _ Hb).
    + change (bit_used zero_block b || ?x) with (bit_used zero_block b || x). unfold zero_block.
      rewrite bit_used_testbit by lia. replace (default 0 _) with 0; [by rewrite Z.bits_0|].
      destruct (replicate _ 0 !! _) eqn:E0; [|done]. by apply lookup_replicate in E0 as [-> _].
    + pose proof (iv_fb _ _ _ HI). unfold FSSIZE in *. change (length zero_block) with 1024%nat. assert (0 ≤ nmeta) by done. lia.
    + lia.
Qed.
End finish.

(** The root directory before the first file. *)
Lemma built_root : ∃ i root i1 i2,
  ialloc T_DIR empty_image = Ret 1 i1 ∧ iappend 1 (mk_dirent 1 (str ".")) i1 = Ret () i2 ∧
  iappend 1 (mk_dirent 1 (str "..")) i2 = Ret () i ∧ built i [] root [].
Proof.
  destruct (ialloc_eq empty_image [] T_DIR inv_empty) as (i1 & E1 & HI1 & Hf1); [done|done|].
  assert (freeblock i1 = 46) as Hb1 by (by rewrite Hf1). assert (FSSIZE = 2000) as EF by done.
  destruct (iappend_eq i1 _ 0 (mkEnt T_DIR [] [] 0) (mk_dirent 1 (str ".")) HI1 eq_refl) as (i2 & e2 & E2 & HI2 & Ht2 & Hd2 & Hf2);
    [done|rewrite Hb1; done|]. cbn [e_data app] in Hd2.
  assert (freeblock i2 = 47) as Hb2 by (rewrite Hf2, Hb1; done).
  destruct (iappend_eq i2 _ 0 e2 (mk_dirent 1 (str "..")) HI2 eq_refl) as (i3 & e3 & E3 & HI3 & Ht3 & Hd3 & Hf3);
    [rewrite Hd2; done|rewrite Hd2, Hb2; done|]. rewrite Hd2 in Hd3, Hf3.
  exists i3, e3, i1, i2. do 3 (split; [done|]). split; [done|by rewrite Ht3, Ht2|by rewrite Hd3|constructor|]. rewrite Hf3, Hb2. done.
Qed.

Lemma mkfs_spec {St : Type} `{!Stream St} (host_open : list Z → option St) host_creat argv0 img files :
  host_creat img = true → Forall (source_ok host_open) files →
  length files + 2 ≤ NINODES → nmeta + used_by files ≤ FSSIZE →
  ∃ i, main host_open host_creat (argv0 :: img :: files.*1) image0 = Ret () i ∧ fs_image i files.
Proof.
  intros Hc Hs Hl Hu. destruct built_root as (i0 & root & i1 & i2 & E1 & E2 & E3 & Hb).
  destruct (built_all host_open i0 root [] files [] Hb Hs Hl Hu) as (i & root' & fs & E4 & Hb').
  destruct (finish_image i files root' fs Hb' Hl Hu) as (i' & E5 & Hi). exists i'. split; [|done].
  unfold main, image0. rewrite Hc. msimpl. change (mkImage [] 1 0 <| freeblock := nmeta |>) with (mkImage [] 1 nmeta).
  rewrite blank_eq. msimpl. rewrite super_eq. msimpl. rewrite E1. msimpl. change (1 =? ROOTINO) with true. msimpl.
  rewrite E2. msimpl. rewrite E3. msimpl. rewrite E4. msimpl. exact E5.
Qed.

(** C19: mkfs, given files that fit, ends with an image of them ([fs_image]): the
    superblock, every file's inode and block map as the kernel reads them, with
    the file's bytes; a root directory that names the files in order; no sector
    in two files, none lost; a bitmap that marks exactly the sectors in use. *)
Theorem mkfs_correct {St : Type} `{!Stream St} (host_open : list Z → option St) host_creat argv0 img files :
  host_creat img = true → Forall (source_ok host_open) files →
  length files + 2 ≤ NINODES → nmeta + used_by files ≤ FSSIZE →
  ∃ i, main host_open host_creat (argv0 :: img :: files.*1) image0 = Ret () i ∧ fs_image i files.
Proof. apply mkfs_spec. Qed.

(** ** A witness: two host files, the second one read in pieces *)

Definition ex_sources : list (list Z * list Z) := [(str "user/_cat", replicate 1500 65); (str "README", str "hello")].
Definition ex_open (path : list Z) : option pieces :=
  if bool_decide (path = str "user/_cat") then Some (replicate 1500 65, [])
  else if bool_decide (path = str "README") then Some (str "hello", [2%nat; 1%nat]) else None.

Lemma ex_sources_ok : Forall (source_ok ex_open) ex_sources.
Proof.
  repeat constructor; try (apply (bool_decide_eq_true_1 _); vm_compute; reflexivity); try (vm_compute; congruence).
  - by exists (replicate 1500 65, []).
  - by exists (str "hello", [2%nat; 1%nat]).
Qed.

Lemma mkfs_correct_witness :
  ∃ i, main ex_open (λ _, true) [str "mkfs"; str "fs.img"; str "user/_cat"; str "README"] image0 = Ret () i ∧
    fs_image i ex_sources.
Proof.
  apply (mkfs_correct ex_open (λ _, true) (str "mkfs") (str "fs.img") ex_sources);
    [reflexivity|exact ex_sources_ok|vm_compute; congruence|vm_compute; congruence].
Defined.
