(* ===== verification/MkfsBoot.v ===== *)
(** * The kernel on an image made by mkfs

    What mkfs wrote is what the kernel reads: dirlookup() in the root directory
    finds each file, ilock() loads its inode and readi() returns the contents
    of the host file.  mkfs and the kernel only share the layout of fs.h, and
    the theorem goes through the bytes of the image. *)

From Stdlib Require Import ZArith Lia.
From stdpp Require Import base numbers strings option list gmap.
From S2P Require Import Prelude Params Machine Cstring Kalloc Sched SchedFacts Uart Console Sleeplock Bio BioFacts Log LogFacts Fs FsFacts FsDir VmExample Ulib Mkfs.

Open Scope Z_scope.

(** ** Two views of the same sectors *)

Section agree.
Context (v v' : Z → list Z) (x x' : inode) (n : Z).
Context (Hv : ∀ a, 0 ≤ a < FSSIZE → v' a = v a) (Hx : i_addrs x' = i_addrs x) (Hn : 0 ≤ n).
Context (Hb : ∀ a, a ∈ inode_blocks v x n → 0 ≤ a < FSSIZE).

Lemma addr_agree k : addr_at x' k = addr_at x k.
Proof using Hx. unfold addr_at. by rewrite Hx. Qed.

Lemma indirect_range : 0 ≤ addr_at x NDIRECT < FSSIZE.
Proof using Hb.
  destruct (Z.eqb_spec (addr_at x NDIRECT) 0) as [->|E]; [done|]. apply Hb. unfold inode_blocks.
  rewrite (proj2 (Z.eqb_neq _ _) E). apply elem_of_app. right. by left.
Qed.

Lemma file_addr_agree bn : file_addr v' x' bn = file_addr v x bn.
Proof using Hx Hv Hb.
  unfold file_addr. destruct (bn <? NDIRECT); rewrite addr_agree; [done|]. by rewrite Hv by apply indirect_range.
Qed.

Lemma file_addr_range bn : 0 ≤ bn < nblk n → 0 ≤ file_addr v x bn < FSSIZE.
Proof using Hb.
  intros Hbn. apply Hb, elem_of_app. left. apply list_elem_of_fmap. exists bn. split; [done|]. apply elem_of_seqZ. lia.
Qed.

Lemma mapped_agree bn : 0 ≤ bn < nblk n → mapped v x bn → mapped v' x' bn.
Proof using Hx Hv Hb.
  intros Hbn [H1 H2 H3 H4]. split; rewrite ?file_addr_agree; try done.
  - intros Hd. rewrite addr_agree. by apply H3.
  - rewrite Hv; [done|]. by apply file_addr_range.
Qed.

Lemma file_bytes_agree a m : 0 ≤ a → a + m ≤ BSIZE * nblk n → file_bytes v' x' a m = file_bytes v x a m.
Proof using Hx Hv Hb.
  intros Ha Hm. unfold file_bytes. apply list_fmap_ext. intros _ k Hk%list_elem_of_lookup_2. apply elem_of_seqZ in Hk.
  rewrite file_addr_agree, Hv; [done|]. apply file_addr_range. unfold BSIZE in *. Z.to_euclidean_division_equations. lia.
Qed.
End agree.

(** ** The root directory's entries *)

Lemma dirent_of_mk inum name : 0 ≤ inum < 2 ^ 16 → dirent_of (mk_dirent inum name) = mkDirent inum (dir_name name).
Proof.
  intros Hi. unfold mk_dirent, dirent_of, dirent_bytes. cbn [d_inum d_name]. f_equal.
  rewrite (xshort_small inum) by done. unfold half_at, half_bytes. cbn. Z.to_euclidean_division_equations. lia.
Qed.

(** Entries that are blocks of 16 bytes. *)
Lemma dir_entries_join (L : list (list Z)) z j l :
  Forall (λ l, length l = 16%nat) L → L !! j = Some l → dir_entries (mjoin L ++ z) !! j = Some (dirent_of l).
Proof.
  intros HL Hj. assert (length (mjoin L) = 16 * length L)%nat as Hlen.
  { clear Hj. induction HL as [|y L Hy HL IH]; [done|]. change (mjoin (y :: L)) with (y ++ mjoin L). rewrite length_app, IH. cbn [length]. lia. }
  pose proof (lookup_lt_Some _ _ _ Hj) as Hlt. unfold dir_entries. rewrite list_lookup_fmap, lookup_seq_lt.
  - cbn [fmap option_fmap option_map Nat.add]. do 2 f_equal. clear Hlen Hlt. revert j Hj.
    induction HL as [|y L Hy HL IH]; intros j Hj; [done|]. change (mjoin (y :: L)) with (y ++ mjoin L). rewrite <-app_assoc.
    destruct j as [|j].
    + injection Hj as ->. rewrite Nat.mul_0_r, drop_0. by rewrite take_app_length' by done.
    + replace (16 * S j)%nat with (length y + 16 * j)%nat by lia. rewrite drop_app_add. by apply IH.
  - rewrite length_app, Hlen. apply Nat.lt_le_trans with (length L); [done|].
    transitivity (16 * length L / 16)%nat; [rewrite Nat.mul_comm, Nat.div_mul; lia|apply Nat.div_le_mono; lia].
Qed.

(** The names in the directory, with their inode numbers. *)
Definition root_list (files : list (list Z * list Z)) : list (Z * list Z) :=
  (1, str ".") :: (1, str "..") :: imap (λ k f, (Z.of_nat k + 2, shortname f.1)) files.

Lemma root_dir_join files : root_dir files = mjoin ((λ p, mk_dirent p.1 p.2) <$> root_list files).
Proof.
  unfold root_dir, root_list. rewrite !fmap_cons. cbn [fst snd]. rewrite fmap_imap. reflexivity.
Qed.

Lemma root_list_file files k : root_list files !! S (S k) = (λ f, (Z.of_nat k + 2, shortname f.1)) <$> files !! k.
Proof. unfold root_list. rewrite !lookup_cons_ne_0 by lia. cbn [pred]. apply list_lookup_imap. Qed.

Lemma root_entry files z j inum name :
  length files + 2 ≤ NINODES → root_list files !! j = Some (inum, name) →
  dir_entries (root_dir files ++ z) !! j = Some (mkDirent inum (dir_name name)) ∧ 0 < inum.
Proof.
  intros Hl Hj. assert (0 < inum < 2 ^ 16) as Hr.
  { destruct j as [|[|j]]; [injection Hj as <- <-; lia..|]. rewrite root_list_file in Hj.
    destruct (files !! j) as [f|] eqn:Ef; [|done]. injection Hj as <- <-. apply lookup_lt_Some in Ef. unfold NINODES in Hl. lia. }
  split; [|lia]. rewrite root_dir_join, (dir_entries_join _ _ _ (mk_dirent inum name)).
  - by rewrite dirent_of_mk by lia.
  - apply Forall_fmap, Forall_forall. intros p _. apply length_mk_dirent.
  - by rewrite list_lookup_fmap, Hj.
Qed.

(** ** Opening and reading a file *)

(** A kernel whose disk is the image, seen through its buffer cache, with the
    root inode in entry [dp] of the inode table and nothing else in use. *)
Record booted `{Patience} (i : image) (pr : nat) (q : proc) (dev : Z) (w : view) (dp : nat) (x : inode) (s : kernel) : Prop := {
  bt_io : io pr q dev w s;
  bt_pat : (0 < patience)%nat;
  bt_own : v_own w = ∅;
  bt_room : (size (v_refs w) < NBUF)%nat;
  bt_refs : ∀ n, default 0 (v_refs w !! n) + 1 < 2 ^ 32;
  bt_disk : ∀ n, 0 ≤ n < FSSIZE → v_data w n = sector i n;
  bt_sb : Machine.sb s = sb;
  bt_root : itable s !! dp = Some x;
  bt_use : 0 < i_ref x ∧ i_dev x = dev ∧ i_inum x = ROOTINO;
  bt_type : i_type x = i_type (disk_inode i ROOTINO);
  bt_size : i_size x = i_size (disk_inode i ROOTINO);
  bt_addrs : i_addrs x = i_addrs (disk_inode i ROOTINO);
  bt_len : length (itable s) = NINODE;
  bt_free : ∀ j y, itable s !! j = Some y → j ≠ dp → i_ref y = 0 ∧ sl_locked (i_lock y) = 0;
}.

(** [f] is file [k], and no entry of the directory before its own has its name. *)
Definition names_file (files : list (list Z * list Z)) (k : nat) (f : list Z * list Z) : Prop :=
  files !! k = Some f ∧
  ∀ j p, (j < k + 2)%nat → root_list files !! j = Some p → ¬ same_name (dir_name (shortname f.1)) (dir_name p.2).

Lemma image_blocks i files : fs_image i files → nmeta + used_by files ≤ FSSIZE →
  (∀ a, a ∈ inode_blocks (sector i) (disk_inode i ROOTINO) (length (root_dir files)) → 0 ≤ a < FSSIZE) ∧
  ∀ (k : nat) f, files !! k = Some f →
    ∀ a, a ∈ inode_blocks (sector i) (disk_inode i (k + 2)) (length f.2) → 0 ≤ a < FSSIZE.
Proof.
  intros Hi Hu. assert (nmeta = 46) as Hn by done.
  assert (∀ a, a ∈ inode_blocks (sector i) (disk_inode i ROOTINO) (length (root_dir files)) ++
    mjoin (imap (λ k f, inode_blocks (sector i) (disk_inode i (k + 2)) (length f.2)) files) → 0 ≤ a < FSSIZE) as H.
  { intros a Ha. rewrite (fi_blocks _ _ Hi), elem_of_seqZ in Ha. lia. }
  split; [intros a Ha; apply H, elem_of_app; by left|]. intros k f Hk a Ha. apply H, elem_of_app. right.
  apply list_elem_of_join. eexists. split; [exact Ha|]. apply list_elem_of_lookup. exists k. by rewrite list_lookup_imap, Hk.
Qed.

(** The whole of the root directory, when its last block is not full. *)
Lemma image_root i files :
  fs_image i files → (Z.of_nat (length files) + 2) mod 64 ≠ 0 →
  let n := Z.of_nat (length (root_dir files)) in
  i_size (disk_inode i ROOTINO) = BSIZE * nblk n ∧
  file_bytes (sector i) (disk_inode i ROOTINO) 0 (BSIZE * nblk n) = root_dir files ++ replicate (Z.to_nat (BSIZE * nblk n - n)) 0.
Proof.
  intros Hi H64 n. destruct (fi_root _ _ Hi) as (_ & _ & Hs & Hb & _). pose proof (length_root_dir files) as Hl. fold n in Hs, Hb, Hl.
  assert ((n / BSIZE + 1) * BSIZE = BSIZE * nblk n ∧ n ≤ BSIZE * nblk n) as [E Hle].
  { unfold nblk, BSIZE. rewrite Hl. Z.to_euclidean_division_equations. lia. }
  split; [lia|]. replace (BSIZE * nblk n) with (n + (BSIZE * nblk n - n)) at 1 by lia.
  rewrite file_bytes_app, Hb by lia. f_equal. apply (fi_end _ _ Hi).
Qed.

(** An inode the table does not hold goes into a free entry. *)
Lemma iget_fresh (t : list inode) dev inum (dp : nat) x :
  t !! dp = Some x → 0 < i_ref x → i_inum x ≠ inum → (2 ≤ length t)%nat →
  (∀ j y, t !! j = Some y → j ≠ dp → i_ref y = 0) →
  ∃ ip y, ip ≠ dp ∧ t !! ip = Some y ∧
    iget_table t dev inum = Some (ip, <[ip := y <| i_dev := dev |> <| i_inum := inum |> <| i_ref := 1 |> <| i_valid := 0 |>]> t).
Proof.
  intros Hdp Href Hne Hl Hfree. unfold iget_table.
  assert (list_find (cached dev inum) t = None) as ->.
  { apply list_find_None, Forall_lookup_2. intros j y Hj (H1 & _ & H3). destruct (decide (j = dp)) as [->|Hjd].
    - simplify_eq. - pose proof (Hfree _ _ Hj Hjd). lia. }
  destruct (list_find (λ x, i_ref x = 0) t) as [[ip y]|] eqn:E.
  - apply list_find_Some in E as (Hip & H0 & _). exists ip, y. split; [intros ->; simplify_eq; lia|]. split; [done|].
    by rewrite (list_alter_insert _ _ _ _ Hip).
  - exfalso. apply list_find_None in E. rewrite Forall_lookup in E.
    destruct (lookup_lt_is_Some_2 t (if decide (dp = 0%nat) then 1 else 0)%nat) as [y Hy]; [case_decide; lia|].
    apply (E _ _ Hy), (Hfree _ _ Hy). case_decide; lia.
Qed.

(** The search in the root directory. *)
Lemma find_file files z k f :
  length files + 2 ≤ NINODES → names_file files k f →
  list_find (named (dir_name (shortname f.1))) (dir_entries (root_dir files ++ z)) =
    Some (S (S k), mkDirent (Z.of_nat k + 2) (dir_name (shortname f.1))).
Proof.
  intros Hlen [Hk Hbefore]. pose proof (lookup_lt_Some _ _ _ Hk) as Hkl. apply list_find_Some.
  destruct (root_entry files z (S (S k)) (Z.of_nat k + 2) (shortname f.1) Hlen) as [He Hpos]; [by rewrite root_list_file, Hk|].
  split; [done|]. split; [split; [cbn; lia|done]|]. intros j de Hde Hj [_ Hs].
  destruct (lookup_lt_is_Some_2 (root_list files) j) as [[inum name] Hp].
  { unfold root_list. cbn [length]. rewrite length_imap. lia. }
  destruct (root_entry files z j inum name Hlen Hp) as [He' _]. rewrite Hde in He'. injection He' as ->.
  apply (Hbefore j (inum, name)); [lia|done|done].
Qed.

Section reads.
Context `{Linker} `{Patience} (i : image) (files : list (list Z * list Z)).
Context (Hi : fs_image i files) (Hlen : length files + 2 ≤ NINODES) (Hu : nmeta + used_by files ≤ FSSIZE).
Context (H64 : (Z.of_nat (length files) + 2) mod 64 ≠ 0).

Lemma lookup_file pr q dev w dp x s k f :
  booted i pr q dev w dp x s → names_file files k f →
  ∃ ip y s1, dirlookup dp (dir_name (shortname f.1)) s =
      Ret (Some (ip, 16 * (Z.of_nat k + 2))) (s1 <| itable := <[ip := y <| i_dev := dev |> <| i_inum := Z.of_nat k + 2 |> <| i_ref := 1 |> <| i_valid := 0 |>]> (itable s) |>) ∧
    io pr q dev w s1 ∧ io_frame s s1 ∧ itable s !! ip = Some y ∧ sl_locked (i_lock y) = 0.
Proof using All.
  intros [Hio Hpat Hown Hroom Hrefs Hv Hsb Hdp (Href & Hdev & Hinum) Hty Hsz Had Htl Hfree] Hf.
  destruct (image_blocks i files Hi Hu) as [Hbr _]. destruct (image_root i files Hi H64) as [Hsize Hbytes].
  destruct (fi_root _ _ Hi) as (Hdt & _ & _ & _ & Hmap). pose proof (length_root_dir files) as Hlr.
  set (n := Z.of_nat (length (root_dir files))) in *. assert (BSIZE = 1024) as HB by done.
  assert (∃ m : nat, nblk n = m ∧ m ≤ 4) as (m & Hm & Hm4).
  { exists (Z.to_nat (nblk n)). unfold NINODES in Hlen. unfold nblk, BSIZE. Z.to_euclidean_division_equations. lia. }
  destruct (dirlookup_spec pr q dev w x dp (dir_name (shortname f.1)) (64 * m) s Hio Hpat Hown Hroom Hrefs Hdp Htl Hdev)
    as (s1 & Hio1 & Hf1 & _ & E).
  { by rewrite Hty. } { right. unfold dir_name. by rewrite length_resize. } { lia. } { lia. }
  { intros bn H1 H2. eapply (mapped_agree (sector i) _ (disk_inode i ROOTINO) _ n); [done..|nia|]. apply Hmap. nia. }
  rewrite (file_bytes_agree (sector i) (v_data w) (disk_inode i ROOTINO) x n) in E by (done || lia).
  rewrite Hsz, Hsize, Hbytes, (find_file _ _ k f) in E by done. cbn [d_inum] in E.
  destruct (iget_fresh (itable s) dev (Z.of_nat k + 2) dp x) as (ip & y & Hne & Hy & Hg); try done.
  { rewrite Hinum. unfold ROOTINO. lia. } { rewrite Htl. unfold NINODE. lia. } { intros j y Hj Hjd. by apply (Hfree j y). }
  rewrite Hg in E. exists ip, y, s1. replace (16 * (Z.of_nat k + 2)) with (16 * Z.of_nat (S (S k))) by lia.
  split; [exact E|]. split; [done|]. split; [done|]. split; [done|]. by apply (Hfree ip y).
Qed.

Lemma io_frame_sb s s' : io_frame s s' → Machine.sb s' = Machine.sb s.
Proof. intros [ps ->]. done. Qed.

(** Loading and reading inode [k + 2]. *)
Lemma load_file pr q dev w ip y s k f :
  io pr q dev w s → (0 < patience)%nat → v_own w = ∅ → (size (v_refs w) < NBUF)%nat →
  (∀ n, default 0 (v_refs w !! n) + 1 < 2 ^ 32) → (∀ n, 0 ≤ n < FSSIZE → v_data w n = sector i n) → Machine.sb s = sb →
  itable s !! ip = Some y → i_dev y = dev → i_inum y = Z.of_nat k + 2 → i_ref y = 1 → i_valid y = 0 → sl_locked (i_lock y) = 0 →
  files !! k = Some f → length f.2 ≤ MAXFILE * BSIZE →
  ∃ s2 s3, ilock (Some ip) s = Ret () s2 ∧ readi ip DVar 0 (length f.2) s2 = Ret (Z.of_nat (length f.2), f.2) s3.
Proof using Hi Hlen Hu.
  clear H64. intros Hio Hpat Hown Hroom Hrefs Hv Hsb Hy Hyd Hyi Hyr Hyv Hyl Hk Hmax. assert (MAXFILE * BSIZE = 274432) as EM by done.
  destruct (image_blocks i files Hi Hu) as [_ Hbr]. specialize (Hbr k f Hk).
  destruct (fi_files _ _ Hi k f Hk) as (Hft & _ & Hfs & Hfb & Hfm). pose proof (lookup_lt_Some _ _ _ Hk) as Hkl.
  assert (v_data w (IBLOCK (Z.of_nat k + 2) sb) = sector i (IBLOCK (Z.of_nat k + 2) sb)) as Hvb.
  { unfold NINODES in Hlen. destruct (IBLOCK_range (Z.of_nat k + 2) ltac:(lia)). apply Hv. unfold FSSIZE. lia. }
  set (y2 := loaded w sb y <| i_lock := mine q |> <| i_valid := 1 |>).
  assert (i_type (loaded w sb y) = T_FILE ∧ i_dev y2 = dev ∧ i_size y2 = length f.2 ∧ i_addrs y2 = i_addrs (disk_inode i (k + 2))) as (H2t & H2d & H2s & H2a).
  { rewrite <-Hft, <-Hfs. unfold y2, loaded, disk_inode. rewrite Hyi, Hvb. done. }
  destruct (ilock_load pr q dev w Hpat Hown Hroom Hrefs ip y s) as (s2 & E2 & Hio2 & _ & Et2); try done; [lia|by rewrite Hsb, H2t|].
  rewrite Hsb in Et2. fold y2 in Et2.
  destruct (readi_spec pr q dev w y2 ip 0 (length f.2) s2 Hio2 Hpat Hown Hroom Hrefs) as (s3 & E3 & _); try done; try lia.
  - rewrite Et2. apply list_lookup_insert_eq. by eapply lookup_lt_Some.
  - intros bn H1 H2. rewrite H2s in H2. assert (0 ≤ bn < nblk (length f.2)) by (unfold nblk, BSIZE in *; Z.to_euclidean_division_equations; lia).
    eapply (mapped_agree (sector i) _ (disk_inode i (k + 2)) _ (length f.2)); try done. by apply Hfm.
  - exists s2, s3. split; [done|]. rewrite E3, H2s, (proj2 (Z.ltb_ge _ _)), Z.sub_0_r, Z.min_id by lia. do 2 f_equal.
    rewrite (file_bytes_agree (sector i) _ (disk_inode i (k + 2)) _ (length f.2)); try done.
    unfold nblk, BSIZE. Z.to_euclidean_division_equations. lia.
Qed.
End reads.

(** C12: A kernel booted on the image mkfs makes of some files reads them back:
    dirlookup() of a file's name in the root directory, ilock() of the inode it
    returns and readi() succeed and give the bytes of the host file.  Two
    conditions are needed.  The number of files plus 2 must not be a multiple of
    64, or else mkfs records a directory size past the blocks it has written.
    And no earlier entry of the directory may have the file's short name, for
    dirlookup() finds the first ([names_file]). *)
Theorem mkfs_kernel_roundtrip `{Linker} `{Patience} {St : Type} `{!Stream St} (host_open : list Z → option St) host_creat argv0 img files :
  host_creat img = true → Forall (source_ok host_open) files →
  length files + 2 ≤ NINODES → nmeta + used_by files ≤ FSSIZE → (Z.of_nat (length files) + 2) mod 64 ≠ 0 →
  ∃ i, main host_open host_creat (argv0 :: img :: files.*1) image0 = Ret () i ∧ full i ∧
    ∀ pr q dev w dp x s k f, booted i pr q dev w dp x s → names_file files k f →
    ∃ ip s1 s2 s3, dirlookup dp (dir_name (shortname f.1)) s = Ret (Some (ip, 16 * (Z.of_nat k + 2))) s1 ∧
      ilock (Some ip) s1 = Ret () s2 ∧
      readi ip DVar 0 (length f.2) s2 = Ret (Z.of_nat (length f.2), f.2) s3.
Proof.
  intros Hc Hs Hl Hu H64. destruct (mkfs_spec host_open host_creat argv0 img files Hc Hs Hl Hu) as (i & E & Hi).
  exists i. split; [done|]. split; [apply Hi|]. intros pr q dev w dp x s k f Hbt Hf.
  destruct (lookup_file i files Hi Hl Hu H64 pr q dev w dp x s k f Hbt Hf) as (ip & y & s1 & E1 & Hio1 & Hf1 & Hy & Hlk).
  destruct Hf as [Hk _]. pose proof (Forall_lookup_1 _ _ _ _ Hs Hk) as (_ & Hmax & _).
  set (y1 := y <| i_dev := dev |> <| i_inum := Z.of_nat k + 2 |> <| i_ref := 1 |> <| i_valid := 0 |>) in E1.
  destruct (load_file i files Hi Hl Hu pr q dev w ip y1 (s1 <| itable := <[ip := y1]> (itable s) |>) k f) as (s2 & s3 & E2 & E3);
    try done; try apply Hbt.
  - by apply io_itable.
  - cbn. rewrite (io_frame_sb _ _ Hf1). apply Hbt.
  - cbn. apply list_lookup_insert_eq. by eapply lookup_lt_Some.
  - by eexists ip, _, s2, s3.
Qed.

(** ** A kernel on an image *)

Definition disk_of (i : image) : gmap Z (list Z) := map_seqZ 0 (sectors i).
Definition root_inode (i : image) : inode :=
  disk_inode i ROOTINO <| i_dev := 1 |> <| i_inum := ROOTINO |> <| i_ref := 1 |> <| i_valid := 1 |>.
Definition kernel_on (i : image) : kernel :=
  ex_fs <| disk := disk_of i |> <| itable := <[0%nat := root_inode i]> (replicate NINODE inode0) |> <| Machine.sb := sb |>.

Lemma block_disk_of i n : full i → 0 ≤ n < FSSIZE → block_at (disk_of i) n = sector i n.
Proof.
  intros Hf Hn. unfold block_at, disk_of. rewrite lookup_map_seqZ, option_guard_True, Z.sub_0_r, (sector_lookup i n Hf Hn) by lia. done.
Qed.

Lemma booted_on i : full i → @booted 1%nat i 0 ex_fs_proc 1 (mkView (block_at (disk_of i)) ∅ ∅) 0 (root_inode i) (kernel_on i).
Proof.
  intros Hf. split; try done.
  - split; [by split|]. apply (boot_bio _ _ (kernel_on i)); [discriminate|reflexivity].
  - unfold patience. lia.
  - cbn. rewrite map_size_empty. unfold NBUF. lia.
  - intros n Hn. by apply block_disk_of.
  - intros [|j] y Hj Hne; [done|]. cbn in Hj. apply (lookup_replicate (NINODE - 1)) in Hj as [-> _]. done.
Qed.

Lemma mkfs_kernel_roundtrip_witness :
  ∃ i, main ex_open (λ _, true) [str "mkfs"; str "fs.img"; str "user/_cat"; str "README"] image0 = Ret () i ∧
    ∃ ip s1 s2 s3, @dirlookup ex_linker 1%nat 0 (dir_name (str "cat")) (kernel_on i) = Ret (Some (ip, 32)) s1 ∧
      @ilock 1%nat (Some ip) s1 = Ret () s2 ∧ @readi ex_linker 1%nat ip DVar 0 1500 s2 = Ret (1500, replicate 1500 65) s3.
Proof.
  destruct (@mkfs_kernel_roundtrip ex_linker 1%nat pieces pieces_stream ex_open (λ _, true) (str "mkfs") (str "fs.img") ex_sources) as (i & E & Hfull & Hr);
    [reflexivity|exact ex_sources_ok|vm_compute; congruence|vm_compute; congruence|vm_compute; congruence|].
  exists i. split; [exact E|].
  apply (Hr 0%nat ex_fs_proc 1 (mkView (block_at (disk_of i)) ∅ ∅) 0%nat (root_inode i) (kernel_on i) 0%nat (str "user/_cat", replicate 1500 65)).
  - exact (booted_on i Hfull).
  - split; [reflexivity|]. intros j p Hj Hp. destruct j as [|[|j]]; [| |lia]; injection Hp as <-; vm_compute; discriminate.
Defined.
