(* ===== verification/Uprogs.v ===== *)
(** * The small user programs (cat, wc, ls, echo, kill, ln, mkdir, rm, strace,
    setpriority, time, init, zombie, forktest, stressfs under user/)

    A program is the tree of its system calls, each with a continuation for
    whatever the kernel answers; [Cut] is the model's own end for an endless or
    data-dependent loop that has used up the bound it was given.  Arguments are
    the strings of argv without their NUL.  printf()'s characters are one
    [Write], whose result it ignores.

    [run] plays the kernel for programs that open, read and write files, and
    the theorems are about cat and wc in it. *)

From Stdlib Require Import ZArith Lia.
From stdpp Require Import base numbers strings option list gmap.
From S2P Require Import Prelude Params Machine Cstring Fs Ulib.

Open Scope Z_scope.

Inductive req :=
| Read (fd : Z) (n : nat)
| Write (fd : Z) (bs : list Z)
| Open (path : list Z) (mode : Z)
| Close (fd : Z)
| Fstat (fd : Z)
| Dup (fd : Z)
| Mknod (path : list Z) (major minor : Z)
| Mkdir (path : list Z)
| Link (old new : list Z)
| Unlink (path : list Z)
| Fork
| Exec (path : list Z) (argv : list (list Z))
| Wait
| Waitx
| Kill (pid : Z)
| Sleep (n : Z)
| Trace (mask : Z)
| SetPriority (priority pid : Z).

(** The result in a0, the bytes read, the struct stat, and waitx()'s times. *)
Record reply := mkReply { r_ret : Z; r_bytes : list Z; r_stat : stat; r_times : Z * Z }.
Definition stat0 : stat := mkStat 0 0 0 0 0.
Definition ret (r : Z) : reply := mkReply r [] stat0 (0, 0).

Inductive prog :=
| Exit (status : Z)
| Call (r : req) (k : reply → prog)
| Cut.

Definition call (r : req) (k : Z → prog) : prog := Call r (λ a, k (r_ret a)).
(** A call whose result is not looked at. *)
Definition just (r : req) (k : prog) : prog := Call r (λ _, k).
Definition fprintf (fd : Z) (fmt : string) (ap : list varg) (k : prog) : prog :=
  just (Write fd (vprintf (fmt +:+ nl) ap)) k.
Definition printf (fmt : string) (ap : list varg) (k : prog) : prog := fprintf 1 fmt ap k.
Definition arg (s : list Z) : varg := VStr (Some s).

(** atoi() of an argument. *)
Definition num (s : list Z) : Z := default 0 (atoi (s ++ [0])).

(** ** cat.c *)

Fixpoint cat (fuel : nat) (fd : Z) (k : prog) : prog :=
  match fuel with
  | O => Cut
  | S fuel =>
      Call (Read fd 512) (λ a,
        if 0 <? r_ret a then
          call (Write 1 (r_bytes a)) (λ m,
            if negb (m =? r_ret a) then fprintf 2 "cat: write error" [] (Exit 1) else cat fuel fd k)
        else if r_ret a <? 0 then fprintf 2 "cat: read error" [] (Exit 1)
        else k)
  end.

Fixpoint cat_files (fuel : nat) (files : list (list Z)) : prog :=
  match files with
  | [] => Exit 0
  | f :: files =>
      call (Open f 0) (λ fd,
        if fd <? 0 then fprintf 2 "cat: cannot open %s" [arg f] (Exit 1)
        else cat fuel fd (just (Close fd) (cat_files fuel files)))
  end.

Definition cat_main (fuel : nat) (argv : list (list Z)) : prog :=
  match argv with
  | [] | [_] => cat fuel 0 (Exit 0)
  | _ :: files => cat_files fuel files
  end.

(** ** wc.c *)

Record counts := mkCounts { c_l : Z; c_w : Z; c_c : Z; c_inword : bool }.

Definition space (c : Z) : bool :=
  match strchr [32; 13; 9; 10; 11; 0] c with Some (Some _) => true | _ => false end.

(** One character; the counters are ints. *)
Definition wc_char (x : counts) (ch : Z) : counts :=
  let c := i32 (c_c x + 1) in
  let l := if ch =? 10 then i32 (c_l x + 1) else c_l x in
  if space ch then mkCounts l (c_w x) c false
  else if negb (c_inword x) then mkCounts l (i32 (c_w x + 1)) c true
  else mkCounts l (c_w x) c true.

Fixpoint wc_loop (fuel : nat) (fd : Z) (x : counts) (k : counts → prog) : prog :=
  match fuel with
  | O => Cut
  | S fuel =>
      Call (Read fd 512) (λ a,
        if 0 <? r_ret a then wc_loop fuel fd (foldl wc_char x (r_bytes a)) k
        else if r_ret a <? 0 then printf "wc: read error" [] (Exit 1)
        else k x)
  end.

Definition wc (fuel : nat) (fd : Z) (name : list Z) (k : prog) : prog :=
  wc_loop fuel fd (mkCounts 0 0 0 false) (λ x,
    printf "%d %d %d %s" [VNum (c_l x); VNum (c_w x); VNum (c_c x); arg name] k).

Fixpoint wc_files (fuel : nat) (files : list (list Z)) : prog :=
  match files with
  | [] => Exit 0
  | f :: files =>
      call (Open f 0) (λ fd,
        if fd <? 0 then printf "wc: cannot open %s" [arg f] (Exit 1)
        else wc fuel fd f (just (Close fd) (wc_files fuel files)))
  end.

Definition wc_main (fuel : nat) (argv : list (list Z)) : prog :=
  match argv with
  | [] | [_] => wc fuel 0 [] (Exit 0)
  | _ :: files => wc_files fuel files
  end.

(** ** ls.c *)

(** The index after the last slash at or before [i]. *)
Fixpoint after_slash (path : list Z) (i : nat) : nat :=
  if default 0 (path !! i) =? 47 then S i
  else match i with O => O | S i => after_slash path i end.

Definition fmtname (path : list Z) : list Z :=
  let p := drop (after_slash path (length path)) path in
  if (DIRSIZ <=? length p)%nat then p else p ++ replicate (DIRSIZ - length p) 32.

(** stat() of ulib.c, [None] for a negative result. *)
Definition stat_ (n : list Z) (k : option stat → prog) : prog :=
  call (Open n O_RDONLY) (λ fd,
    if fd <? 0 then k None
    else Call (Fstat fd) (λ a, just (Close fd) (k (if r_ret a <? 0 then None else Some (r_stat a))))).

Fixpoint ls_loop (fuel : nat) (fd : Z) (path : list Z) (k : prog) : prog :=
  match fuel with
  | O => Cut
  | S fuel =>
      Call (Read fd 16) (λ a,
        if negb (r_ret a =? 16) then k
        else
          let de := dirent_of (r_bytes a) in
          if d_inum de =? 0 then ls_loop fuel fd path k
          else
            let buf := path ++ [47] ++ cstr (d_name de) in
            stat_ buf (λ r,
              match r with
              | None => printf "ls: cannot stat %s" [arg buf] (ls_loop fuel fd path k)
              | Some st =>
                  printf "%s %d %d %d" [arg (fmtname buf); VNum (st_type st); VNum (st_ino st); VNum (st_size st)]
                    (ls_loop fuel fd path k)
              end))
  end.

Definition ls (fuel : nat) (path : list Z) (k : prog) : prog :=
  call (Open path 0) (λ fd,
    if fd <? 0 then fprintf 2 "ls: cannot open %s" [arg path] k
    else Call (Fstat fd) (λ a,
      if r_ret a <? 0 then fprintf 2 "ls: cannot stat %s" [arg path] (just (Close fd) k)
      else
        let st := r_stat a in
        let k := just (Close fd) k in
        if (st_type st =? T_DEVICE) || (st_type st =? T_FILE) then
          printf "%s %d %d %l" [arg (fmtname path); VNum (st_type st); VNum (st_ino st); VNum (st_size st)] k
        else if st_type st =? T_DIR then
          if (512 <? length path + 1 + DIRSIZ + 1)%nat then printf "ls: path too long" [] k
          else ls_loop fuel fd path k
        else k)).

Fixpoint ls_paths (fuel : nat) (paths : list (list Z)) : prog :=
  match paths with
  | [] => Exit 0
  | p :: paths => ls fuel p (ls_paths fuel paths)
  end.

Definition ls_main (fuel : nat) (argv : list (list Z)) : prog :=
  match argv with
  | [] | [_] => ls fuel (str ".") (Exit 0)
  | _ :: paths => ls_paths fuel paths
  end.

(** ** echo.c, kill.c, ln.c, mkdir.c, rm.c *)

Fixpoint echo_args (args : list (list Z)) : prog :=
  match args with
  | [] => Exit 0
  | a :: args => just (Write 1 a) (just (Write 1 (match args with [] => [10] | _ => [32] end)) (echo_args args))
  end.
Definition echo_main (argv : list (list Z)) : prog := echo_args (tail argv).

Fixpoint kill_args (args : list (list Z)) : prog :=
  match args with
  | [] => Exit 0
  | a :: args => just (Kill (num a)) (kill_args args)
  end.
Definition kill_main (argv : list (list Z)) : prog :=
  match argv with
  | [] | [_] => fprintf 2 "usage: kill pid..." [] (Exit 1)
  | _ :: args => kill_args args
  end.

Definition ln_main (argv : list (list Z)) : prog :=
  match argv with
  | [_; old; new] =>
      call (Link old new) (λ r, if r <? 0 then fprintf 2 "link %s %s: failed" [arg old; arg new] (Exit 0) else Exit 0)
  | _ => fprintf 2 "Usage: ln old new" [] (Exit 1)
  end.

Fixpoint mkdir_args (args : list (list Z)) : prog :=
  match args with
  | [] => Exit 0
  | a :: args => call (Mkdir a) (λ r, if r <? 0 then fprintf 2 "mkdir: %s failed to create" [arg a] (Exit 0) else mkdir_args args)
  end.
Definition mkdir_main (argv : list (list Z)) : prog :=
  match argv with
  | [] | [_] => fprintf 2 "Usage: mkdir files..." [] (Exit 1)
  | _ :: args => mkdir_args args
  end.

Fixpoint rm_args (args : list (list Z)) : prog :=
  match args with
  | [] => Exit 0
  | a :: args => call (Unlink a) (λ r, if r <? 0 then fprintf 2 "rm: %s failed to delete" [arg a] (Exit 0) else rm_args args)
  end.
Definition rm_main (argv : list (list Z)) : prog :=
  match argv with
  | [] | [_] => fprintf 2 "Usage: rm files..." [] (Exit 1)
  | _ :: args => rm_args args
  end.

(** ** strace.c, setpriority.c, time.c *)

Definition strace_main (argv : list (list Z)) : prog :=
  match argv with
  | _ :: mask :: cmd :: args => just (Trace (num mask)) (just (Exec cmd (cmd :: args)) (Exit 0))
  | _ => fprintf 2 "usage: strace mask command args..." [] (Exit 1)
  end.

Definition setpriority_main (argv : list (list Z)) : prog :=
  match argv with
  | [_; priority; pid] => just (SetPriority (num priority) (num pid)) (Exit 0)
  | _ => fprintf 2 "usage: setpriority <priority> <pid>" [] (Exit 1)
  end.

Definition time_main (argv : list (list Z)) : prog :=
  call Fork (λ pid,
    if pid <? 0 then printf "fork(): failed" [] (Exit 1)
    else if pid =? 0 then
      match tail argv with
      | [] => just (Sleep 10) (Exit 0)
      | cmd :: args => just (Exec cmd (cmd :: args)) (printf "exec(): failed" [] (Exit 1))
      end
    else
      Call Waitx (λ a,
        printf (nl +:+ "Waiting: %d" +:+ nl +:+ "running: %d") [VNum (r_times a).1; VNum (r_times a).2] (Exit 0))).

(** ** init.c: [rounds] shells, each waited for with at most [waits] calls *)

Definition CONSOLE : Z := 1.

Fixpoint init_wait (waits : nat) (pid : Z) (k : prog) : prog :=
  match waits with
  | O => Cut
  | S waits =>
      call Wait (λ wpid,
        if wpid =? pid then k
        else if wpid <? 0 then printf "init: wait returned an error" [] (Exit 1)
        else init_wait waits pid k)
  end.

Fixpoint init_loop (waits rounds : nat) : prog :=
  match rounds with
  | O => Cut
  | S rounds =>
      printf "init: starting sh" []
        (call Fork (λ pid,
          if pid <? 0 then printf "init: fork failed" [] (Exit 1)
          else if pid =? 0 then just (Exec (str "sh") [str "sh"]) (printf "init: exec sh failed" [] (Exit 1))
          else init_wait waits pid (init_loop waits rounds)))
  end.

Definition init_main (waits rounds : nat) : prog :=
  let k := just (Dup 0) (just (Dup 0) (init_loop waits rounds)) in
  call (Open (str "console") O_RDWR) (λ fd,
    if fd <? 0 then just (Mknod (str "console") CONSOLE 0) (just (Open (str "console") O_RDWR) k) else k).

(** ** zombie.c, forktest.c, stressfs.c *)

Definition zombie_main : prog := call Fork (λ pid, if 0 <? pid then just (Sleep 5) (Exit 0) else Exit 0).

(** fork() until it fails, [m] times at most; [n] have succeeded. *)
Fixpoint fork_all (m n : nat) (k : nat → prog) : prog :=
  match m with
  | O => k n
  | S m => call Fork (λ pid, if pid <? 0 then k n else if pid =? 0 then Exit 0 else fork_all m (S n) k)
  end.

Fixpoint wait_all (n : nat) (k : prog) : prog :=
  match n with
  | O => k
  | S n => call Wait (λ r, if r <? 0 then just (Write 1 (str ("wait stopped early" +:+ nl))) (Exit 1) else wait_all n k)
  end.

Definition forktest_main : prog :=
  just (Write 1 (str ("fork test" +:+ nl)))
    (fork_all 1000 0 (λ n,
      if (n =? 1000)%nat then just (Write 1 (str ("fork claimed to work N times!" +:+ nl))) (Exit 1)
      else wait_all n (call Wait (λ r,
        if negb (r =? -1) then just (Write 1 (str ("wait got too many" +:+ nl))) (Exit 1)
        else just (Write 1 (str ("fork test OK" +:+ nl))) (Exit 0))))).

Fixpoint repeat_call (n : nat) (r : req) (k : prog) : prog :=
  match n with O => k | S n => just r (repeat_call n r k) end.

(** The four forks: the process goes on with the [i] it has reached. *)
Fixpoint stress_fork (m : nat) (i : Z) (k : Z → prog) : prog :=
  match m with
  | O => k i
  | S m => call Fork (λ pid, if 0 <? pid then k i else stress_fork m (i + 1) k)
  end.

Definition stressfs_main : prog :=
  printf "stressfs starting" []
    (stress_fork 4 0 (λ i,
      printf "write %d" [VNum i]
        (let path := str "stressfs" ++ [48 + i] in
         call (Open path (Z.lor O_CREATE O_RDWR)) (λ fd,
           repeat_call 20 (Write fd (replicate 512 97))
             (just (Close fd)
               (printf "read" []
                 (call (Open path O_RDONLY) (λ fd,
                   repeat_call 20 (Read fd 512) (just (Close fd) (just Wait (Exit 0))))))))))).

(** ** Programs that read and write files

    Open files are streams; whatever is written is taken in full and kept with
    its descriptor; the other calls are answered by [w_other]. *)

Section world.
Context {St : Type} `{!Stream St}.

Record world := mkWorld {
  w_open : list Z → option St;
  w_fds : list (option St);
  w_out : list (Z * list Z);
  w_other : req → reply;
}.

Definition fd_at (w : world) (fd : Z) : option St := if fd <? 0 then None else mjoin (w_fds w !! Z.to_nat fd).
Definition set_fd (fd : nat) (o : option St) (w : world) : world :=
  mkWorld (w_open w) (<[fd := o]> (w_fds w)) (w_out w) (w_other w).

Definition answer (r : req) (w : world) : reply * world :=
  match r with
  | Read fd n =>
      match fd_at w fd with
      | Some s => let '(bs, s) := read s n in (mkReply (length bs) bs stat0 (0, 0), set_fd (Z.to_nat fd) (Some s) w)
      | None => (ret (-1), w)
      end
  | Write fd bs => (ret (length bs), mkWorld (w_open w) (w_fds w) (w_out w ++ [(fd, bs)]) (w_other w))
  | Open path _ =>
      match w_open w path, list_find (λ o, o = None) (w_fds w) with
      | Some s, Some (fd, _) => (ret fd, set_fd fd (Some s) w)
      | _, _ => (ret (-1), w)
      end
  | Close fd =>
      match fd_at w fd with
      | Some _ => (ret 0, set_fd (Z.to_nat fd) None w)
      | None => (ret (-1), w)
      end
  | _ => (w_other w r, w)
  end.

(** The exit status and what is left; [None] is [Cut]. *)
Fixpoint run (p : prog) (w : world) : option Z * world :=
  match p with
  | Exit status => (Some status, w)
  | Call r k => let '(a, w) := answer r w in run (k a) w
  | Cut => (None, w)
  end.
End world.
Arguments world : clear implicits.

(** What has been written to a descriptor. *)
Definition output (fd : Z) (out : list (Z * list Z)) : list Z := mjoin (snd <$> filter (λ p, p.1 = fd) out).

Lemma output_snoc fd out fd' bs : output fd (out ++ [(fd', bs)]) = output fd out ++ (if decide (fd' = fd) then bs else []).
Proof.
  unfold output. rewrite filter_app, fmap_app, join_app. f_equal. case_decide as E.
  - rewrite filter_cons_True by done. cbn. by rewrite app_nil_r.
  - by rewrite filter_cons_False.
Qed.

(** ** What wc counts *)

(** The words of a text: what lies between spaces, empty pieces left out. *)
Fixpoint split_spaces (bs : list Z) : list (list Z) :=
  match bs with
  | [] => [[]]
  | c :: bs =>
      if space c then [] :: split_spaces bs
      else match split_spaces bs with e :: es => (c :: e) :: es | [] => [[c]] end
  end.
Definition words (bs : list Z) : list (list Z) := filter (λ e, e ≠ []) (split_spaces bs).
Definition newlines (bs : list Z) : Z := length (filter (λ c, c = 10) bs).

(** The words that begin in [bs], inside a word or not. *)
Fixpoint begun (inword : bool) (bs : list Z) : nat :=
  match bs with
  | [] => 0
  | c :: bs => if space c then begun false bs else (if inword then 0 else 1) + begun true bs
  end.

Lemma split_spaces_cons bs : ∃ e es, split_spaces bs = e :: es.
Proof. destruct bs as [|c bs]; cbn; [by eexists _, _|]. destruct (space c); [by eexists _, _|]. destruct (split_spaces bs); by eexists _, _. Qed.

Lemma begun_words bs :
  begun false bs = length (words bs) ∧ begun true bs = length (filter (λ e, e ≠ []) (tail (split_spaces bs))).
Proof.
  unfold words. induction bs as [|c bs [IH1 IH2]]; [done|]. cbn [begun split_spaces]. destruct (space c).
  - cbn [tail]. rewrite filter_cons_False by tauto. done.
  - destruct (split_spaces_cons bs) as (e & es & E). rewrite E in IH2 |- *. cbn [tail] in IH2 |- *.
    rewrite filter_cons_True by done. cbn [length]. rewrite IH2. done.
Qed.

Lemma wc_chars bs : ∀ x,
  0 ≤ c_l x ≤ c_c x → 0 ≤ c_w x ≤ c_c x → c_c x + length bs < 2 ^ 31 →
  let y := foldl wc_char x bs in
  c_l y = c_l x + newlines bs ∧ c_w y = c_w x + begun (c_inword x) bs ∧ c_c y = c_c x + length bs ∧
  (∀ bs', (begun (c_inword x) (bs ++ bs') = begun (c_inword x) bs + begun (c_inword y) bs')%nat).
Proof.
  induction bs as [|c bs IH]; intros x Hl Hw Hc y; [cbn in *; unfold newlines; cbn; split_and!; (lia || done)|].
  cbn [length] in Hc. unfold y. cbn [foldl]. unfold newlines. cbn [app begun].
  assert (c_l (wc_char x c) = c_l x + (if decide (c = 10) then 1 else 0) ∧ c_c (wc_char x c) = c_c x + 1 ∧
    c_inword (wc_char x c) = negb (space c) ∧ c_w (wc_char x c) = c_w x + (if space c then 0 else if c_inword x then 0 else 1)) as (E1 & E2 & E3 & E4).
  { unfold wc_char. destruct (Z.eqb_spec c 10); [rewrite decide_True by done|rewrite decide_False by done];
      destruct (space c), (c_inword x); cbn; autorewrite with cint; split_and!; (done || lia). }
  destruct (IH (wc_char x c)) as (I1 & I2 & I3 & I4).
  { rewrite E1, E2. case_decide; lia. } { rewrite E4, E2. destruct (space c), (c_inword x); lia. } { rewrite E2. lia. }
  rewrite I1, I2, I3, E1, E2, E4, E3. unfold newlines. rewrite E3 in I4. split_and!.
  - rewrite filter_cons. case_decide; cbn [length]; lia.
  - destruct (space c), (c_inword x); cbn [negb]; lia.
  - cbn [length]. lia.
  - intros bs'. destruct (space c), (c_inword x); cbn [negb] in *; rewrite I4; lia.
Qed.

(** ** cat and wc on files *)

Section files.
Context {St : Type} {HSt : Stream St}.

(** [w] with descriptor [fd] at [s] and the output [out]. *)
Definition at_ (w : world St) (fd : nat) (s : option St) (out : list (Z * list Z)) : world St :=
  mkWorld (w_open w) (<[fd := s]> (w_fds w)) out (w_other w).

Lemma fd_at_set w (fd : nat) s out : (fd < length (w_fds w))%nat → fd_at (at_ w fd (Some s) out) fd = Some s.
Proof.
  intros Hl. unfold fd_at. rewrite (proj2 (Z.ltb_ge _ _)), Nat2Z.id by lia. cbn. by rewrite list_lookup_insert_eq.
Qed.

Lemma answer_read w (fd : nat) s out n :
  (fd < length (w_fds w))%nat →
  answer (Read fd n) (at_ w fd (Some s) out) =
    (mkReply (length (read s n).1) (read s n).1 stat0 (0, 0), at_ w fd (Some (read s n).2) out).
Proof.
  intros Hl. unfold answer. rewrite fd_at_set by done. destruct (read s n) as [bs s'] eqn:E. cbn [fst snd]. f_equal.
  unfold set_fd, at_. cbn. rewrite Nat2Z.id. by rewrite list_insert_insert_eq.
Qed.

Lemma answer_close w (fd : nat) s out :
  (fd < length (w_fds w))%nat → answer (Close fd) (at_ w fd (Some s) out) = (ret 0, at_ w fd None out).
Proof.
  intros Hl. unfold answer. rewrite fd_at_set by done. f_equal. unfold set_fd, at_. cbn. rewrite Nat2Z.id. by rewrite list_insert_insert_eq.
Qed.

Lemma read_nil s n : (0 < n)%nat → (read s n).1 = [] → rest s = [].
Proof. intros Hn E. destruct (rest s) eqn:Er; [done|]. pose proof (read_some s n Hn). rewrite Er in H. by destruct H. Qed.

Lemma read_shorter s n : (read s n).1 ≠ [] → (length (rest (read s n).2) < length (rest s))%nat.
Proof. intros Hne. rewrite (read_rest s n), length_app. destruct (read s n).1; [done|]. cbn. lia. Qed.

Lemma cat_run (fd : nat) (k : prog) : ∀ (fuel : nat) w s out,
  (fd < length (w_fds w))%nat → (length (rest s) < fuel)%nat →
  ∃ s' out', run (cat fuel fd k) (at_ w fd (Some s) out) = run k (at_ w fd (Some s') out') ∧
    output 1 out' = output 1 out ++ rest s ∧ output 2 out' = output 2 out.
Proof.
  induction fuel as [|fuel IH]; intros w s out Hl Hf; [lia|]. cbn [cat run]. rewrite answer_read by done. cbn [r_ret r_bytes].
  destruct (decide ((read s 512).1 = [])) as [E|E].
  - rewrite E. cbn [length Z.of_nat Z.ltb Z.compare]. rewrite (read_nil s 512) by (done || lia). exists (read s 512).2, out.
    split; [done|]. by rewrite app_nil_r.
  - pose proof (read_shorter s 512 E). rewrite (proj2 (Z.ltb_lt 0 _)) by (destruct (read s 512).1; [done|cbn; lia]).
    unfold call. cbn [run answer r_ret ret]. rewrite Z.eqb_refl. cbn [negb].
    change (mkWorld _ _ _ _) with (at_ w fd (Some (read s 512).2) (out ++ [(1, (read s 512).1)])).
    destruct (IH w (read s 512).2 (out ++ [(1, (read s 512).1)]) Hl) as (s' & out' & E' & H1 & H2); [lia|].
    exists s', out'. split; [done|]. rewrite H1, H2, !output_snoc. rewrite decide_True, decide_False, app_nil_r by done.
    split; [|done]. rewrite <-app_assoc. f_equal. symmetry. apply read_rest.
Qed.

Lemma wc_run (fd : nat) (k : counts → prog) : ∀ (fuel : nat) w s out x,
  (fd < length (w_fds w))%nat → (length (rest s) < fuel)%nat →
  ∃ s', run (wc_loop fuel fd x k) (at_ w fd (Some s) out) = run (k (foldl wc_char x (rest s))) (at_ w fd (Some s') out).
Proof.
  induction fuel as [|fuel IH]; intros w s out x Hl Hf; [lia|]. cbn [wc_loop run]. rewrite answer_read by done. cbn [r_ret r_bytes].
  destruct (decide ((read s 512).1 = [])) as [E|E].
  - rewrite E. cbn [length Z.of_nat Z.ltb Z.compare]. rewrite (read_nil s 512) by (done || lia). by exists (read s 512).2.
  - pose proof (read_shorter s 512 E) as Hs. rewrite (proj2 (Z.ltb_lt 0 _)) by (destruct (read s 512).1; [done|cbn; lia]).
    destruct (IH w (read s 512).2 out (foldl wc_char x (read s 512).1) Hl ltac:(lia)) as (s' & E').
    exists s'. rewrite E', <-foldl_app, <-read_rest. done.
Qed.

(** A descriptor is free. *)
Definition has_room (w : world St) : Prop := None ∈ w_fds w.

Lemma answer_open w path mode s :
  has_room w → w_open w path = Some s →
  ∃ fd : nat, answer (Open path mode) w = (ret fd, at_ w fd (Some s) (w_out w)) ∧ (fd < length (w_fds w))%nat ∧ at_ w fd None (w_out w) = w.
Proof.
  intros Hr Ho. unfold answer. rewrite Ho. destruct (list_find (λ o, o = None) (w_fds w)) as [[fd o]|] eqn:E.
  - apply list_find_Some in E as (Hfd & -> & _). exists fd. split; [done|]. split; [by eapply lookup_lt_Some|].
    unfold at_. rewrite list_insert_id by done. by destruct w.
  - apply list_find_None in E. rewrite Forall_forall in E. by destruct (E None Hr).
Qed.

(** The line wc prints for a text. *)
Definition wc_line (name bs : list Z) : list Z :=
  vprintf ("%d %d %d %s" +:+ nl) [VNum (newlines bs); VNum (length (words bs)); VNum (length bs); arg name].

Lemma run_printf fmt ap k w fd s out :
  run (printf fmt ap k) (at_ w fd s out) = run k (at_ w fd s (out ++ [(1, vprintf (fmt +:+ nl) ap)])).
Proof. reflexivity. Qed.

Lemma wc_correct_one (fuel fd : nat) w s out name k :
  (fd < length (w_fds w))%nat → (length (rest s) < fuel)%nat → length (rest s) < 2 ^ 31 →
  ∃ s', run (wc fuel fd name k) (at_ w fd (Some s) out) = run k (at_ w fd (Some s') (out ++ [(1, wc_line name (rest s))])).
Proof.
  intros Hl Hf Hn. unfold wc.
  destruct (wc_run fd (λ x, printf "%d %d %d %s" [VNum (c_l x); VNum (c_w x); VNum (c_c x); arg name] k) fuel w s out (mkCounts 0 0 0 false) Hl Hf) as (s' & ->).
  exists s'. destruct (wc_chars (rest s) (mkCounts 0 0 0 false)) as (H1 & H2 & H3 & _); cbn [c_l c_w c_c c_inword] in *; [lia..|].
  rewrite (proj1 (begun_words _)) in H2. rewrite run_printf, H1, H2, H3, !Z.add_0_l. unfold wc_line. reflexivity.
Qed.
End files.

(** C30: wc, on files it can open, prints one line for each: how many newlines,
    words and bytes it has, however the reads cut it up; it exits with status 0
    and leaves no descriptor open. *)
Theorem wc_correct {St : Type} `{!Stream St} (fuel : nat) (files : list (list Z)) (data : list St) argv0 w :
  has_room w → files ≠ [] →
  Forall2 (λ f s, w_open w f = Some s ∧ (length (rest s) < fuel)%nat ∧ length (rest s) < 2 ^ 31) files data →
  run (wc_main fuel (argv0 :: files)) w =
    (Some 0, mkWorld (w_open w) (w_fds w) (w_out w ++ zip_with (λ f s, (1, wc_line f (rest s))) files data) (w_other w)).
Proof.
  intros Hr Hne Hall. unfold wc_main. destruct files as [|f0 files0]; [done|]. clear Hne. revert w Hr Hall.
  generalize (f0 :: files0) as files. clear. intros files w Hr Hall. revert w Hr Hall.
  induction files as [|f files IH] in data |- *; intros w Hr Hall; inversion Hall as [|? s ? data' (Ho & Hf & Hn) Hall']; subst.
  - cbn. rewrite app_nil_r. by destruct w.
  - destruct (answer_open w f 0 s Hr Ho) as (fd & Ea & Hl & Hback). cbn [wc_files]. unfold call. cbn [run]. rewrite Ea. cbn [r_ret ret].
    rewrite (proj2 (Z.ltb_ge fd 0)) by lia.
    destruct (wc_correct_one fuel fd w s (w_out w) f (just (Close fd) (wc_files fuel files)) Hl Hf Hn) as (s' & ->).
    unfold just. cbn [run]. rewrite answer_close by done. cbn [zip_with].
    set (out := w_out w ++ [(1, wc_line f (rest s))]).
    replace (at_ w fd None out) with (mkWorld (w_open w) (w_fds w) out (w_other w)) by (rewrite <-Hback at 2; done).
    rewrite (IH data'); [|done|done]. cbn [w_open w_fds w_out w_other]. unfold out. by rewrite <-app_assoc.
Qed.

(** cat, on files it can open, copies them one after the other to the
    standard output, however the reads cut them up, and writes nothing to the
    standard error. *)
Theorem cat_correct {St : Type} `{!Stream St} (fuel : nat) (files : list (list Z)) (data : list St) argv0 w :
  has_room w → files ≠ [] → Forall2 (λ f s, w_open w f = Some s ∧ (length (rest s) < fuel)%nat) files data →
  ∃ out, run (cat_main fuel (argv0 :: files)) w = (Some 0, mkWorld (w_open w) (w_fds w) out (w_other w)) ∧
    output 1 out = output 1 (w_out w) ++ mjoin (rest <$> data) ∧ output 2 out = output 2 (w_out w).
Proof.
  intros Hr Hne Hall. unfold cat_main. destruct files as [|f0 files0]; [done|]. clear Hne. revert w Hr Hall.
  generalize (f0 :: files0) as files. clear. intros files.
  induction files as [|f files IH] in data |- *; intros w Hr Hall; inversion Hall as [|? s ? data' (Ho & Hf) Hall']; subst.
  - exists (w_out w). cbn. rewrite app_nil_r. by destruct w.
  - destruct (answer_open w f 0 s Hr Ho) as (fd & Ea & Hl & Hback). cbn [cat_files]. unfold call. cbn [run]. rewrite Ea. cbn [r_ret ret].
    rewrite (proj2 (Z.ltb_ge fd 0)) by lia.
    destruct (cat_run fd (just (Close fd) (cat_files fuel files)) fuel w s (w_out w) Hl Hf) as (s' & out & -> & H1 & H2).
    unfold just. cbn [run]. rewrite answer_close by done.
    replace (at_ w fd None out) with (mkWorld (w_open w) (w_fds w) out (w_other w)) by (rewrite <-Hback at 2; done).
    destruct (IH data' (mkWorld (w_open w) (w_fds w) out (w_other w)) Hr Hall') as (out' & -> & H3 & H4).
    exists out'. cbn [w_open w_fds w_out w_other] in *. split; [done|]. rewrite H3, H4, H1, H2. split; [|done].
    rewrite fmap_cons. change (mjoin (?x :: ?l)) with (x ++ mjoin l). by rewrite <-app_assoc.
Qed.

(** fmtname() gives the last element of a path, filled up with blanks. *)
Lemma after_slash_spec path i :
  (i ≤ length path)%nat → ∃ a, take (S i) path = a ++ drop (after_slash path i) (take (S i) path) ∧
    47 ∉ drop (after_slash path i) (take (S i) path) ∧ (a = [] ∨ ∃ a', a = a' ++ [47]).
Proof.
  induction i as [|i IH]; intros Hi; cbn [after_slash].
  - destruct path as [|c path]; cbn [lookup list_lookup default id from_option].
    + exists []. split_and!; [done|apply not_elem_of_nil|by left].
    + destruct (Z.eqb_spec c 47) as [->|Hc]; cbn [take drop].
      * exists [47]. split_and!; [done|apply not_elem_of_nil|right; by exists []].
      * exists []. split_and!; [done| |by left]. rewrite list_elem_of_singleton. done.
  - destruct (path !! S i) as [c|] eqn:E; cbn [default id from_option].
    + rewrite (take_S_r _ _ _ E). pose proof (lookup_lt_Some _ _ _ E). destruct (Z.eqb_spec c 47) as [->|Hc].
      * exists (take (S i) path ++ [47]). rewrite drop_ge by (rewrite length_app, length_take; cbn [length]; lia). rewrite app_nil_r.
        split_and!; [done|apply not_elem_of_nil|right; by exists (take (S i) path)].
      * destruct IH as (a & E1 & E2 & E3); [lia|]. exists a. set (l := take (S i) path) in *.
        assert (after_slash path i ≤ length l)%nat.
        { unfold l. rewrite length_take, Nat.min_l by lia. clear. induction i as [|i IH]; cbn [after_slash]; destruct (_ =? _); lia. }
        rewrite drop_app_le, app_assoc, <-E1 by done. split_and!; [done| |done].
        rewrite elem_of_app, list_elem_of_singleton. naive_solver.
    + replace (default 0 None =? 47) with false by done. apply lookup_ge_None in E.
      destruct IH as (a & E1 & E2 & E3); [lia|]. assert (length path = S i) as Hl by lia.
      rewrite (take_ge path (S (S i))) by lia. rewrite (take_ge path (S i)) in E1, E2 by lia. by exists a.
Qed.

(** ls shows a path as its last element, what follows the last slash, padded
    with blanks to DIRSIZ columns or in full when it is longer. *)
Theorem fmtname_correct path :
  ∃ a p, path = a ++ p ∧ 47 ∉ p ∧ (a = [] ∨ ∃ a', a = a' ++ [47]) ∧
    fmtname path = p ++ replicate (DIRSIZ - length p) 32.
Proof.
  destruct (after_slash_spec path (length path) ltac:(lia)) as (a & E1 & E2 & E3). rewrite take_ge in E1, E2 by lia.
  exists a, (drop (after_slash path (length path)) path). split_and!; try done. unfold fmtname. set (p := drop _ _).
  destruct (DIRSIZ <=? length p)%nat eqn:E; [|done]. apply Nat.leb_le in E. replace (DIRSIZ - length p)%nat with O by lia.
  by rewrite app_nil_r.
Qed.

(** ** Witnesses: two files, the first read in pieces *)

Definition ex_world : world pieces :=
  mkWorld (λ f, if bool_decide (f = str "a") then Some (str "two words", [4%nat; 1%nat]) else
                if bool_decide (f = str "b") then Some ([10; 32; 120; 10], []) else None)
    [None; None] [] (λ _, ret (-1)).

Lemma wc_correct_witness :
  run (wc_main 20 [str "wc"; str "a"; str "b"]) ex_world =
    (Some 0, mkWorld (w_open ex_world) [None; None] [(1, str ("0 2 9 a" +:+ nl)); (1, str ("2 1 4 b" +:+ nl))] (w_other ex_world)).
Proof.
  rewrite (wc_correct 20 [str "a"; str "b"] [(str "two words", [4%nat; 1%nat]); ([10; 32; 120; 10], [])] (str "wc") ex_world).
  - vm_compute. reflexivity.
  - unfold has_room. by left.
  - discriminate.
  - repeat constructor; vm_compute; lia.
Defined.

Lemma cat_correct_witness :
  ∃ out, run (cat_main 20 [str "cat"; str "a"; str "b"]) ex_world = (Some 0, mkWorld (w_open ex_world) [None; None] out (w_other ex_world)) ∧
    output 1 out = str "two words" ++ [10; 32; 120; 10].
Proof.
  destruct (cat_correct 20 [str "a"; str "b"] [(str "two words", [4%nat; 1%nat]); ([10; 32; 120; 10], [])] (str "cat") ex_world) as (out & E & Ho & _).
  - unfold has_room. by left.
  - discriminate.
  - repeat constructor; vm_compute; lia.
  - exists out. split; [exact E|]. rewrite Ho. vm_compute. reflexivity.
Defined.
