(* ===== verification/Umalloc.v ===== *)
(** * The memory allocator of user programs (user/umalloc.c)

    The free blocks form a circular list in the order of their addresses that
    starts at the static header [base]; a block is a header of 16 bytes and the
    units that follow it.  Memory is that of the process, [brk] its size, which
    sbrk() changes. *)

From Stdlib Require Import ZArith Lia.
From stdpp Require Import base numbers strings option list sorting gmap.
From S2P Require Import Prelude Machine.

Open Scope Z_scope.

Record heap := mkHeap { umem : gmap Z Z; freep : Z; brk : Z }.
#[export] Instance eta_heap : Settable heap := λ h, mkHeap (umem h) (freep h) (brk h).

(** sizeof(Header) *)
Definition HDR : Z := 16.

Definition s_ptr (h : heap) (p : Z) : Z := load64 (umem h) p.
Definition s_size (h : heap) (p : Z) : Z := load32 (umem h) (p + 8).
Definition set_ptr (p v : Z) (h : heap) : heap := h <| umem ::= λ m, store64 m p v |>.
Definition set_size (p v : Z) (h : heap) : heap := h <| umem ::= λ m, store32 m (p + 8) v |>.

(** The address of the static variable [base], and whether the kernel grants a
    request of [n] bytes from the break [b]; it has 128 MB to give
    (PHYSTOP - KERNBASE). *)
Class Process := {
  base : Z;
  grant : Z → Z → bool;
  grant_bound : ∀ b n, grant b n = true → b + n ≤ 2 ^ 27
}.

Section umalloc.
Context `{Process}.

(** The old break, or -1. *)
Definition sbrk (n : Z) (h : heap) : Z * heap :=
  if grant (brk h) n then (brk h, h <| brk ::= λ b, b + n |>) else (-1, h).

(** ** free *)

(** The loop of free(): the free block after which [bp] belongs. *)
Fixpoint free_find (fuel : nat) (h : heap) (bp p : Z) : option Z :=
  match fuel with
  | O => None
  | S fuel =>
      if (p <? bp) && (bp <? s_ptr h p) then Some p
      else if (s_ptr h p <=? p) && ((p <? bp) || (bp <? s_ptr h p)) then Some p
      else free_find fuel h bp (s_ptr h p)
  end.

(** There are no more headers than units below the break. *)
Definition walk_fuel (h : heap) : nat := Z.to_nat (brk h / HDR).

Definition free (ap : Z) (h : heap) : option heap :=
  let bp := ap - HDR in
  p ← free_find (walk_fuel h) h bp (freep h);
  let h :=
    if bp + HDR * s_size h bp =? s_ptr h p then
      let h := set_size bp (s_size h bp + s_size h (s_ptr h p)) h in
      set_ptr bp (s_ptr h (s_ptr h p)) h
    else set_ptr bp (s_ptr h p) h in
  let h :=
    if p + HDR * s_size h p =? bp then
      let h := set_size p (s_size h p + s_size h bp) h in
      set_ptr p (s_ptr h bp) h
    else set_ptr p bp h in
  Some (h <| freep := p |>).

(** ** malloc *)

(** The argument of sbrk() is an int. *)
Definition morecore (nu : Z) (h : heap) : option (Z * heap) :=
  let nu := if nu <? 4096 then 4096 else nu in
  let '(p, h) := sbrk (i32 (nu * HDR)) h in
  if p =? -1 then Some (0, h)
  else
    let h := set_size p nu h in
    h ← free (p + HDR) h;
    Some (freep h, h).

(** What malloc() does with the first block that is large enough. *)
Definition carve (nunits prevp p : Z) (h : heap) : Z * heap :=
  let '(p, h) :=
    if s_size h p =? nunits then (p, set_ptr prevp (s_ptr h p) h)
    else
      let h := set_size p (s_size h p - nunits) h in
      let p := p + HDR * s_size h p in
      (p, set_size p nunits h) in
  (p + HDR, h <| freep := prevp |>).

Fixpoint malloc_loop (fuel : nat) (nunits prevp p : Z) (h : heap) : option (Z * heap) :=
  match fuel with
  | O => None
  | S fuel =>
      if nunits <=? s_size h p then Some (carve nunits prevp p h)
      else if p =? freep h then
        r ← morecore nunits h;
        let '(p, h) := r in
        if p =? 0 then Some (0, h) else malloc_loop fuel nunits p (s_ptr h p) h
      else malloc_loop fuel nunits p (s_ptr h p) h
  end.

(** [nbytes] is a uint.  The loop goes around the list once, and once more after
    morecore(). *)
Definition malloc (nbytes : Z) (h : heap) : option (Z * heap) :=
  let nunits := u32 ((nbytes + HDR - 1) / HDR + 1) in
  let h :=
    if freep h =? 0 then set_size base 0 (set_ptr base base h <| freep := base |>) else h in
  let prevp := freep h in
  malloc_loop (2 * walk_fuel h + 2) nunits prevp (s_ptr h prevp) h.

(** ** The abstract heap

    [fs] are the free blocks in the order of their addresses, [A] the allocated
    ones; a block is the address of its header and its size in units. *)

Notation block := (Z * Z)%type.
Definition bend (x : block) : Z := x.1 + HDR * x.2.
Definition apart (x y : block) : Prop := bend x ≤ y.1 ∨ bend y ≤ x.1.
Definition units (l : list (Z * Z)) : Z := foldr (λ x n, x.2 + n) 0 l.

(** The list's blocks point to one another, the last to [q]. *)
Definition first (q : Z) (l : list (Z * Z)) : Z := match l with [] => q | x :: _ => x.1 end.
Fixpoint chain (h : heap) (l : list (Z * Z)) (q : Z) : Prop :=
  match l with
  | [] => True
  | x :: l => s_ptr h x.1 = first q l ∧ chain h l q
  end.

Definition aligned (p : Z) : Prop := p mod HDR = 0.

(** ** Fields *)

Lemma aligned_far p q : aligned p → aligned q → p ≠ q → p + HDR ≤ q ∨ q + HDR ≤ p.
Proof. unfold aligned, HDR. intros Hp Hq Hn. Z.div_mod_to_equations. lia. Qed.

Lemma aligned_add p k : aligned p → aligned (p + HDR * k).
Proof. unfold aligned, HDR. intros Hp. rewrite Z.mul_comm, Z.mod_add; lia. Qed.

Lemma umem_set_ptr p v h : umem (set_ptr p v h) = store64 (umem h) p v.
Proof. reflexivity. Qed.
Lemma umem_set_size p v h : umem (set_size p v h) = store32 (umem h) (p + 8) v.
Proof. reflexivity. Qed.

Lemma s_ptr_set_ptr h p v q :
  aligned p → aligned q → 0 ≤ v < 2 ^ 64 →
  s_ptr (set_ptr p v h) q = if decide (q = p) then v else s_ptr h q.
Proof.
  intros Hp Hq Hv. unfold s_ptr. rewrite umem_set_ptr. case_decide as E.
  - subst. rewrite load64_store64_eq. by apply u64_small.
  - pose proof (aligned_far q p Hq Hp E). apply load64_store64_ne. unfold HDR in *. lia.
Qed.

Lemma s_size_set_ptr h p v q : aligned p → aligned q → s_size (set_ptr p v h) q = s_size h q.
Proof.
  intros Hp Hq. unfold s_size. rewrite umem_set_ptr. apply load_store_ne.
  destruct (decide (q = p)); [lia|]. pose proof (aligned_far q p Hq Hp ltac:(done)). unfold HDR in *. lia.
Qed.

Lemma s_ptr_set_size h p v q : aligned p → aligned q → s_ptr (set_size p v h) q = s_ptr h q.
Proof.
  intros Hp Hq. unfold s_ptr. rewrite umem_set_size. apply load_store_ne.
  destruct (decide (q = p)); [lia|]. pose proof (aligned_far q p Hq Hp ltac:(done)). unfold HDR in *. lia.
Qed.

Lemma s_size_set_size h p v q :
  aligned p → aligned q → 0 ≤ v < 2 ^ 32 →
  s_size (set_size p v h) q = if decide (q = p) then v else s_size h q.
Proof.
  intros Hp Hq Hv. unfold s_size. rewrite umem_set_size. case_decide as E.
  - subst. unfold load32, store32. rewrite load_store_eq. by apply Z.mod_small.
  - pose proof (aligned_far q p Hq Hp E). apply load_store_ne. unfold HDR in *. lia.
Qed.

(** The bytes outside the header at [p]. *)
Definition outside (p b : Z) : Prop := b < p ∨ p + HDR ≤ b.

Lemma set_ptr_bytes h p v b : outside p b → load8 (umem (set_ptr p v h)) b = load8 (umem h) b.
Proof. unfold outside, HDR. intros Hb. rewrite umem_set_ptr. apply load8_store64. lia. Qed.

Lemma set_size_bytes h p v b : outside p b → load8 (umem (set_size p v h)) b = load8 (umem h) b.
Proof. unfold outside, HDR. intros Hb. rewrite umem_set_size. apply load8_store. lia. Qed.

Create Rewrite HintDb fields.
#[local] Hint Rewrite s_ptr_set_ptr s_size_set_ptr s_ptr_set_size s_size_set_size using (assumption || lia) : fields.

(** ** What free() leaves, once it has found the place *)

Definition free_at (bp p : Z) (h : heap) : heap :=
  let h :=
    if bp + HDR * s_size h bp =? s_ptr h p then
      let h := set_size bp (s_size h bp + s_size h (s_ptr h p)) h in
      set_ptr bp (s_ptr h (s_ptr h p)) h
    else set_ptr bp (s_ptr h p) h in
  let h :=
    if p + HDR * s_size h p =? bp then
      let h := set_size p (s_size h p + s_size h bp) h in
      set_ptr p (s_ptr h bp) h
    else set_ptr p bp h in
  h <| freep := p |>.

Lemma free_eq ap p h :
  free_find (walk_fuel h) h (ap - HDR) (freep h) = Some p → free ap h = Some (free_at (ap - HDR) p h).
Proof. intros E. unfold free. by rewrite E. Qed.

Section free_at.
Context (h : heap) (bp p : Z) (Hbp : aligned bp) (Hp : aligned p) (Hne : bp ≠ p).
Let n := s_ptr h p.
Context (Hn : aligned n) (Hnb : n ≠ bp).
Let joins_next := bp + HDR * s_size h bp =? n.
Let joins_prev := p + HDR * s_size h p =? bp.
Let size' := if joins_next then s_size h bp + s_size h n else s_size h bp.
Let next' := if joins_next then s_ptr h n else n.
Context (Hs1 : 0 ≤ size' < 2 ^ 32) (Hs2 : 0 ≤ s_size h p + size' < 2 ^ 32) (Hb : 0 ≤ bp < 2 ^ 64).

Lemma size_range q : 0 ≤ s_size h q < 2 ^ 32.
Proof. apply (load_range 4). Qed.
Lemma ptr_range q : 0 ≤ s_ptr h q < 2 ^ 64.
Proof. apply (load_range 8). Qed.

Lemma next_range : 0 ≤ next' < 2 ^ 64.
Proof. unfold next', n. destruct joins_next; apply ptr_range. Qed.

(** After the first half. *)
Let h1 :=
  if joins_next then set_ptr bp (s_ptr h n) (set_size bp (s_size h bp + s_size h n) h) else set_ptr bp n h.

Lemma half_fields q :
  aligned q →
  s_size h1 q = (if decide (q = bp) then size' else s_size h q) ∧
  s_ptr h1 q = (if decide (q = bp) then next' else s_ptr h q).
Proof.
  intros Hq. pose proof next_range as Hr. unfold h1. unfold size', next' in *. destruct joins_next.
  - autorewrite with fields. done.
  - autorewrite with fields. split; [|done]. by case_decide as E; [rewrite E|].
Qed.

Lemma free_at_half :
  free_at bp p h =
    (if joins_prev then set_ptr p next' (set_size p (s_size h p + size') h1) else set_ptr p bp h1) <| freep := p |>.
Proof.
  destruct (half_fields p Hp) as [E1 E2]. destruct (half_fields bp Hbp) as [E3 E4].
  rewrite decide_False in E1, E2 by done. rewrite decide_True in E3, E4 by done.
  unfold free_at. fold n.
  assert ((if bp + HDR * s_size h bp =? n
    then set_ptr bp (s_ptr (set_size bp (s_size h bp + s_size h n) h)
           (s_ptr (set_size bp (s_size h bp + s_size h n) h) p))
           (set_size bp (s_size h bp + s_size h n) h)
    else set_ptr bp n h) = h1) as ->.
  { unfold h1. fold joins_next. destruct joins_next; [|done].
    rewrite (s_ptr_set_size h bp _ p) by done. fold n. by rewrite s_ptr_set_size by done. }
  rewrite E1. fold joins_prev. destruct joins_prev; [|done].
  rewrite s_ptr_set_size by done. by rewrite E3, E4.
Qed.

Lemma free_at_fields q :
  aligned q →
  s_size (free_at bp p h) q =
    (if decide (q = p) then if joins_prev then s_size h p + size' else s_size h p
     else if decide (q = bp) then size' else s_size h q) ∧
  s_ptr (free_at bp p h) q =
    (if decide (q = p) then if joins_prev then next' else bp
     else if decide (q = bp) then next' else s_ptr h q).
Proof.
  intros Hq. rewrite free_at_half. destruct (half_fields q Hq) as [E1 E2]. pose proof next_range as Hr.
  change (s_size (?x <| freep := p |>) q) with (s_size x q). change (s_ptr (?x <| freep := p |>) q) with (s_ptr x q).
  destruct joins_prev.
  - rewrite s_size_set_ptr, s_size_set_size, s_ptr_set_ptr, s_ptr_set_size, E1, E2 by done. done.
  - rewrite s_size_set_ptr, s_ptr_set_ptr, E1, E2 by done. split; [|done].
    destruct (decide (q = p)) as [->|]; [by rewrite decide_False|done].
Qed.

Lemma free_at_bytes b : outside bp b → outside p b → load8 (umem (free_at bp p h)) b = load8 (umem h) b.
Proof.
  intros H1 H2. rewrite free_at_half. change (umem (?x <| freep := p |>)) with (umem x).
  assert (load8 (umem h1) b = load8 (umem h) b) as E.
  { unfold h1. destruct joins_next; rewrite ?set_ptr_bytes, ?set_size_bytes by done; done. }
  destruct joins_prev; rewrite ?set_ptr_bytes, ?set_size_bytes by done; exact E.
Qed.

Lemma free_at_rest : freep (free_at bp p h) = p ∧ brk (free_at bp p h) = brk h.
Proof. rewrite free_at_half. unfold h1. destruct joins_prev, joins_next; done. Qed.
End free_at.

(** ** The list *)

Definition before (x y : block) : Prop := bend x < y.1.

Lemma first_app q l1 l2 : first q (l1 ++ l2) = first (first q l2) l1.
Proof. by destruct l1. Qed.

Lemma chain_app h l1 l2 q : chain h (l1 ++ l2) q ↔ chain h l1 (first q l2) ∧ chain h l2 q.
Proof.
  induction l1 as [|x l1 IH]; cbn [app chain]; [tauto|]. rewrite IH, first_app. tauto.
Qed.

Lemma chain_frame h h' l q :
  (∀ x, x ∈ l → s_ptr h' x.1 = s_ptr h x.1) → chain h l q → chain h' l q.
Proof.
  induction l as [|x l IH]; intros Hf; [done|]. intros [E Hc]. split; [by rewrite Hf by left|].
  apply IH; [|done]. intros y Hy. apply Hf. by right.
Qed.

(** A block of the list has its successor in the list. *)
Lemma chain_next h l1 x l2 q : chain h (l1 ++ x :: l2) q → s_ptr h x.1 = first q l2.
Proof. intros [_ [E _]]%chain_app. done. Qed.

(** The place of [bp]: [l1] lies below it, [l2] above. *)
Lemma find_forward h bp q w x l2 fuel :
  chain h (w ++ x :: l2) q → StronglySorted before (w ++ x :: l2) →
  Forall (λ y, 0 ≤ y.2) (w ++ [x]) → Forall (λ y, y.1 < bp) (w ++ [x]) → Forall (λ y, bp < y.1) l2 →
  q ≤ x.1 → (length w < fuel)%nat →
  free_find fuel h bp (first x.1 w) = Some x.1.
Proof.
  revert fuel. induction w as [|y w IH]; intros fuel Hc Hs H0 Hlt Hgt Hq Hf; (destruct fuel as [|fuel]; [cbn in Hf; lia|]).
  - cbn [first free_find app] in *. destruct Hc as [Hn _]. apply Forall_cons in Hlt as [Hx _].
    rewrite Hn. destruct l2 as [|z l2]; cbn [first].
    + rewrite (proj2 (Z.ltb_lt x.1 bp) Hx). cbn. destruct (Z.ltb_spec bp q); [done|].
      by rewrite (proj2 (Z.leb_le q x.1) Hq).
    + apply Forall_cons in Hgt as [Hz _].
      by rewrite (proj2 (Z.ltb_lt x.1 bp) Hx), (proj2 (Z.ltb_lt bp z.1) Hz).
  - cbn [app] in *. destruct Hc as [Hn Hc]. apply StronglySorted_inv in Hs as [Hs Hy].
    apply Forall_cons in H0 as [Hy0 H0]. apply Forall_cons in Hlt as [Hyb Hlt]. cbn [first free_find].
    rewrite Hn. rewrite first_app. cbn [first]. set (z := first x.1 w).
    assert (z < bp ∧ y.1 < z) as [Hzb Hyz].
    { rewrite Forall_forall in Hlt. rewrite Forall_forall in Hy.
      assert (∃ v, v ∈ w ++ [x] ∧ v.1 = z) as (v & Hv & <-).
      { unfold z. destruct w as [|v w]; [exists x|exists v]; split; try done; left. }
      split; [by apply Hlt|]. specialize (Hy v). unfold before, bend, HDR in Hy.
      rewrite elem_of_app, elem_of_cons in Hy. rewrite elem_of_app, list_elem_of_singleton in Hv.
      specialize (Hy ltac:(tauto)). lia. }
    rewrite (proj2 (Z.ltb_ge bp z)) by lia. rewrite andb_false_r. rewrite (proj2 (Z.leb_gt z y.1)) by lia. cbn [andb].
    apply IH; try done. cbn in Hf. lia.
Qed.

(** Above [bp] the search runs to the end of the list and begins again. *)
Lemma find_wrap h bp q l fuel :
  chain h l q → StronglySorted before l → Forall (λ y, 0 ≤ y.2) l → Forall (λ y, bp < y.1) l → q ≤ bp →
  l ≠ [] → free_find (length l + fuel) h bp (first q l) = free_find fuel h bp q.
Proof.
  induction l as [|x l IH]; intros Hc Hs H0 Hgt Hq Hne; [done|]. destruct Hc as [Hn Hc].
  apply StronglySorted_inv in Hs as [Hs Hx]. apply Forall_cons in H0 as [Hx0 H0]. apply Forall_cons in Hgt as [Hxb Hgt].
  cbn [length Nat.add free_find first]. rewrite (proj2 (Z.ltb_ge x.1 bp)) by lia. cbn [andb orb]. rewrite Hn.
  destruct l as [|y l]; cbn [first].
  - rewrite (proj2 (Z.ltb_ge bp q)) by lia. rewrite andb_false_r. done.
  - apply Forall_cons in Hx as [Hxy _]. unfold before, bend, HDR in Hxy.
    rewrite (proj2 (Z.leb_gt y.1 x.1)) by lia. cbn [andb]. by apply IH.
Qed.

(** ** The blocks tile the heap *)

Definition fits (lo hi : Z) (x : block) : Prop := aligned x.1 ∧ 1 ≤ x.2 ∧ lo ≤ x.1 ∧ bend x ≤ hi.

Record tiles (lo hi : Z) (l : list block) : Prop := {
  tiles_nodup : NoDup l;
  tiles_fits : ∀ x, x ∈ l → fits lo hi x;
  tiles_apart : ∀ x y, x ∈ l → y ∈ l → x ≠ y → apart x y;
  tiles_units : HDR * units l = hi - lo
}.

Lemma units_cons x l : units (x :: l) = x.2 + units l.
Proof. reflexivity. Qed.

Lemma units_perm (l l' : list block) : l ≡ₚ l' → units l = units l'.
Proof. unfold units. induction 1; cbn; lia. Qed.

Lemma tiles_perm lo hi l l' : l ≡ₚ l' → tiles lo hi l → tiles lo hi l'.
Proof.
  intros HP [? Hf Ha Hu]. split; [by rewrite <-HP| | |by rewrite <-(units_perm _ _ HP)].
  - intros x. rewrite <-HP. apply Hf.
  - intros x y. rewrite <-HP. apply Ha.
Qed.

Lemma tiles_cons lo hi x l :
  tiles lo hi (x :: l) → fits lo hi x ∧ ∀ y, y ∈ l → fits lo hi y ∧ x ≠ y ∧ apart x y.
Proof.
  intros [Hn Hf Ha _]. apply NoDup_cons in Hn as [Hx Hn]. split; [apply Hf; left|]. intros y Hy.
  assert (x ≠ y) by (intros ->; done). split; [apply Hf; by right|]. split; [done|]. apply Ha; [left|by right|done].
Qed.

(** Two neighbours become one block. *)
Lemma tiles_merge lo hi x y l :
  bend x = y.1 → tiles lo hi (x :: y :: l) → tiles lo hi ((x.1, x.2 + y.2) :: l).
Proof.
  intros E Ht. pose proof Ht as [Hx Hxl]%tiles_cons.
  pose proof (tiles_perm _ _ _ (y :: x :: l) (Permutation_swap _ _ _) Ht) as [Hy Hyl]%tiles_cons.
  destruct Ht as [Hn Hf Ha Hu]. apply NoDup_cons in Hn as [_ [_ Hn]%NoDup_cons].
  unfold fits, bend in *. cbn [fst snd] in *.
  assert (∀ z, z ∈ l → apart (x.1, x.2 + y.2) z) as Hz.
  { intros z Hz. destruct (Hxl z ltac:(by right)) as ((_ & ? & _) & _ & Az).
    destruct (Hyl z ltac:(by right)) as (_ & _ & Bz). unfold apart, bend, HDR in *. cbn in *. lia. }
  assert ((x.1, x.2 + y.2) ∉ l) as Hni.
  { intros Hi. specialize (Hz _ Hi). unfold apart, bend, HDR in Hz. cbn in Hz. lia. }
  split; [by apply NoDup_cons| | |unfold HDR in *; cbn in *; lia].
  - intros z [->|Hzl]%elem_of_cons; [unfold fits, bend, HDR in *; cbn; repeat split; (tauto || lia)|].
    apply Hf. by do 2 right.
  - intros z1 z2 [->|H1]%elem_of_cons [->|H2]%elem_of_cons Hne; [done|by apply Hz| |].
    + destruct (Hz _ H1); [by right|by left].
    + apply Ha; [by do 2 right..|done].
Qed.

(** One block becomes two neighbours. *)
Lemma tiles_split lo hi p i j l :
  1 ≤ i → 1 ≤ j → tiles lo hi ((p, i + j) :: l) → tiles lo hi ((p, i) :: (p + HDR * i, j) :: l).
Proof.
  intros Hi Hj Ht. pose proof Ht as [Hx Hxl]%tiles_cons. destruct Ht as [Hn Hf Ha Hu].
  apply NoDup_cons in Hn as [_ Hn]. destruct Hx as (Hal & _ & Hlo & Hhi). cbn [fst snd] in *.
  assert (∀ z, z ∈ l → apart (p, i) z ∧ apart (p + HDR * i, j) z ∧ (p, i) ≠ z ∧ (p + HDR * i, j) ≠ z) as Hz.
  { intros z Hz. destruct (Hxl z Hz) as ((_ & ? & _) & _ & Az). destruct z as [zp zk].
    unfold apart, bend, HDR in *. cbn in *. repeat split; [lia..| |]; intros [= <- <-]; lia. }
  pose proof (aligned_add p i Hal). unfold bend, HDR in *. cbn [fst snd] in *.
  split; [| | |unfold HDR; cbn in *; lia].
  - apply NoDup_cons. split; [|apply NoDup_cons; split; [|done]].
    + intros [[=]|Hin]%elem_of_cons; [lia|]. by destruct (Hz _ Hin) as (? & ? & ? & ?).
    + intros Hin. by destruct (Hz _ Hin) as (? & ? & ? & ?).
  - intros z [->|[->|Hzl]%elem_of_cons]%elem_of_cons; [unfold fits, bend, HDR; cbn; repeat split; (done || lia)..|].
    apply Hf. by right.
  - assert (∀ x y, apart x y → apart y x) as Hsym by (unfold apart; tauto).
    intros z1 z2 [->|[->|H1]%elem_of_cons]%elem_of_cons [->|[->|H2]%elem_of_cons]%elem_of_cons Hne; try done.
    all: try (by apply Hz). all: try (by apply Hsym, Hz).
    + left. unfold bend, HDR. cbn. lia.
    + right. unfold bend, HDR. cbn. lia.
    + apply Ha; [by right..|done].
Qed.

(** sbrk() adds a block at the end. *)
Lemma tiles_grow lo hi n l :
  aligned hi → lo ≤ hi → 1 ≤ n → tiles lo hi l → tiles lo (hi + HDR * n) ((hi, n) :: l).
Proof.
  intros Hal Hle Hn [Hnd Hf Ha Hu].
  assert (∀ z, z ∈ l → apart (hi, n) z ∧ (hi, n) ≠ z) as Hz.
  { intros z Hz. destruct (Hf z Hz) as (_ & ? & _ & ?). destruct z as [zp zk]. split; [by right|].
    unfold bend, HDR in *. cbn in *. intros [= <- <-]. lia. }
  split; [apply NoDup_cons; split; [|done]; intros Hin; by destruct (Hz _ Hin)| | |rewrite units_cons; unfold HDR in *; cbn [snd]; lia].
  - intros z [->|Hzl]%elem_of_cons; [unfold fits, bend, HDR; cbn; repeat split; (done || lia)|].
    destruct (Hf z Hzl) as (? & ? & ? & ?). unfold fits, HDR in *. repeat split; (done || lia).
  - intros z1 z2 [->|H1]%elem_of_cons [->|H2]%elem_of_cons Hne; [done|by apply Hz| |by apply Ha].
    destruct (proj1 (Hz _ H1)); [by right|by left].
Qed.

(** ** The invariant *)

Record place (hs : Z) (h : heap) : Prop := {
  base_aligned : aligned base;
  base_pos : 0 < base;
  base_below : base + HDR ≤ hs;
  start_aligned : aligned hs;
  brk_aligned : aligned (brk h);
  brk_above : hs ≤ brk h;
  brk_bound : brk h ≤ 2 ^ 27
}.

(** The static header. *)
Definition root : block := (base, 0).

(** The circular list: in order, and no two neighbours left apart. *)
Record ring (h : heap) (fs : list block) : Prop := {
  ring_chain : chain h (root :: fs) base;
  ring_base : s_size h base = 0;
  ring_sorted : StronglySorted before fs;
  ring_freep : freep h ∈ base :: fs.*1
}.

(** [hs] is where the heap starts, [fs] are the free blocks, [l] the others. *)
Record good (hs : Z) (h : heap) (fs l : list block) : Prop := {
  good_place : place hs h;
  good_ring : ring h fs;
  good_tiles : tiles hs (brk h) (fs ++ l);
  good_sizes : ∀ x, x ∈ fs ++ l → s_size h x.1 = x.2
}.

(** ** The place of a block *)

Lemma split_at (b : block) fs :
  1 ≤ b.2 → StronglySorted before fs → (∀ y, y ∈ fs → 1 ≤ y.2 ∧ apart b y) →
  ∃ f1 f2, fs = f1 ++ f2 ∧ (∀ y, y ∈ f1 → bend y ≤ b.1) ∧ (∀ y, y ∈ f2 → bend b ≤ y.1).
Proof.
  intros Hb Hs. induction Hs as [|y fs Hs IH Hy]; intros Hf; [exists [], []; split_and!; [done|set_solver..]|].
  destruct (Hf y ltac:(left)) as [Hy1 [Hby|Hyb]].
  - exists [], (y :: fs). split_and!; [done|set_solver|]. intros z [->|Hz]%elem_of_cons; [done|].
    rewrite Forall_forall in Hy. specialize (Hy z Hz). unfold before, bend, HDR in *. lia.
  - destruct IH as (f1 & f2 & -> & H1 & H2); [intros z Hz; apply Hf; by right|].
    exists (y :: f1), f2. split_and!; [done| |done]. intros z [->|Hz]%elem_of_cons; [done|by apply H1].
Qed.

Lemma sorted_app (l1 l2 : list block) :
  StronglySorted before (l1 ++ l2) ↔
    StronglySorted before l1 ∧ StronglySorted before l2 ∧ ∀ x y, x ∈ l1 → y ∈ l2 → before x y.
Proof.
  induction l1 as [|x l1 IH]; cbn [app].
  - split; [intros Hs; split_and!; [constructor|done|set_solver]|tauto].
  - split.
    + intros [(H1 & H2 & H12)%IH Hx]%StronglySorted_inv. rewrite Forall_forall in Hx. split_and!; [|done|].
      * constructor; [done|]. apply Forall_forall. intros y Hy. apply Hx, elem_of_app. by left.
      * intros z y [->|Hz]%elem_of_cons Hy; [apply Hx, elem_of_app; by right|by apply H12].
    + intros ([H1 Hx]%StronglySorted_inv & H2 & H12). rewrite Forall_forall in Hx. constructor.
      * apply IH. split_and!; [done..|]. intros z y Hz Hy. apply H12; [by right|done].
      * apply Forall_forall. intros y [Hy|Hy]%elem_of_app; [by apply Hx|]. apply H12; [left|done].
Qed.

(** The search finds it, wherever it starts. *)
Lemma find_place h bp n1 x n2 fuel :
  chain h (n1 ++ x :: n2) base → StronglySorted before (n1 ++ x :: n2) → first x.1 n1 = base →
  (∀ y, y ∈ n1 ++ x :: n2 → 0 ≤ y.2) → (∀ y, y ∈ n1 ++ [x] → y.1 < bp) → (∀ y, y ∈ n2 → bp < y.1) →
  base ≤ x.1 → freep h ∈ (n1 ++ x :: n2).*1 → (length (n1 ++ x :: n2) ≤ fuel)%nat →
  free_find fuel h bp (freep h) = Some x.1.
Proof.
  intros Hc Hs Hfst H0 Hlt Hgt Hle (y & Hf & Hy)%list_elem_of_fmap Hfuel. rewrite length_app in Hfuel. cbn in Hfuel.
  assert (∀ v w k, n1 = v ++ w → (length w < k)%nat → free_find k h bp (first x.1 w) = Some x.1) as Hfwd.
  { intros v w k -> Hk. rewrite <-app_assoc in Hc, Hs, Hlt, H0. apply chain_app in Hc as [_ Hc].
    apply sorted_app in Hs as (_ & Hs & _). apply (find_forward h bp base w x n2); try done.
    - apply Forall_forall. intros z Hz. apply H0. rewrite elem_of_app, list_elem_of_singleton in Hz.
      rewrite !elem_of_app, elem_of_cons. tauto.
    - apply Forall_forall. intros z Hz. apply Hlt, elem_of_app. by right.
    - by apply Forall_forall. }
  apply elem_of_app in Hy as [Hy|[->|Hy]%elem_of_cons].
  - apply list_elem_of_split in Hy as (v & w & E). rewrite Hf. change y.1 with (first x.1 (y :: w)).
    apply (Hfwd v); [done|]. rewrite E, length_app in Hfuel. cbn in *. lia.
  - rewrite Hf. change x.1 with (first x.1 []) at 1. apply (Hfwd n1); [by rewrite app_nil_r|cbn; lia].
  - apply list_elem_of_split in Hy as (v & w & ->). rewrite Hf. change y.1 with (first base (y :: w)).
    rewrite length_app in Hfuel. replace fuel with (length (y :: w) + (fuel - length (y :: w)))%nat by (cbn in *; lia).
    apply chain_app in Hc as [_ [_ Hc]]. apply chain_app in Hc as [_ Hc].
    apply sorted_app in Hs as (_ & [Hs _]%StronglySorted_inv & _). apply sorted_app in Hs as (_ & Hs & _).
    rewrite (find_wrap h bp base (y :: w)); try done.
    + rewrite <-Hfst. apply (Hfwd []); [done|cbn in *; lia].
    + apply Forall_forall. intros z Hz. apply H0. rewrite elem_of_app, elem_of_cons, elem_of_app. tauto.
    + apply Forall_forall. intros z Hz. apply Hgt, elem_of_app. by right.
    + specialize (Hlt x). rewrite elem_of_app, list_elem_of_singleton in Hlt. specialize (Hlt ltac:(tauto)). lia.
Qed.

(** ** free() on blocks *)

(** The block [b] and its successors, joined when they meet. *)
Definition join_next (b : block) (l : list block) : block * list block :=
  match l with
  | y :: l' => if bend b =? y.1 then ((b.1, b.2 + y.2), l') else (b, l)
  | [] => (b, [])
  end.

Lemma join_next_spec b l b' l' :
  join_next b l = (b', l') → 1 ≤ b.2 → StronglySorted before l → (∀ y, y ∈ l → 1 ≤ y.2 ∧ bend b ≤ y.1) →
  b'.1 = b.1 ∧ b.2 ≤ b'.2 ∧ StronglySorted before (b' :: l') ∧ (∃ v, l = v ++ l') ∧
  (∀ lo hi m, tiles lo hi (b :: l ++ m) → tiles lo hi (b' :: l' ++ m)).
Proof.
  intros E Hb Hs Hl. destruct l as [|y l]; cbn in E.
  { simplify_eq. split_and!; [done|lia|constructor; constructor|by exists []|done]. }
  pose proof (Hl y ltac:(left)) as [Hy1 Hyb]. apply StronglySorted_inv in Hs as [Hs Hy].
  destruct (Z.eqb_spec (bend b) y.1) as [Ej|Ej]; simplify_eq; cbn [fst snd].
  - split_and!; [done|lia| |by exists [y]|].
    + constructor; [done|]. eapply Forall_impl; [exact Hy|]. intros z. unfold before, bend, HDR in *. cbn in *. lia.
    + intros lo hi m. by apply tiles_merge.
  - split_and!; [done|lia| |by exists []|done]. constructor; [by constructor|].
    apply Forall_cons. split; [unfold before; lia|]. eapply Forall_impl; [exact Hy|].
    intros z. unfold before, bend, HDR in *. cbn in *. lia.
Qed.

(** As the list in memory has it. *)
Lemma join_next_fields h b l b' l' :
  join_next b l = (b', l') → chain h l base → (∀ y, y ∈ l → s_size h y.1 = y.2) → base < bend b →
  b'.2 = (if bend b =? first base l then b.2 + s_size h (first base l) else b.2) ∧
  first base l' = (if bend b =? first base l then s_ptr h (first base l) else first base l).
Proof.
  intros E Hc Hz Hb. destruct l as [|y l]; cbn in *; [simplify_eq; by rewrite (proj2 (Z.eqb_neq _ _)) by lia|].
  destruct Hc as [Hn _]. rewrite Hz by left. destruct (bend b =? y.1); simplify_eq; cbn; done.
Qed.

Lemma chain_update h h' n1 x n2 m q :
  chain h (n1 ++ x :: n2) q → (∀ y, y ∈ n1 → s_ptr h' y.1 = s_ptr h y.1) → first q m = x.1 → chain h' m q →
  chain h' (n1 ++ m) q.
Proof.
  intros [H1 _]%chain_app Hf Hm Hc. apply chain_app. split; [|done]. rewrite Hm. by apply (chain_frame h).
Qed.

Lemma units_length lo hi l : (∀ x, x ∈ l → fits lo hi x) → Z.of_nat (length l) ≤ units l.
Proof.
  induction l as [|x l IH]; intros Hf; [done|]. rewrite units_cons. cbn [length].
  destruct (Hf x ltac:(left)) as (_ & ? & _). specialize (IH ltac:(intros y Hy; apply Hf; by right)). lia.
Qed.

Lemma units_app l m : units (l ++ m) = units l + units m.
Proof. induction l as [|x l IH]; [done|]. cbn [app]. rewrite !units_cons, IH. lia. Qed.

(** The nodes of the list, the static header first. *)
Lemma ring_nodes hs h fs l :
  good hs h fs l →
  StronglySorted before (root :: fs) ∧ (∀ y, y ∈ root :: fs → aligned y.1 ∧ 0 ≤ y.2 ∧ base ≤ y.1) ∧
  (length (root :: fs) ≤ walk_fuel h)%nat.
Proof.
  intros [[Hba Hb0 Hbb Hsa Hka Hk Hkm] [Hc Hb Hs Hf] [Hnd Hfit Hap Hun] Hz].
  assert (∀ y, y ∈ fs → fits hs (brk h) y) as Hfs by (intros y Hy; apply Hfit, elem_of_app; by left).
  split_and!.
  - constructor; [done|]. apply Forall_forall. intros y Hy. destruct (Hfs y Hy) as (_ & _ & ? & _).
    unfold before, bend, root, HDR in *. cbn in *. lia.
  - intros y [->|Hy]%elem_of_cons; [cbn; split_and!; (done || lia)|]. destruct (Hfs y Hy) as (? & ? & ? & _).
    unfold HDR in *. split_and!; (done || lia).
  - pose proof (units_length hs (brk h) fs Hfs) as H1.
    pose proof (units_length hs (brk h) l ltac:(intros y Hy; apply Hfit, elem_of_app; by right)) as H2.
    rewrite units_app in Hun. unfold walk_fuel, HDR in *. cbn [length].
    assert (Z.of_nat (length fs) + 1 ≤ brk h / 16) by (apply Z.div_le_lower_bound; lia). lia.
Qed.

(** The payload of a block. *)
Definition payload (x : block) (a : Z) : Prop := x.1 + HDR ≤ a < bend x.
#[export] Instance payload_dec x a : Decision (payload x a) := _.

Definition same_bytes (l : list block) (h h' : heap) : Prop :=
  ∀ x a, x ∈ l → payload x a → load8 (umem h') a = load8 (umem h) a.

(** The place of a block that is not free, among the nodes. *)
Lemma block_place hs h fs b l :
  good hs h fs (b :: l) →
  ∃ n1 x n2, root :: fs = n1 ++ x :: n2 ∧ first x.1 n1 = base ∧ free_find (walk_fuel h) h b.1 (freep h) = Some x.1 ∧
    (∀ y, y ∈ n1 ++ [x] → bend y ≤ b.1 ∧ y.1 < b.1) ∧ (∀ y, y ∈ n2 → bend b ≤ y.1).
Proof.
  intros Hg. destruct (ring_nodes _ _ _ _ Hg) as (Hs & Hn & Hlen).
  destruct Hg as [[Hba Hb0 Hbb Hsa Hka Hk Hkm] [Hc Hb Hsf Hf] Ht Hz].
  destruct (tiles_cons hs (brk h) b (fs ++ l)) as [(Hal & Hb1 & Hlo & Hhi) Hap].
  { eapply tiles_perm; [|exact Ht]. by rewrite <-Permutation_middle. }
  destruct (split_at b fs Hb1 Hsf) as (f1 & n2 & -> & H1 & H2).
  { intros y Hy. destruct (Hap y) as ((_ & ? & _) & _ & ?); [by apply elem_of_app; left|done]. }
  destruct (exists_last (l := root :: f1) ltac:(done)) as (n1 & x & E).
  assert (root :: f1 ++ n2 = n1 ++ x :: n2) as E'.
  { change (root :: f1 ++ n2) with ((root :: f1) ++ n2). by rewrite E, <-app_assoc. }
  assert (first x.1 n1 = base) as Hfst by (destruct n1; cbn in E; simplify_eq; done).
  assert (∀ y, y ∈ n1 ++ [x] → bend y ≤ b.1 ∧ y.1 < b.1) as Hlt.
  { intros y. rewrite <-E. intros [->|Hy]%elem_of_cons; [unfold bend, root, HDR in *; cbn; lia|].
    specialize (H1 y Hy). destruct (Hap y) as ((_ & ? & _) & _); [rewrite !elem_of_app; tauto|].
    unfold bend, HDR in *. lia. }
  exists n1, x, n2. split_and!; try done. rewrite E' in *. apply (find_place h b.1 n1 x n2); try done.
  - intros y Hy. by apply Hn.
  - intros y Hy. by apply Hlt.
  - intros y Hy. specialize (H2 y Hy). unfold bend, HDR in *. lia.
  - apply Hn. rewrite elem_of_app, elem_of_cons. tauto.
  - rewrite <-E'. done.
Qed.

(** The list from the node [x] on, once [b] has its place after it. *)
Definition coalesce (x b : block) (l : list block) : list block :=
  if bend x =? b.1 then (x.1, x.2 + b.2) :: l else x :: b :: l.

Lemma coalesce_sorted n1 x b n2 b' n2' :
  join_next b n2 = (b', n2') → 1 ≤ b.2 → 0 ≤ x.2 → bend x ≤ b.1 → (∀ y, y ∈ n2 → 1 ≤ y.2 ∧ bend b ≤ y.1) →
  StronglySorted before (n1 ++ x :: n2) → StronglySorted before (n1 ++ coalesce x b' n2').
Proof.
  intros Ej Hb Hx Hxb Hn2 (H1 & [H2 Hx2]%StronglySorted_inv & H12)%sorted_app.
  destruct (join_next_spec b n2 b' n2' Ej Hb H2 Hn2) as (Eb & Hb' & Hs & [v ->] & _).
  rewrite Forall_forall in Hx2. pose proof Hs as [Hs2 Hbn]%StronglySorted_inv.
  assert (∀ y, y ∈ n2' → before x y) as Hxn by (intros y Hy; apply Hx2, elem_of_app; by right).
  apply sorted_app. unfold coalesce. rewrite Eb. split_and!; [done| |].
  - destruct (Z.eqb_spec (bend x) b.1) as [E|E].
    + constructor; [done|]. eapply Forall_impl; [exact Hbn|]. intros z.
      unfold before, bend, HDR in *. cbn. lia.
    + constructor; [done|]. apply Forall_cons. split; [unfold before; lia|]. by apply Forall_forall.
  - intros y z Hy Hz. pose proof (H12 y x Hy ltac:(left)) as Hyx.
    assert (z.1 = x.1 ∨ z.1 = b.1 ∨ z ∈ n2') as [Ez|[Ez|Hz']].
    { destruct (bend x =? b.1); [apply elem_of_cons in Hz as [->|Hz]; auto|].
      apply elem_of_cons in Hz as [->|[->|Hz]%elem_of_cons]; auto. }
    1,2: unfold before, bend, HDR in *; lia.
    apply H12; [done|]. right. apply elem_of_app. by right.
Qed.

Lemma coalesce_tiles lo hi fs l n1 x b n2 b' n2' :
  root :: fs = n1 ++ x :: n2 → tiles lo hi (fs ++ b :: l) → base < lo →
  join_next b n2 = (b', n2') → StronglySorted before n2 → (∀ y, y ∈ n2 → 1 ≤ y.2 ∧ bend b ≤ y.1) →
  ∃ fs', root :: fs' = n1 ++ coalesce x b' n2' ∧ tiles lo hi (fs' ++ l) ∧
    (length fs' ≤ S (length fs))%nat ∧ ∃ z, z ∈ fs' ∧ b.2 ≤ z.2.
Proof.
  intros E Ht Hlo Ej Hs Hn2.
  assert (fits lo hi b) as (_ & Hb1 & Hb2 & _) by (apply (tiles_fits _ _ _ Ht), elem_of_app; right; left).
  destruct (join_next_spec b n2 b' n2' Ej Hb1 Hs Hn2) as (Eb & Hb' & _ & [v ->] & Hm).
  unfold coalesce. destruct n1 as [|r m]; cbn in E; injection E as <- ->.
  - rewrite (proj2 (Z.eqb_neq (bend root) b'.1)) by (unfold bend, root, HDR; cbn; lia).
    exists (b' :: n2'). split_and!; [done| |rewrite length_app; cbn; lia|exists b'; split; [left|done]].
    apply Hm. eapply tiles_perm; [|exact Ht]. by rewrite <-Permutation_middle.
  - assert (tiles lo hi (b' :: n2' ++ m ++ x :: l)) as Ht'.
    { apply Hm. eapply tiles_perm; [|exact Ht]. rewrite <-!app_assoc. cbn [app]. solve_Permutation. }
    destruct (Z.eqb_spec (bend x) b'.1) as [E|_].
    + exists (m ++ (x.1, x.2 + b'.2) :: n2'). split_and!; [done| |rewrite !length_app; cbn; rewrite length_app; lia|].
      * eapply tiles_perm; [|apply (tiles_merge lo hi x b' (n2' ++ m ++ l) E)].
        { rewrite <-!app_assoc. cbn [app]. solve_Permutation. }
        eapply tiles_perm; [|exact Ht']. solve_Permutation.
      * exists (x.1, x.2 + b'.2). split; [apply elem_of_app; right; left|]. cbn.
        destruct (tiles_fits _ _ _ Ht x) as (_ & ? & _); [|lia]. rewrite !elem_of_app, elem_of_cons. tauto.
    + exists (m ++ x :: b' :: n2'). split_and!; [done| |rewrite !length_app; cbn; rewrite length_app; lia|].
      * eapply tiles_perm; [|exact Ht']. rewrite <-!app_assoc. cbn [app]. solve_Permutation.
      * exists b'. split; [apply elem_of_app; right; right; left|done].
Qed.

(** Distinct nodes and blocks have distinct addresses. *)
Lemma sorted_distinct n1 x n2 y :
  StronglySorted before (n1 ++ x :: n2) → (∀ z, z ∈ n1 ++ x :: n2 → 0 ≤ z.2) → y ∈ n1 ∨ y ∈ n2 → y.1 ≠ x.1.
Proof.
  intros (_ & [_ Hx]%StronglySorted_inv & H12)%sorted_app H0 Hy. rewrite Forall_forall in Hx.
  assert (before y x ∨ before x y) as Hb.
  { destruct Hy; [left; apply H12; [done|left]|right; by apply Hx]. }
  pose proof (H0 x ltac:(apply elem_of_app; right; left)).
  assert (0 ≤ y.2) by (apply H0; rewrite elem_of_app, elem_of_cons; tauto).
  unfold before, bend, HDR in Hb. lia.
Qed.

Lemma node_size hs h fs l x : good hs h fs l → x ∈ root :: fs → s_size h x.1 = x.2.
Proof.
  intros [_ [_ Hb _ _] _ Hz] [->|Hx]%elem_of_cons; [done|]. apply Hz, elem_of_app. by left.
Qed.

Lemma node_max hs h fs l x : good hs h fs l → x ∈ root :: fs → x.2 ≤ 2 ^ 23.
Proof.
  intros [[_ ? ? _ _ _ ?] _ Ht _] [->|Hx]%elem_of_cons; [done|].
  destruct (tiles_fits _ _ _ Ht x) as (_ & ? & ? & ?); [apply elem_of_app; by left|]. unfold bend, HDR in *. lia.
Qed.

(** The node after [x]. *)
Lemma next_node hs h fs b l n1 x n2 :
  good hs h fs (b :: l) → root :: fs = n1 ++ x :: n2 → (∀ y, y ∈ n2 → bend b ≤ y.1) →
  fits hs (brk h) b ∧ s_ptr h x.1 = first base n2 ∧
  aligned (first base n2) ∧ first base n2 ≠ b.1 ∧ s_size h (first base n2) ≤ 2 ^ 23.
Proof.
  intros Hg E Hgt. destruct (ring_nodes _ _ _ _ Hg) as (_ & Hn & _).
  assert (∀ y, y ∈ root :: fs → s_size h y.1 ≤ 2 ^ 23) as Hm.
  { intros y Hy. rewrite (node_size _ _ _ _ _ Hg Hy). by apply (node_max _ _ _ _ _ Hg). }
  destruct Hg as [[Hba Hb0 Hbb Hsa Hka Hk Hkm] [Hc _ _ _] Ht Hz].
  assert (fits hs (brk h) b) as Hb by (apply (tiles_fits _ _ _ Ht), elem_of_app; right; left).
  split; [done|]. split; [rewrite E in Hc; by apply chain_next in Hc|]. destruct n2 as [|y n2]; cbn [first].
  - split_and!; [done|unfold fits, HDR in *; lia|apply (Hm root); left].
  - assert (y ∈ root :: fs) as Hy by (rewrite E, elem_of_app, !elem_of_cons; tauto).
    specialize (Hgt y ltac:(left)). split_and!; [by apply Hn|unfold fits, bend, HDR in *; lia|by apply Hm].
Qed.

(** The fields free() leaves, in terms of blocks. *)
Lemma free_effect hs h fs b l n1 x n2 b' n2' :
  good hs h fs (b :: l) → root :: fs = n1 ++ x :: n2 →
  (∀ y, y ∈ n1 ++ [x] → bend y ≤ b.1 ∧ y.1 < b.1) → (∀ y, y ∈ n2 → bend b ≤ y.1) → join_next b n2 = (b', n2') →
  (∀ q, aligned q →
    s_size (free_at b.1 x.1 h) q =
      (if decide (q = x.1) then if bend x =? b.1 then x.2 + b'.2 else x.2
       else if decide (q = b.1) then b'.2 else s_size h q) ∧
    s_ptr (free_at b.1 x.1 h) q =
      (if decide (q = x.1) then if bend x =? b.1 then first base n2' else b.1
       else if decide (q = b.1) then first base n2' else s_ptr h q)) ∧
  freep (free_at b.1 x.1 h) = x.1 ∧ brk (free_at b.1 x.1 h) = brk h ∧
  ∀ a, outside b.1 a → outside x.1 a → load8 (umem (free_at b.1 x.1 h)) a = load8 (umem h) a.
Proof.
  intros Hg E Hlt Hgt Ej. destruct (ring_nodes _ _ _ _ Hg) as (_ & Hn & _).
  destruct (next_node _ _ _ _ _ _ _ _ Hg E Hgt) as ((Hbal & Hb1 & Hlo & Hhi) & Hptr & Hfa & Hfb & Hfs).
  assert (x ∈ root :: fs) as Hx by (rewrite E, elem_of_app, elem_of_cons; tauto).
  pose proof (node_size _ _ _ _ x Hg Hx) as Hxs. pose proof (node_max _ _ _ _ x Hg Hx).
  destruct (Hn x Hx) as (Hxal & Hx0 & _). destruct (Hlt x ltac:(apply elem_of_app; right; left)) as [_ Hxb].
  pose proof (λ y, node_size _ _ _ _ y Hg) as Hsz.
  destruct Hg as [[Hba Hb0 Hbb Hsa Hka Hk Hkm] [Hc _ _ _] Ht Hz].
  assert (s_size h b.1 = b.2) as Hbs by (apply Hz, elem_of_app; right; left).
  destruct (join_next_fields h b n2 b' n2' Ej) as [E1 E2].
  { rewrite E in Hc. apply chain_app in Hc as [_ [_ Hc]]. done. }
  { intros y Hy. apply Hsz. rewrite E, elem_of_app, elem_of_cons. tauto. }
  { unfold bend, HDR in *. lia. }
  pose proof (size_range h (first base n2)). unfold bend in *.
  assert (b.2 ≤ 2 ^ 23) as Hbmax by (unfold HDR in *; lia).
  assert (0 ≤ b'.2 ≤ 2 ^ 24) by (rewrite E1; destruct (_ =? _); lia).
  rewrite <-Hbs in E1, E2. rewrite <-Hptr in *. rewrite <-Hxs in *. rewrite E1 in *. rewrite E2.
  assert (b.1 ≠ x.1) by lia. assert (0 ≤ b.1 < 2 ^ 64) by (unfold HDR in *; lia).
  assert (0 ≤ s_size h x.1 + b'.2 < 2 ^ 32) by lia.
  split_and!.
  - intros q Hq. apply free_at_fields; try done; lia.
  - apply free_at_rest; try done; lia.
  - apply free_at_rest; try done; lia.
  - intros a. apply free_at_bytes; try done; lia.
Qed.

(** A block in use is apart from the nodes. *)
Lemma live_apart hs h fs l y z :
  good hs h fs l → y ∈ l → z ∈ root :: fs → y.1 ≠ z.1 ∧ ∀ a, payload y a → outside z.1 a.
Proof.
  intros [[_ _ Hbb _ _ _ _] _ Ht _] Hy Hz.
  destruct (tiles_fits _ _ _ Ht y) as (_ & Hy1 & Hlo & _); [apply elem_of_app; by right|].
  unfold payload, outside. apply elem_of_cons in Hz as [->|Hz].
  { unfold root, bend, HDR in *. cbn in *. split; [lia|]. intros a. lia. }
  destruct (tiles_fits _ _ _ Ht z) as (_ & Hz1 & _ & _); [apply elem_of_app; by left|].
  assert (y ≠ z) as Hyz by (intros ->; destruct (proj1 (NoDup_app _ _) (tiles_nodup _ _ _ Ht)) as (_ & Hd & _); by apply (Hd z)).
  destruct (tiles_apart _ _ _ Ht y z); [rewrite elem_of_app; tauto..|done| |];
    unfold bend, HDR in *; (split; [lia|]; intros a; lia).
Qed.

Lemma live_apart_live hs h fs b l y :
  good hs h fs (b :: l) → y ∈ l → aligned y.1 ∧ y.1 ≠ b.1 ∧ ∀ a, payload y a → outside b.1 a.
Proof.
  intros Hg Hy. destruct (tiles_cons hs (brk h) b (fs ++ l)) as [(_ & Hb1 & _) Hap].
  { eapply tiles_perm; [|exact (good_tiles _ _ _ _ Hg)]. by rewrite <-Permutation_middle. }
  destruct (Hap y) as ((? & ? & _) & _ & Ha); [apply elem_of_app; by right|].
  split; [done|]. unfold payload, outside. destruct Ha; unfold bend, HDR in *; (split; [lia|]; intros a; lia).
Qed.

(** The list free() leaves. *)
Lemma free_ring hs h fs b l n1 x n2 b' n2' fs' :
  good hs h fs (b :: l) → root :: fs = n1 ++ x :: n2 →
  (∀ y, y ∈ n1 ++ [x] → bend y ≤ b.1 ∧ y.1 < b.1) → (∀ y, y ∈ n2 → bend b ≤ y.1) → join_next b n2 = (b', n2') →
  b'.1 = b.1 → (∃ v, n2 = v ++ n2') → root :: fs' = n1 ++ coalesce x b' n2' →
  chain (free_at b.1 x.1 h) (root :: fs') base ∧ ∀ y, y ∈ root :: fs' → s_size (free_at b.1 x.1 h) y.1 = y.2.
Proof.
  intros Hg E Hlt Hgt Ej Eb [v Ev] E'. destruct (free_effect _ _ _ _ _ _ _ _ _ _ Hg E Hlt Hgt Ej) as [Hf _].
  destruct (next_node _ _ _ _ _ _ _ _ Hg E Hgt) as ((Hbal & Hb1 & _) & _).
  destruct (ring_nodes _ _ _ _ Hg) as (Hs & Hn & _). pose proof (λ y, node_size _ _ _ _ y Hg) as Hsz.
  pose proof (ring_chain _ _ (good_ring _ _ _ _ Hg)) as Hc. rewrite E in Hs, Hn, Hsz, Hc.
  assert (∀ y, y ∈ n1 ∨ y ∈ n2' → y ∈ n1 ++ x :: n2 ∧ y.1 ≠ x.1 ∧ y.1 ≠ b.1) as Hne.
  { intros y Hy. assert (y ∈ n1 ∨ y ∈ n2) as Hy' by (rewrite Ev, elem_of_app; tauto).
    split; [rewrite elem_of_app, elem_of_cons; tauto|]. split; [apply (sorted_distinct n1 x n2); [done|apply Hn|done]|].
    destruct Hy' as [H1|H2]; [destruct (Hlt y); [apply elem_of_app; by left|lia]|].
    specialize (Hgt y H2). unfold bend, HDR in *. lia. }
  destruct (Hn x) as (Hxal & _ & _); [rewrite elem_of_app, elem_of_cons; tauto|].
  assert (∀ y, y ∈ n1 ∨ y ∈ n2' →
    s_size (free_at b.1 x.1 h) y.1 = y.2 ∧ s_ptr (free_at b.1 x.1 h) y.1 = s_ptr h y.1) as Hsame.
  { intros y Hy. destruct (Hne y Hy) as (Hin & H1 & H2). destruct (Hf y.1) as [-> ->]; [by apply Hn|].
    rewrite !decide_False by done. split; [by apply Hsz|done]. }
  destruct (Hf x.1 Hxal) as [Fx1 Fx2]. rewrite decide_True in Fx1, Fx2 by done.
  destruct (Hf b.1 Hbal) as [Fb1 Fb2]. destruct (Hlt x) as [_ Hxb]; [apply elem_of_app; right; left|].
  rewrite decide_False, decide_True in Fb1, Fb2 by (done || lia).
  assert (chain (free_at b.1 x.1 h) n2' base) as Hc2.
  { subst n2. apply chain_app in Hc as [_ [_ [_ Hc]%chain_app]].
    apply (chain_frame h); [intros y Hy; by apply Hsame; right|done]. }
  rewrite E'. unfold coalesce. rewrite Eb. destruct (bend x =? b.1); split.
  - apply (chain_update h _ n1 x n2); [done|intros y Hy; by apply Hsame; left|done|by split].
  - intros y [Hy|[->|Hy]%elem_of_cons]%elem_of_app; [by apply Hsame; left|done|by apply Hsame; right].
  - apply (chain_update h _ n1 x n2); [done|intros y Hy; by apply Hsame; left|done|].
    split; [by rewrite Fx2, <-Eb|]. split; [by rewrite Eb|done].
  - intros y [Hy|[->|[->|Hy]%elem_of_cons]%elem_of_cons]%elem_of_app;
      [by apply Hsame; left|done|by rewrite Eb|by apply Hsame; right].
Qed.

(** What free() does: the block joins the free ones. *)
Lemma free_good hs h fs b l :
  good hs h fs (b :: l) →
  ∃ h' fs', free (b.1 + HDR) h = Some h' ∧ good hs h' fs' l ∧ brk h' = brk h ∧ same_bytes l h h' ∧
    (length fs' ≤ S (length fs))%nat ∧ ∃ z, z ∈ fs' ∧ b.2 ≤ z.2.
Proof.
  intros Hg. destruct (block_place _ _ _ _ _ Hg) as (n1 & x & n2 & E & Hfst & Hfind & Hlt & Hgt).
  destruct (join_next b n2) as [b' n2'] eqn:Ej.
  destruct (next_node _ _ _ _ _ _ _ _ Hg E Hgt) as ((Hbal & Hb1 & Hblo & _) & _).
  destruct (ring_nodes _ _ _ _ Hg) as (Hs & Hn & _). pose proof Hs as Hs'. rewrite E in Hs'.
  assert (∀ y, y ∈ n2 → 1 ≤ y.2 ∧ bend b ≤ y.1) as Hn2.
  { intros y Hy. split; [|by apply Hgt]. apply (tiles_fits _ _ _ (good_tiles _ _ _ _ Hg) y).
    destruct n1; cbn in E; injection E as _ ->; rewrite elem_of_app; [tauto|].
    left. rewrite elem_of_app, elem_of_cons. tauto. }
  apply sorted_app in Hs' as (_ & [Hs2 _]%StronglySorted_inv & _).
  destruct (join_next_spec b n2 b' n2' Ej Hb1 Hs2 Hn2) as (Eb & _ & _ & Hv & _).
  pose proof (good_place _ _ _ _ Hg) as Hp.
  destruct (coalesce_tiles hs (brk h) fs l n1 x b n2 b' n2') as (fs' & E' & Ht & Hlen & Hz); try done.
  { apply Hg. } { destruct Hp. unfold HDR in *. lia. }
  destruct (free_ring _ _ _ _ _ _ _ _ _ _ _ Hg E Hlt Hgt Ej Eb Hv E') as [Hc Hsz].
  destruct (free_effect _ _ _ _ _ _ _ _ _ _ Hg E Hlt Hgt Ej) as (Hf & Hfp & Hbrk & Hby).
  assert (x ∈ root :: fs) as Hx by (rewrite E, elem_of_app, elem_of_cons; tauto).
  exists (free_at b.1 x.1 h), fs'. split_and!; try done.
  - rewrite (free_eq _ x.1); replace (b.1 + HDR - HDR) with b.1 by lia; done.
  - split.
    + destruct Hp. split; rewrite ?Hbrk; done.
    + split; [done|by apply (Hsz root); left| |].
      * apply (coalesce_sorted n1 x b n2 b' n2') in Ej; try done.
        { rewrite <-E' in Ej. by apply StronglySorted_inv in Ej as [? _]. }
        { apply Hn. done. } { apply Hlt, elem_of_app. right. left. } { by rewrite <-E. }
      * rewrite Hfp. change (base :: fs'.*1) with ((root :: fs').*1). rewrite E'. unfold coalesce.
        rewrite fmap_app, elem_of_app. right. destruct (bend x =? b'.1); left.
    + by rewrite Hbrk.
    + intros y [Hy|Hy]%elem_of_app; [apply Hsz; by right|].
      destruct (live_apart_live _ _ _ _ _ _ Hg Hy) as (Hal & Hyb & _).
      destruct (live_apart _ _ _ _ y x Hg ltac:(by right) Hx) as [Hyx _].
      destruct (Hf y.1 Hal) as [-> _]. rewrite !decide_False by done. apply Hg. rewrite elem_of_app, elem_of_cons. tauto.
  - intros y a Hy Ha. apply Hby; [by apply (live_apart_live _ _ _ _ _ _ Hg Hy)|].
    by apply (live_apart _ _ _ _ y x Hg ltac:(by right) Hx).
Qed.

(** ** malloc() on blocks *)

(** The node before a free block. *)
Lemma prev_node hs h fs l u z :
  good hs h fs l → u ∈ root :: fs → z ∈ fs → s_ptr h u.1 = z.1 →
  ∃ n1 n2, root :: fs = n1 ++ u :: z :: n2.
Proof.
  intros [[_ _ Hbb _ _ _ _] [Hc _ _ _] Ht _] (n1 & n2 & E)%list_elem_of_split Hz Hu. rewrite E in Hc.
  assert (∀ y, y ∈ fs → fits hs (brk h) y ∧ (y.1 = z.1 → y = z)) as Hfs.
  { intros y Hy. assert (y ∈ fs ++ l) as Hy' by (apply elem_of_app; by left).
    assert (z ∈ fs ++ l) as Hz' by (apply elem_of_app; by left).
    destruct (tiles_fits _ _ _ Ht y Hy') as (? & ? & ? & ?). destruct (tiles_fits _ _ _ Ht z Hz') as (_ & ? & _).
    split; [done|]. intros Eq. destruct (decide (y = z)) as [|Hne]; [done|].
    destruct (tiles_apart _ _ _ Ht y z Hy' Hz' Hne); unfold bend, HDR in *; lia. }
  rewrite (chain_next _ _ _ _ _ Hc) in Hu. destruct n2 as [|y n2]; cbn in Hu.
  - destruct (Hfs z Hz) as [(_ & _ & ? & _) _]. unfold HDR in *. lia.
  - exists n1, n2. rewrite E. do 3 f_equal. apply Hfs; [|done].
    destruct n1; cbn in E; injection E as _ ->; [left|]. rewrite elem_of_app, !elem_of_cons. tauto.
Qed.

(** Put the blocks [m] in the place of [z]. *)
Lemma replace_block fs n1 u z n2 m :
  root :: fs = n1 ++ u :: z :: n2 →
  ∃ fs' rest, root :: fs' = n1 ++ u :: m ++ n2 ∧ fs ≡ₚ z :: rest ∧ fs' ≡ₚ m ++ rest.
Proof.
  intros E. destruct n1 as [|r n1]; cbn in E; injection E as <- ->.
  - exists (m ++ n2), n2. done.
  - exists (n1 ++ u :: m ++ n2), (n1 ++ u :: n2). split; [done|]. split; solve_Permutation.
Qed.

Lemma replace_sorted n1 u z m n2 :
  (∀ y, y ∈ m → y.1 = z.1 ∧ bend y ≤ bend z) → (length m ≤ 1)%nat →
  StronglySorted before (n1 ++ u :: z :: n2) → StronglySorted before (n1 ++ u :: m ++ n2).
Proof.
  intros Hm Hl (H1 & [[H2 Hz]%StronglySorted_inv Hu]%StronglySorted_inv & H12)%sorted_app.
  rewrite Forall_forall in Hz, Hu.
  assert (∀ x y, before x z → y ∈ m → before x y) as Hxm.
  { intros x y Hx Hy. destruct (Hm y Hy) as [? _]. unfold before in *. lia. }
  apply sorted_app. split_and!; [done|constructor|].
  - apply sorted_app. split_and!; [|done|].
    + destruct m as [|y [|? ?]]; [constructor|constructor; constructor|cbn in Hl; lia].
    + intros x y Hx Hy. destruct (Hm x Hx) as [_ ?]. specialize (Hz y Hy). unfold before in *. lia.
  - apply Forall_forall. intros y [Hy|Hy]%elem_of_app; [apply Hxm; [apply Hu; left|done]|apply Hu; by right].
  - intros x y Hx [->|[Hy|Hy]%elem_of_app]%elem_of_cons; [apply H12; [done|left]| |].
    + apply Hxm; [|done]. apply H12; [done|]. right. left.
    + apply H12; [done|]. by do 2 right.
Qed.

Lemma replace_chain h h' n1 u z n2 m :
  chain h (n1 ++ u :: z :: n2) base → StronglySorted before (n1 ++ u :: z :: n2) →
  (∀ y, y ∈ n1 ++ u :: z :: n2 → aligned y.1 ∧ 0 ≤ y.2 ∧ base ≤ y.1) → (length m ≤ 1)%nat →
  s_ptr h' u.1 = first base (m ++ n2) → (∀ y, y ∈ m → s_ptr h' y.1 = first base n2) →
  (∀ q, aligned q → q ≠ u.1 → q ≠ z.1 → s_ptr h' q = s_ptr h q) →
  chain h' (n1 ++ u :: m ++ n2) base.
Proof.
  intros Hc Hs Hn Hml Hu Hmp Hptr.
  assert (∀ y, y ∈ n1 ∨ y ∈ n2 → s_ptr h' y.1 = s_ptr h y.1) as Hsame.
  { intros y Hy. apply Hptr.
    - apply Hn. rewrite elem_of_app, !elem_of_cons. tauto.
    - apply (sorted_distinct n1 u (z :: n2)); [done|apply Hn|]. rewrite elem_of_cons. tauto.
    - change (n1 ++ u :: z :: n2) with (n1 ++ [u] ++ z :: n2) in *. rewrite app_assoc in Hs, Hn.
      apply (sorted_distinct (n1 ++ [u]) z n2); [done|apply Hn|]. rewrite elem_of_app. tauto. }
  apply (chain_update h _ n1 u (z :: n2)); [done|intros y Hy; apply Hsame; by left|done|].
  split; [done|]. apply chain_app in Hc as [_ (_ & _ & Hc)].
  assert (chain h' n2 base) as Hc2 by (apply (chain_frame h); [intros y Hy; apply Hsame; by right|done]).
  destruct m as [|y [|? ?]]; cbn [app] in *; [done| |cbn in Hml; lia]. split; [apply Hmp; left|done].
Qed.

(** The heap keeps its invariant when the node [u] gets the successors [m ++ n2]
    and the rest of [z] is in use. *)
Lemma replace_good hs h h' fs l n1 u z n2 m used :
  good hs h fs l → root :: fs = n1 ++ u :: z :: n2 →
  (∀ y, y ∈ m → y.1 = z.1 ∧ bend y ≤ bend z) → (length m ≤ 1)%nat →
  (∀ r, tiles hs (brk h) (z :: r) → tiles hs (brk h) (m ++ used :: r)) →
  brk h' = brk h → freep h' = u.1 → s_ptr h' u.1 = first base (m ++ n2) →
  (∀ y, y ∈ m → s_ptr h' y.1 = first base n2) →
  (∀ q, aligned q → q ≠ u.1 → q ≠ z.1 → s_ptr h' q = s_ptr h q) →
  (∀ y, y ∈ used :: m → s_size h' y.1 = y.2) →
  (∀ q, aligned q → q ≠ z.1 → q ≠ used.1 → s_size h' q = s_size h q) →
  ∃ fs', good hs h' fs' (used :: l).
Proof.
  intros Hg E Hm Hml Hti Hbrk Hfp Hu Hmp Hptr Hus Hsz.
  destruct (ring_nodes _ _ _ _ Hg) as (Hs & Hn & _). rewrite E in Hs, Hn.
  destruct (replace_block fs n1 u z n2 m E) as (fs' & rest & E' & HP & HP').
  destruct Hg as [Hp [Hc Hb _ _] Ht Hz]. rewrite E in Hc.
  assert (tiles hs (brk h) (z :: rest ++ l)) as Ht0 by (eapply tiles_perm; [|exact Ht]; by rewrite HP).
  assert (tiles hs (brk h) (used :: m ++ rest ++ l)) as Ht1.
  { eapply tiles_perm; [|exact (Hti _ Ht0)]. solve_Permutation. }
  apply tiles_cons in Ht0 as [Hz1 Hz0]. pose proof Ht1 as [Hu1 Hu2]%tiles_cons.
  assert (∀ y, y ∈ rest ++ l → aligned y.1 ∧ y.1 ≠ z.1 ∧ y.1 ≠ used.1) as Hd.
  { intros y Hy. destruct (Hz0 y Hy) as ((? & ? & _) & _ & Ha). split; [done|].
    destruct (Hu2 y) as (_ & _ & Hb2); [rewrite elem_of_app; tauto|]. destruct Hu1 as (_ & ? & _).
    assert (1 ≤ z.2) by apply Hz1. unfold apart, bend, HDR in *. lia. }
  exists fs'. split.
  - destruct Hp. split; rewrite ?Hbrk; done.
  - split; [| | |].
    + rewrite E'. by apply (replace_chain h h' n1 u z n2 m).
    + rewrite Hsz; [done|by apply Hp|..]; destruct Hp; unfold fits, HDR in *; lia.
    + apply (replace_sorted n1 u z m n2 Hm Hml) in Hs. rewrite <-E' in Hs. by apply StronglySorted_inv in Hs as [? _].
    + rewrite Hfp. change (base :: fs'.*1) with ((root :: fs').*1). rewrite E', fmap_app, elem_of_app. right. left.
  - rewrite Hbrk. eapply tiles_perm; [|exact Ht1]. rewrite HP'. solve_Permutation.
  - intros y Hy. assert (y ∈ used :: m ∨ y ∈ rest ++ l) as [Hy1|Hy2]; [|by apply Hus|].
    { revert Hy. rewrite HP', !elem_of_app, !elem_of_cons. tauto. }
    destruct (Hd y Hy2) as (? & ? & ?). rewrite Hsz by done. apply Hz. rewrite HP. by right.
Qed.

Lemma s_ptr_freep h v q : s_ptr (h <| freep := v |>) q = s_ptr h q.
Proof. reflexivity. Qed.
Lemma s_size_freep h v q : s_size (h <| freep := v |>) q = s_size h q.
Proof. reflexivity. Qed.

(** A block of the size asked for leaves the list. *)
Lemma carve_exact hs h fs l n1 u z n2 :
  good hs h fs l → root :: fs = n1 ++ u :: z :: n2 →
  let h' := set_ptr u.1 (s_ptr h z.1) h <| freep := u.1 |> in
  (∃ fs', good hs h' fs' (z :: l)) ∧ same_bytes l h h'.
Proof.
  intros Hg E. destruct (ring_nodes _ _ _ _ Hg) as (_ & Hna & _).
  assert (u ∈ root :: fs ∧ z ∈ root :: fs) as [Hu Hz] by (rewrite E, !elem_of_app, !elem_of_cons; tauto).
  destruct (Hna u Hu) as (Hua & _). destruct (Hna z Hz) as (Hza & _).
  pose proof (ring_chain _ _ (good_ring _ _ _ _ Hg)) as Hc. rewrite E in Hc.
  assert (s_ptr h z.1 = first base n2) as Hzp by (apply chain_app in Hc as [_ (_ & ? & _)]; done).
  pose proof (ptr_range h z.1) as Hr. split.
  - apply (replace_good hs h _ fs l n1 u z n2 []); try done.
    + intros y []%not_elem_of_nil.
    + cbn. lia.
    + rewrite s_ptr_freep, s_ptr_set_ptr, decide_True by done. exact Hzp.
    + intros y []%not_elem_of_nil.
    + intros q Hq Hqu _. by rewrite s_ptr_freep, s_ptr_set_ptr, decide_False by done.
    + intros y [->|[]%not_elem_of_nil]%elem_of_cons. rewrite s_size_freep, s_size_set_ptr by done.
      by apply (node_size hs h fs l).
    + intros q Hq _ _. by rewrite s_size_freep, s_size_set_ptr by done.
  - intros y a Hy Ha. apply set_ptr_bytes. by apply (live_apart _ _ _ _ y u Hg).
Qed.

(** A larger one gives its end. *)
Lemma carve_split hs h fs l n1 u z n2 n :
  good hs h fs l → root :: fs = n1 ++ u :: z :: n2 → z ∈ fs → 1 ≤ n < z.2 →
  let q := z.1 + HDR * (z.2 - n) in
  let h' := set_size q n (set_size z.1 (z.2 - n) h) <| freep := u.1 |> in
  (∃ fs', good hs h' fs' ((q, n) :: l)) ∧ same_bytes l h h'.
Proof.
  intros Hg E Hzf Hn q h'. destruct (ring_nodes _ _ _ _ Hg) as (_ & Hna & _).
  assert (u ∈ root :: fs ∧ z ∈ root :: fs) as [Hu Hz] by (rewrite E, !elem_of_app, !elem_of_cons; tauto).
  destruct (Hna u Hu) as (Hua & _). destruct (Hna z Hz) as (Hza & _).
  pose proof (ring_chain _ _ (good_ring _ _ _ _ Hg)) as Hc. rewrite E in Hc.
  apply chain_app in Hc as [_ (Hup & Hzp & _)].
  assert (aligned q) as Hqa by (by apply aligned_add).
  pose proof (node_max _ _ _ _ z Hg Hz) as Hmax.
  assert (∀ x, aligned x → s_ptr h' x = s_ptr h x) as Hptr.
  { intros x Hx. unfold h'. by rewrite s_ptr_freep, !s_ptr_set_size by done. }
  assert (∀ x, aligned x → s_size h' x = if decide (x = q) then n else if decide (x = z.1) then z.2 - n else s_size h x) as Hsz.
  { intros x Hx. unfold h'. by rewrite s_size_freep, !s_size_set_size by (done || lia). }
  assert (z.1 ≠ q) by (unfold q, HDR; lia). split.
  - apply (replace_good hs h h' fs l n1 u z n2 [(z.1, z.2 - n)]); try done.
    + intros y ->%list_elem_of_singleton. unfold bend, HDR. cbn. lia.
    + intros r Hr. apply (tiles_split hs (brk h) z.1 (z.2 - n) n r); [lia..|].
      replace (z.2 - n + n) with z.2 by lia. by destruct z.
    + by rewrite Hptr.
    + intros y ->%list_elem_of_singleton. by rewrite Hptr.
    + intros x Hx _ _. by rewrite Hptr.
    + intros y [->| ->%list_elem_of_singleton]%elem_of_cons; cbn [fst snd]; rewrite Hsz by done.
      * by rewrite decide_True.
      * by rewrite decide_False, decide_True.
    + intros x Hx H1 H2. rewrite Hsz by done. by rewrite !decide_False.
  - intros y a Hy Ha. unfold h'. change (umem (?x <| freep := _ |>)) with (umem x).
    rewrite !set_size_bytes; [done|by apply (live_apart _ _ _ _ y z Hg)|].
    destruct (good_tiles _ _ _ _ Hg) as [Hnd _ Hap _].
    assert (y ≠ z) as Hyz by (intros ->; apply NoDup_app in Hnd as (_ & Hd & _); by apply (Hd z)).
    destruct (Hap y z); [rewrite elem_of_app; tauto..|done| |];
      unfold payload, outside, bend, q, HDR in *; lia.
Qed.

Lemma carve_good hs h fs l u z n :
  good hs h fs l → u ∈ root :: fs → z ∈ fs → s_ptr h u.1 = z.1 → 1 ≤ n ≤ z.2 →
  ∃ q h' fs', carve n u.1 z.1 h = (q + HDR, h') ∧ good hs h' fs' ((q, n) :: l) ∧ brk h' = brk h ∧ same_bytes l h h'.
Proof.
  intros Hg Hu Hz Hp Hn. destruct (prev_node _ _ _ _ _ _ Hg Hu Hz Hp) as (n1 & n2 & E).
  pose proof (node_size _ _ _ _ z Hg ltac:(by right)) as Ez.
  pose proof (node_max _ _ _ _ z Hg ltac:(by right)) as Hmax.
  destruct (ring_nodes _ _ _ _ Hg) as (_ & Hna & _). destruct (Hna z ltac:(by right)) as (Hza & _).
  unfold carve. rewrite Ez. destruct (Z.eqb_spec z.2 n) as [<-|En].
  - destruct (carve_exact _ _ _ _ _ _ _ _ Hg E) as [[fs' Hg'] Hsb].
    eexists z.1, _, fs'. split; [reflexivity|]. split; [by destruct z|done].
  - destruct (carve_split _ _ _ _ _ _ _ _ n Hg E Hz ltac:(lia)) as [[fs' Hg'] Hsb].
    rewrite s_size_set_size, decide_True by (done || lia).
    eexists _, _, fs'. split; [reflexivity|]. done.
Qed.

(** The end of the loop's body when the list has no block: [fuel] steps remain. *)
Definition grow_and_retry (fuel : nat) (n : Z) (h : heap) : option (Z * heap) :=
  r ← morecore n h;
  let '(p, h) := r in
  if p =? 0 then Some (0, h) else malloc_loop fuel n p (s_ptr h p) h.

(** The loop over the nodes [r] up to the one it started after. *)
Lemma scan_nodes h n (nodes : list block) f r u fuel :
  (∀ y, y ∈ nodes → s_size h y.1 = y.2) → (∀ y, y ∈ r → y ∈ nodes ∧ y.1 ≠ freep h) →
  f ∈ nodes → f.1 = freep h → chain h r f.1 → u ∈ nodes → s_ptr h u.1 = first f.1 r → (length r < fuel)%nat →
  (∃ u' z, u' ∈ nodes ∧ z ∈ nodes ∧ s_ptr h u'.1 = z.1 ∧ n ≤ z.2 ∧
    malloc_loop fuel n u.1 (first f.1 r) h = Some (carve n u'.1 z.1 h)) ∨
  ((∀ y, y ∈ r ++ [f] → y.2 < n) ∧
    malloc_loop fuel n u.1 (first f.1 r) h = grow_and_retry (fuel - S (length r)) n h).
Proof.
  intros Hsz. revert u fuel. induction r as [|y r IH]; intros u fuel Hr Hf Ef Hc Hu Hn Hfuel;
    (destruct fuel as [|fuel]; [cbn in Hfuel; lia|]); cbn [malloc_loop first].
  - rewrite (Hsz f Hf). destruct (Z.leb_spec n f.2) as [Hle|Hlt].
    + left. exists u, f. done.
    + right. rewrite Ef, Z.eqb_refl. split; [by intros y ->%list_elem_of_singleton|].
      cbn [length]. by rewrite Nat.sub_succ, Nat.sub_0_r.
  - destruct (Hr y ltac:(left)) as [Hy Hyf]. rewrite (Hsz y Hy). destruct (Z.leb_spec n y.2) as [Hle|Hlt].
    + left. exists u, y. done.
    + rewrite (proj2 (Z.eqb_neq _ _) Hyf). destruct Hc as [Hyn Hc]. rewrite Hyn.
      destruct (IH y fuel) as [Hl|[Hall E]]; try done.
      { intros z Hz. apply Hr. by right. } { cbn in Hfuel. lia. }
      { by left. } right. split; [|exact E].
      intros z. cbn [app]. rewrite elem_of_cons. intros [->|Hz]; [done|by apply Hall].
Qed.

(** The loop from the free pointer on: a block that is large enough, or none. *)
Lemma scan hs h fs l n fuel :
  good hs h fs l → 1 ≤ n → (S (length fs) ≤ fuel)%nat →
  (∃ u z, u ∈ root :: fs ∧ z ∈ fs ∧ s_ptr h u.1 = z.1 ∧ n ≤ z.2 ∧
    malloc_loop fuel n (freep h) (s_ptr h (freep h)) h = Some (carve n u.1 z.1 h)) ∨
  ((∀ y, y ∈ fs → y.2 < n) ∧
    malloc_loop fuel n (freep h) (s_ptr h (freep h)) h = grow_and_retry (fuel - S (length fs)) n h).
Proof.
  intros Hg Hn Hfuel. destruct (ring_nodes _ _ _ _ Hg) as (Hs & Hna & _).
  pose proof (λ y, node_size _ _ _ _ y Hg) as Hsz. destruct (good_ring _ _ _ _ Hg) as [Hc _ _ Hfp].
  change (base :: fs.*1) with ((root :: fs).*1) in Hfp. apply list_elem_of_fmap in Hfp as (f & Ef & Hf).
  pose proof Hf as (m1 & m2 & E)%list_elem_of_split.
  assert (length fs = length (m2 ++ m1)) as El.
  { apply (f_equal length) in E. rewrite length_app in *. cbn in E. lia. }
  assert (s_ptr h f.1 = first f.1 (m2 ++ m1) ∧ chain h (m2 ++ m1) f.1) as [Hnx Hch].
  { rewrite E in Hc. pose proof (chain_next _ _ _ _ _ Hc) as Hnx. apply chain_app in Hc as [Hc1 [_ Hc2]].
    rewrite first_app. assert (first f.1 m1 = base) as Eb by (destruct m1; cbn in E; simplify_eq; done).
    rewrite Eb. split; [done|]. apply chain_app. by rewrite Eb. }
  assert (∀ y, y ∈ m2 ++ m1 → y ∈ root :: fs ∧ y.1 ≠ freep h) as Hr.
  { intros y Hy. rewrite elem_of_app in Hy. rewrite Ef, E in *. split; [rewrite elem_of_app, elem_of_cons; tauto|].
    apply (sorted_distinct m1 f m2); [done|apply Hna|tauto]. }
  destruct (scan_nodes h n (root :: fs) f (m2 ++ m1) f fuel) as [(u & z & Hu & Hz & Hp & Hle & El')|[Hall El']];
    try done; try lia; rewrite <-Hnx, <-Ef in El'.
  - left. exists u, z. split_and!; try done. apply elem_of_cons in Hz as [->|Hz]; [cbn in Hle; lia|done].
  - right. split; [|by rewrite El]. intros y Hy. apply Hall.
    assert (y ∈ root :: fs) as Hy' by (by right). rewrite E in Hy'. revert Hy'.
    rewrite !elem_of_app, elem_of_cons, list_elem_of_singleton. tauto.
Qed.

Lemma same_bytes_trans l h1 h2 h3 : same_bytes l h1 h2 → same_bytes l h2 h3 → same_bytes l h1 h3.
Proof. intros H1 H2 x a Hx Ha. by rewrite (H2 x a), (H1 x a). Qed.

(** The memory sbrk() gave, as a block in use. *)
Lemma grown_good hs h fs l n :
  good hs h fs l → 1 ≤ n → brk h + HDR * n ≤ 2 ^ 27 →
  let h' := set_size (brk h) n (h <| brk ::= λ b, b + HDR * n |>) in
  good hs h' fs ((brk h, n) :: l) ∧ same_bytes l h h'.
Proof.
  intros Hg Hn Hle h'. destruct (ring_nodes _ _ _ _ Hg) as (_ & Hna & _).
  destruct Hg as [Hp [Hc Hb Hs Hf] Ht Hz]. pose proof Hp as [? ? ? ? Hka ? ?].
  assert (∀ q, aligned q → s_ptr h' q = s_ptr h q) as Hptr by (intros q Hq; exact (s_ptr_set_size _ _ n q Hka Hq)).
  assert (∀ q, aligned q → s_size h' q = if decide (q = brk h) then n else s_size h q) as Hsz.
  { intros q Hq. unfold h'. rewrite s_size_set_size; [done..|unfold HDR in *; lia]. }
  assert (∀ y, y ∈ fs ++ l → aligned y.1 ∧ y.1 < brk h ∧ bend y ≤ brk h) as Hy.
  { intros y Hy. destruct (tiles_fits _ _ _ Ht y Hy) as (? & ? & ? & ?). unfold bend, HDR in *. split_and!; (done || lia). }
  split; [split|].
  - split; try done; cbn; [by apply aligned_add|unfold HDR in *; lia].
  - split; [|rewrite Hsz, decide_False by (done || unfold HDR in *; lia); done|done|done].
    apply (chain_frame h); [|done]. intros y Hy'. by apply Hptr, Hna.
  - eapply tiles_perm; [|apply (tiles_grow hs (brk h) n (fs ++ l)); done]. solve_Permutation.
  - intros y Hin. assert (y = (brk h, n) ∨ y ∈ fs ++ l) as [->|Hin'].
    { revert Hin. rewrite !elem_of_app, elem_of_cons. tauto. }
    + cbn [fst snd]. by rewrite Hsz, decide_True.
    + destruct (Hy y Hin') as (? & ? & _). rewrite Hsz, decide_False by (done || lia). by apply Hz.
  - intros y a Hin Ha. unfold h'. rewrite set_size_bytes; [done|].
    destruct (Hy y ltac:(apply elem_of_app; by right)) as (_ & _ & ?). unfold payload, outside in *. lia.
Qed.

(** The units morecore() asks for. *)
Definition core (n : Z) : Z := Z.max 4096 n.

Lemma morecore_good hs h fs l n :
  good hs h fs l → 1 ≤ n → HDR * n < 2 ^ 31 →
  (grant (brk h) (HDR * core n) = false ∧ morecore n h = Some (0, h)) ∨
  (∃ h' fs', morecore n h = Some (freep h', h') ∧ good hs h' fs' l ∧ same_bytes l h h' ∧
    (length fs' ≤ S (length fs))%nat ∧ ∃ z, z ∈ fs' ∧ n ≤ z.2).
Proof.
  intros Hg Hn Hmax. unfold morecore. replace (if n <? 4096 then 4096 else n) with (core n).
  2: { unfold core. destruct (Z.ltb_spec n 4096); lia. }
  assert (n ≤ core n ∧ 1 ≤ core n ∧ HDR * core n < 2 ^ 31) as (H1 & H2 & H3) by (unfold core, HDR in *; lia).
  unfold sbrk. rewrite (Z.mul_comm (core n)), i32_small by (unfold HDR in *; lia).
  destruct (grant (brk h) (HDR * core n)) eqn:Eg; [right|by left].
  pose proof (grant_bound _ _ Eg) as Hle.
  destruct (grown_good hs h fs l (core n) Hg H2 Hle) as [Hg1 Hsb1].
  destruct (free_good _ _ _ _ _ Hg1) as (h' & fs' & Ef & Hg' & _ & Hsb2 & Hlen & z & Hz & Hzn).
  rewrite (proj2 (Z.eqb_neq _ _)) by (destruct (good_place _ _ _ _ Hg); unfold HDR in *; lia).
  cbn [fst snd] in Ef, Hzn. rewrite Ef. cbn [mbind option_bind]. exists h', fs'. split_and!; try done.
  - by apply (same_bytes_trans l h _ h' Hsb1).
  - exists z. split; [done|lia].
Qed.

Lemma freep_nonzero hs h fs l : good hs h fs l → freep h ≠ 0.
Proof.
  intros Hg. destruct (ring_nodes _ _ _ _ Hg) as (_ & Hn & _). destruct (good_ring _ _ _ _ Hg) as [_ _ _ Hf].
  change (base :: fs.*1) with ((root :: fs).*1) in Hf. apply list_elem_of_fmap in Hf as (f & -> & Hf).
  destruct (Hn f Hf) as (_ & _ & ?). destruct (good_place _ _ _ _ Hg). lia.
Qed.

(** malloc() on blocks: [n] units. *)
Lemma malloc_good hs h fs l n :
  good hs h fs l → 1 ≤ n → HDR * n < 2 ^ 31 →
  let r := malloc_loop (2 * walk_fuel h + 2) n (freep h) (s_ptr h (freep h)) h in
  (r = Some (0, h) ∧ grant (brk h) (HDR * core n) = false ∧ ∀ y, y ∈ fs → y.2 < n) ∨
  (∃ q h' fs', r = Some (q + HDR, h') ∧ good hs h' fs' ((q, n) :: l) ∧ same_bytes l h h').
Proof.
  intros Hg Hn Hmax r. unfold r. destruct (ring_nodes _ _ _ _ Hg) as (_ & _ & Hlen). cbn [length] in Hlen.
  destruct (scan hs h fs l n (2 * walk_fuel h + 2) Hg Hn ltac:(lia)) as [(u & z & Hu & Hz & Hp & Hle & ->)|[Hall ->]].
  { right. destruct (carve_good _ _ _ _ _ _ n Hg Hu Hz Hp ltac:(lia)) as (q & h' & fs' & -> & Hg' & _ & Hsb).
    by exists q, h', fs'. }
  unfold grow_and_retry.
  destruct (morecore_good hs h fs l n Hg Hn Hmax) as [[Hgr ->]|(h1 & fs1 & -> & Hg1 & Hsb1 & Hl1 & z1 & Hz1 & Hn1)].
  { left. done. }
  cbn [mbind option_bind]. rewrite (proj2 (Z.eqb_neq _ _) (freep_nonzero _ _ _ _ Hg1)).
  destruct (scan hs h1 fs1 l n (2 * walk_fuel h + 2 - S (length fs)) Hg1 Hn ltac:(lia))
    as [(u & z & Hu & Hz & Hp & Hle & ->)|[Hall' _]]; [|specialize (Hall' z1 Hz1); lia].
  right. destruct (carve_good _ _ _ _ _ _ n Hg1 Hu Hz Hp ltac:(lia)) as (q & h' & fs' & -> & Hg' & _ & Hsb).
  exists q, h', fs'. split_and!; [done|done|]. by apply (same_bytes_trans l h h1).
Qed.

(** ** The allocator's contract

    [A] maps the header of each block in use to its size; [fs] are the free
    blocks.  Before the first malloc() there is no list. *)
Definition heap_inv (hs : Z) (h : heap) (fs : list block) (A : gmap Z Z) : Prop :=
  good hs h fs (map_to_list A) ∨ (place hs h ∧ freep h = 0 ∧ brk h = hs ∧ fs = [] ∧ A = ∅).

Lemma good_perm hs h fs l l' : l ≡ₚ l' → good hs h fs l → good hs h fs l'.
Proof.
  intros HP [? ? Ht Hz]. split; [done|done|by eapply tiles_perm; [|exact Ht]; rewrite HP|].
  intros x. rewrite <-HP. apply Hz.
Qed.

Lemma good_fresh hs h fs A q n : good hs h fs ((q, n) :: map_to_list A) → A !! q = None.
Proof.
  intros Hg. destruct (A !! q) as [k|] eqn:E; [|done]. apply elem_of_map_to_list in E.
  by destruct (live_apart_live _ _ _ _ _ _ Hg E) as (_ & Hne & _).
Qed.

(** malloc()'s units, for a request whose size fits an int. *)
Definition nunits (nbytes : Z) : Z := (nbytes + HDR - 1) / HDR + 1.

Lemma nunits_bounds nbytes :
  0 ≤ nbytes ≤ 2 ^ 31 - 2 * HDR →
  1 ≤ nunits nbytes ∧ HDR * nunits nbytes < 2 ^ 31 ∧ nbytes + HDR ≤ HDR * nunits nbytes < nbytes + 2 * HDR.
Proof. unfold nunits, HDR. intros Hn. Z.div_mod_to_equations. lia. Qed.

(** The list malloc() makes at its first call. *)
Lemma init_good hs h :
  place hs h → brk h = hs → good hs (set_size base 0 (set_ptr base base h <| freep := base |>)) [] [].
Proof.
  intros Hp Hb. pose proof Hp as [? ? ? ? ? ? ?]. unfold HDR in *. split.
  - done.
  - split; [|by rewrite s_size_set_size, decide_True|constructor|left].
    split; [|done]. cbn [fst root first].
    by rewrite s_ptr_set_size, s_ptr_freep, s_ptr_set_ptr, decide_True by (done || lia).
  - split; [constructor|set_solver..|]. cbn. lia.
  - set_solver.
Qed.

(** The state in which malloc()'s loop starts. *)
Lemma malloc_start hs h fs A :
  heap_inv hs h fs A →
  let h0 := if freep h =? 0 then set_size base 0 (set_ptr base base h <| freep := base |>) else h in
  good hs h0 fs (map_to_list A) ∧ brk h0 = brk h ∧ same_bytes (map_to_list A) h h0.
Proof.
  intros [Hg|(Hp & -> & Hb & -> & ->)]; cbn zeta.
  - rewrite (proj2 (Z.eqb_neq _ _) (freep_nonzero _ _ _ _ Hg)). done.
  - rewrite map_to_list_empty. split; [by apply init_good|]. split; [done|]. intros x a []%not_elem_of_nil.
Qed.

Definition malloc_post (hs nbytes : Z) (h : heap) (fs : list block) (A : gmap Z Z) (p : Z) (h' : heap) : Prop :=
  same_bytes (map_to_list A) h h' ∧
  ((p = 0 ∧ grant (brk h) (HDR * core (nunits nbytes)) = false ∧ (∀ y, y ∈ fs → y.2 < nunits nbytes) ∧
    heap_inv hs h' fs A) ∨
   (∃ fs', A !! (p - HDR) = None ∧ nbytes + HDR ≤ HDR * nunits nbytes < nbytes + 2 * HDR ∧
    heap_inv hs h' fs' (<[p - HDR := nunits nbytes]> A))).

Lemma malloc_spec hs h fs A nbytes :
  heap_inv hs h fs A → 0 ≤ nbytes ≤ 2 ^ 31 - 2 * HDR →
  ∃ p h', malloc nbytes h = Some (p, h') ∧ malloc_post hs nbytes h fs A p h'.
Proof.
  intros Hi Hn. destruct (nunits_bounds _ Hn) as (H1 & H2 & H3).
  destruct (malloc_start hs h fs A Hi) as (Hg & Hbrk & Hsb). unfold malloc. fold (nunits nbytes).
  rewrite u32_small by (unfold HDR in *; lia). set (h0 := if freep h =? 0 then _ else h) in *. clearbody h0.
  cbn zeta. destruct (malloc_good hs h0 fs _ _ Hg H1 H2) as [(-> & Hgr & Hall)|(q & h' & fs' & -> & Hg' & Hsb')].
  - exists 0, h0. split; [done|]. split; [done|]. left. rewrite <-Hbrk. split_and!; try done. by left.
  - exists (q + HDR), h'. split; [done|]. split; [by apply (same_bytes_trans _ h h0)|]. right. exists fs'.
    replace (q + HDR - HDR) with q by lia. pose proof (good_fresh _ _ _ _ _ _ Hg') as Hq.
    split_and!; try done; try lia. left. eapply good_perm; [|exact Hg']. by rewrite map_to_list_insert.
Qed.

Lemma free_spec hs h fs A p k :
  heap_inv hs h fs A → A !! (p - HDR) = Some k →
  ∃ h' fs', free p h = Some h' ∧ heap_inv hs h' fs' (delete (p - HDR) A) ∧ brk h' = brk h ∧
    same_bytes (map_to_list (delete (p - HDR) A)) h h' ∧ ∃ z, z ∈ fs' ∧ k ≤ z.2.
Proof.
  intros [Hg|(_ & _ & _ & _ & ->)] Hp; [|done].
  destruct (free_good hs h fs (p - HDR, k) (map_to_list (delete (p - HDR) A)))
    as (h' & fs' & Ef & Hg' & Hb & Hsb & _ & Hz).
  { eapply good_perm; [|exact Hg]. by rewrite map_to_list_delete. }
  cbn [fst snd] in Ef. replace (p - HDR + HDR) with p in Ef by lia. exists h', fs'. split_and!; try done. by left.
Qed.

(** A write of the program to a block of its own. *)
Definition put (a v : Z) (h : heap) : heap := h <| umem ::= λ m, store8 m a v |>.

Lemma put_fields a v h q : outside q a → s_ptr (put a v h) q = s_ptr h q ∧ s_size (put a v h) q = s_size h q.
Proof.
  unfold outside, HDR. intros Hq. unfold s_ptr, s_size. cbn [umem put].
  split; apply load_ext; intros b Hb; apply load8_store8_ne; lia.
Qed.

Lemma put_good hs h fs l y a v : good hs h fs l → y ∈ l → payload y a → good hs (put a v h) fs l.
Proof.
  intros Hg Hy Ha.
  assert (∀ z, z ∈ root :: fs → outside z.1 a) as Hn by (intros z Hz; by apply (live_apart _ _ _ _ y z Hg Hy Hz)).
  destruct Hg as [Hp [Hc Hb Hs Hf] Ht Hz]. split; [by destruct Hp; split| |done|].
  - split; [|rewrite (proj2 (put_fields a v h base (Hn root ltac:(left)))); done|done|done].
    apply (chain_frame h); [|done]. intros z Hin. by apply put_fields, Hn.
  - intros z Hin. destruct (put_fields a v h z.1) as [_ ->]; [|by apply Hz].
    apply elem_of_app in Hin as [Hin|Hin]; [apply Hn; by right|].
    destruct (decide (y = z)) as [->|Hne]; [unfold payload, outside in *; lia|].
    destruct (tiles_fits _ _ _ Ht z) as (_ & ? & _); [apply elem_of_app; by right|].
    destruct (tiles_apart _ _ _ Ht y z); [apply elem_of_app; by right..|done| |];
      unfold payload, outside, bend, HDR in *; lia.
Qed.

(** ** A program that uses the allocator

    [live] are the blocks it was given and has not freed, [held] the bytes it
    has written to them.  A call with a pointer that is not its own, or with a
    size of 2 GB, is none of a correct program. *)
Inductive op :=
  | Malloc (nbytes : Z)
  | Free (p : Z)
  | Put (p i v : Z).

Definition client : Type := heap * gmap Z Z * gmap Z Z.

Definition exec (o : op) (c : client) : option client :=
  let '(h, live, held) := c in
  match o with
  | Malloc nbytes =>
      if decide (0 ≤ nbytes ≤ 2 ^ 31 - 2 * HDR) then
        '(p, h') ← malloc nbytes h;
        Some (h', if p =? 0 then live else <[p - HDR := nunits nbytes]> live, held)
      else Some c
  | Free p =>
      match live !! (p - HDR) with
      | Some k =>
          h' ← free p h;
          Some (h', delete (p - HDR) live, filter (λ b, ¬ payload (p - HDR, k) b.1) held)
      | None => Some c
      end
  | Put p i v =>
      match live !! (p - HDR) with
      | Some k => if decide (payload (p - HDR, k) (p + i)) then Some (put (p + i) v h, live, <[p + i := u8 v]> held) else Some c
      | None => Some c
      end
  end.

Fixpoint execs (os : list op) (c : client) : option client :=
  match os with
  | [] => Some c
  | o :: os => c ← exec o c; execs os c
  end.

(** What holds between the program's calls. *)
Definition client_inv (hs : Z) (c : client) : Prop :=
  let '(h, live, held) := c in
  (∃ fs, heap_inv hs h fs live) ∧
  ∀ a v, held !! a = Some v → load8 (umem h) a = v ∧ ∃ p k, live !! p = Some k ∧ payload (p, k) a.

Lemma exec_inv hs o c : client_inv hs c → ∃ c', exec o c = Some c' ∧ client_inv hs c'.
Proof.
  destruct c as [[h live] held]. intros [[fs Hi] Hh]. destruct o as [nbytes|p|p i v]; cbn [exec].
  - case_decide as Hn; [|by eexists; split; [done|split; [exists fs|]]].
    destruct (malloc_spec _ _ _ _ _ Hi Hn) as (p & h' & -> & Hsb & Hp). cbn [mbind option_bind].
    assert (∀ a v, held !! a = Some v → load8 (umem h') a = v ∧ ∃ p k, live !! p = Some k ∧ payload (p, k) a) as Hh'.
    { intros a v Ha. destruct (Hh a v Ha) as [<- (q & k & Hq & Hk)]. split; [|by exists q, k].
      apply (Hsb (q, k)); [by apply elem_of_map_to_list|done]. }
    eexists. split; [done|]. destruct Hp as [(-> & _ & _ & Hi')|(fs' & Hf & _ & Hi')].
    { rewrite Z.eqb_refl. split; [by exists fs|done]. }
    destruct (Z.eqb_spec p 0) as [->|Hp0].
    { exfalso. destruct Hi' as [Hg|(_ & _ & _ & _ & E)]; [|by apply insert_non_empty in E].
      destruct (tiles_fits _ _ _ (good_tiles _ _ _ _ Hg) (0 - HDR, nunits nbytes)) as (_ & _ & ? & _).
      { apply elem_of_app. right. apply elem_of_map_to_list, lookup_insert_eq. }
      destruct (good_place _ _ _ _ Hg). unfold HDR in *. cbn in *. lia. }
    split; [by exists fs'|]. intros a v Ha. destruct (Hh' a v Ha) as [? (q & k & Hq & Hk)]. split; [done|].
    exists q, k. split; [|done]. rewrite lookup_insert_ne; congruence.
  - destruct (live !! (p - HDR)) as [k|] eqn:Ep; [|by eexists; split; [done|split; [exists fs|]]].
    destruct (free_spec _ _ _ _ _ _ Hi Ep) as (h' & fs' & -> & Hi' & _ & Hsb & _). cbn [mbind option_bind].
    eexists. split; [done|]. split; [by exists fs'|].
    intros a v [Ha Hna]%map_lookup_filter_Some. destruct (Hh a v Ha) as [<- (q & j & Hq & Hj)].
    assert (delete (p - HDR) live !! q = Some j) as Hq'.
    { rewrite lookup_delete_ne; [done|]. intros <-. apply Hna. cbn. congruence. }
    split; [|by exists q, j]. apply (Hsb (q, j)); [by apply elem_of_map_to_list|done].
  - destruct (live !! (p - HDR)) as [k|] eqn:Ep; [|by eexists; split; [done|split; [exists fs|]]].
    case_decide as Hpl; [|by eexists; split; [done|split; [exists fs|]]].
    eexists. split; [done|]. split.
    { exists fs. destruct Hi as [Hg|(_ & _ & _ & _ & ->)]; [|done]. left.
      apply (put_good _ _ _ _ (p - HDR, k)); [done|by apply elem_of_map_to_list|done]. }
    intros a w Ha. cbn [umem put]. destruct (decide (a = p + i)) as [->|Hne].
    { rewrite lookup_insert_eq in Ha. injection Ha as <-. split; [apply load8_store8_eq|by exists (p - HDR), k]. }
    rewrite lookup_insert_ne in Ha by done. destruct (Hh a w Ha) as [<- Hl]. split; [|done].
    by apply load8_store8_ne.
Qed.

(** ** Theorems *)

(** malloc() returns.  Its result is the null pointer, the list has then no
    block that is large enough and the kernel refused memory; or it is a block
    that no block in use overlaps, whose units hold the request.  The blocks in
    use keep their bytes, and the free list stays ordered and coalesced and with
    them covers the heap. *)
Theorem malloc_correct hs h fs A nbytes :
  heap_inv hs h fs A → 0 ≤ nbytes ≤ 2 ^ 31 - 2 * HDR →
  ∃ p h', malloc nbytes h = Some (p, h') ∧ same_bytes (map_to_list A) h h' ∧
    ((p = 0 ∧ grant (brk h) (HDR * core (nunits nbytes)) = false ∧ (∀ y, y ∈ fs → y.2 < nunits nbytes) ∧
      heap_inv hs h' fs A) ∨
     (∃ fs', A !! (p - HDR) = None ∧ nbytes + HDR ≤ HDR * nunits nbytes < nbytes + 2 * HDR ∧
      heap_inv hs h' fs' (<[p - HDR := nunits nbytes]> A))).
Proof. apply malloc_spec. Qed.

(** free() of a block in use returns, with the block back in the list, which
    has a free block at least as large; the other blocks keep their bytes. *)
Theorem free_correct hs h fs A p k :
  heap_inv hs h fs A → A !! (p - HDR) = Some k →
  ∃ h' fs', free p h = Some h' ∧ heap_inv hs h' fs' (delete (p - HDR) A) ∧ brk h' = brk h ∧
    same_bytes (map_to_list (delete (p - HDR) A)) h h' ∧ ∃ z, z ∈ fs' ∧ k ≤ z.2.
Proof. apply free_spec. Qed.

(** C8: a program that calls malloc() and free() and writes to its blocks in any
    order never gets stuck, and every byte it wrote to a block it has not freed
    is still there. *)
Theorem allocator_refines hs h os :
  place hs h → freep h = 0 → brk h = hs →
  ∃ h' live held, execs os (h, ∅, ∅) = Some (h', live, held) ∧
    (∃ fs, heap_inv hs h' fs live) ∧
    ∀ a v, held !! a = Some v → load8 (umem h') a = v ∧ ∃ p k, live !! p = Some k ∧ payload (p, k) a.
Proof.
  intros Hp Hf Hb. assert (client_inv hs (h, ∅, ∅)) as Hi.
  { split; [exists []; by right|done]. }
  revert Hi. generalize (h, ∅ : gmap Z Z, ∅ : gmap Z Z). clear.
  induction os as [|o os IH]; intros c Hi; cbn [execs].
  - destruct c as [[h live] held]. destruct Hi. by exists h, live, held.
  - destruct (exec_inv hs o c Hi) as (c' & -> & Hi'). cbn [mbind option_bind]. by apply IH.
Qed.
End umalloc.

(** ** Witnesses *)

Definition ex_process : Process := {|
  base := 8192;
  grant := λ b n, bool_decide (b + n ≤ 2 ^ 27);
  grant_bound := λ b n H, bool_decide_eq_true_1 _ H
|}.

Definition ex_heap : heap := mkHeap ∅ 0 12288.

Lemma ex_heap_place : @place ex_process 12288 ex_heap.
Proof. split; vm_compute; (reflexivity || discriminate). Qed.

Lemma ex_heap_inv : @heap_inv ex_process 12288 ex_heap [] ∅.
Proof. right. split; [apply ex_heap_place|done]. Qed.

Lemma malloc_correct_witness :
  ∃ p h', @malloc ex_process 100 ex_heap = Some (p, h') ∧ same_bytes (map_to_list ∅) ex_heap h' ∧
    ((p = 0 ∧ @grant ex_process (brk ex_heap) (HDR * core (nunits 100)) = false ∧
      (∀ y : Z * Z, y ∈ [] → y.2 < nunits 100) ∧ @heap_inv ex_process 12288 h' [] ∅) ∨
     (∃ fs', (∅ : gmap Z Z) !! (p - HDR) = None ∧ 100 + HDR ≤ HDR * nunits 100 < 100 + 2 * HDR ∧
      @heap_inv ex_process 12288 h' fs' (<[p - HDR := nunits 100]> ∅))).
Proof. apply (@malloc_correct ex_process 12288 ex_heap [] ∅ 100); [apply ex_heap_inv|vm_compute; split; discriminate]. Defined.

(** The block malloc() gave. *)
Lemma ex_allocated :
  ∃ h fs, @heap_inv ex_process 12288 h fs (<[77696 := 8]> ∅).
Proof.
  destruct (@malloc_spec ex_process 12288 ex_heap [] ∅ 100 ex_heap_inv) as (p & h' & E & _ & Hp).
  { vm_compute. split; discriminate. }
  assert (p = 77712) as ->.
  { apply (f_equal (λ r, fst <$> r)) in E. cbn [fmap option_fmap option_map fst] in E.
    assert (fst <$> @malloc ex_process 100 ex_heap = Some 77712) as E' by (vm_compute; reflexivity). congruence. }
  destruct Hp as [(Hp & _)|(fs' & _ & _ & Hi)]; [discriminate Hp|]. exists h', fs'. exact Hi.
Qed.

Lemma free_correct_witness :
  ∃ h h' fs', free 77712 h = Some h' ∧ @heap_inv ex_process 12288 h' fs' (delete (77712 - HDR) (<[77696 := 8]> ∅)) ∧
    brk h' = brk h ∧ same_bytes (map_to_list (delete (77712 - HDR) (<[77696 := 8]> ∅))) h h' ∧ ∃ z, z ∈ fs' ∧ 8 ≤ z.2.
Proof.
  destruct ex_allocated as (h & fs & Hi). exists h.
  apply (@free_correct ex_process 12288 h fs (<[77696 := 8]> ∅) 77712 8); [exact Hi|vm_compute; reflexivity].
Defined.

Definition ex_ops : list op := [Malloc 100; Put 77712 5 42; Malloc 5000; Free 77712; Malloc 64; Put 77712 0 7].

Lemma allocator_refines_witness :
  ∃ h' live held, @execs ex_process ex_ops (ex_heap, ∅, ∅) = Some (h', live, held) ∧
    (∃ fs, @heap_inv ex_process 12288 h' fs live) ∧
    ∀ a v, held !! a = Some v → load8 (umem h') a = v ∧ ∃ p k, live !! p = Some k ∧ payload (p, k) a.
Proof. apply (@allocator_refines ex_process 12288 ex_heap ex_ops); [apply ex_heap_place|reflexivity|reflexivity]. Defined.

(** The size that morecore() passes to sbrk() is cut to an int: a request for
    4 GB less 16 bytes gets no memory from the kernel and yet succeeds, with a
    block that starts at the break. *)
Theorem malloc_size_truncated :
  ∃ h', @malloc ex_process (2 ^ 32 - 16) ex_heap = Some (brk ex_heap + HDR, h') ∧ brk h' = brk ex_heap.
Proof. eexists. split; [vm_compute; reflexivity|vm_compute; reflexivity]. Qed.
