(* ===== verification/Sh.v ===== *)
(** * The shell (user/sh.c)

    The parser works on the buffer of the line, [m]: the bytes of the line, its
    NUL and what follows.  A pointer is an index; a command's words are pairs of
    pointers into the buffer until nulterminate() cuts them out of it. *)

From Stdlib Require Import ZArith Lia.
From stdpp Require Import base numbers strings option list gmap.
From S2P Require Import Prelude Params Machine Cstring Ulib.

Open Scope Z_scope.

Definition MAXARGS : nat := 10.

(** The argv and eargv arrays up to the null pointer. *)
Inductive cmd :=
  | EXEC (argv : list (nat * nat))
  | REDIR (c : cmd) (file efile : nat) (mode fd : Z)
  | PIPE (left right : cmd)
  | LIST (left right : cmd)
  | BACK (c : cmd).

(** A parser's result: a value, the end of the process with a message on its
    standard error, or a loop that did not end in the steps it was given. *)
Inductive res (A : Type) := Ok (a : A) | Die (msg : list Z) | Stuck.
Arguments Ok {A} a.
Arguments Die {A} msg.
Arguments Stuck {A}.

Definition rbind {A B} (r : res A) (k : A → res B) : res B :=
  match r with Ok a => k a | Die msg => Die msg | Stuck => Stuck end.
Notation "'let*' x := r 'in' k" := (rbind r (λ x, k))
  (at level 10, x pattern, k at level 200, format "'let*'  x  :=  r  'in' '//' k").

(** panic() *)
Definition panic_text (s : string) : list Z := vprintf ("%s" +:+ nl) [VStr (Some (str s))].

Definition leftovers (s : list Z) : list Z := vprintf ("leftovers: %s" +:+ nl) [VStr (Some s)] ++ panic_text "syntax".

(** ** Tokens *)

Definition ch (s : string) : Z := default 0 (head (str s)).

Definition whitespace : list Z := [32; 9; 13; 10; 11].
Definition symbols : list Z := str "<|>&;()".

(** *s, and whether strchr() finds it *)
Definition at_ (m : list Z) (s : nat) : Z := default 0 (m !! s).
Definition has (toks : list Z) (c : Z) : bool :=
  match strchr (toks ++ [0]) c with Some (Some _) => true | _ => false end.

(** while(s < es && strchr(whitespace, *s)) s++, with [k] = es - s *)
Fixpoint skip_space (k : nat) (m : list Z) (s : nat) : nat :=
  match k with
  | O => s
  | S k => if has whitespace (at_ m s) then skip_space k m (S s) else s
  end.

Fixpoint skip_word (k : nat) (m : list Z) (s : nat) : nat :=
  match k with
  | O => s
  | S k => if negb (has whitespace (at_ m s)) && negb (has symbols (at_ m s)) then skip_word k m (S s) else s
  end.

(** The token, where it starts and ends, and the pointer after it. *)
Definition gettoken (m : list Z) (es s : nat) : Z * nat * nat * nat :=
  let s := skip_space (es - s) m s in
  let q := s in
  let c := at_ m s in
  let '(ret, s) :=
    if c =? 0 then (c, s)
    else if (c =? ch "|") || (c =? ch "(") || (c =? ch ")") || (c =? ch ";") || (c =? ch "&") || (c =? ch "<")
    then (c, S s)
    else if c =? ch ">" then if at_ m (S s) =? ch ">" then (ch "+", S (S s)) else (c, S s)
    else (ch "a", skip_word (es - s) m s) in
  let eq := s in
  (ret, q, eq, skip_space (es - s) m s).

Definition peek (m : list Z) (es s : nat) (toks : list Z) : bool * nat :=
  let s := skip_space (es - s) m s in
  (negb (at_ m s =? 0) && has toks (at_ m s), s).

(** ** The parser *)

Fixpoint parseredirs (fuel : nat) (c : cmd) (m : list Z) (es s : nat) : res (cmd * nat) :=
  match fuel with
  | O => Stuck
  | S fuel =>
      let '(b, s) := peek m es s (str "<>") in
      if b : bool then
        let '(tok, _, _, s) := gettoken m es s in
        let '(tok', q, eq, s) := gettoken m es s in
        if negb (tok' =? ch "a") then Die (panic_text "missing file for redirection")
        else
          let c :=
            if tok =? ch "<" then REDIR c q eq O_RDONLY 0
            else if tok =? ch ">" then REDIR c q eq (Z.lor (Z.lor O_WRONLY O_CREATE) O_TRUNC) 1
            else if tok =? ch "+" then REDIR c q eq (Z.lor O_WRONLY O_CREATE) 1
            else c in
          parseredirs fuel c m es s
      else Ok (c, s)
  end.

(** cmd->argv[argc++] = q, where [ret] is the command [cmd] or redirections of
    it. *)
Fixpoint add_arg (ret : cmd) (a : nat * nat) : cmd :=
  match ret with
  | EXEC argv => EXEC (argv ++ [a])
  | REDIR c file efile mode fd => REDIR (add_arg c a) file efile mode fd
  | _ => ret
  end.

(** The loop of parseexec(). *)
Fixpoint parseargs (fuel : nat) (argc : nat) (ret : cmd) (m : list Z) (es s : nat) : res (cmd * nat) :=
  match fuel with
  | O => Stuck
  | S fuel =>
      let '(b, s) := peek m es s (str "|)&;") in
      if b : bool then Ok (ret, s)
      else
        let '(tok, q, eq, s) := gettoken m es s in
        if tok =? 0 then Ok (ret, s)
        else if negb (tok =? ch "a") then Die (panic_text "syntax")
        else
          let ret := add_arg ret (q, eq) in
          let argc := S argc in
          if (MAXARGS <=? argc)%nat then Die (panic_text "too many args")
          else let* (ret, s) := parseredirs (S fuel) ret m es s in parseargs fuel argc ret m es s
  end.

(** The loop of parseline(). *)
Fixpoint parsebacks (fuel : nat) (c : cmd) (m : list Z) (es s : nat) : res (cmd * nat) :=
  match fuel with
  | O => Stuck
  | S fuel =>
      let '(b, s) := peek m es s (str "&") in
      if b : bool then let '(_, _, _, s) := gettoken m es s in parsebacks fuel (BACK c) m es s
      else Ok (c, s)
  end.

Fixpoint parseline (fuel : nat) (m : list Z) (es s : nat) : res (cmd * nat) :=
  match fuel with
  | O => Stuck
  | S fuel =>
      let* (c, s) := parsepipe fuel m es s in
      let* (c, s) := parsebacks fuel c m es s in
      let '(b, s) := peek m es s (str ";") in
      if b : bool then
        let '(_, _, _, s) := gettoken m es s in
        let* (r, s) := parseline fuel m es s in
        Ok (LIST c r, s)
      else Ok (c, s)
  end
with parsepipe (fuel : nat) (m : list Z) (es s : nat) : res (cmd * nat) :=
  match fuel with
  | O => Stuck
  | S fuel =>
      let* (c, s) := parseexec fuel m es s in
      let '(b, s) := peek m es s (str "|") in
      if b : bool then
        let '(_, _, _, s) := gettoken m es s in
        let* (r, s) := parsepipe fuel m es s in
        Ok (PIPE c r, s)
      else Ok (c, s)
  end
with parseexec (fuel : nat) (m : list Z) (es s : nat) : res (cmd * nat) :=
  match fuel with
  | O => Stuck
  | S fuel =>
      let '(b, s) := peek m es s (str "(") in
      if b : bool then parseblock fuel m es s
      else
        let* (ret, s) := parseredirs fuel (EXEC []) m es s in
        parseargs fuel 0 ret m es s
  end
with parseblock (fuel : nat) (m : list Z) (es s : nat) : res (cmd * nat) :=
  match fuel with
  | O => Stuck
  | S fuel =>
      let '(b, s) := peek m es s (str "(") in
      if negb b then Die (panic_text "parseblock")
      else
        let '(_, _, _, s) := gettoken m es s in
        let* (c, s) := parseline fuel m es s in
        let '(b, s) := peek m es s (str ")") in
        if negb b then Die (panic_text "syntax - missing )")
        else
          let '(_, _, _, s) := gettoken m es s in
          parseredirs fuel c m es s
  end.

(** The buffer in which every word of the command is followed by a NUL. *)
Fixpoint nulterminate (c : cmd) (m : list Z) : list Z :=
  match c with
  | EXEC argv => foldl (λ m a, <[a.2 := 0]> m) m argv
  | REDIR c _ efile _ _ => <[efile := 0]> (nulterminate c m)
  | PIPE l r | LIST l r => nulterminate r (nulterminate l m)
  | BACK c => nulterminate c m
  end.

(** Every call of a parser by another consumes a token within four calls. *)
Definition parse_fuel (es : nat) : nat := 4 * es + 8.

Definition parsecmd (m : list Z) : res (cmd * list Z) :=
  match strlen m with
  | None => Stuck
  | Some n =>
      let es := Z.to_nat n in
      let* (c, s) := parseline (parse_fuel es) m es 0 in
      let '(_, s) := peek m es s [] in
      if negb (s =? es)%nat then Die (leftovers (drop s m)) else Ok (c, nulterminate c m)
  end.

(** ** The language of command lines

    Independently of the parser: the tokens, how a line spells them with any
    white space between them, and the commands. *)

Inductive token := Word (w : list Z) | TBar | TOpen | TClose | TSemi | TAmp | TLt | TGt | TGtGt.

Definition chars (t : token) : list Z :=
  match t with
  | Word w => w
  | TBar => str "|" | TOpen => str "(" | TClose => str ")" | TSemi => str ";" | TAmp => str "&"
  | TLt => str "<" | TGt => str ">" | TGtGt => str ">>"
  end.

(** What gettoken() returns for it. *)
Definition kind (t : token) : Z :=
  match t with Word _ => ch "a" | TGtGt => ch "+" | _ => default 0 (head (chars t)) end.

Definition is_space (c : Z) : Prop := c ∈ whitespace.
Definition is_symbol (c : Z) : Prop := c ∈ symbols.
Definition wordchar (c : Z) : Prop := c ≠ 0 ∧ ¬ is_space c ∧ ¬ is_symbol c.
Definition word (w : list Z) : Prop := w ≠ [] ∧ Forall wordchar w.
Definition wf_token (t : token) : Prop := match t with Word w => word w | _ => True end.

(** Tokens that must not touch. *)
Definition sep (t : token) (ts : list token) : Prop :=
  match t, ts with
  | Word _, Word _ :: _ => False
  | TGt, TGt :: _ | TGt, TGtGt :: _ => False
  | _, _ => True
  end.

Inductive renders : list token → list Z → Prop :=
  | renders_nil : renders [] []
  | renders_cons t w ts l :
      wf_token t → Forall is_space w → (w = [] → sep t ts) → renders ts l → renders (t :: ts) (chars t ++ w ++ l).

Inductive rkind := RIn | ROut | RAppend.
Definition rtok (k : rkind) : token := match k with RIn => TLt | ROut => TGt | RAppend => TGtGt end.
Definition rmode (k : rkind) : Z :=
  match k with
  | RIn => O_RDONLY
  | ROut => Z.lor (Z.lor O_WRONLY O_CREATE) O_TRUNC
  | RAppend => Z.lor O_WRONLY O_CREATE
  end.
Definition rfd (k : rkind) : Z := match k with RIn => 0 | _ => 1 end.

Inductive ast :=
  | AExec (args : list (list Z))
  | ARedir (a : ast) (k : rkind) (file : list Z)
  | APipe (l r : ast)
  | AList (l r : ast)
  | ABack (a : ast).

Fixpoint wf_ast (a : ast) : Prop :=
  match a with
  | AExec args => Forall word args ∧ (length args < MAXARGS)%nat
  | ARedir a _ file => wf_ast a ∧ word file
  | APipe l r | AList l r => wf_ast l ∧ wf_ast r
  | ABack a => wf_ast a
  end.

Definition redir_all (a : ast) (rs : list (rkind * list Z)) : ast := foldl (λ a r, ARedir a r.1 r.2) a rs.

(** Redirections, and words with the redirections after them. *)
Definition rtoks (rs : list (rkind * list Z)) : list token := rs ≫= λ r, [rtok r.1; Word r.2].
Definition gtoks (gs : list (list Z * list (rkind * list Z))) : list token := gs ≫= λ g, Word g.1 :: rtoks g.2.

(** The grammar:
      line ::= back [; line]    back ::= pipe | back &    pipe ::= exec [| pipe]
      exec ::= redirs {word redirs} | ( line ) redirs *)
Inductive gline : ast → list token → Prop :=
  | gline_back a ts : gback a ts → gline a ts
  | gline_list a b ts ts' : gback a ts → gline b ts' → gline (AList a b) (ts ++ TSemi :: ts')
with gback : ast → list token → Prop :=
  | gback_pipe a ts : gpipe a ts → gback a ts
  | gback_back a ts : gback a ts → gback (ABack a) (ts ++ [TAmp])
with gpipe : ast → list token → Prop :=
  | gpipe_exec a ts : gexec a ts → gpipe a ts
  | gpipe_pipe a b ts ts' : gexec a ts → gpipe b ts' → gpipe (APipe a b) (ts ++ TBar :: ts')
with gexec : ast → list token → Prop :=
  | gexec_simple rs gs :
      (length gs < MAXARGS)%nat →
      gexec (redir_all (AExec gs.*1) (rs ++ concat gs.*2)) (rtoks rs ++ gtoks gs)
  | gexec_block a ts rs : gline a ts → gexec (redir_all a rs) (TOpen :: ts ++ TClose :: rtoks rs).

Scheme gline_mind := Minimality for gline Sort Prop
  with gback_mind := Minimality for gback Sort Prop
  with gpipe_mind := Minimality for gpipe Sort Prop
  with gexec_mind := Minimality for gexec Sort Prop.
Combined Scheme grammar_ind from gline_mind, gback_mind, gpipe_mind, gexec_mind.

(** A line that spells tokens. *)
Definition spells (ts : list token) (l : list Z) : Prop :=
  ∃ w x, l = w ++ x ∧ Forall is_space w ∧ renders ts x.

(** ** The buffer against the tokens *)

(** The word [w] lies at the two pointers, and no word goes on after it. *)
Definition word_at (m : list Z) (p : nat * nat) (w : list Z) : Prop :=
  word w ∧ p.2 = (p.1 + length w)%nat ∧ take (length w) (drop p.1 m) = w ∧ ∃ c, m !! p.2 = Some c ∧ ¬ wordchar c.

(** The command the parser built is [a]. *)
Fixpoint repr (m : list Z) (c : cmd) (a : ast) : Prop :=
  match c, a with
  | EXEC argv, AExec args => Forall2 (word_at m) argv args
  | REDIR c q eq mode fd, ARedir a k file => repr m c a ∧ word_at m (q, eq) file ∧ mode = rmode k ∧ fd = rfd k
  | PIPE c d, APipe a b | LIST c d, AList a b => repr m c a ∧ repr m d b
  | BACK c, ABack a => repr m c a
  | _, _ => False
  end.

(** From [s] on the line has the tokens [ts]. *)
Definition st (m : list Z) (es s : nat) (ts : list token) : Prop :=
  ∃ l r, drop s m = l ++ 0 :: r ∧ (s + length l)%nat = es ∧ renders ts l.

(** ** Characters *)

Lemma has_spec l c : Forall (λ x, x ≠ 0) l → has l c = bool_decide (c ∈ l).
Proof.
  intros Hl. unfold has. rewrite strchr_nul by done. destruct (list_find _ l) as [[i x]|] eqn:E; cbn.
  - apply list_find_Some in E as (E & -> & _). symmetry. apply bool_decide_eq_true_2. by eapply list_elem_of_lookup_2.
  - apply list_find_None in E. symmetry. apply bool_decide_eq_false_2. intros Hc. rewrite Forall_forall in E. by apply (E c).
Qed.

Lemma has_space c : has whitespace c = bool_decide (is_space c).
Proof. apply has_spec. repeat constructor; discriminate. Qed.
Lemma has_symbol c : has symbols c = bool_decide (is_symbol c).
Proof. apply has_spec. repeat constructor; discriminate. Qed.

#[export] Instance is_space_dec c : Decision (is_space c) := _.
#[export] Instance is_symbol_dec c : Decision (is_symbol c) := _.
#[export] Instance wordchar_dec c : Decision (wordchar c) := _.
#[export] Instance word_dec w : Decision (word w) := _.

Lemma not_space_nul : ¬ is_space 0.
Proof. by apply (bool_decide_eq_false_1 (is_space 0)). Qed.

(** A symbol is no space, no NUL, and the first character of its token. *)
Lemma symbol_char c : is_symbol c → c ≠ 0 ∧ ¬ is_space c.
Proof.
  intros Hc. assert (Forall (λ c, c ≠ 0 ∧ ¬ is_space c) symbols) as Hall.
  { apply (bool_decide_eq_true_1 (Forall (λ c, c ≠ 0 ∧ ¬ is_space c) symbols)). vm_compute. reflexivity. }
  rewrite Forall_forall in Hall. by apply Hall.
Qed.

Definition hd0 (l : list Z) : Z := default 0 (head l).

Lemma at_drop m s l : drop s m = l → l ≠ [] → at_ m s = hd0 l.
Proof.
  intros E Hl. unfold at_, hd0. rewrite <-(Nat.add_0_r s), <-lookup_drop, E. by destruct l.
Qed.

Lemma drop_next (m : list Z) s c l : drop s m = c :: l → drop (S s) m = l.
Proof. intros E. rewrite <-Nat.add_1_r, <-drop_drop, E. done. Qed.

(** ** White space *)

Lemma skip_space_spec k m s w l :
  drop s m = w ++ l → l ≠ [] → Forall is_space w → ¬ is_space (hd0 l) → (length w ≤ k)%nat →
  skip_space k m s = (s + length w)%nat.
Proof.
  revert k s. induction w as [|c w IH]; intros k s E Hl Hw Hn Hk; cbn [length app] in *.
  - rewrite Nat.add_0_r. destruct k; [done|]. cbn [skip_space].
    rewrite (at_drop m s l) by done. rewrite has_space, bool_decide_eq_false_2 by done. done.
  - destruct k as [|k]; [lia|]. apply Forall_cons in Hw as [Hc Hw]. cbn [skip_space].
    rewrite (at_drop m s (c :: w ++ l)) by done. cbn [hd0 head default].
    rewrite has_space, bool_decide_eq_true_2 by done. rewrite (IH k (S s)); [lia| |done..|lia].
    by apply drop_next in E.
Qed.

(** ** Words *)

Lemma skip_word_spec k m s w l :
  drop s m = w ++ l → l ≠ [] → Forall wordchar w → (length w ≤ k)%nat →
  (length w = k ∨ is_space (hd0 l) ∨ is_symbol (hd0 l)) → skip_word k m s = (s + length w)%nat.
Proof.
  revert k s. induction w as [|c w IH]; intros k s E Hl Hw Hk Hn; cbn [length app] in *.
  - rewrite Nat.add_0_r. destruct k; [done|]. cbn [skip_word]. rewrite (at_drop m s l) by done.
    rewrite has_space, has_symbol. destruct Hn as [Hn|[Hn|Hn]]; [lia| |].
    + by rewrite bool_decide_eq_true_2.
    + rewrite (bool_decide_eq_true_2 (is_symbol _)) by done. by rewrite andb_false_r.
  - destruct k as [|k]; [lia|]. apply Forall_cons in Hw as [(_ & Hc1 & Hc2) Hw]. cbn [skip_word].
    rewrite (at_drop m s (c :: w ++ l)) by done. change (hd0 (c :: w ++ l)) with c.
    rewrite has_space, has_symbol, !bool_decide_eq_false_2 by done. cbn [negb andb].
    rewrite (IH k (S s)); [lia| |done..|lia|]; [by apply drop_next in E|].
    destruct Hn as [|]; [left; lia|by right].
Qed.

(** ** Lines *)

Lemma chars_head t : wf_token t → ∃ c l, chars t = c :: l ∧ ¬ is_space c ∧ c ≠ 0.
Proof.
  destruct t; cbn; intros Hw;
    try (eexists _, _; split; [reflexivity|]; split; [|discriminate]; apply (bool_decide_eq_false_1 (is_space _)); reflexivity).
  destruct Hw as [Hw Hc]. destruct w as [|c w]; [done|]. apply Forall_cons in Hc as [(? & ? & ?) _]. by exists c, w.
Qed.

Definition first_char (ts : list token) : Z := match ts with [] => 0 | t :: _ => hd0 (chars t) end.

Lemma renders_head ts l r : renders ts l → hd0 (l ++ 0 :: r) = first_char ts ∧ ¬ is_space (first_char ts).
Proof.
  destruct 1 as [|t w ts l Ht Hw Hs Hl]; [split; [done|apply not_space_nul]|].
  destruct (chars_head t Ht) as (c & x & E & Hc & _). cbn [first_char]. rewrite E. done.
Qed.

Lemma app_nul_ne (l r : list Z) : l ++ 0 :: r ≠ [].
Proof. by destruct l. Qed.

Lemma peek_spec m es s ts l :
  st m es s ts → peek m es s l = (negb (first_char ts =? 0) && has l (first_char ts), s).
Proof.
  intros (x & r & E & Hes & Hr). destruct (renders_head ts x r Hr) as [Hh Hn]. unfold peek.
  rewrite (skip_space_spec (es - s) m s [] (x ++ 0 :: r)); [|done|apply app_nul_ne|constructor|by rewrite Hh|cbn; lia].
  cbn [length]. rewrite Nat.add_0_r. rewrite (at_drop m s (x ++ 0 :: r)) by (done || apply app_nul_ne). by rewrite Hh.
Qed.

(** ** gettoken() *)

Definition single (c : Z) : bool :=
  (c =? ch "|") || (c =? ch "(") || (c =? ch ")") || (c =? ch ";") || (c =? ch "&") || (c =? ch "<").

(** The middle of gettoken(), with [s] at the token. *)
Definition scan_token (m : list Z) (es s : nat) : Z * nat :=
  let c := at_ m s in
  if c =? 0 then (c, s)
  else if single c then (c, S s)
  else if c =? ch ">" then if at_ m (S s) =? ch ">" then (ch "+", S (S s)) else (c, S s)
  else (ch "a", skip_word (es - s) m s).

Lemma gettoken_eq m es s :
  gettoken m es s =
    let q := skip_space (es - s) m s in
    let '(ret, eq) := scan_token m es q in (ret, q, eq, skip_space (es - eq) m eq).
Proof. reflexivity. Qed.

Lemma not_symbol c : ¬ is_symbol c → single c = false ∧ (c =? ch ">") = false.
Proof.
  intros Hc. assert (∀ d, bool_decide (is_symbol d) = true → (c =? d) = false) as Hd.
  { intros d Hd%bool_decide_eq_true_1. apply Z.eqb_neq. by intros ->. }
  unfold single. rewrite !Hd by (vm_compute; reflexivity). done.
Qed.

(** What follows a word ends it. *)
Lemma after_token t w ts l r :
  renders ts l → Forall is_space w → (w = [] → sep t ts) →
  let c := hd0 (w ++ l ++ 0 :: r) in
  match t with
  | Word _ => (w ++ l = [] ∧ c = 0) ∨ is_space c ∨ is_symbol c
  | TGt => c ≠ ch ">"
  | _ => True
  end.
Proof.
  intros Hr Hw Hs c. destruct (renders_head ts l r Hr) as [Hh _].
  destruct w as [|x w]; [|apply Forall_cons in Hw as [Hx _]].
  - unfold c. cbn [app]. rewrite Hh. specialize (Hs eq_refl).
    assert (∀ d, bool_decide (is_symbol d) = true → is_symbol d) as Hd by (intros d Hd; by apply bool_decide_eq_true_1 in Hd).
    destruct t; try done; destruct Hr as [|t' ? ? ? Ht']; try (by left); try discriminate;
      destruct t'; try done; try (right; right; apply Hd; vm_compute; reflexivity); try discriminate.
    cbn. destruct Ht' as [Hne Hc]. destruct w0 as [|y w0]; [done|]. apply Forall_cons in Hc as [(_ & _ & Hy) _].
    cbn. intros ->. apply Hy, Hd. vm_compute. reflexivity.
  - destruct t; try done; [right; by left|]. cbn. intros ->. revert Hx.
    by apply (bool_decide_eq_false_1 (is_space _)).
Qed.

Lemma scan_token_spec m es s t w ts l r :
  drop s m = chars t ++ w ++ l ++ 0 :: r → (s + length (chars t ++ w ++ l))%nat = es →
  wf_token t → Forall is_space w → (w = [] → sep t ts) → renders ts l →
  scan_token m es s = (kind t, (s + length (chars t))%nat).
Proof.
  intros E Hes Ht Hw Hs Hr. pose proof (after_token t w ts l r Hr Hw Hs) as Ha.
  assert (at_ m s = hd0 (chars t)) as Ec.
  { rewrite (at_drop _ _ _ E); destruct (chars_head t Ht) as (c & x & -> & _); done. }
  unfold scan_token. rewrite Ec. rewrite !length_app in Hes.
  destruct t; try (cbn -[str]; rewrite Nat.add_1_r; reflexivity).
  - destruct Ht as [Hne Hf]. assert (∃ c x, w0 = c :: x) as (c & x & Ew) by (destruct w0; [done|eauto]).
    assert (wordchar c) as (Hc0 & _ & Hc2) by (rewrite Ew in Hf; by apply Forall_cons in Hf as [? _]).
    cbn [chars kind]. replace (hd0 w0) with c by (by rewrite Ew).
    rewrite (proj2 (Z.eqb_neq c 0) Hc0). destruct (not_symbol c Hc2) as [-> ->]. f_equal.
    apply (skip_word_spec _ m s w0 (w ++ l ++ 0 :: r)); [done| |done| |].
    + by destruct w, l.
    + cbn [chars] in Hes. lia.
    + destruct Ha as [[Hwl _]|Ha]; [|by right]. left. apply app_eq_nil in Hwl as [-> ->]. cbn in Hes. lia.
  - cbn [chars] in *. change (str ">") with [ch ">"] in *. cbn [hd0 head default length].
    change (ch ">" =? 0) with false. change (single (ch ">")) with false. rewrite Z.eqb_refl.
    rewrite (at_drop m (S s) (w ++ l ++ 0 :: r)); [|by apply drop_next in E|by destruct w, l].
    rewrite (proj2 (Z.eqb_neq _ _) Ha), Nat.add_1_r. done.
  - cbn [chars] in *. change (str ">>") with [ch ">"; ch ">"] in *. cbn [hd0 head default length].
    change (ch ">" =? 0) with false. change (single (ch ">")) with false. rewrite Z.eqb_refl.
    apply drop_next in E. rewrite (at_drop m (S s) _ E) by done. cbn [app hd0 head default].
    rewrite Z.eqb_refl. f_equal. lia.
Qed.

(** gettoken() takes the next token of the line. *)
Lemma gettoken_spec m es s t ts :
  st m es s (t :: ts) →
  ∃ s', gettoken m es s = (kind t, s, (s + length (chars t))%nat, s') ∧ st m es s' ts ∧
    match t with Word w => word_at m (s, (s + length w)%nat) w | _ => True end.
Proof.
  intros (x & r & E & Hes & Hr). inversion Hr as [|t' w ts' l Ht Hw Hs Hl]; subst t' ts' x.
  rewrite <-!app_assoc in E. destruct (renders_head _ _ r Hr) as [Hh Hn]. rewrite <-!app_assoc in Hh.
  destruct (renders_head _ _ r Hl) as [Hh' Hn'].
  set (s1 := (s + length (chars t))%nat). rewrite !length_app in Hes.
  assert (drop s1 m = w ++ l ++ 0 :: r) as E1.
  { unfold s1. rewrite <-drop_drop, E. by rewrite drop_app_length. }
  assert (drop (s1 + length w) m = l ++ 0 :: r) as E2.
  { rewrite <-drop_drop, E1. by rewrite drop_app_length. }
  exists (s1 + length w)%nat. split_and!.
  - rewrite gettoken_eq. rewrite (skip_space_spec (es - s) m s [] _ E); [|by destruct (chars t), w, l|constructor|by rewrite Hh|cbn; lia].
    cbn [length]. rewrite Nat.add_0_r. cbn zeta.
    rewrite (scan_token_spec m es s t w ts l r); [|done|rewrite !length_app; lia|done..]. fold s1.
    rewrite (skip_space_spec (es - s1) m s1 w _ E1); [done|apply app_nul_ne|done|by rewrite Hh'|unfold s1; lia].
  - exists l, r. split_and!; [done|unfold s1; lia|done].
  - destruct t as [w0| | | | | | | |]; try done. cbn [chars] in *. split; [done|]. split; [done|]. cbn [fst snd].
    rewrite E, take_app_length. split; [done|].
    pose proof (after_token (Word w0) w ts l r Hl Hw Hs) as Ha. cbn zeta in Ha.
    exists (hd0 (w ++ l ++ 0 :: r)). split.
    + fold s1. rewrite <-(Nat.add_0_r s1), <-lookup_drop, E1. unfold hd0. by destruct w, l.
    + destruct Ha as [[_ ->]|[Ha|Ha]]; intros (? & ? & ?); done.
Qed.

(** At the end of the line it returns 0. *)
Lemma gettoken_end m es s : st m es s [] → gettoken m es s = (0, s, s, s).
Proof.
  intros (x & r & E & Hes & Hr). inversion Hr; subst x. cbn in E, Hes. assert (es = s) as -> by lia.
  rewrite gettoken_eq, Nat.sub_diag. cbn zeta. cbn [skip_space]. unfold scan_token.
  rewrite (at_drop _ _ _ E) by done. cbn. by rewrite Nat.sub_diag.
Qed.

(** ** The parsers on tokens *)

Section parse.
Context (m : list Z) (es : nat).
Notation at_tokens := (st m es).

(** What peek() answers. *)
Definition starts (l : string) (ts : list token) : bool := negb (first_char ts =? 0) && has (str l) (first_char ts).

Lemma peek_tokens s ts l : at_tokens s ts → peek m es s (str l) = (starts l ts, s).
Proof. apply peek_spec. Qed.

Lemma token_wf s t ts : at_tokens s (t :: ts) → wf_token t.
Proof. intros (x & r & _ & _ & Hr). by inversion Hr. Qed.

Lemma starts_word l w ts : word w → Forall is_symbol (str l) → starts l (Word w :: ts) = false.
Proof.
  intros [Hne Hw] Hl. unfold starts. cbn [first_char chars]. destruct w as [|c w]; [done|]. cbn [hd0 head default].
  apply Forall_cons in Hw as [(_ & _ & Hc) _]. rewrite has_spec, bool_decide_eq_false_2; [by rewrite andb_false_r| |].
  - intros Hin. rewrite Forall_forall in Hl. by apply Hc, Hl.
  - eapply Forall_impl; [exact Hl|]. intros x Hx. by apply symbol_char.
Qed.

(** Whether a token is a word; the first of the tokens peek() looks for. *)
Definition is_word (ts : list token) : bool := match ts with Word _ :: _ => true | _ => false end.

Lemma kind_word t : (kind t =? ch "a") = is_word [t].
Proof. by destruct t. Qed.

Ltac peek_at H := rewrite (peek_tokens _ _ _ H).

Lemma redirs_stop fuel c s ts :
  at_tokens s ts → starts "<>" ts = false → parseredirs (S fuel) c m es s = Ok (c, s).
Proof. intros Hs Hn. cbn [parseredirs]. peek_at Hs. by rewrite Hn. Qed.

Lemma redirs_step fuel c s k f ts :
  at_tokens s (rtok k :: Word f :: ts) →
  ∃ s' q eq, at_tokens s' ts ∧ word_at m (q, eq) f ∧
    parseredirs (S fuel) c m es s = parseredirs fuel (REDIR c q eq (rmode k) (rfd k)) m es s'.
Proof.
  intros Hs. destruct (gettoken_spec _ _ _ _ _ Hs) as (s1 & E1 & Hs1 & _).
  destruct (gettoken_spec _ _ _ _ _ Hs1) as (s2 & E2 & Hs2 & Hw).
  exists s2, s1, (s1 + length f)%nat. split_and!; [done|done|]. cbn [parseredirs]. peek_at Hs.
  replace (starts "<>" (rtok k :: Word f :: ts)) with true by (by destruct k).
  rewrite E1, E2. cbn [kind chars]. rewrite Z.eqb_refl. by destruct k.
Qed.

Lemma redirs_die fuel c s k ts :
  at_tokens s (rtok k :: ts) → is_word ts = false →
  parseredirs (S fuel) c m es s = Die (panic_text "missing file for redirection").
Proof.
  intros Hs Hn. destruct (gettoken_spec _ _ _ _ _ Hs) as (s1 & E1 & Hs1 & _). cbn [parseredirs]. peek_at Hs.
  replace (starts "<>" (rtok k :: ts)) with true by (by destruct k). rewrite E1.
  destruct ts as [|t ts]; [by rewrite (gettoken_end _ _ _ Hs1)|].
  destruct (gettoken_spec _ _ _ _ _ Hs1) as (s2 & -> & _). rewrite kind_word.
  replace (is_word [t]) with (is_word (t :: ts)) by (by destruct t). by rewrite Hn.
Qed.

Lemma args_stop fuel n c s ts :
  at_tokens s ts → starts "|)&;" ts = true ∨ ts = [] → parseargs (S fuel) n c m es s = Ok (c, s).
Proof.
  intros Hs Hn. cbn [parseargs]. peek_at Hs. destruct Hn as [->| ->]; [done|].
  change (starts "|)&;" []) with false. by rewrite (gettoken_end _ _ _ Hs).
Qed.

Lemma args_step fuel n c s w ts :
  at_tokens s (Word w :: ts) →
  ∃ s' p, at_tokens s' ts ∧ word_at m p w ∧
    parseargs (S fuel) n c m es s =
      if (MAXARGS <=? S n)%nat then Die (panic_text "too many args")
      else let* (ret, s) := parseredirs (S fuel) (add_arg c p) m es s' in parseargs fuel (S n) ret m es s.
Proof.
  intros Hs. destruct (gettoken_spec _ _ _ _ _ Hs) as (s1 & E1 & Hs1 & Hw).
  exists s1, (s, (s + length w)%nat). split_and!; [done|done|]. cbn [parseargs]. peek_at Hs.
  rewrite starts_word; [|by apply (token_wf _ _ _ Hs)|].
  2: { apply (bool_decide_eq_true_1 (Forall is_symbol (str "|)&;"))). vm_compute. reflexivity. }
  rewrite E1. cbn [kind chars]. change (ch "a" =? 0) with false. by rewrite Z.eqb_refl.
Qed.

Lemma args_die fuel n c s t ts :
  at_tokens s (t :: ts) → starts "|)&;" (t :: ts) = false → is_word [t] = false →
  parseargs (S fuel) n c m es s = Die (panic_text "syntax").
Proof.
  intros Hs Hn Hw. destruct (gettoken_spec _ _ _ _ _ Hs) as (s1 & E1 & _ & _). cbn [parseargs]. peek_at Hs.
  rewrite Hn, E1, kind_word, Hw. by destruct t.
Qed.

Lemma backs_step fuel c s ts :
  at_tokens s (TAmp :: ts) →
  ∃ s', at_tokens s' ts ∧ parsebacks (S fuel) c m es s = parsebacks fuel (BACK c) m es s'.
Proof.
  intros Hs. destruct (gettoken_spec _ _ _ _ _ Hs) as (s1 & E1 & Hs1 & _). exists s1. split; [done|].
  cbn [parsebacks]. peek_at Hs. change (starts "&" (TAmp :: ts)) with true. by rewrite E1.
Qed.

Lemma backs_stop fuel c s ts :
  at_tokens s ts → starts "&" ts = false → parsebacks (S fuel) c m es s = Ok (c, s).
Proof. intros Hs Hn. cbn [parsebacks]. peek_at Hs. by rewrite Hn. Qed.

(** ** Every line is parsed or refused *)

Lemma redir_all_app a rs rs' : redir_all a (rs ++ rs') = redir_all (redir_all a rs) rs'.
Proof. apply foldl_app. Qed.

Lemma starts_redir t ts : wf_token t → starts "<>" (t :: ts) = true → ∃ k, t = rtok k.
Proof.
  intros Ht H. destruct t; try discriminate H; [|by exists RIn|by exists ROut|by exists RAppend].
  rewrite starts_word in H; [done|done|]. apply (bool_decide_eq_true_1 (Forall is_symbol (str "<>"))). vm_compute. reflexivity.
Qed.

(** A parser's result on [ts]: the shell dies, or the parser has taken tokens
    that [G] allows for the command it returns. *)
Definition parsed (G : ast → list token → Prop) (r : res (cmd * nat)) (ts : list token) : Prop :=
  (∃ msg, r = Die msg) ∨
  (∃ c s' a used ts', r = Ok (c, s') ∧ ts = used ++ ts' ∧ at_tokens s' ts' ∧ repr m c a ∧ G a used).

Lemma redirs_total n ts fuel c s a :
  (length ts ≤ n)%nat → (n < fuel)%nat → at_tokens s ts → repr m c a →
  parsed (λ a' used, ∃ rs, used = rtoks rs ∧ a' = redir_all a rs) (parseredirs fuel c m es s) ts.
Proof.
  revert ts fuel c s a. induction n as [n IH] using lt_wf_ind. intros ts fuel c s a Hn Hf Hs Hc.
  destruct fuel as [|fuel]; [lia|]. destruct (starts "<>" ts) eqn:E.
  2: { right. exists c, s, a, [], ts. rewrite (redirs_stop _ _ _ ts) by done. split_and!; try done. by exists []. }
  destruct ts as [|t ts]; [done|]. destruct (starts_redir t ts (token_wf _ _ _ Hs) E) as [k ->].
  destruct (is_word ts) eqn:Ew; [|left; by eexists; apply (redirs_die _ _ _ k ts)].
  destruct ts as [|[w| | | | | | | |] ts]; try done. cbn [length] in *.
  destruct (redirs_step fuel c s k w ts Hs) as (s' & q & eq & Hs' & Hw & ->).
  destruct (IH (n - 2)%nat ltac:(lia) ts fuel (REDIR c q eq (rmode k) (rfd k)) s' (ARedir a k w))
    as [?|(c' & s2 & a' & used & ts' & E' & -> & Hs2 & Hr & rs & -> & ->)]; [lia|lia|done|done|by left|].
  right. exists c', s2, (redir_all (ARedir a k w) rs), (rtoks ((k, w) :: rs)), ts'. split_and!; try done. by exists ((k, w) :: rs).
Qed.

(** The command of parseexec()'s loop. *)
Lemma add_arg_repr c args rs p w :
  repr m c (redir_all (AExec args) rs) → word_at m p w → repr m (add_arg c p) (redir_all (AExec (args ++ [w])) rs).
Proof.
  intros Hc Hw. revert c Hc. induction rs as [|r rs IH] using rev_ind; intros c Hc.
  - cbn in *. destruct c; try done. cbn. by apply Forall2_app; [|constructor].
  - rewrite !redir_all_app in *. cbn in *. destruct c; try done. cbn. destruct Hc as [Hc ?]. split; [by apply IH|done].
Qed.

(** The words and redirections that the loop adds to [args] and [rs]. *)
Definition more_args (args : list (list Z)) (rs : list (rkind * list Z)) (a : ast) (used : list token) : Prop :=
  ∃ gs, used = gtoks gs ∧ a = redir_all (AExec (args ++ gs.*1)) (rs ++ concat gs.*2) ∧
    (length args + length gs < MAXARGS)%nat.

Lemma args_total n ts fuel c s args rs :
  (length ts ≤ n)%nat → (n < fuel)%nat → at_tokens s ts →
  repr m c (redir_all (AExec args) rs) → (length args < MAXARGS)%nat →
  parsed (more_args args rs) (parseargs fuel (length args) c m es s) ts.
Proof.
  revert ts fuel c s args rs. induction n as [n IH] using lt_wf_ind.
  intros ts fuel c s args rs Hn Hf Hs Hc Hl. destruct fuel as [|fuel]; [lia|].
  assert (starts "|)&;" ts = true ∨ ts = [] → parsed (more_args args rs) (parseargs (S fuel) (length args) c m es s) ts) as Hstop.
  { intros Hst. rewrite (args_stop _ _ _ _ ts) by done. right. exists c, s, (redir_all (AExec args) rs), [], ts.
    split_and!; try done. exists []. rewrite !app_nil_r. split_and!; [done..|cbn; lia]. }
  destruct ts as [|t ts]; [by apply Hstop; right|]. destruct (starts "|)&;" (t :: ts)) eqn:E; [by apply Hstop; left|].
  destruct (is_word [t]) eqn:Ew; [|left; by eexists; apply (args_die _ _ _ _ t ts)].
  destruct t as [w| | | | | | | |]; try done. cbn [length] in *. clear Hstop.
  destruct (args_step fuel (length args) c s w ts Hs) as (s1 & p & Hs1 & Hw & ->).
  destruct (Nat.leb_spec MAXARGS (S (length args))); [by left; eexists|].
  destruct (redirs_total (n - 1) ts (S fuel) (add_arg c p) s1 (redir_all (AExec (args ++ [w])) rs))
    as [[msg ->]|(c' & s2 & a2 & used2 & ts2 & -> & -> & Hs2 & Hr2 & rs2 & -> & ->)];
    [lia|lia|done|by apply add_arg_repr|by left; eexists|]. cbn [rbind]. rewrite length_app in Hn.
  rewrite <-redir_all_app in Hr2.
  replace (S (length args)) with (length (args ++ [w])) in * by (rewrite length_app; cbn; lia).
  destruct (IH (n - 1)%nat ltac:(lia) ts2 fuel c' s2 (args ++ [w]) (rs ++ rs2))
    as [?|(c3 & s3 & a3 & used3 & ts3 & -> & -> & Hs3 & Hr3 & gs & -> & -> & Hg)]; try done; try lia; [by left|].
  right. eexists c3, s3, _, (gtoks ((w, rs2) :: gs)), ts3. split_and!; [done| |done|exact Hr3|].
  - cbn. by rewrite <-app_assoc.
  - exists ((w, rs2) :: gs). rewrite length_app in Hg. cbn [length fmap list_fmap concat fst snd] in *.
    rewrite <-!app_assoc. split_and!; [done|done|lia].
Qed.

Lemma backs_total ts fuel c s a used :
  (length ts < fuel)%nat → at_tokens s ts → repr m c a → gback a used →
  ∃ c' s' a' used' ts', parsebacks fuel c m es s = Ok (c', s') ∧ ts = used' ++ ts' ∧ at_tokens s' ts' ∧
    repr m c' a' ∧ gback a' (used ++ used').
Proof.
  revert fuel c s a used. induction ts as [|t ts IH]; intros fuel c s a used Hf Hs Hc Ha; (destruct fuel as [|fuel]; [cbn in *; lia|]).
  { exists c, s, a, [], []. split_and!; [by apply (backs_stop _ _ _ [])|done..|by rewrite app_nil_r]. }
  destruct (starts "&" (t :: ts)) eqn:E.
  2: { exists c, s, a, [], (t :: ts). split_and!; [by apply (backs_stop _ _ _ (t :: ts))|done..|by rewrite app_nil_r]. }
  assert (t = TAmp) as ->.
  { pose proof (token_wf _ _ _ Hs) as Ht. destruct t; try discriminate E; [|done].
    rewrite starts_word in E; [done|done|]. apply (bool_decide_eq_true_1 (Forall is_symbol (str "&"))). vm_compute. reflexivity. }
  destruct (backs_step fuel c s ts Hs) as (s1 & Hs1 & ->). cbn [length] in *.
  destruct (IH fuel (BACK c) s1 (ABack a) (used ++ [TAmp])) as (c' & s' & a' & used' & ts' & ? & -> & ? & ? & ?);
    [lia|done|done|by constructor|].
  exists c', s', a', (TAmp :: used'), ts'. rewrite <-app_assoc in *. done.
Qed.

(** peek() for a symbol, and the token taken when it answers yes. *)
Lemma peek_take s ts l t :
  at_tokens s ts → str l = chars t → Forall is_symbol (str l) →
  match t with TBar | TOpen | TClose | TSemi => True | _ => False end →
  (starts l ts = false ∧ peek m es s (str l) = (false, s)) ∨
  (∃ ts' s' k q eq, ts = t :: ts' ∧ peek m es s (str l) = (true, s) ∧ gettoken m es s = (k, q, eq, s') ∧ at_tokens s' ts').
Proof.
  intros Hs El Hl Ht. rewrite (peek_tokens _ _ _ Hs). destruct (starts l ts) eqn:E; [right|by left].
  destruct ts as [|t' ts']; [done|]. destruct (gettoken_spec _ _ _ _ _ Hs) as (s' & E' & Hs' & _).
  exists ts', s', (kind t'), s, (s + length (chars t'))%nat. split_and!; try done. f_equal.
  pose proof (token_wf _ _ _ Hs) as Hw. destruct t' as [w| | | | | | | |]; [by rewrite starts_word in E|..];
    revert E; unfold starts; rewrite El; destruct t; done.
Qed.

(** One symbol of the grammar. *)
Ltac symbol_tac := apply (bool_decide_eq_true_1 (Forall is_symbol _)); vm_compute; reflexivity.

(** A call of a parser on [ts] returns within the steps its callers give it. *)
Definition line_total (fuel : nat) : Prop :=
  ∀ s ts, at_tokens s ts → (4 * length ts + 4 ≤ fuel)%nat → parsed gline (parseline fuel m es s) ts.
Definition pipe_total (fuel : nat) : Prop :=
  ∀ s ts, at_tokens s ts → (4 * length ts + 3 ≤ fuel)%nat → parsed gpipe (parsepipe fuel m es s) ts.
Definition exec_total (fuel : nat) : Prop :=
  ∀ s ts, at_tokens s ts → (4 * length ts + 2 ≤ fuel)%nat → parsed gexec (parseexec fuel m es s) ts.
Definition block_total (fuel : nat) : Prop :=
  ∀ s ts, at_tokens s ts → (4 * length ts + 1 ≤ fuel)%nat → parsed gexec (parseblock fuel m es s) ts.

Lemma line_total_step fuel : line_total fuel → pipe_total fuel → line_total (S fuel).
Proof.
  intros IHl IHp s ts Hs Hf. cbn [parseline].
  destruct (IHp s ts Hs) as [[msg ->]|(c & s1 & a & u1 & ts1 & -> & -> & Hs1 & Hc & Ha)]; [lia|by left; eexists|].
  rewrite length_app in Hf. cbn [rbind].
  destruct (backs_total ts1 fuel c s1 a u1) as (c2 & s2 & a2 & u2 & ts2 & -> & -> & Hs2 & Hc2 & Ha2); [lia|done..|by constructor|].
  rewrite length_app in Hf. cbn [rbind].
  destruct (peek_take s2 ts2 ";" TSemi Hs2 eq_refl ltac:(symbol_tac) I) as [[_ ->]|(ts3 & s3 & k & q & eq & -> & -> & -> & Hs3)].
  { right. exists c2, s2, a2, (u1 ++ u2), ts2. rewrite <-app_assoc. split_and!; try done. by constructor. }
  cbn [length] in *. destruct (IHl s3 ts3 Hs3) as [[msg ->]|(c4 & s4 & a4 & u4 & ts4 & -> & -> & Hs4 & Hc4 & Ha4)];
    [lia|by left; eexists|]. cbn [rbind].
  right. exists (LIST c2 c4), s4, (AList a2 a4), ((u1 ++ u2) ++ TSemi :: u4), ts4. rewrite <-!app_assoc. cbn [app].
  split_and!; try done. rewrite app_assoc. by constructor.
Qed.

Lemma pipe_total_step fuel : pipe_total fuel → exec_total fuel → pipe_total (S fuel).
Proof.
  intros IHp IHe s ts Hs Hf. cbn [parsepipe].
  destruct (IHe s ts Hs) as [[msg ->]|(c & s1 & a & u1 & ts1 & -> & -> & Hs1 & Hc & Ha)]; [lia|by left; eexists|].
  rewrite length_app in Hf. cbn [rbind].
  destruct (peek_take s1 ts1 "|" TBar Hs1 eq_refl ltac:(symbol_tac) I) as [[_ ->]|(ts3 & s3 & k & q & eq & -> & -> & -> & Hs3)].
  { right. exists c, s1, a, u1, ts1. split_and!; try done. by constructor. }
  cbn [length] in *. destruct (IHp s3 ts3 Hs3) as [[msg ->]|(c4 & s4 & a4 & u4 & ts4 & -> & -> & Hs4 & Hc4 & Ha4)];
    [lia|by left; eexists|]. cbn [rbind].
  right. exists (PIPE c c4), s4, (APipe a a4), (u1 ++ TBar :: u4), ts4. rewrite <-!app_assoc. cbn [app].
  split_and!; try done. by constructor.
Qed.

Lemma exec_total_step fuel : block_total fuel → exec_total (S fuel).
Proof.
  intros IHb s ts Hs Hf. cbn [parseexec].
  destruct (peek_take s ts "(" TOpen Hs eq_refl ltac:(symbol_tac) I) as [[_ ->]|(ts3 & s3 & k & q & eq & -> & -> & _ & _)]; [|apply IHb; [done|lia]].
  destruct (redirs_total (length ts) ts fuel (EXEC []) s (AExec []))
    as [[msg ->]|(c & s1 & a1 & u1 & ts1 & -> & -> & Hs1 & Hc & rs & -> & ->)]; [lia|lia|done|constructor|by left; eexists|]. cbn [rbind].
  rewrite length_app in Hf.
  change (parseargs fuel 0 c) with (parseargs fuel (length (@nil (list Z))) c).
  destruct (args_total (length ts1) ts1 fuel c s1 [] rs) as [?|(c2 & s2 & a2 & u2 & ts2 & -> & -> & Hs2 & Hc2 & gs & -> & -> & Hg)];
    [done|lia|done|done|cbn; unfold MAXARGS; lia|by left|].
  right. eexists c2, s2, _, (rtoks rs ++ gtoks gs), ts2. rewrite <-app_assoc. split_and!; [done..|exact Hc2|by constructor].
Qed.

Lemma block_total_step fuel : line_total fuel → block_total (S fuel).
Proof.
  intros IHl s ts Hs Hf. cbn [parseblock].
  destruct (peek_take s ts "(" TOpen Hs eq_refl ltac:(symbol_tac) I) as [[_ ->]|(ts3 & s3 & k & q & eq & -> & -> & -> & Hs3)]; [by left; eexists|].
  cbn [negb length] in *.
  destruct (IHl s3 ts3 Hs3) as [[msg ->]|(c & s1 & a & u1 & ts1 & -> & -> & Hs1 & Hc & Ha)]; [lia|by left; eexists|]. cbn [rbind].
  rewrite length_app in Hf.
  destruct (peek_take s1 ts1 ")" TClose Hs1 eq_refl ltac:(symbol_tac) I) as [[_ ->]|(ts4 & s4 & k' & q' & eq' & -> & -> & -> & Hs4)]; [by left; eexists|].
  cbn [negb length] in *.
  destruct (redirs_total (length ts4) ts4 fuel c s4 a) as [?|(c2 & s2 & a2 & u2 & ts2 & -> & -> & Hs2 & Hc2 & rs & -> & ->)];
    [lia|lia|done|done|by left|].
  right. eexists c2, s2, _, (TOpen :: u1 ++ TClose :: rtoks rs), ts2. cbn [app]. rewrite <-!app_assoc. cbn [app].
  split_and!; [done..|exact Hc2|by constructor].
Qed.

Lemma parse_total fuel : line_total fuel ∧ pipe_total fuel ∧ exec_total fuel ∧ block_total fuel.
Proof.
  induction fuel as [|fuel (IHl & IHp & IHe & IHb)]; [split_and!; intros s ts _ ?; lia|].
  split_and!; [by apply line_total_step|by apply pipe_total_step|by apply exec_total_step|by apply block_total_step].
Qed.

(** ** What the grammar allows is parsed *)

(** What may come after a line, before an ampersand, after a pipe and after a
    simple command. *)
Definition ends_line (ts : list token) : Prop := match ts with [] | TClose :: _ => True | _ => False end.
Definition ends_back (ts : list token) : Prop := match ts with [] | TClose :: _ | TSemi :: _ => True | _ => False end.
Definition ends_pipe (ts : list token) : Prop :=
  match ts with [] | TClose :: _ | TSemi :: _ | TAmp :: _ => True | _ => False end.
Definition ends_exec (ts : list token) : Prop :=
  match ts with [] | TClose :: _ | TSemi :: _ | TAmp :: _ | TBar :: _ => True | _ => False end.

Lemma ends_exec_redir ts : ends_exec ts → starts "<>" ts = false.
Proof. by destruct ts as [|[]]. Qed.

Lemma ends_exec_stop ts : ends_exec ts → starts "|)&;" ts = true ∨ ts = [].
Proof. destruct ts as [|[]]; try done; [by right|by left..]. Qed.

Lemma rtoks_length rs : length (rtoks rs) = (2 * length rs)%nat.
Proof. induction rs as [|r rs IH]; [done|]. cbn. fold (rtoks rs). lia. Qed.

Definition parses (r : res (cmd * nat)) (a : ast) (ts : list token) : Prop :=
  ∃ c s', r = Ok (c, s') ∧ repr m c a ∧ at_tokens s' ts.

Lemma redirs_parse rs fuel c a s ts :
  (length rs < fuel)%nat → at_tokens s (rtoks rs ++ ts) → starts "<>" ts = false → repr m c a →
  parses (parseredirs fuel c m es s) (redir_all a rs) ts.
Proof.
  revert fuel c a s. induction rs as [|[k f] rs IH]; intros fuel c a s Hf Hs Hn Hc; (destruct fuel as [|fuel]; [cbn in Hf; lia|]).
  - exists c, s. by rewrite (redirs_stop _ _ _ ts).
  - destruct (redirs_step fuel c s k f _ Hs) as (s1 & q & eq & Hs1 & Hw & ->).
    apply (IH fuel _ (ARedir a k f) s1); [cbn in Hf; lia|done..].
Qed.

Lemma gtoks_redir s ts gs rest :
  at_tokens s (ts ++ gtoks gs ++ rest) → ends_exec rest → starts "<>" (gtoks gs ++ rest) = false.
Proof.
  intros (x & r & _ & _ & Hr) He. destruct gs as [|g gs]; [by apply ends_exec_redir|]. cbn in *.
  apply starts_word; [|symbol_tac]. revert x Hr. induction ts as [|t ts IH]; intros x Hr; inversion Hr; subst; eauto.
Qed.

Lemma args_parse gs fuel c args s rs ts :
  (length (gtoks gs) < fuel)%nat → at_tokens s (gtoks gs ++ ts) → ends_exec ts →
  repr m c (redir_all (AExec args) rs) → (length args + length gs < MAXARGS)%nat →
  parses (parseargs fuel (length args) c m es s) (redir_all (AExec (args ++ gs.*1)) (rs ++ concat gs.*2)) ts.
Proof.
  revert fuel c args s rs. induction gs as [|[w ws] gs IH]; intros fuel c args s rs Hf Hs He Hc Hl;
    (destruct fuel as [|fuel]; [cbn in *; lia|]).
  - rewrite (args_stop _ _ _ _ ts); [|done|by apply ends_exec_stop]. exists c, s. cbn. by rewrite !app_nil_r.
  - cbn [gtoks mbind list_bind app] in Hs, Hf. fold (gtoks gs) in Hs, Hf. cbn [fst snd length] in *.
    rewrite length_app, rtoks_length in Hf. rewrite <-app_assoc in Hs.
    destruct (args_step fuel (length args) c s w _ Hs) as (s1 & p & Hs1 & Hw & ->).
    rewrite (proj2 (Nat.leb_gt _ _)) by lia.
    destruct (redirs_parse ws (S fuel) (add_arg c p) (redir_all (AExec (args ++ [w])) rs) s1 (gtoks gs ++ ts))
      as (c2 & s2 & -> & Hr2 & Hs2); [lia|done| |by apply add_arg_repr|].
    { by apply (gtoks_redir s1 (rtoks ws)). }
    cbn [rbind]. rewrite <-redir_all_app in Hr2.
    replace (S (length args)) with (length (args ++ [w])) by (rewrite length_app; cbn; lia).
    destruct (IH fuel c2 (args ++ [w]) s2 (rs ++ ws)) as (c3 & s3 & -> & Hr3 & Hs3);
      [lia|done|done|done|rewrite length_app; cbn; lia|].
    exists c3, s3. rewrite <-!app_assoc in Hr3. done.
Qed.

Definition line_complete (a : ast) (ts : list token) : Prop :=
  ∀ fuel s rest, (4 * length ts + 4 ≤ fuel)%nat → ends_line rest → at_tokens s (ts ++ rest) →
    parses (parseline fuel m es s) a rest.
Definition pipe_complete (a : ast) (ts : list token) : Prop :=
  ∀ fuel s rest, (4 * length ts + 3 ≤ fuel)%nat → ends_pipe rest → at_tokens s (ts ++ rest) →
    parses (parsepipe fuel m es s) a rest.
Definition exec_complete (a : ast) (ts : list token) : Prop :=
  ∀ fuel s rest, (4 * length ts + 2 ≤ fuel)%nat → ends_exec rest → at_tokens s (ts ++ rest) →
    parses (parseexec fuel m es s) a rest.

(** parsepipe(), and the loop of parseline() up to [rest]. *)
Definition back_complete (a : ast) (ts : list token) : Prop :=
  ∀ fuel s rest, (4 * length ts + 3 ≤ fuel)%nat → ends_pipe rest → at_tokens s (ts ++ rest) →
    ∃ c1 s1 c2 s2 fuel', parsepipe fuel m es s = Ok (c1, s1) ∧
      parsebacks fuel c1 m es s1 = parsebacks fuel' c2 m es s2 ∧ (fuel ≤ fuel' + length ts)%nat ∧
      repr m c2 a ∧ at_tokens s2 rest.

Lemma back_loop a ts fuel s rest :
  back_complete a ts → (4 * length ts + 3 ≤ fuel)%nat → ends_back rest → at_tokens s (ts ++ rest) →
  ∃ c1 s1, parsepipe fuel m es s = Ok (c1, s1) ∧ parses (parsebacks fuel c1 m es s1) a rest.
Proof.
  intros IH Hf He Hs. destruct (IH fuel s rest Hf) as (c1 & s1 & c2 & s2 & fuel' & E1 & E2 & Hl & Hr & Hs2);
    [by destruct rest as [|[]]|done|].
  exists c1, s1. split; [done|]. rewrite E2. destruct fuel' as [|fuel']; [lia|]. exists c2, s2.
  by rewrite (backs_stop _ _ _ rest) by (done || by destruct rest as [|[]]).
Qed.

(** Takes the token of a symbol. *)
Ltac take_token H s' Hs' :=
  rewrite (peek_tokens _ _ _ H); change (starts _ _) with true; cbn [negb];
  destruct (gettoken_spec _ _ _ _ _ H) as (s' & -> & Hs' & _).

Lemma line_back_complete a ts : back_complete a ts → line_complete a ts.
Proof.
  intros IH fuel s rest Hf He Hs. destruct fuel as [|fuel]; [lia|]. cbn [parseline].
  destruct (back_loop a ts fuel s rest IH) as (c1 & s1 & -> & c2 & s2 & E2 & Hr & Hs2); [lia|by destruct rest as [|[]]|done|].
  cbn [rbind]. rewrite E2. cbn [rbind]. rewrite (peek_tokens _ _ _ Hs2).
  replace (starts ";" rest) with false by (by destruct rest as [|[]]). by exists c2, s2.
Qed.

Lemma line_list_complete a b ts ts' :
  back_complete a ts → line_complete b ts' → line_complete (AList a b) (ts ++ TSemi :: ts').
Proof.
  intros IHa IHb fuel s rest Hf He Hs. destruct fuel as [|fuel]; [lia|]. cbn [parseline].
  rewrite length_app in Hf. cbn [length] in Hf. rewrite <-app_assoc in Hs.
  destruct (back_loop a ts fuel s (TSemi :: ts' ++ rest) IHa) as (c1 & s1 & -> & c2 & s2 & E2 & Hr & Hs2); [lia|done|done|].
  cbn [rbind]. rewrite E2. cbn [rbind]. take_token Hs2 s3 Hs3.
  destruct (IHb fuel s3 rest) as (c4 & s4 & -> & Hr4 & Hs4); [lia|done|done|]. by exists (LIST c2 c4), s4.
Qed.

Lemma back_back_complete a ts : back_complete a ts → back_complete (ABack a) (ts ++ [TAmp]).
Proof.
  intros IH fuel s rest Hf He Hs. rewrite length_app in Hf. cbn [length] in Hf. rewrite <-app_assoc in Hs.
  destruct (IH fuel s (TAmp :: rest)) as (c1 & s1 & c2 & s2 & fuel' & E1 & E2 & Hl & Hr & Hs2); [lia|done|done|].
  destruct fuel' as [|fuel']; [lia|]. destruct (backs_step fuel' c2 s2 rest Hs2) as (s3 & Hs3 & E3).
  exists c1, s1, (BACK c2), s3, fuel'. rewrite E2, E3, length_app. cbn [length]. split_and!; try done. lia.
Qed.

Lemma pipe_exec_complete a ts : exec_complete a ts → pipe_complete a ts.
Proof.
  intros IH fuel s rest Hf He Hs. destruct fuel as [|fuel]; [lia|]. cbn [parsepipe].
  destruct (IH fuel s rest) as (c1 & s1 & -> & Hr & Hs1); [lia|by destruct rest as [|[]]|done|].
  cbn [rbind]. rewrite (peek_tokens _ _ _ Hs1).
  replace (starts "|" rest) with false by (by destruct rest as [|[]]). by exists c1, s1.
Qed.

Lemma pipe_pipe_complete a b ts ts' :
  exec_complete a ts → pipe_complete b ts' → pipe_complete (APipe a b) (ts ++ TBar :: ts').
Proof.
  intros IHa IHb fuel s rest Hf He Hs. destruct fuel as [|fuel]; [lia|]. cbn [parsepipe].
  rewrite length_app in Hf. cbn [length] in Hf. rewrite <-app_assoc in Hs.
  destruct (IHa fuel s (TBar :: ts' ++ rest)) as (c1 & s1 & -> & Hr & Hs1); [lia|done|done|].
  cbn [rbind]. take_token Hs1 s3 Hs3.
  destruct (IHb fuel s3 rest) as (c4 & s4 & -> & Hr4 & Hs4); [lia|done|done|]. by exists (PIPE c1 c4), s4.
Qed.

Lemma exec_simple_complete rs gs :
  (length gs < MAXARGS)%nat →
  exec_complete (redir_all (AExec gs.*1) (rs ++ concat gs.*2)) (rtoks rs ++ gtoks gs).
Proof.
  intros Hl fuel s rest Hf He Hs. destruct fuel as [|fuel]; [lia|]. cbn [parseexec].
  rewrite length_app, rtoks_length in Hf. rewrite <-app_assoc in Hs.
  rewrite (peek_tokens _ _ _ Hs). replace (starts "(" _) with false.
  2: { symmetry. destruct rs as [|[[] ?] rs]; [|done..]. destruct gs as [|g gs]; [by destruct rest as [|[]]|].
       cbn in *. apply starts_word; [by apply (token_wf _ _ _ Hs)|symbol_tac]. }
  destruct (redirs_parse rs fuel (EXEC []) (AExec []) s (gtoks gs ++ rest)) as (c1 & s1 & -> & Hr & Hs1);
    [lia|done|by apply (gtoks_redir s (rtoks rs))|constructor|]. cbn [rbind].
  apply (args_parse gs fuel c1 [] s1 rs rest); [lia|done..].
Qed.

Lemma exec_block_complete a ts rs :
  line_complete a ts → exec_complete (redir_all a rs) (TOpen :: ts ++ TClose :: rtoks rs).
Proof.
  intros IH fuel s rest Hf He Hs. cbn [length] in Hf. rewrite length_app in Hf. cbn [length] in Hf.
  cbn [app] in Hs. rewrite <-app_assoc in Hs. cbn [app] in Hs.
  do 2 (destruct fuel as [|fuel]; [lia|]). cbn [parseexec parseblock].
  rewrite (peek_tokens _ _ _ Hs). change (starts _ _) with true. cbn iota. take_token Hs s1 Hs1.
  destruct (IH fuel s1 (TClose :: rtoks rs ++ rest)) as (c2 & s2 & -> & Hr2 & Hs2); [lia|done|done|].
  cbn [rbind]. take_token Hs2 s3 Hs3. rewrite rtoks_length in Hf.
  apply redirs_parse; [lia|done|by apply ends_exec_redir|done].
Qed.

Lemma parse_complete a ts : gline a ts → line_complete a ts.
Proof.
  revert a ts. apply (gline_mind line_complete back_complete pipe_complete exec_complete).
  - intros a ts _. apply line_back_complete.
  - intros a b ts ts' _ IHa _. by apply line_list_complete.
  - intros a ts _ IH fuel s rest Hf He Hs. destruct (IH fuel s rest Hf He Hs) as (c1 & s1 & -> & Hr & Hs1).
    exists c1, s1, c1, s1, fuel. split_and!; try done. lia.
  - intros a ts _. apply back_back_complete.
  - intros a ts _. apply pipe_exec_complete.
  - intros a b ts ts' _ IHa _. by apply pipe_pipe_complete.
  - apply exec_simple_complete.
  - intros a ts rs _. apply exec_block_complete.
Qed.
End parse.

(** ** nulterminate() *)

(** The words of a command are the strings at its pointers. *)
Definition string_at (m : list Z) (q : nat) (w : list Z) : Prop := cstr (drop q m) = w.

Fixpoint reads (m : list Z) (c : cmd) (a : ast) : Prop :=
  match c, a with
  | EXEC argv, AExec args => Forall2 (λ p, string_at m p.1) argv args
  | REDIR c q _ mode fd, ARedir a k file => reads m c a ∧ string_at m q file ∧ mode = rmode k ∧ fd = rfd k
  | PIPE c d, APipe a b | LIST c d, AList a b => reads m c a ∧ reads m d b
  | BACK c, ABack a => reads m c a
  | _, _ => False
  end.

(** Where the words end. *)
Fixpoint word_ends (c : cmd) : list nat :=
  match c with
  | EXEC argv => argv.*2
  | REDIR c _ efile _ _ => word_ends c ++ [efile]
  | PIPE c d | LIST c d => word_ends c ++ word_ends d
  | BACK c => word_ends c
  end.

Lemma nulterminate_ends c m : nulterminate c m = foldl (λ m e, <[e := 0]> m) m (word_ends c).
Proof.
  revert m. induction c as [argv|c IH q eq mode fd|c IHc d IHd|c IHc d IHd|c IH]; intros m; cbn.
  - induction argv as [|p argv IH] using rev_ind; [done|]. rewrite fmap_app, !foldl_app, IH. done.
  - by rewrite IH, foldl_app.
  - by rewrite IHc, IHd, foldl_app.
  - by rewrite IHc, IHd, foldl_app.
  - apply IH.
Qed.

Lemma zeros_lookup (es : list nat) (m : list Z) i :
  foldl (λ m e, <[e := 0]> m) m es !! i = if decide (i ∈ es) then (λ _, 0) <$> m !! i else m !! i.
Proof.
  revert m. induction es as [|e es IH]; intros m; [by rewrite decide_False by apply not_elem_of_nil|].
  cbn [foldl]. rewrite IH. destruct (decide (i = e)) as [->|Hne].
  - rewrite (decide_True (P := e ∈ e :: es)) by left. destruct (m !! e) as [x|] eqn:E.
    + rewrite list_lookup_insert_eq by (by eapply lookup_lt_Some). by case_decide.
    + apply lookup_ge_None in E. rewrite list_insert_ge by done. rewrite (proj2 (lookup_ge_None _ _) E). by case_decide.
  - rewrite list_lookup_insert_ne by done. destruct (decide (i ∈ es)); [by rewrite decide_True by (by right)|].
    rewrite decide_False; [done|]. by intros [?|?]%elem_of_cons.
Qed.

Lemma string_at_word m m' p w :
  word_at m p w → m' !! p.2 = Some 0 → (∀ i c, m !! i = Some c → wordchar c → m' !! i = Some c) → string_at m' p.1 w.
Proof.
  intros ([_ Hw] & E2 & Et & _) Hz Hk. unfold string_at.
  assert (take (length w) (drop p.1 m') = w) as Et'.
  { apply list_eq. intros i. destruct (decide (i < length w)%nat) as [Hi|Hi].
    - destruct (lookup_lt_is_Some_2 w i Hi) as [c Hc]. rewrite Hc, lookup_take_lt, lookup_drop by lia. apply Hk.
      + rewrite <-Hc. pose proof (f_equal (lookup i) Et) as Ei. by rewrite lookup_take_lt, lookup_drop in Ei by lia.
      + by apply (Forall_lookup_1 _ _ _ _ Hw Hc).
    - rewrite (proj2 (lookup_ge_None w i)) by lia. apply lookup_ge_None. rewrite length_take. lia. }
  rewrite <-(take_drop (length w) (drop p.1 m')), Et'. rewrite drop_drop, <-E2.
  rewrite (drop_S m' 0 p.2 Hz). apply cstr_app_nul. eapply Forall_impl; [exact Hw|]. by intros c [? _].
Qed.

Lemma reads_repr m m' c a :
  repr m c a → (∀ i, i ∈ word_ends c → m' !! i = Some 0) →
  (∀ i x, m !! i = Some x → wordchar x → m' !! i = Some x) → reads m' c a.
Proof.
  intros Hr Hz Hk. revert a Hr Hz.
  induction c as [argv|c IH q eq mode fd|c IHc d IHd|c IHc d IHd|c IH]; intros [] Hr Hz; try done; cbn in *.
  - clear -Hr Hz Hk. induction Hr as [|p w argv args Hp _ IH]; constructor.
    + apply (string_at_word m); [done| |done]. apply Hz. left.
    + apply IH. intros i Hi. apply Hz. by right.
  - destruct Hr as (Hc & Hw & ? & ?). split; [apply IH; [done|]; intros i Hi; apply Hz, elem_of_app; by left|].
    split; [|done]. apply (string_at_word m m' (q, eq)); [done| |done]. apply Hz, elem_of_app. right. left.
  - split; [apply IHc|apply IHd]; try apply Hr; intros i Hi; apply Hz, elem_of_app; auto.
  - split; [apply IHc|apply IHd]; try apply Hr; intros i Hi; apply Hz, elem_of_app; auto.
  - by apply IH.
Qed.

Lemma repr_ends m c a i : repr m c a → i ∈ word_ends c → ∃ x, m !! i = Some x ∧ ¬ wordchar x.
Proof.
  revert a. induction c as [argv|c IH q eq mode fd|c IHc d IHd|c IHc d IHd|c IH]; intros [] Hr Hi; try done; cbn in *.
  - induction Hr as [|p w argv args Hp _ IH]; [by apply not_elem_of_nil in Hi|].
    apply elem_of_cons in Hi as [->|Hi]; [by destruct Hp as (_ & _ & _ & ?)|by apply IH].
  - destruct Hr as (Hc & (_ & _ & _ & Hx) & _). apply elem_of_app in Hi as [Hi|Hi%list_elem_of_singleton]; [eauto|by subst].
  - destruct Hr. apply elem_of_app in Hi as [Hi|Hi]; eauto.
  - destruct Hr. apply elem_of_app in Hi as [Hi|Hi]; eauto.
  - eauto.
Qed.

Lemma nulterminate_reads m c a : repr m c a → reads (nulterminate c m) c a.
Proof.
  intros Hr. rewrite nulterminate_ends. apply (reads_repr m); [done| |].
  - intros i Hi. rewrite zeros_lookup, decide_True by done. by destruct (repr_ends m c a i Hr Hi) as (x & -> & _).
  - intros i x Hx Hw. rewrite zeros_lookup. case_decide as Hi; [|done].
    destruct (repr_ends m c a i Hr Hi) as (y & Hy & Hny). congruence.
Qed.

(** ** Lines and their tokens *)

Lemma space_nonzero c : is_space c → c ≠ 0.
Proof. intros Hc ->. by apply not_space_nul. Qed.

Lemma renders_nonul ts l : renders ts l → Forall (λ c, c ≠ 0) l ∧ (length ts ≤ length l)%nat ∧ Forall wf_token ts.
Proof.
  induction 1 as [|t w ts l Ht Hw Hs Hl (IH1 & IH2 & IH3)]; [split_and!; [constructor|done|constructor]|].
  destruct (chars_head t Ht) as (c & x & E & _). rewrite !length_app, E. cbn [length]. split_and!; [|lia|by constructor].
  rewrite <-E. apply Forall_app. split; [|apply Forall_app; split; [|done]].
  - destruct t; cbn; try (repeat constructor; discriminate). eapply Forall_impl; [apply Ht|]. by intros y [? _].
  - eapply Forall_impl; [exact Hw|]. apply space_nonzero.
Qed.

(** The longest prefix with a property. *)
Lemma span (P : Z → Prop) `{∀ c, Decision (P c)} (l : list Z) :
  ∃ w x, l = w ++ x ∧ Forall P w ∧ (x = [] ∨ ¬ P (hd0 x)).
Proof.
  induction l as [|c l (w & x & -> & Hw & Hx)]; [by exists [], []; split_and!; [|constructor|left]|].
  destruct (decide (P c)) as [Hc|Hc].
  - exists (c :: w), x. split_and!; [done|by constructor|done].
  - exists [], (c :: w ++ x). split_and!; [done|constructor|by right].
Qed.

(** The token a line starts with. *)
Lemma first_token c l :
  c ≠ 0 → ¬ is_space c →
  ∃ t x, c :: l = chars t ++ x ∧ wf_token t ∧
    match t with Word _ => x = [] ∨ ¬ wordchar (hd0 x) | TGt => hd0 x ≠ ch ">" | _ => True end.
Proof.
  intros H0 Hs. destruct (decide (is_symbol c)) as [Hc|Hc].
  - unfold is_symbol in Hc. cbn in Hc. rewrite !elem_of_cons, elem_of_nil in Hc.
    destruct Hc as [->|[->|[->|[->|[->|[->|[->|[]]]]]]]].
    + by exists TLt, l. + by exists TBar, l.
    + destruct (decide (hd0 l = ch ">")) as [E|E]; [|by exists TGt, l].
      destruct l as [|d l]; [discriminate E|]. cbn in E. subst d. by exists TGtGt, l.
    + by exists TAmp, l. + by exists TSemi, l. + by exists TOpen, l. + by exists TClose, l.
  - destruct (span wordchar (c :: l)) as (w & x & E & Hw & Hx). exists (Word w), x. split_and!; [done| |done].
    split; [|done]. intros ->. cbn in E. destruct Hx as [->|Hx]; [done|]. apply Hx. by rewrite <-E.
Qed.

Lemma sep_head t ts l :
  renders ts l →
  match t with Word _ => l = [] ∨ ¬ wordchar (hd0 l) | TGt => hd0 l ≠ ch ">" | _ => True end → sep t ts.
Proof.
  intros [|t' w ts' l' Ht' _ _ _] Hl; [by destruct t|]. destruct t, t'; try done.
  destruct Ht' as [Hne Hw]. destruct w1 as [|c x]; [done|]. apply Forall_cons in Hw as [Hc _].
  by destruct Hl as [?|[]].
Qed.

(** Every line spells tokens. *)
Lemma lex_total l : Forall (λ c, c ≠ 0) l → ∃ ts, spells ts l.
Proof.
  induction l as [l IH] using (induction_ltof1 _ length). intros Hl.
  destruct (span is_space l) as (w & x & -> & Hw & Hx). apply Forall_app in Hl as [_ Hl].
  destruct x as [|c x]; [exists [], w, []; split_and!; [done|done|constructor]|].
  destruct Hx as [?|Hc]; [done|]. apply Forall_cons in Hl as [H0 Hl].
  destruct (first_token c x H0 Hc) as (t & y & E & Ht & Hy).
  assert (chars t ≠ []) as Hne by (by destruct (chars_head t Ht) as (? & ? & -> & _)).
  assert (Forall (λ c, c ≠ 0) y) as Hyn.
  { assert (Forall (λ c, c ≠ 0) (c :: x)) as Ha by (by constructor). rewrite E in Ha. by apply Forall_app in Ha as [_ ?]. }
  destruct (IH y) as (ts & w' & z & -> & Hw' & Hr); [|done|].
  { unfold ltof. rewrite E, !length_app. destruct (chars t); [done|cbn; lia]. }
  exists (t :: ts), w, (c :: x). split_and!; [done|done|]. rewrite E. constructor; [done|done| |done].
  intros ->. by apply (sep_head t ts z).
Qed.

(** ** The parser on a line *)

Lemma strlen_nul l r : Forall (λ c, c ≠ 0) l → strlen (l ++ 0 :: r) = Some (Z.of_nat (length l)).
Proof.
  induction 1 as [|c l Hc _ IH]; [done|]. cbn [app strlen length]. rewrite (proj2 (Z.eqb_neq c 0) Hc), IH. cbn. f_equal. lia.
Qed.

(** The white space before the line is skipped first. *)
Lemma parseline_skip fuel m es s s1 :
  (∀ l, peek m es s l = peek m es s1 l) → parseline (S (S (S fuel))) m es s = parseline (S (S (S fuel))) m es s1.
Proof. intros E. cbn [parseline parsepipe parseexec]. by rewrite E. Qed.

Lemma peek_skip m es s w ts :
  (∃ l, drop s m = w ++ l) → Forall is_space w → st m es (s + length w) ts → ∀ l, peek m es s l = peek m es (s + length w) l.
Proof.
  intros [y E] Hw Hs l. destruct Hs as (x & r & Ex & Hes & Hr). destruct (renders_head ts x r Hr) as [Hh Hn].
  assert (drop s m = w ++ x ++ 0 :: r) as E'.
  { rewrite E. f_equal. rewrite <-Ex, <-drop_drop, E. by rewrite drop_app_length. }
  unfold peek. rewrite (skip_space_spec (es - s) m s w _ E'); [|apply app_nul_ne|done|by rewrite Hh|lia].
  rewrite (skip_space_spec (es - (s + length w)) m (s + length w) [] _ Ex); [|apply app_nul_ne|constructor|by rewrite Hh|cbn; lia].
  by rewrite Nat.add_0_r.
Qed.

Lemma parsecmd_line ts l r :
  spells ts l →
  ∃ s, st (l ++ 0 :: r) (length l) s ts ∧ (4 * length ts + 4 ≤ parse_fuel (length l))%nat ∧
    parsecmd (l ++ 0 :: r) =
      (let* (c, s) := parseline (parse_fuel (length l)) (l ++ 0 :: r) (length l) s in
       let '(_, s) := peek (l ++ 0 :: r) (length l) s [] in
       if negb (s =? length l)%nat then Die (leftovers (drop s (l ++ 0 :: r))) else Ok (c, nulterminate c (l ++ 0 :: r))).
Proof.
  intros (w & x & -> & Hw & Hr). destruct (renders_nonul ts x Hr) as (Hx & Hlen & _).
  set (m := (w ++ x) ++ 0 :: r). assert (drop (length w) m = x ++ 0 :: r) as E.
  { unfold m. by rewrite <-app_assoc, drop_app_length. }
  assert (st m (length (w ++ x)) (length w) ts) as Hs by (exists x, r; rewrite length_app; done).
  exists (length w). split; [done|]. split; [unfold parse_fuel; rewrite length_app; lia|].
  unfold parsecmd. unfold m at 1. rewrite strlen_nul.
  2: { apply Forall_app. split; [|done]. eapply Forall_impl; [exact Hw|]. apply space_nonzero. }
  rewrite Nat2Z.id. unfold parse_fuel. rewrite !(Nat.add_comm _ 8). cbn [Nat.add].
  rewrite (parseline_skip _ m _ 0 (length w)); [done|]. apply (peek_skip m _ 0 w ts); [|done|done].
  exists (x ++ 0 :: r). unfold m. by rewrite <-app_assoc.
Qed.

(** The end of parsecmd(): the whole line must have been taken. *)
Lemma parse_end m es s ts l : st m es s ts → peek m es s l = (negb (first_char ts =? 0) && has l (first_char ts), s) ∧ ((s =? es)%nat = true ↔ ts = []).
Proof.
  intros Hs. split; [by apply peek_spec|]. destruct Hs as (x & r & _ & Hes & Hr).
  destruct (renders_nonul ts x Hr) as (_ & Hlen & _). rewrite Nat.eqb_eq. split.
  - intros ->. destruct ts; [done|]. cbn in Hlen. lia.
  - intros ->. inversion Hr. subst. cbn. lia.
Qed.

Lemma gline_wf a ts : gline a ts → Forall wf_token ts → wf_ast a.
Proof.
  assert (∀ a rs, wf_ast a → Forall wf_token (rtoks rs) → wf_ast (redir_all a rs)) as Hr.
  { intros a' rs. revert a'. induction rs as [|[k f] rs IH]; intros a' Ha Hrs; [done|].
    cbn in Hrs. apply Forall_cons in Hrs as [_ [Hf Hrs]%Forall_cons]. by apply IH. }
  revert a ts.
  apply (gline_mind (λ a ts, Forall wf_token ts → wf_ast a) (λ a ts, Forall wf_token ts → wf_ast a)
           (λ a ts, Forall wf_token ts → wf_ast a) (λ a ts, Forall wf_token ts → wf_ast a)); intros; cbn;
    repeat match goal with H : Forall wf_token (_ ++ _) |- _ => apply Forall_app in H as [? ?]
                         | H : Forall wf_token (_ :: _) |- _ => apply Forall_cons in H as [? ?] end; auto.
  apply Hr; [split|].
  - rewrite Forall_forall. intros w (g & -> & Hg)%list_elem_of_fmap.
    match goal with H : Forall wf_token (gtoks gs) |- _ => revert H end. rewrite Forall_forall. intros Hall.
    apply (Hall (Word g.1)). apply list_elem_of_bind. exists g. split; [left|done].
  - by rewrite length_fmap.
  - unfold rtoks. rewrite bind_app. apply Forall_app. split; [done|].
    match goal with H : Forall wf_token (gtoks gs) |- _ => revert H end. clear. unfold gtoks.
    induction gs as [|g gs IH]; [done|]. cbn. intros [_ [H1 H2]%Forall_app]%Forall_cons.
    rewrite bind_app. apply Forall_app. split; [done|by apply IH].
Qed.

(** ** Theorems *)

Lemma parsecmd_sound ts l r :
  spells ts l →
  (∃ msg, parsecmd (l ++ 0 :: r) = Die msg) ∨
  (∃ a c m', gline a ts ∧ parsecmd (l ++ 0 :: r) = Ok (c, m') ∧ reads m' c a).
Proof.
  intros Hl. destruct (parsecmd_line ts l r Hl) as (s & Hs & Hf & ->).
  destruct (proj1 (parse_total (l ++ 0 :: r) (length l) _) s ts Hs Hf)
    as [[msg ->]|(c & s' & a & used & ts' & -> & -> & Hs' & Hr & Hg)]; [by left; eexists|].
  cbn [rbind]. destruct (parse_end _ _ _ _ [] Hs') as [-> He].
  destruct (s' =? length l)%nat; [|by left; eexists]. right. rewrite (proj1 He eq_refl), app_nil_r.
  exists a, c, (nulterminate c (l ++ 0 :: r)). split_and!; [done|done|by apply nulterminate_reads].
Qed.

Lemma parsecmd_complete ts l r a :
  spells ts l → gline a ts → ∃ c m', parsecmd (l ++ 0 :: r) = Ok (c, m') ∧ reads m' c a.
Proof.
  intros Hl Hg. destruct (parsecmd_line ts l r Hl) as (s & Hs & Hf & ->).
  destruct (parse_complete (l ++ 0 :: r) (length l) a ts Hg _ s [] Hf I) as (c & s' & -> & Hr & Hs'); [by rewrite app_nil_r|].
  cbn [rbind]. destruct (parse_end _ _ _ _ [] Hs') as [-> He]. rewrite (proj2 He eq_refl).
  exists c, (nulterminate c (l ++ 0 :: r)). split; [done|by apply nulterminate_reads].
Qed.

(** C5: parsecmd() accepts exactly the command lines of the shell's grammar,
    however they are spaced: on a line with a derivation it returns that command,
    with its words as NUL-terminated strings in the buffer, and on any other it
    ends the shell with a message. *)
Theorem parsecmd_correct ts l r :
  spells ts l →
  (∀ a, gline a ts → ∃ c m', parsecmd (l ++ 0 :: r) = Ok (c, m') ∧ reads m' c a) ∧
  ((∀ a, ¬ gline a ts) → ∃ msg, parsecmd (l ++ 0 :: r) = Die msg).
Proof.
  intros Hl. split; [intros a; by apply parsecmd_complete|].
  intros Hn. destruct (parsecmd_sound ts l r Hl) as [?|(a & c & m' & Hg & _)]; [done|]. by destruct (Hn a).
Qed.

(** parsecmd() terminates on every line: it ends the shell with a message, or
    returns a command whose words are words of the line and whose argument
    arrays have room for the null pointer. *)
Theorem parsecmd_total l r :
  Forall (λ c, c ≠ 0) l →
  (∃ msg, parsecmd (l ++ 0 :: r) = Die msg) ∨
  (∃ ts a c m', spells ts l ∧ gline a ts ∧ parsecmd (l ++ 0 :: r) = Ok (c, m') ∧ reads m' c a ∧ wf_ast a).
Proof.
  intros Hl. destruct (lex_total l Hl) as [ts Hts].
  destruct (parsecmd_sound ts l r Hts) as [?|(a & c & m' & Hg & E & Hr)]; [by left|].
  right. exists ts, a, c, m'. split_and!; try done. destruct Hts as (w & x & _ & _ & Hx).
  by apply (gline_wf a ts), (renders_nonul ts x).
Qed.

(** ** The tokens of a command *)

(** How tightly a context binds. *)
Inductive level := LLine | LBack | LPipe | LExec.

Definition paren (b : bool) (ts : list token) : list token := if b then TOpen :: ts ++ [TClose] else ts.

(** The tokens of a command, in parentheses where the context asks for them. *)
Fixpoint toks (a : ast) (lv : level) : list token :=
  match a with
  | AExec args => Word <$> args
  | ARedir a k file => toks a LExec ++ [rtok k; Word file]
  | APipe l r => paren (match lv with LExec => true | _ => false end) (toks l LExec ++ TBar :: toks r LPipe)
  | ABack a => paren (match lv with LExec | LPipe => true | _ => false end) (toks a LBack ++ [TAmp])
  | AList l r => paren (match lv with LLine => false | _ => true end) (toks l LBack ++ TSemi :: toks r LLine)
  end.

Lemma gexec_redir a ts k f : gexec a ts → gexec (ARedir a k f) (ts ++ [rtok k; Word f]).
Proof.
  destruct 1 as [rs gs Hl|a ts rs Hg].
  - destruct gs as [|[w ws] gs _] using rev_ind.
    + rewrite !app_nil_r. pose proof (gexec_simple (rs ++ [(k, f)]) [] Hl) as Hg.
      rewrite !app_nil_r, redir_all_app in Hg. unfold rtoks in *. rewrite bind_app in Hg. exact Hg.
    + pose proof (gexec_simple rs (gs ++ [(w, ws ++ [(k, f)])])) as Hg.
      rewrite length_app in Hl, Hg. specialize (Hg Hl). unfold gtoks, rtoks in *.
      rewrite !fmap_app, !concat_app, !bind_app in *. cbn in *. rewrite !app_nil_r in *.
      rewrite bind_app in Hg. cbn in Hg. rewrite !app_assoc in *. rewrite redir_all_app in Hg. cbn in Hg.
      rewrite <-!app_assoc in *. cbn in *. exact Hg.
  - pose proof (gexec_block a ts (rs ++ [(k, f)]) Hg) as Hg'. unfold rtoks in *. rewrite bind_app, redir_all_app in Hg'.
    cbn [app]. rewrite <-app_assoc. exact Hg'.
Qed.

Lemma gexec_paren a ts : gline a ts → gexec a (TOpen :: ts ++ [TClose]).
Proof. intros Hg. exact (gexec_block a ts [] Hg). Qed.

(** Words without redirections. *)
Lemma plain_words (args : list (list Z)) :
  let gs := (λ w, (w, @nil (rkind * list Z))) <$> args in
  gs.*1 = args ∧ concat gs.*2 = [] ∧ gtoks gs = Word <$> args.
Proof.
  induction args as [|w args (E1 & E2 & E3)]; [done|]. cbn in *. rewrite E1, E2. split_and!; [done..|].
  unfold gtoks in *. cbn. by rewrite E3.
Qed.

Lemma toks_grammar a :
  wf_ast a → gline a (toks a LLine) ∧ gback a (toks a LBack) ∧ gpipe a (toks a LPipe) ∧ gexec a (toks a LExec).
Proof.
  assert (∀ a ts, gexec a ts → gline a ts ∧ gback a ts ∧ gpipe a ts ∧ gexec a ts) as Hup
    by (intros b ts Hb; split_and!; auto using gline_back, gback_pipe, gpipe_exec).
  induction a as [args|a IH k f|l IHl r IHr|l IHl r IHr|a IH]; cbn [wf_ast]; intros Hw.
  - apply Hup. pose proof (gexec_simple [] ((λ w, (w, [])) <$> args)) as Hg. rewrite length_fmap in Hg.
    destruct (plain_words args) as (E1 & E2 & E3). rewrite E1, E2, E3 in Hg. exact (Hg (proj2 Hw)).
  - apply Hup. apply gexec_redir. by apply IH, Hw.
  - destruct Hw as [Hl Hr]. destruct (IHl Hl) as (_ & _ & _ & ?). destruct (IHr Hr) as (_ & _ & ? & _).
    cbn [toks paren]. assert (gpipe (APipe l r) (toks l LExec ++ TBar :: toks r LPipe)) by (by constructor).
    split_and!; auto using gline_back, gback_pipe, gexec_paren.
  - destruct Hw as [Hl Hr]. destruct (IHl Hl) as (_ & ? & _). destruct (IHr Hr) as (? & _).
    cbn [toks paren]. assert (gline (AList l r) (toks l LBack ++ TSemi :: toks r LLine)) by (by constructor).
    split; [done|]. by apply Hup, gexec_paren.
  - destruct (IH Hw) as (_ & ? & _). cbn [toks paren].
    assert (gback (ABack a) (toks a LBack ++ [TAmp])) by (by constructor).
    split_and!; auto using gline_back, gpipe_exec, gexec_paren.
Qed.

(** ** Witnesses *)

Definition ex_line : list Z := str " echo hi>>f|( wc<g ;ls & )".
Definition ex_ast : ast :=
  APipe (ARedir (AExec [str "echo"; str "hi"]) RAppend (str "f"))
    (AList (ARedir (AExec [str "wc"]) RIn (str "g")) (ABack (AExec [str "ls"]))).
Definition ex_tokens : list token := toks ex_ast LLine.

Lemma ex_ast_wf : wf_ast ex_ast.
Proof.
  assert (∀ w, bool_decide (word w) = true → word w) as Hw by (intros w Hw; by apply bool_decide_eq_true_1 in Hw).
  unfold ex_ast. cbn [wf_ast].
  repeat match goal with |- _ ∧ _ => split | |- Forall _ _ => constructor end;
    try (apply Hw; vm_compute; reflexivity); cbn; unfold MAXARGS; lia.
Qed.

(** Side conditions of a concrete token. *)
Ltac token_tac :=
  solve [done | apply (bool_decide_eq_true_1 (word _)); vm_compute; reflexivity
        | apply (bool_decide_eq_true_1 (Forall is_space _)); vm_compute; reflexivity].

Lemma ex_spells : spells ex_tokens ex_line.
Proof.
  exists [32], (tail ex_line). split; [reflexivity|]. split; [token_tac|].
  apply (renders_cons (Word (str "echo")) [32]); [token_tac..|].
  apply (renders_cons (Word (str "hi")) []); [token_tac..|].
  apply (renders_cons TGtGt []); [token_tac..|].
  apply (renders_cons (Word (str "f")) []); [token_tac..|].
  apply (renders_cons TBar []); [token_tac..|].
  apply (renders_cons TOpen [32]); [token_tac..|].
  apply (renders_cons (Word (str "wc")) []); [token_tac..|].
  apply (renders_cons TLt []); [token_tac..|].
  apply (renders_cons (Word (str "g")) [32]); [token_tac..|].
  apply (renders_cons TSemi []); [token_tac..|].
  apply (renders_cons (Word (str "ls")) [32]); [token_tac..|].
  apply (renders_cons TAmp [32]); [token_tac..|].
  apply (renders_cons TClose [] [] []); [token_tac..|constructor].
Qed.

Lemma parsecmd_correct_witness :
  gline ex_ast ex_tokens ∧ ∃ c m', parsecmd (ex_line ++ 0 :: []) = Ok (c, m') ∧ reads m' c ex_ast.
Proof.
  assert (gline ex_ast ex_tokens) as Hg by apply (toks_grammar ex_ast ex_ast_wf).
  split; [exact Hg|]. exact (proj1 (parsecmd_correct ex_tokens ex_line [] ex_spells) ex_ast Hg).
Defined.

Lemma parsecmd_total_witness :
  (∃ msg, parsecmd (str "a|;b" ++ 0 :: []) = Die msg) ∨
  (∃ ts a c m', spells ts (str "a|;b") ∧ gline a ts ∧ parsecmd (str "a|;b" ++ 0 :: []) = Ok (c, m') ∧ reads m' c a ∧ wf_ast a).
Proof. apply (parsecmd_total (str "a|;b") []). repeat constructor; discriminate. Defined.
