(* ===== verification/ShRun.v ===== *)
(** * Running commands (user/sh.c: runcmd, getcmd, main)

    A process is the tree of the system calls it makes, with a branch for each
    result that the code tells apart.  Processes run interleaved and any call
    may fail; a descriptor table gives the lowest free descriptor, as the
    kernel's fdalloc() does. *)

From Stdlib Require Import ZArith Lia.
From stdpp Require Import base numbers strings option list relations gmap.
From S2P Require Import Prelude Params Machine Cstring Ulib Sh.

Open Scope Z_scope.

Inductive prog :=
  | Exit (status : Z)
  | Exec (argv : list (list Z)) (failed : prog)
  | Fork (child parent failed : prog)
  | Wait (k : prog)
  | Open (file : list Z) (mode : Z) (ok : nat → prog) (failed : prog)
  | Close (fd : nat) (k : prog)
  | Dup (fd : nat) (k : prog)
  | Pipe (ok : nat → nat → prog) (failed : prog)
  | Chdir (dir : list Z) (ok failed : prog)
  | Write (fd : nat) (text : list Z) (k : prog).

(** ** The code *)

Definition panic (s : string) : prog := Write 2 (panic_text s) (Exit 1).

Definition fork1 (child parent : prog) : prog := Fork child parent (panic "fork").

Fixpoint runcmd (m : list Z) (c : cmd) : prog :=
  match c with
  | EXEC argv =>
      match (λ p, cstr (drop p.1 m)) <$> argv with
      | [] => Exit 1
      | w :: ws => Exec (w :: ws) (Write 2 (vprintf ("exec %s failed" +:+ nl) [VStr (Some w)]) (Exit 0))
      end
  | REDIR c file _ mode fd =>
      Close (Z.to_nat fd)
        (Open (cstr (drop file m)) mode (λ _, runcmd m c)
           (Write 2 (vprintf ("open %s failed" +:+ nl) [VStr (Some (cstr (drop file m)))]) (Exit 1)))
  | LIST l r => fork1 (runcmd m l) (Wait (runcmd m r))
  | PIPE l r =>
      Pipe (λ p0 p1,
        fork1 (Close 1 (Dup p1 (Close p0 (Close p1 (runcmd m l)))))
          (fork1 (Close 0 (Dup p0 (Close p0 (Close p1 (runcmd m r)))))
             (Close p0 (Close p1 (Wait (Wait (Exit 0)))))))
        (panic "pipe")
  | BACK c => fork1 (runcmd m c) (Exit 0)
  end.

Section main.
Context {St : Type} `{!Stream St}.

(** The buffer of 100 bytes: the line, its NUL, and zeroes; [None] at the end of
    the input. *)
Definition getcmd (s : St) : option (list Z) * St :=
  let '(l, s) := gets 100 s in
  let buf := l ++ replicate (100 - length l) 0 in
  (if default 0 (head buf) =? 0 then None else Some buf, s).

(** The child of main()'s loop. *)
Definition run_line (buf : list Z) : prog :=
  match parsecmd buf with
  | Ok (c, m) => runcmd m c
  | Die msg => Write 2 msg (Exit 1)
  | Stuck => Exit (-1)
  end.

(** The directory after cd, without the last character of the line. *)
Definition cd_dir (buf : list Z) : option (list Z) :=
  match buf with
  | c :: d :: e :: dir =>
      if (c =? ch "c") && (d =? ch "d") && (e =? ch " ") then Some (take (length (cstr buf) - 4) dir) else None
  | _ => None
  end.

Fixpoint main_loop (fuel : nat) (s : St) : prog :=
  match fuel with
  | O => Exit (-1)
  | S fuel =>
      Write 2 (str "$ ")
        (let '(line, s) := getcmd s in
         match line with
         | None => Exit 0
         | Some buf =>
             match cd_dir buf with
             | Some dir =>
                 Chdir dir (main_loop fuel s)
                   (Write 2 (vprintf ("cannot cd %s" +:+ nl) [VStr (Some dir)]) (main_loop fuel s))
             | None => fork1 (run_line buf) (Wait (main_loop fuel s))
             end
         end)
  end.

(** Opens the console until there are three descriptors: at most four times. *)
Fixpoint open_console (fuel : nat) (k : prog) : prog :=
  match fuel with
  | O => Exit (-1)
  | S fuel =>
      Open (str "console") O_RDWR (λ fd, if (3 <=? fd)%nat then Close fd k else open_console fuel k) k
  end.

(** Each line takes at least one byte of the input. *)
Definition main (s : St) : prog := open_console 4 (main_loop (S (length (rest s))) s).
End main.

(** ** Processes *)

(** What a descriptor refers to. *)
Inductive obj := File (name : list Z) (mode : Z) | PipeR (id : nat) | PipeW (id : nat).
Definition fdtable : Type := list (option obj).

Fixpoint fdalloc (o : obj) (t : fdtable) : option (nat * fdtable) :=
  match t with
  | [] => None
  | None :: t => Some (O, Some o :: t)
  | x :: t => '(fd, t) ← fdalloc o t; Some (S fd, x :: t)
  end.

Definition close (fd : nat) (t : fdtable) : fdtable := <[fd := None]> t.

(** Without effect when the descriptor is not open or no other is free. *)
Definition dup (fd : nat) (t : fdtable) : fdtable :=
  match t !! fd with
  | Some (Some o) => match fdalloc o t with Some (_, t) => t | None => t end
  | _ => t
  end.

(** One call of a process, in a machine that has made [n] pipes: the processes
    it leaves.  A successful exec() leaves the shell's code. *)
Inductive call : prog → fdtable → nat → list (prog * fdtable) → nat → Prop :=
  | call_exit status t n : call (Exit status) t n [] n
  | call_exec argv k t n : call (Exec argv k) t n [] n
  | call_exec_fails argv k t n : call (Exec argv k) t n [(k, t)] n
  | call_fork p q f t n : call (Fork p q f) t n [(p, t); (q, t)] n
  | call_fork_fails p q f t n : call (Fork p q f) t n [(f, t)] n
  | call_wait k t n : call (Wait k) t n [(k, t)] n
  | call_open file mode ok f t n fd t' :
      fdalloc (File file mode) t = Some (fd, t') → call (Open file mode ok f) t n [(ok fd, t')] n
  | call_open_fails file mode ok f t n : call (Open file mode ok f) t n [(f, t)] n
  | call_close fd k t n : call (Close fd k) t n [(k, close fd t)] n
  | call_dup fd k t n : call (Dup fd k) t n [(k, dup fd t)] n
  | call_pipe ok f t n r t1 w t2 :
      fdalloc (PipeR n) t = Some (r, t1) → fdalloc (PipeW n) t1 = Some (w, t2) →
      call (Pipe ok f) t n [(ok r w, t2)] (S n)
  | call_pipe_fails ok f t n : call (Pipe ok f) t n [(f, t)] n
  | call_chdir dir ok f t n : call (Chdir dir ok f) t n [(ok, t)] n
  | call_chdir_fails dir ok f t n : call (Chdir dir ok f) t n [(f, t)] n
  | call_write fd text k t n : call (Write fd text k) t n [(k, t)] n.

Definition procs : Type := list (prog * fdtable) * nat.

(** Any process makes its next call. *)
Inductive sched : procs → procs → Prop :=
  | sched_call ps p t qs n new n' : call p t n new n' → sched (ps ++ (p, t) :: qs, n) (ps ++ new ++ qs, n').

(** ** What a command should start

    The programs of a command, each with its three descriptors; a pipe connects
    the output of its left to the input of its right. *)

Record wires := mkWires { stdin : obj; stdout : obj; stderr : obj }.

(** The table with these descriptors and no other. *)
Definition table (w : wires) : fdtable :=
  [Some (stdin w); Some (stdout w); Some (stderr w)] ++ replicate (NOFILE - 3) None.

Definition redirect (k : rkind) (file : list Z) (w : wires) : wires :=
  match k with
  | RIn => mkWires (File file (rmode k)) (stdout w) (stderr w)
  | _ => mkWires (stdin w) (File file (rmode k)) (stderr w)
  end.

Inductive wired : ast → wires → list (list Z) → wires → Prop :=
  | wired_exec argv w : argv ≠ [] → wired (AExec argv) w argv w
  | wired_redir a k file w argv w' : wired a (redirect k file w) argv w' → wired (ARedir a k file) w argv w'
  | wired_left l r n w argv w' :
      wired l (mkWires (stdin w) (PipeW n) (stderr w)) argv w' → wired (APipe l r) w argv w'
  | wired_right l r n w argv w' :
      wired r (mkWires (PipeR n) (stdout w) (stderr w)) argv w' → wired (APipe l r) w argv w'
  | wired_first l r w argv w' : wired l w argv w' → wired (AList l r) w argv w'
  | wired_second l r w argv w' : wired r w argv w' → wired (AList l r) w argv w'
  | wired_back a w argv w' : wired a w argv w' → wired (ABack a) w argv w'.

(** ** Every program is wired as the command says *)

(** [Q] holds of each exec() that the process or one of its children may make. *)
Fixpoint sat (Q : list (list Z) → fdtable → Prop) (p : prog) (t : fdtable) : Prop :=
  match p with
  | Exit _ => True
  | Exec argv k => Q argv t ∧ sat Q k t
  | Fork p q f => sat Q p t ∧ sat Q q t ∧ sat Q f t
  | Wait k | Write _ _ k => sat Q k t
  | Open file mode ok f => (∀ fd t', fdalloc (File file mode) t = Some (fd, t') → sat Q (ok fd) t') ∧ sat Q f t
  | Close fd k => sat Q k (close fd t)
  | Dup fd k => sat Q k (dup fd t)
  | Pipe ok f =>
      (∀ n r t1 w t2, fdalloc (PipeR n) t = Some (r, t1) → fdalloc (PipeW n) t1 = Some (w, t2) → sat Q (ok r w) t2) ∧
      sat Q f t
  | Chdir _ ok f => sat Q ok t ∧ sat Q f t
  end.

Lemma call_sat Q p t n new n' : call p t n new n' → sat Q p t → Forall (λ x, sat Q x.1 x.2) new.
Proof. destruct 1; cbn; intros Hs; repeat (apply Forall_cons; split); try apply Forall_nil; cbn; naive_solver. Qed.

Lemma sched_sat Q c c' :
  rtc sched c c' → Forall (λ x, sat Q x.1 x.2) c.1 → Forall (λ x, sat Q x.1 x.2) c'.1.
Proof.
  induction 1 as [|c c1 c2 Hc _ IH]; [done|]. intros Hs. apply IH. destruct Hc as [ps p t qs n new n' Hcall]. cbn in *.
  apply Forall_app in Hs as [H1 [H2 H3]%Forall_cons]. rewrite !Forall_app. split_and!; [done| |done].
  by apply (call_sat Q p t n new n').
Qed.

Lemma sat_mono Q Q' p t : (∀ argv t, Q argv t → Q' argv t) → sat Q p t → sat Q' p t.
Proof. intros HQ. revert t. induction p; cbn; intros t Hs; naive_solver. Qed.

(** *** Descriptors of a table *)

Lemma redirect_table k file w :
  fdalloc (File file (rmode k)) (close (Z.to_nat (rfd k)) (table w)) = Some (Z.to_nat (rfd k), table (redirect k file w)).
Proof. by destruct k. Qed.

(** The table after pipe(). *)
Definition piped (n : nat) (w : wires) : fdtable :=
  [Some (stdin w); Some (stdout w); Some (stderr w); Some (PipeR n); Some (PipeW n)] ++ replicate (NOFILE - 5) None.

Lemma pipe_table n w :
  ∃ t1, fdalloc (PipeR n) (table w) = Some (3%nat, t1) ∧ fdalloc (PipeW n) t1 = Some (4%nat, piped n w).
Proof. by eexists. Qed.

Lemma left_table n w :
  close 4 (close 3 (dup 4 (close 1 (piped n w)))) = table (mkWires (stdin w) (PipeW n) (stderr w)).
Proof. reflexivity. Qed.
Lemma right_table n w :
  close 4 (close 3 (dup 3 (close 0 (piped n w)))) = table (mkWires (PipeR n) (stdout w) (stderr w)).
Proof. reflexivity. Qed.

Definition starts_wired (a : ast) (w : wires) (argv : list (list Z)) (t : fdtable) : Prop :=
  ∃ w', t = table w' ∧ wired a w argv w'.

Lemma runcmd_sat m c a w : reads m c a → sat (starts_wired a w) (runcmd m c) (table w).
Proof.
  revert a w. induction c as [argv|c IH q eq mode fd|c IHc d IHd|c IHc d IHd|c IH]; intros a w Hr;
    destruct a as [args|a k file|a b|a b|a]; try done; cbn [reads runcmd] in *.
  - assert ((λ p, cstr (drop p.1 m)) <$> argv = args) as ->.
    { induction Hr as [|p x argv args Hp _ IH]; [done|]. cbn. by rewrite Hp, IH. }
    destruct args as [|x args]; [done|]. split; [|done]. exists w. split; [done|]. by constructor.
  - destruct Hr as (Hc & Hf & -> & ->). cbn [sat]. unfold string_at in Hf. rewrite Hf. split; [|done].
    intros fd' t' E. rewrite redirect_table in E. injection E as <- <-.
    eapply sat_mono; [|by apply (IH a)]. intros argv t (w' & -> & Hw). exists w'. split; [done|by constructor].
  - destruct Hr as [Hc Hd]. cbn [sat fork1]. split; [|done]. intros n r t1 v t2 E1 E2.
    destruct (pipe_table n w) as (t1' & E1' & E2'). rewrite E1 in E1'. injection E1' as -> ->. rewrite E2 in E2'.
    injection E2' as -> ->. rewrite left_table, right_table. split_and!; try done.
    + eapply sat_mono; [|by apply (IHc a)]. intros argv t (w' & -> & Hw). exists w'. split; [done|by eapply wired_left].
    + eapply sat_mono; [|by apply (IHd b)]. intros argv t (w' & -> & Hw). exists w'. split; [done|by eapply wired_right].
  - destruct Hr as [Hc Hd]. cbn [sat fork1]. split_and!; try done.
    + eapply sat_mono; [|by apply (IHc a)]. intros argv t (w' & -> & Hw). exists w'. split; [done|by apply wired_first].
    + eapply sat_mono; [|by apply (IHd b)]. intros argv t (w' & -> & Hw). exists w'. split; [done|by apply wired_second].
  - cbn [sat fork1]. split_and!; try done.
    eapply sat_mono; [|by apply (IH a)]. intros argv t (w' & -> & Hw). exists w'. split; [done|by constructor].
Qed.

(** C13: whatever calls fail and however the processes of a command line are
    interleaved, a process that executes a program of it does so with the
    descriptors the command says, 0, 1 and 2 alone: no program is left holding
    an end of a pipe that is not its own. *)
Theorem runcmd_wired ts l a r w n ps n' argv k t :
  spells ts l → gline a ts →
  rtc sched ([(run_line (l ++ 0 :: r), table w)], n) (ps, n') → (Exec argv k, t) ∈ ps →
  ∃ w', t = table w' ∧ wired a w argv w'.
Proof.
  intros Hl Hg Hrun Hin. destruct (parsecmd_complete ts l r a Hl Hg) as (c & m' & E & Hr).
  unfold run_line in Hrun. rewrite E in Hrun. apply (sched_sat (starts_wired a w)) in Hrun.
  - cbn in Hrun. rewrite Forall_forall in Hrun. by apply (Hrun _ Hin).
  - constructor; [by apply runcmd_sat|constructor].
Qed.

(** ** The lines a shell reads *)

(** What a line makes the shell run. *)
Definition is_cd (l : list Z) : Prop := take 3 l = str "cd ".
Inductive means : list Z → option ast → Prop :=
  | means_cd l : is_cd l → means l None
  | means_run l ts a : ¬ is_cd l → spells ts (l ++ [10]) → gline a ts → means l (Some a)
  | means_nothing l : ¬ is_cd l → (∀ ts a, spells ts (l ++ [10]) → ¬ gline a ts) → means l None.

(** A line as it is typed, with room for it in the buffer. *)
Definition typed (l : list Z) : Prop := Forall (λ c, c ≠ 0 ∧ c ≠ 10 ∧ c ≠ 13) l ∧ (length l ≤ 98)%nat.
#[export] Instance typed_dec l : Decision (typed l) := _.

Section session.
Context {St : Type} `{!Stream St}.

Lemma read_byte (s : St) c r : rest s = c :: r → ∃ s', read s 1 = ([c], s') ∧ rest s' = r.
Proof.
  intros E. pose proof (read_rest s 1) as H1. pose proof (read_le s 1) as H2.
  pose proof (read_some s 1 ltac:(lia) ltac:(by rewrite E)) as H3.
  destruct (read s 1) as [[|d [|? ?]] s']; cbn in *; [done| |lia]. exists s'. rewrite E in H1. by injection H1 as <- <-.
Qed.

Lemma gets_loop_line k (s : St) l r :
  rest s = l ++ 10 :: r → Forall (λ c, c ≠ 0 ∧ c ≠ 10 ∧ c ≠ 13) l → (length l < k)%nat →
  ∃ s', gets_loop k s = (l ++ [10], s') ∧ rest s' = r.
Proof.
  revert k s. induction l as [|c l IH]; intros k s E Hl Hk; (destruct k as [|k]; [cbn in Hk; lia|]); cbn [gets_loop].
  - destruct (read_byte s 10 r E) as (s' & -> & Hs'). by exists s'.
  - apply Forall_cons in Hl as [(_ & H1 & H2) Hl]. destruct (read_byte s c _ E) as (s' & -> & Hs').
    rewrite (proj2 (Z.eqb_neq c 10) H1), (proj2 (Z.eqb_neq c 13) H2). cbn [orb].
    destruct (IH k s' Hs' Hl) as (s2 & -> & Hs2); [cbn in Hk; lia|]. by exists s2.
Qed.

Lemma getcmd_line (s : St) l r :
  rest s = l ++ 10 :: r → typed l →
  ∃ s' z, getcmd s = (Some ((l ++ [10]) ++ 0 :: z), s') ∧ rest s' = r.
Proof.
  intros E [Hl Hlen]. destruct (gets_loop_line 99 s l r E Hl) as (s' & Eg & Hs'); [lia|].
  unfold getcmd, gets. change (Z.to_nat (100 - 1)) with 99%nat. rewrite Eg.
  exists s', (replicate (100 - length ((l ++ [10]) ++ [0])) 0). split; [|exact Hs'].
  rewrite <-(app_assoc (l ++ [10])). cbn [app]. destruct l as [|c l]; [done|]. cbn [app head default from_option id].
  apply Forall_cons in Hl as [(Hc & _) _]. by rewrite (proj2 (Z.eqb_neq c 0) Hc).
Qed.

Lemma getcmd_end (s : St) : rest s = [] → ∃ s', getcmd s = (None, s').
Proof.
  intros E. unfold getcmd, gets. change (Z.to_nat (100 - 1)) with 99%nat. cbn [gets_loop].
  pose proof (read_rest s 1) as H1. destruct (read s 1) as [bs s']. cbn in H1. rewrite E in H1.
  destruct bs; [|done]. by exists s'.
Qed.

Lemma cd_dir_is_cd l z : typed l → is_cd l ↔ is_Some (cd_dir ((l ++ [10]) ++ 0 :: z)).
Proof.
  intros _. unfold is_cd. assert (∀ c d e y, is_Some (cd_dir (c :: d :: e :: y)) ↔ [c; d; e] = str "cd ") as Hcd.
  { intros c d e y. change (str "cd ") with [ch "c"; ch "d"; ch " "]. unfold cd_dir.
    destruct (Z.eqb_spec c (ch "c")), (Z.eqb_spec d (ch "d")), (Z.eqb_spec e (ch " ")); cbn [andb];
      (split; [intros [? [=]]|intros [= ]]); subst; try done; by eexists. }
  destruct l as [|c [|d [|e l]]]; cbn [app].
  - split; [intros [=]|]. destruct z as [|y z]; [by intros [? [=]]|]. rewrite Hcd. intros [=].
  - split; [intros [=]|]. rewrite Hcd. intros [=].
  - split; [intros [=]|]. rewrite Hcd. intros [=].
  - by rewrite Hcd.
Qed.
End session.

(** ** Witnesses *)

Definition ex_wires : wires := mkWires (File (str "console") O_RDWR) (File (str "console") O_RDWR) (File (str "console") O_RDWR).

Lemma ex_word : word (str "ls").
Proof. apply (bool_decide_eq_true_1 (word (str "ls"))). vm_compute. reflexivity. Qed.

Lemma ex_ls : gline (AExec [str "ls"]) [Word (str "ls")].
Proof.
  apply (toks_grammar (AExec [str "ls"])). split; [constructor; [exact ex_word|constructor]|]. unfold MAXARGS. cbn. lia.
Qed.

Lemma ex_ls_spells w : Forall is_space w → spells [Word (str "ls")] (str "ls" ++ w).
Proof.
  intros Hw. exists [], (str "ls" ++ w). split; [done|]. split; [constructor|]. rewrite <-(app_nil_r w).
  apply (renders_cons (Word (str "ls")) w [] []); [exact ex_word|done|done|constructor].
Qed.

Lemma runcmd_wired_witness :
  ∃ argv t, ∃ w', t = table w' ∧ wired (AExec [str "ls"]) ex_wires argv w'.
Proof.
  set (l := str "ls").
  assert (∃ k, run_line (l ++ 0 :: []) = Exec [l] k) as [k Ek] by (eexists; vm_compute; reflexivity).
  exists [l], (table ex_wires).
  apply (runcmd_wired [Word l] l (AExec [l]) [] ex_wires 0 [(Exec [l] k, table ex_wires)] 0 [l] k (table ex_wires)).
  - rewrite <-(app_nil_r l). apply ex_ls_spells. constructor.
  - exact ex_ls.
  - rewrite Ek. apply rtc_refl.
  - left.
Defined.
