(* ===== verification/ShOrder.v ===== *)
(** * The order in which a shell runs its commands (user/sh.c)

    The processes of a shell form trees: fork() adds a child, exit() and the end
    of a program leave a zombie and hand the children to init, wait() takes a
    zombie child and blocks while there are only live ones.  A job says what
    should run when: in sequence, side by side, in the background.  Every run of
    the processes of a session is one of its job, all of them are finite, and
    one that cannot go on has done everything.  No call fails here; ShRun.v has
    the failures. *)

From Stdlib Require Import ZArith Lia.
From stdpp Require Import base numbers strings option list relations gmap.
From S2P Require Import Prelude Params Machine Cstring Ulib Sh ShRun.

Open Scope Z_scope.

(** ** Processes *)

Inductive pstate :=
| Code (p : prog) (t : fdtable)       (* runs the shell's code *)
| Program (argv : list (list Z))      (* has executed a program *)
| Zombie.

Inductive ptree := Proc (st : pstate) (children : list ptree).

Inductive event :=
| Start (argv : list (list Z)) (t : fdtable)
| End (argv : list (list Z)).

(** The calls that concern the process alone, in a machine that has made [n]
    pipes. *)
Definition own_call (p : prog) (t : fdtable) (n : nat) : option (prog * fdtable * nat) :=
  match p with
  | Open file mode ok f =>
      match fdalloc (File file mode) t with Some (fd, t) => Some (ok fd, t, n) | None => Some (f, t, n) end
  | Close fd k => Some (k, close fd t, n)
  | Dup fd k => Some (k, dup fd t, n)
  | Pipe ok f =>
      match fdalloc (PipeR n) t with
      | Some (r, t1) =>
          match fdalloc (PipeW n) t1 with Some (w, t2) => Some (ok r w, t2, S n) | None => Some (f, t, n) end
      | None => Some (f, t, n)
      end
  | Chdir _ ok _ => Some (ok, t, n)
  | Write _ _ k => Some (k, t, n)
  | _ => None
  end.

(** A step of the process at the root of a tree: the tree after it and the
    processes that init inherits. *)
Inductive rstep (n : nat) : ptree → option event → ptree → list ptree → nat → Prop :=
| p_own p t ks p' t' n' :
    own_call p t n = Some (p', t', n') →
    rstep n (Proc (Code p t) ks) None (Proc (Code p' t') ks) [] n'
| p_fork p q f t ks :
    rstep n (Proc (Code (Fork p q f) t) ks) None (Proc (Code q t) (ks ++ [Proc (Code p t) []])) [] n
| p_wait k t ks1 ks2 :
    rstep n (Proc (Code (Wait k) t) (ks1 ++ Proc Zombie [] :: ks2)) None (Proc (Code k t) (ks1 ++ ks2)) [] n
| p_wait_none k t :
    rstep n (Proc (Code (Wait k) t) []) None (Proc (Code k t) []) [] n
| p_exec argv f t ks :
    rstep n (Proc (Code (Exec argv f) t) ks) (Some (Start argv t)) (Proc (Program argv) ks) [] n
| p_end argv ks :
    rstep n (Proc (Program argv) ks) (Some (End argv)) (Proc Zombie []) ks n
| p_exit status t ks :
    rstep n (Proc (Code (Exit status) t) ks) None (Proc Zombie []) ks n.

(** A step of any process of a tree. *)
Inductive pstep (n : nat) : ptree → option event → ptree → list ptree → nat → Prop :=
| p_root c e c' os n' : rstep n c e c' os n' → pstep n c e c' os n'
| p_child st ks1 c ks2 e c' os n' :
    pstep n c e c' os n' → pstep n (Proc st (ks1 ++ c :: ks2)) e (Proc st (ks1 ++ c' :: ks2)) os n'.

(** The children of init and the number of pipes made. *)
Definition world : Type := list ptree * nat.

Inductive wstep : world → option event → world → Prop :=
| w_step l c r n e c' os n' :
    pstep n c e c' os n' → wstep (l ++ c :: r, n) e (l ++ c' :: r ++ os, n').

(** ** Jobs *)

Inductive job :=
| Done
| Run (argv : list (list Z)) (w : wires)     (* a program to start *)
| Live (argv : list (list Z))                (* a program that runs *)
| Seq (l r : job)                            (* [r] when [l] is done *)
| Both (l r : job)                           (* side by side *)
| Back (j : job)                             (* done without waiting for [j] *)
| WithPipe (f : nat → job).                  (* with a new pipe *)

(** A step of a job: the job after it and the jobs it leaves behind. *)
Inductive jstep (n : nat) : job → option event → job → list job → nat → Prop :=
| j_start argv w : jstep n (Run argv w) (Some (Start argv (table w))) (Live argv) [] n
| j_end argv : jstep n (Live argv) (Some (End argv)) Done [] n
| j_first l r e l' ds n' : jstep n l e l' ds n' → jstep n (Seq l r) e (Seq l' r) ds n'
| j_second r : jstep n (Seq Done r) None r [] n
| j_left l r e l' ds n' : jstep n l e l' ds n' → jstep n (Both l r) e (Both l' r) ds n'
| j_right l r e r' ds n' : jstep n r e r' ds n' → jstep n (Both l r) e (Both l r') ds n'
| j_both : jstep n (Both Done Done) None Done [] n
| j_inner j e j' ds n' : jstep n j e j' ds n' → jstep n (Back j) e (Back j') ds n'
| j_leave j : jstep n (Back j) None Done [j] n
| j_pipe f : jstep n (WithPipe f) None (f n) [] (S n).

Definition jobs : Type := list job * nat.

Inductive jobs_step : jobs → option event → jobs → Prop :=
| js_step l c r n e c' ds n' :
    jstep n c e c' ds n' → jobs_step (l ++ c :: r, n) e (l ++ c' :: r ++ ds, n').

(** Runs: the number of steps and the events. *)
Inductive run {S : Type} (step : S → option event → S → Prop) : nat → S → list event → S → Prop :=
| run_nil s : run step 0 s [] s
| run_cons k s e s1 es s2 :
    step s e s1 → run step k s1 es s2 → run step (Datatypes.S k) s (option_list e ++ es) s2.

(** ** What commands mean *)

Fixpoint job_of (a : ast) (w : wires) : job :=
  match a with
  | AExec [] => Done
  | AExec argv => Run argv w
  | ARedir a k file => job_of a (redirect k file w)
  | APipe l r =>
      WithPipe (λ n, Both (job_of l (mkWires (stdin w) (PipeW n) (stderr w)))
                          (job_of r (mkWires (PipeR n) (stdout w) (stderr w))))
  | AList l r => Seq (job_of l w) (job_of r w)
  | ABack a => Back (job_of a w)
  end.

(** A session: each line when the one before it is done. *)
Fixpoint session_job (os : list (option ast)) (w : wires) : job :=
  match os with
  | [] => Done
  | None :: os => session_job os w
  | Some a :: os => Seq (job_of a w) (session_job os w)
  end.

(** ** The simulation *)

(** What a pipeline's process does once it has forked both sides. *)
Inductive collecting : nat → prog → Prop :=
| coll_wait s : collecting 3 (Wait (Wait (Exit s)))
| coll_close i fd k : collecting i k → collecting (S i) (Close fd k).

(** The tree does the job in [i] steps. *)
Inductive does : nat → ptree → job → Prop :=
| d_own i p t p' t' j :
    (∀ n, own_call p t n = Some (p', t', n)) → does i (Proc (Code p' t') []) j →
    does (S i) (Proc (Code p t) []) j
| d_zombie : does 0 (Proc Zombie []) Done
| d_exit s t : does 1 (Proc (Code (Exit s) t) []) Done
| d_exec argv f w : does 2 (Proc (Code (Exec argv f) (table w)) []) (Run argv w)
| d_live argv : does 1 (Proc (Program argv) []) (Live argv)
| d_back i p s f t j :
    does i (Proc (Code p t) []) j → does (S (S i)) (Proc (Code (Fork p (Exit s) f) t) []) (Back j)
| d_leave i c s t j : does i c j → does (S i) (Proc (Code (Exit s) t) [c]) (Back j)
| d_seq i p i2 q f t j1 j2 :
    does i (Proc (Code p t) []) j1 → does i2 (Proc (Code q t) []) j2 →
    does (S (S (i + i2))) (Proc (Code (Fork p (Wait q) f) t) []) (Seq j1 j2)
| d_wait i c i2 q t j1 j2 :
    does i c j1 → does i2 (Proc (Code q t) []) j2 →
    does (S (i + i2)) (Proc (Code (Wait q) t) [c]) (Seq j1 j2)
| d_nothing i p i2 q f t j2 :
    does i (Proc (Code p t) []) Done → does i2 (Proc (Code q t) []) j2 →
    does (S (S (i + i2))) (Proc (Code (Fork p (Wait q) f) t) []) j2
| d_wait_nothing i c i2 q t j2 :
    does i c Done → does i2 (Proc (Code q t) []) j2 →
    does (S (i + i2)) (Proc (Code (Wait q) t) [c]) j2
| d_pipe i ok f t g r w t2 :
    (∀ n, own_call (Pipe ok f) t n = Some (ok r w, t2 n, S n)) →
    (∀ n, does i (Proc (Code (ok r w) (t2 n)) []) (g n)) →
    does (S i) (Proc (Code (Pipe ok f) t) []) (WithPipe g)
| d_both i1 p i2 q i3 k f f' t j1 j2 :
    does i1 (Proc (Code p t) []) j1 → does i2 (Proc (Code q t) []) j2 → collecting i3 k →
    does (S (S (i1 + i2 + i3))) (Proc (Code (Fork p (Fork q k f') f) t) []) (Both j1 j2)
| d_right i1 c i2 q i3 k f t j1 j2 :
    does i1 c j1 → does i2 (Proc (Code q t) []) j2 → collecting i3 k →
    does (S (i1 + i2 + i3)) (Proc (Code (Fork q k f) t) [c]) (Both j1 j2)
| d_collect i1 c i2 d i3 k t j1 j2 :
    does i1 c j1 → does i2 d j2 → collecting i3 k →
    does (i1 + i2 + i3) (Proc (Code k t) [c; d]) (Both j1 j2)
| d_last_l i c s t j : does i c j → does (i + 2) (Proc (Code (Wait (Exit s)) t) [c]) (Both j Done)
| d_last_r i c s t j : does i c j → does (i + 2) (Proc (Code (Wait (Exit s)) t) [c]) (Both Done j).

Inductive all_do : nat → list ptree → list job → Prop :=
| ad_nil : all_do 0 [] []
| ad_cons i c cs k j js : does i c j → all_do k cs js → all_do (i + k) (c :: cs) (j :: js).

(** The job does the step of the process, or nothing when it is silent. *)
Definition follows (n : nat) (j : job) (e : option event) (j' : job) (ds : list job) (n' : nat) : Prop :=
  (e = None ∧ j' = j ∧ ds = [] ∧ n' = n) ∨ jstep n j e j' ds n'.

Definition simulated (i n : nat) (j : job) (e : option event) (c' : ptree) (os : list ptree) (n' : nat) : Prop :=
  ∃ i' j' k ds, does i' c' j' ∧ all_do k os ds ∧ (i' + k < i)%nat ∧ follows n j e j' ds n'.

Lemma simulated_silent i n j e c' n' i' :
  does i' c' j → (i' < i)%nat → e = None → n' = n → simulated i n j e c' [] n'.
Proof.
  intros Hd Hi -> ->. exists i', j, 0%nat, []. split; [done|]. split; [constructor|]. split; [lia|]. by left.
Qed.

Lemma simulated_step i n j e c' n' i' j' :
  does i' c' j' → (i' < i)%nat → jstep n j e j' [] n' → simulated i n j e c' [] n'.
Proof.
  intros Hd Hi Hs. exists i', j', 0%nat, []. split; [done|]. split; [constructor|]. split; [lia|]. by right.
Qed.

Lemma does_zombie i j ks : does i (Proc Zombie ks) j → i = 0%nat ∧ j = Done ∧ ks = [].
Proof. inversion 1. done. Qed.

Lemma one_child {A} (l : list A) c r d : l ++ c :: r = [d] → l = [] ∧ c = d ∧ r = [].
Proof. destruct l as [|x [|y l]]; intros [=]; subst; try done. Qed.

Lemma two_children {A} (l : list A) c r d e :
  l ++ c :: r = [d; e] → (l = [] ∧ c = d ∧ r = [e]) ∨ (l = [d] ∧ c = e ∧ r = []).
Proof. destruct l as [|x [|y [|z l]]]; intros [=]; subst; try done; auto. Qed.

Ltac children :=
  match goal with
  | H : _ ++ _ :: _ = [_] |- _ => apply one_child in H as (-> & -> & ->)
  | H : _ ++ _ :: _ = [_; _] |- _ => apply two_children in H as [(-> & -> & ->)|(-> & -> & ->)]
  end.

Lemma no_child {A} (l : list A) c r : l ++ c :: r ≠ [].
Proof. by destruct l. Qed.

(** A step of a child, in a place where the job of the child may step. *)
Lemma simulated_child i0 i n (C : job → job) j e c' c2 os n' :
  simulated i n j e c' os n' →
  (∀ e j' ds n', jstep n j e j' ds n' → jstep n (C j) e (C j') ds n') →
  (∀ i' j', does i' c' j' → ∃ x, does x c2 (C j') ∧ (x + i ≤ i0 + i')%nat) →
  simulated i0 n (C j) e c2 os n'.
Proof.
  intros (i' & j' & k & ds & Hd & Ha & Hlt & Hf) HC Hc. destruct (Hc i' j' Hd) as (x & Hx & Hle).
  exists x, (C j'), k, ds. split; [done|]. split; [done|]. split; [lia|].
  destruct Hf as [(-> & -> & -> & ->)|Hs]; [by left|right; by apply HC].
Qed.

(** A process whose job is done is silent. *)
Lemma simulated_done i n e c' os n' :
  simulated i n Done e c' os n' → e = None ∧ os = [] ∧ n' = n ∧ ∃ i', does i' c' Done ∧ (i' < i)%nat.
Proof.
  intros (i' & j' & k & ds & Hd & Ha & Hlt & [(-> & -> & -> & ->)|Hs]); [|inversion Hs].
  inversion Ha; subst. split_and!; try done. exists i'. split; [done|lia].
Qed.

Lemma own_rstep n p t ks p' t' n1 e c' os n' :
  own_call p t n = Some (p', t', n1) → rstep n (Proc (Code p t) ks) e c' os n' →
  e = None ∧ c' = Proc (Code p' t') ks ∧ os = [] ∧ n' = n1.
Proof. intros E Hr. inversion Hr; subst; try discriminate E. rewrite E in *. by simplify_eq. Qed.

(** The ways in which a process without, with one and with two children steps. *)
Lemma pstep_leaf n st e c' os n' : pstep n (Proc st []) e c' os n' → rstep n (Proc st []) e c' os n'.
Proof. intros Hs. inversion Hs; subst; [done|]. exfalso. by eapply no_child. Qed.

Lemma pstep_one n st c e c' os n' :
  pstep n (Proc st [c]) e c' os n' →
  rstep n (Proc st [c]) e c' os n' ∨ ∃ d, pstep n c e d os n' ∧ c' = Proc st [d].
Proof.
  intros Hs. inversion Hs; subst; [by left|right]. children; eauto.
Qed.

Lemma pstep_two n st c1 c2 e c' os n' :
  pstep n (Proc st [c1; c2]) e c' os n' →
  rstep n (Proc st [c1; c2]) e c' os n' ∨
  (∃ d, pstep n c1 e d os n' ∧ c' = Proc st [d; c2]) ∨ ∃ d, pstep n c2 e d os n' ∧ c' = Proc st [c1; d].
Proof.
  intros Hs. inversion Hs; subst; [by left|right]. children; eauto.
Qed.

(** wait() with one child and with two. *)
Lemma wait_one n k t c e c' os n' :
  rstep n (Proc (Code (Wait k) t) [c]) e c' os n' →
  e = None ∧ c = Proc Zombie [] ∧ c' = Proc (Code k t) [] ∧ os = [] ∧ n' = n.
Proof.
  intros Hr. inversion Hr; subst; [done|]. by children.
Qed.

Lemma wait_two n k t c1 c2 e c' os n' :
  rstep n (Proc (Code (Wait k) t) [c1; c2]) e c' os n' →
  e = None ∧ os = [] ∧ n' = n ∧
  (c1 = Proc Zombie [] ∧ c' = Proc (Code k t) [c2] ∨ c2 = Proc Zombie [] ∧ c' = Proc (Code k t) [c1]).
Proof.
  intros Hr. inversion Hr; subst; [done|]. children; tauto.
Qed.

Lemma fork_step n p q f t ks e c' os n' :
  rstep n (Proc (Code (Fork p q f) t) ks) e c' os n' →
  e = None ∧ c' = Proc (Code q t) (ks ++ [Proc (Code p t) []]) ∧ os = [] ∧ n' = n.
Proof. intros Hr. by inversion Hr; subst. Qed.

Lemma exit_step n s t ks e c' os n' :
  rstep n (Proc (Code (Exit s) t) ks) e c' os n' →
  e = None ∧ c' = Proc Zombie [] ∧ os = ks ∧ n' = n.
Proof. intros Hr. by inversion Hr; subst. Qed.

Ltac child_step C IH :=
  eapply (simulated_child _ _ _ C); [by eapply IH|by constructor|];
  intros ? ? ?; eexists; split; [by econstructor|lia].

(** The processes of a pipeline that is being collected. *)
Lemma collect_step i1 c i2 d i3 k t j1 j2 n e c' os n' :
  does i1 c j1 → does i2 d j2 → collecting i3 k →
  rstep n (Proc (Code k t) [c; d]) e c' os n' →
  simulated (i1 + i2 + i3) n (Both j1 j2) e c' os n'.
Proof.
  intros H1 H2 Hk Hr. destruct Hk as [s|i3 fd k Hk].
  - apply wait_two in Hr as (-> & -> & -> & [[-> ->]|[-> ->]]).
    + apply does_zombie in H1 as (-> & -> & _). eapply simulated_silent; [by apply d_last_r|lia|done|done].
    + apply does_zombie in H2 as (-> & -> & _). eapply simulated_silent; [by apply d_last_l|lia|done|done].
  - apply (own_rstep _ _ _ _ k (close fd t) n) in Hr as (-> & -> & -> & ->); [|done].
    eapply simulated_silent; [by apply d_collect|lia|done|done].
Qed.

Theorem does_step i c j n e c' os n' :
  does i c j → pstep n c e c' os n' → simulated i n j e c' os n'.
Proof.
  intros Hd. revert e c' os n'.
  induction Hd as [i p t p' t' j Ho Hd IH| |s t|argv f w|argv|i p s f t j Hd IH|i c s t j Hd IH
    |i p i2 q f t j1 j2 H1 IH1 H2 IH2|i c i2 q t j1 j2 H1 IH1 H2 IH2|i p i2 q f t j2 H1 IH1 H2 IH2
    |i c i2 q t j2 H1 IH1 H2 IH2|i ok f t g r w t2 Ho Hd IH
    |i1 p i2 q i3 k f f' t j1 j2 H1 IH1 H2 IH2 Hk|i1 c i2 q i3 k f t j1 j2 H1 IH1 H2 IH2 Hk
    |i1 c i2 d i3 k t j1 j2 H1 IH1 H2 IH2 Hk|i c s t j Hd IH|i c s t j Hd IH]; intros e c' os n' Hs.
  - apply pstep_leaf, (own_rstep _ _ _ _ _ _ _ _ _ _ _ (Ho n)) in Hs as (-> & -> & -> & ->).
    eapply simulated_silent; [done|lia|done|done].
  - apply pstep_leaf in Hs. inversion Hs.
  - apply pstep_leaf, exit_step in Hs as (-> & -> & -> & ->). eapply simulated_silent; [constructor|lia|done|done].
  - apply pstep_leaf in Hs. inversion Hs; subst; [done|]. eapply simulated_step; [constructor|lia|constructor].
  - apply pstep_leaf in Hs. inversion Hs; subst. eapply simulated_step; [constructor|lia|constructor].
  - apply pstep_leaf, fork_step in Hs as (-> & -> & -> & ->). eapply simulated_silent; [by constructor|lia|done|done].
  - apply pstep_one in Hs as [Hs|(d & Hs & ->)]; [|child_step Back IH].
    apply exit_step in Hs as (-> & -> & -> & ->). exists 0%nat, Done, (i + 0)%nat, [j].
    split; [constructor|]. split; [by repeat constructor|]. split; [lia|]. right. constructor.
  - apply pstep_leaf, fork_step in Hs as (-> & -> & -> & ->). eapply simulated_silent; [by apply d_wait|lia|done|done].
  - apply pstep_one in Hs as [Hs|(d & Hs & ->)]; [|child_step (λ j, Seq j j2) IH1].
    apply wait_one in Hs as (-> & -> & -> & -> & ->). apply does_zombie in H1 as (-> & -> & _).
    eapply simulated_step; [exact H2|lia|constructor].
  - apply pstep_leaf, fork_step in Hs as (-> & -> & -> & ->). eapply simulated_silent; [by apply d_wait_nothing|lia|done|done].
  - apply pstep_one in Hs as [Hs|(d & Hs & ->)].
    + apply wait_one in Hs as (-> & -> & -> & -> & ->). eapply simulated_silent; [exact H2|lia|done|done].
    + apply IH1, simulated_done in Hs as (-> & -> & -> & i' & Hd & Hi).
      eapply simulated_silent; [by eapply d_wait_nothing|lia|done|done].
  - apply pstep_leaf, (own_rstep _ _ _ _ _ _ _ _ _ _ _ (Ho n)) in Hs as (-> & -> & -> & ->).
    eapply simulated_step; [apply Hd|lia|constructor].
  - apply pstep_leaf, fork_step in Hs as (-> & -> & -> & ->). eapply simulated_silent; [by eapply d_right|lia|done|done].
  - apply pstep_one in Hs as [Hs|(d & Hs & ->)]; [|child_step (λ j, Both j j2) IH1].
    apply fork_step in Hs as (-> & -> & -> & ->). eapply simulated_silent; [by eapply d_collect|lia|done|done].
  - apply pstep_two in Hs as [Hs|[(x & Hs & ->)|(x & Hs & ->)]].
    + by eapply collect_step.
    + child_step (λ j, Both j j2) IH1.
    + child_step (λ j, Both j1 j) IH2.
  - apply pstep_one in Hs as [Hs|(d & Hs & ->)]; [|child_step (λ j, Both j Done) IH].
    apply wait_one in Hs as (-> & -> & -> & -> & ->). apply does_zombie in Hd as (-> & -> & _).
    eapply simulated_step; [apply d_exit|lia|constructor].
  - apply pstep_one in Hs as [Hs|(d & Hs & ->)]; [|child_step (λ j, Both Done j) IH].
    apply wait_one in Hs as (-> & -> & -> & -> & ->). apply does_zombie in Hd as (-> & -> & _).
    eapply simulated_step; [apply d_exit|lia|constructor].
Qed.

(** A tree can go on until its process is a zombie and its job done. *)
Lemma does_progress i c j n :
  does i c j → (c = Proc Zombie [] ∧ j = Done) ∨ ∃ e c' os n', pstep n c e c' os n'.
Proof.
  assert (∀ c e c' os n', rstep n c e c' os n' → ∃ e c' os n', pstep n c e c' os n') as Hroot
    by (intros; do 4 eexists; by apply p_root).
  assert (∀ st ks1 c ks2, (∃ e c' os n', pstep n c e c' os n') →
    ∃ e c' os n', pstep n (Proc st (ks1 ++ c :: ks2)) e c' os n') as Hchild
    by (intros st ks1 c' ks2 (e & d & os & n' & Hc); do 4 eexists; by apply p_child).
  intros Hd. induction Hd; try (by left); right; try (by eapply Hroot; econstructor).
  - destruct IHHd1 as [[-> _]|Hc]; [|by apply (Hchild _ [] c [])]. eapply Hroot, (p_wait _ _ _ [] []).
  - destruct IHHd1 as [[-> _]|Hc]; [|by apply (Hchild _ [] c [])]. eapply Hroot, (p_wait _ _ _ [] []).
  - destruct H as [s|i3 fd k Hk]; [|by eapply Hroot, p_own].
    destruct IHHd1 as [[-> _]|Hc]; [|by apply (Hchild _ [] c [d])]. eapply Hroot, (p_wait _ _ _ [] [d]).
  - destruct IHHd as [[-> _]|Hc]; [|by apply (Hchild _ [] c [])]. eapply Hroot, (p_wait _ _ _ [] []).
  - destruct IHHd as [[-> _]|Hc]; [|by apply (Hchild _ [] c [])]. eapply Hroot, (p_wait _ _ _ [] []).
Qed.

Lemma all_do_app k1 l1 j1 k2 l2 j2 :
  all_do k1 l1 j1 → all_do k2 l2 j2 → all_do (k1 + k2) (l1 ++ l2) (j1 ++ j2).
Proof. intros H1 H2. induction H1; [done|]. cbn. rewrite <-Nat.add_assoc. by constructor. Qed.

Lemma all_do_split k l c r js :
  all_do k (l ++ c :: r) js →
  ∃ k1 i k2 l' j r', js = l' ++ j :: r' ∧ k = (k1 + i + k2)%nat ∧ all_do k1 l l' ∧ does i c j ∧ all_do k2 r r'.
Proof.
  revert k js. induction l as [|x l IH]; intros k js H; inversion H as [|i ? ? k2 j js' Hd Ha]; subst.
  - exists 0%nat, i, k2, [], j, js'. split_and!; try done. constructor.
  - destruct (IH _ _ Ha) as (k1 & i' & k3 & l' & j' & r' & -> & -> & H1 & H2 & H3).
    exists (i + k1)%nat, i', k3, (j :: l'), j', r'. split_and!; try done; [lia|by constructor].
Qed.

(** Worlds are simulated by lists of jobs. *)
Lemma world_step k ps n js e ps' n' :
  all_do k ps js → wstep (ps, n) e (ps', n') →
  ∃ k' js', all_do k' ps' js' ∧ (k' < k)%nat ∧
    ((e = None ∧ js' = js ∧ n' = n) ∨ jobs_step (js, n) e (js', n')).
Proof.
  intros Ha Hs. inversion Hs as [l c r n0 e0 c' os n1 Hc]; subst.
  destruct (all_do_split _ _ _ _ _ Ha) as (k1 & i & k2 & l' & j & r' & -> & -> & H1 & H2 & H3).
  destruct (does_step _ _ _ _ _ _ _ _ H2 Hc) as (i' & j' & k3 & ds & Hd & Ho & Hlt & Hf).
  exists (k1 + (i' + (k2 + k3)))%nat, (l' ++ j' :: r' ++ ds).
  split; [apply all_do_app; [done|]; constructor; [done|by apply all_do_app]|]. split; [lia|].
  destruct Hf as [(-> & -> & -> & ->)|Hj]; [left; by rewrite app_nil_r|right; by constructor].
Qed.

Lemma world_run k0 k w es w' js :
  all_do k0 (w.1) js → run wstep k w es w' →
  ∃ k1 k' js', all_do k' (w'.1) js' ∧ (k + k' ≤ k0)%nat ∧ run jobs_step k1 (js, w.2) es (js', w'.2).
Proof.
  intros Ha Hr. revert k0 js Ha. induction Hr as [w|k [ps n] e [ps1 n1] es w' Hs _ IH]; intros k0 js Ha.
  { exists 0%nat, k0, js. split; [done|]. split; [lia|constructor]. }
  destruct (world_step _ _ _ _ _ _ _ Ha Hs) as (k2 & js1 & Ha1 & Hlt & Hj).
  destruct (IH k2 js1 Ha1) as (k1 & k' & js' & Ha' & Hle & Hrun).
  destruct Hj as [(-> & -> & ->)|Hj].
  - exists k1, k', js'. split; [done|]. split; [lia|done].
  - exists (S k1), k', js'. split; [done|]. split; [lia|]. by eapply run_cons.
Qed.

Lemma world_progress k ps n js :
  all_do k ps js → (Forall (λ c, c = Proc Zombie []) ps ∧ Forall (λ j, j = Done) js) ∨ ∃ e w', wstep (ps, n) e w'.
Proof.
  intros Ha. induction Ha as [|i c cs k j js Hd Ha IH]; [left; by split|].
  destruct (does_progress i c j n Hd) as [[-> ->]|(e & c' & os & n' & Hs)].
  - destruct IH as [[H1 H2]|(e & w' & Hs)]; [left; split; by constructor|right].
    inversion Hs as [l x r n0 e0 x' os n1 Hx]; subst. do 2 eexists. by apply (w_step (Proc Zombie [] :: l)).
  - right. do 2 eexists. by apply (w_step []).
Qed.

(** ** The shell *)

Lemma runcmd_does m c a :
  reads m c a → ∃ i, ∀ w, does i (Proc (Code (runcmd m c) (table w)) []) (job_of a w).
Proof.
  revert a. induction c as [argv|c IH q eq mode fd|c IHc d IHd|c IHc d IHd|c IH]; intros a Hr;
    destruct a as [args|a k file|a b|a b|a]; try done; cbn [reads runcmd] in *.
  - assert ((λ p, cstr (drop p.1 m)) <$> argv = args) as ->.
    { induction Hr as [|p x argv args Hp _ IH]; [done|]. cbn. by rewrite Hp, IH. }
    destruct args as [|x args]; [exists 1%nat|exists 2%nat]; intros w; constructor.
  - destruct Hr as (Hc & Hf & -> & ->). destruct (IH a Hc) as [i Hi]. exists (S (S i)). intros w.
    eapply d_own; [done|]. eapply d_own; [|apply Hi]. intros n. cbn [own_call]. unfold string_at in Hf.
    by rewrite Hf, redirect_table.
  - destruct Hr as [Hc Hd]. destruct (IHc a Hc) as [i1 H1], (IHd b Hd) as [i2 H2]. eexists. intros w.
    cbn [job_of]. eapply (d_pipe _ _ _ _ _ 3 4 (λ n, piped n w)); [done|]. intros n. cbn beta.
    eapply d_both.
    + do 4 (eapply d_own; [done|]). cbn beta. rewrite left_table. apply H1.
    + do 4 (eapply d_own; [done|]). cbn beta. rewrite right_table. apply H2.
    + do 2 constructor. constructor.
  - destruct Hr as [Hc Hd]. destruct (IHc a Hc) as [i1 H1], (IHd b Hd) as [i2 H2]. eexists. intros w.
    by eapply d_seq.
  - destruct (IH a Hr) as [i Hi]. eexists. intros w. by eapply d_back.
Qed.

Section session.
Context {St : Type} `{!Stream St}.

Lemma main_loop_does ls os (s : St) fuel w :
  Forall2 means ls os → Forall typed ls → rest s = ls ≫= (λ l, l ++ [10]) → (length (rest s) < fuel)%nat →
  ∃ i, does i (Proc (Code (main_loop fuel s) (table w)) []) (session_job os w).
Proof.
  intros Hm. revert s fuel. induction Hm as [|l o ls os Hl _ IH]; intros s fuel Ht E Hf;
    (destruct fuel as [|fuel]; [lia|]); cbn [main_loop].
  { destruct (getcmd_end s E) as (s' & ->). eexists. eapply d_own; [done|]. apply d_exit. }
  apply Forall_cons in Ht as [Htl Ht]. cbn in E. rewrite <-app_assoc in E. cbn [app] in E.
  destruct (getcmd_line s l _ E Htl) as (s' & z & -> & Es').
  assert (length (rest s') < fuel)%nat as Hf' by (rewrite Es'; rewrite E in Hf; rewrite length_app in Hf; cbn in Hf; lia).
  destruct (IH s' fuel Ht Es' Hf') as [i Hi]. pose proof (cd_dir_is_cd l z Htl) as Hcd.
  destruct Hl as [l Hc|l ts a Hc Hs Hg|l Hc Hno].
  - destruct (proj1 Hcd Hc) as [dir ->]. eexists. do 2 (eapply d_own; [done|]). exact Hi.
  - destruct (cd_dir _) as [dir|]; [destruct Hc; by apply Hcd; eexists|].
    destruct (parsecmd_complete ts (l ++ [10]) z a Hs Hg) as (c & m' & Ep & Hr).
    destruct (runcmd_does m' c a Hr) as [i1 H1]. eexists. eapply d_own; [done|].
    unfold run_line. rewrite Ep. by eapply d_seq.
  - destruct (cd_dir _) as [dir|]; [destruct Hc; by apply Hcd; eexists|].
    assert (Forall (λ c, c ≠ 0) (l ++ [10])) as Hnz.
    { apply Forall_app. split; [|by repeat constructor]. eapply Forall_impl; [apply Htl|]. by intros c [? _]. }
    destruct (lex_total _ Hnz) as [ts Hts].
    destruct (parsecmd_sound ts (l ++ [10]) z Hts) as [[msg Ep]|(a & c & m' & Hg & _)]; [|by destruct (Hno ts a Hts)].
    eexists. eapply d_own; [done|]. unfold run_line. rewrite Ep.
    eapply d_nothing; [|exact Hi]. eapply d_own; [done|]. apply d_exit.
Qed.

Definition console : obj := File (str "console") O_RDWR.

(** The shell, started without descriptors. *)
Definition booted_shell (s : St) : world := ([Proc (Code (main s) (replicate NOFILE None)) []], 0%nat).

(** C28: the shell runs the lines typed to it in their order.  When no call
    fails, whatever the interleaving of its processes: each program of a line
    starts with the descriptors its command gives it, on the console; the right
    of a list starts when the left is done, the sides of a pipeline run side by
    side on one new pipe, a background command is not waited for, and a line
    starts when the line before it is done; a line outside the grammar starts
    nothing and does not end the shell.  The number of steps is bounded, and a
    state without a next step is one in which every job is done and no process
    is left but zombies. *)
Theorem main_correct ls os (s : St) :
  Forall2 means ls os → Forall typed ls → rest s = ls ≫= (λ l, l ++ [10]) →
  ∃ bound, ∀ k es ps n, run wstep k (booted_shell s) es (ps, n) →
    (k ≤ bound)%nat ∧
    ∃ k' js, run jobs_step k' ([session_job os (mkWires console console console)], 0%nat) es (js, n) ∧
      ((∃ e w, wstep (ps, n) e w) ∨
       Forall (λ c, c = Proc Zombie []) ps ∧ Forall (λ j, j = Done) js).
Proof.
  intros Hm Ht E.
  destruct (main_loop_does ls os s (S (length (rest s))) (mkWires console console console) Hm Ht E) as [i Hi]; [lia|].
  assert (∃ i, does i (Proc (Code (main s) (replicate NOFILE None)) []) (session_job os (mkWires console console console)))
    as [i0 Hi0].
  { eexists. unfold main. cbn [open_console]. do 3 (eapply d_own; [done|]). do 2 (eapply d_own; [done|]). exact Hi. }
  exists (i0 + 0)%nat. intros k es ps n Hrun.
  destruct (world_run _ _ (booted_shell s) _ _ _ (ad_cons _ _ _ _ _ _ Hi0 ad_nil) Hrun) as (k1 & k' & js' & Ha & Hle & Hj).
  split; [lia|]. exists k1, js'. split; [exact Hj|]. destruct (world_progress _ _ n _ Ha) as [?|?]; tauto.
Qed.
End session.

(** ** Witness *)

Definition ex_input : pieces := (str "cd /" ++ [10] ++ str "ls" ++ [10], []).

(** The session with this input up to the end of ls. *)
Lemma ex_run : ∃ k ps n,
  run wstep k (booted_shell ex_input) [Start [str "ls"] (table ex_wires); End [str "ls"]] (ps, n).
Proof.
  assert (∀ c ps n e c' os n' es w k, pstep n c e c' os n' → run wstep k (c' :: ps ++ os, n') es w →
    run wstep (S k) (c :: ps, n) (option_list e ++ es) w) as Hstep.
  { intros c ps n e c' os n' es w k Hc Hr. eapply run_cons; [|exact Hr]. by apply (w_step []). }
  do 3 eexists. unfold booted_shell.
  do 8 (eapply (Hstep _ _ _ None); [apply p_root, p_own; reflexivity|]).
  eapply (Hstep _ _ _ None); [apply p_root, p_fork|].
  eapply (Hstep _ _ _ (Some (Start [str "ls"] (table ex_wires)))).
  { apply (p_child _ _ []), p_root.
    match goal with |- context [run_line ?b] =>
      assert (∃ f, run_line b = Exec [str "ls"] f) as [f ->] by (eexists; vm_compute; reflexivity) end.
    apply (p_exec _ _ f (table ex_wires)). }
  eapply (Hstep _ _ _ (Some (End [str "ls"]))).
  { apply (p_child _ _ []), p_root. apply p_end. }
  apply run_nil.
Qed.

Lemma main_correct_witness :
  ∃ k ps n, run wstep k (booted_shell ex_input) [Start [str "ls"] (table ex_wires); End [str "ls"]] (ps, n) ∧
  ∃ k' js, run jobs_step k' ([session_job [None; Some (AExec [str "ls"])] ex_wires], 0%nat)
      [Start [str "ls"] (table ex_wires); End [str "ls"]] (js, n) ∧
    ((∃ e w, wstep (ps, n) e w) ∨ Forall (λ c, c = Proc Zombie []) ps ∧ Forall (λ j, j = Done) js).
Proof.
  destruct ex_run as (k & ps & n & Hrun).
  destruct (main_correct [str "cd /"; str "ls"] [None; Some (AExec [str "ls"])] ex_input) as [bound Hb].
  - constructor; [apply means_cd; reflexivity|]. constructor; [|constructor].
    apply (means_run _ [Word (str "ls")]); [intros [=]| |exact ex_ls].
    apply ex_ls_spells. apply (bool_decide_eq_true_1 (Forall is_space [10])). vm_compute. reflexivity.
  - assert (∀ l, bool_decide (typed l) = true → typed l) as Ht by (intros l Hl; by apply bool_decide_eq_true_1 in Hl).
    constructor; [|constructor; [|constructor]]; apply Ht; vm_compute; reflexivity.
  - reflexivity.
  - exists k, ps, n. split; [exact Hrun|]. exact (proj2 (Hb _ _ _ _ Hrun)).
Defined.
